(* ===== verification/_CoqProject ===== *)
-Q . S2P
Prelude.v
Ids.v
Canonical.v
Model.v
Objective.v
Domain.v
DefinitionCheck.v
Plan.v
Fixture.v
Codec.v
Crc32.v
Journal.v
Store.v
StoreCorrect.v
Reconcile.v
Transition.v
Search.v
SearchCorrect.v
StaticProofs.v
Planner.v
Validate.v
ValidateCorrect.v
Certificates.v
ValidateSound.v
Protocol.v
ProtocolCorrect.v
Session.v
Service.v
ServiceCorrect.v
Server.v
Client.v
ServerCorrect.v
ClientCorrect.v
Reference.v
ReferenceCorrect.v
ReferenceAgrees.v
Render.v
Cli.v
CliCorrect.v
Restart.v
EndToEnd.v
Transport.v
Threads.v
Stopping.v
ServerTool.v
Examples.v
