(* ===== verification/Prelude.v ===== *)
(** * Network Recovery Planner: a verification development

    The program under [src/] plans the recovery of a damaged network. A request
    carries the definition of a fabric (nodes, links, services, resources,
    actions, goals), evidence about its present state, the authority under which
    the caller acts and a policy. The planner answers with an optimal sequence of
    actions, with a proof that none exists, or with the reason why it will not
    answer; an independent validator re-checks both; a durable store records them;
    a service runs many requests at once; a framed protocol carries them over a
    network. This development translates that program into executable functions
    and proves what it relies on. This file is the shared prelude; its header
    describes the whole.

    ** How the parts correspond to the source

    Data and its canonical form ([src/include/nrp/*.hpp], [src/src/ids.cpp],
    [canonical.cpp], [model.cpp], [objective.cpp], [domain.cpp], [plan.cpp],
    [codec.cpp]):
    - [Ids]: strong identities as their 64-bit value, subjects, digests, statuses.
    - [Canonical]: [CanonicalWriter] as byte lists, [CanonicalReader] as the bytes
      not yet read and the sticky error, checked arithmetic.
    - [Model]: authority vectors, evidence, fences, the bounded explanation log;
      each enumeration in a Module of its own.
    - [Objective]: the eight-component objective and the order on scored plans.
    - [Domain], [DefinitionCheck]: the fabric definition, state, policy and
      request, their canonical order and encodings; [validate_definition].
    - [Plan]: plans, certificates, decisions, [encode_plan] and the digest.
    - [Codec]: every decoder of [codec.cpp].
    - [Render]: the human readable forms of plans, results, reports and logs.
    - [Fixture]: the small fabric on which witnesses evaluate definitions.

    The planner ([src/src/planner.cpp]):
    - [Reconcile]: the indexer, the [Reconciler] and the initial state.
    - [Transition]: the compiled definition and one step, [Search::apply].
    - [Search], [SearchCorrect]: [Search::run] over the arena, the visited map and
      the frontier, [Search::replay], and their correctness.
    - [StaticProofs]: dependency cycles and structural goal bounds.
    - [Planner]: [Planner::plan], which composes all of these.

    The validator ([src/src/validate.cpp]): [Validate] is its own simulation,
    [ValidateCorrect] and [Certificates] show that it accepts what the planner
    issues, [ValidateSound] that what it accepts is an execution of the planner's.

    The reference solver ([src/src/reference_solver.cpp]): [Reference] is the
    exhaustive enumeration with its own state and evidence handling,
    [ReferenceCorrect] shows that it is exact, [ReferenceAgrees] that it and the
    planner give one answer.

    Durability ([src/src/crc32.cpp], [src/src/persistence.cpp]): [Crc32] the
    checksum, [Journal] the record format and the scan, [Store] the operations of
    [DurableStore] over the bytes of its two files, [StoreCorrect] what they keep.

    The service and the network ([src/src/protocol.cpp],
    [src/src/runtime_service.cpp], [runtime_server.cpp], [runtime_client.cpp]):
    [Protocol] and [ProtocolCorrect] the frames and payload codecs, [Session] the
    session table, [Service] and [ServiceCorrect] the queue, the workers, the
    durable records and shutdown, [Server] and [ServerCorrect] the connections,
    [Client] and [ClientCorrect] the client and its conversation with a server.

    [Transport] is the socket layer under both - the owning socket, its send,
    receive and connect loops, the listening socket - over the class [Kernel] of
    the system calls and their laws [KernelLaws]. [Restart] is what a start on the
    files of a killed service promises, [EndToEnd] the composition from the client
    to the disk on the schedule that serves one call at a time. [Threads] is the
    server process with every thread on its own ([serve_step], [accept_step],
    [socket_step], [closing_step], the workers, and the peers), [Stopping] the shape
    of its states and why it ends.

    The programs: [Cli] and [CliCorrect] are [src/tools/nrp_cli.cpp], the scenarios
    and the commands and what a run of them reports; [ServerTool] is
    [src/tools/nrp_server.cpp], whose [main] starts the threads of [Threads] and
    returns when they have ended; [Examples] the three programs of [src/examples],
    with their output computed from the model and the README's work counters
    reproduced.

    ** How they interact

    [plan] calls [check_definition], reconciles evidence into an initial state,
    runs the static proofs and then the search; its steps are checked again by
    [replay]. A worker of the service calls [plan] between two [append]s to the
    store and hands out an answer only after the second. The server calls the
    service through the class [Backend] of [Server], so that the theorems about
    connections hold for every service, and [Server] gives the planning service
    as an instance. The client is a caller of the server's bytes.

    The server is composed twice. In [EndToEnd.deploy_step] a call of the server
    into the service runs to its end before anything else happens on the network;
    this is the schedule on which a remote call can be compared with a local one.
    In [Threads.run_step] the threads interleave freely, as in the process: a
    connection thread submits its call ([Service.submit]), waits, and goes on when
    the answer is there, while other connections, the workers, the accept loop and
    the main thread in [shutdown] move. [dispatch_serves] ties the two together.
    The program ([ServerTool.program_step]) runs the latter. All failures travel as
    a [Status] in the [Err] of a [result].

    ** Conventions

    A machine integer is a [Z] with its wrap-around written out ([u8], [u32],
    [u64], [i64] below); a byte is a [Z] below 256 and a buffer or file a list of
    them; a vector is a list, indexed with [!!!] where the source indexes without
    a check (every such index is proved in range where a theorem needs the value)
    and with [!!] where it tests; a [std::map] is a [gmap] or an association list
    sorted as the map is. A function that returns early is a [result]. The calls
    of the operating system that can fail take their outcome from an [Io]; the
    threads are interleaved by inductive step relations whose steps are the critical
    sections and blocking calls of the source.

    ** Fuel

    Loops that the source runs without a static bound take fuel, and a theorem
    shows that it is enough on every input:
    - [search_loop]: [max_generated_states + 2], since every iteration takes a node
      off the frontier and at most that many are ever put on it
      ([SearchCorrect.search_terminates]);
    - [dfs_loop]: the number of vertices and edges, since every iteration uses up
      one of them ([StaticProofs.find_dependency_cycle_exact]);
    - [scan_loop]: one more than the bytes, since a record has a positive length
      ([Journal.scan_records_total]);
    - [pump]: two more than the bytes buffered, since a frame has a header
      ([ServerCorrect.receive_total]);
    - [send_rest] and [recv_rest]: the bytes still to be moved, since every call that
      succeeds moves at least one ([Transport.sockets_carry_frames]);
    - [walk] along parents in the arena: the index of the node, since a parent
      precedes its child ([SearchCorrect.walk_fuel]).
    [descend] of the reference solver recurses on the depth bound, at most 12.
    [Planner.plan_total] puts the planner's loops together: [plan] never returns
    [None].

    ** What the theorems show

    - The search is sound, optimal and complete within its step bound
      ([search_correct]); [plan] therefore returns optimal executions of admitted
      steps ([plan_found_sound]), its certificates prove what they are read as
      ([certificate_sound]), every decision is exact ([decision_exact]) and the
      answer does not depend on the order of containers whose keys are distinct
      ([plan_order_independent]). Executions keep every bound of the definition
      ([exec_safe]) and only act on what is declared, known and as required
      ([apply_fails_closed], whose [precondition_met] is stated without the code of
      the test); what is known at the start is known by admissible evidence
      ([materialise_state_sound]).
    - The three independent implementations agree on requests whose evidence does
      not contradict itself, whose actions use no resource twice and whose numbers
      do not overflow (each theorem lists its conditions, and lemmas show why they
      are needed): [planned_plans_validate], [planned_certificates_validate],
      [validated_plans_execute], [oracle_agrees]. The reference solver by itself is
      exact ([reference_exact]) and completes within its bounds
      ([reference_completes]).
    - Encodings are canonical: each decoder accepts exactly the encodings of the
      values within its limits ([decode_plan_request_iff], [decode_frame_iff],
      [payloads_lossless]).
    - What the store acknowledged survives crashes, as long as the file system does
      what it is told and the files stay within their bounds
      ([records_never_lost], [reopen_after_crash], [journal_recovers]); damage is
      noticed ([damaged_payload_refused]).
    - Answers are durable before they are published ([answers_are_durable]), and the
      next open recovers them unless the table is too full for another incarnation
      ([published_plans_survive], by way of [recovers]); shutdown answers everyone
      ([shutdown_answers_everyone]).
    - The session table is a bounded map ([registry_refines]); the server serves
      the frames of a stream however it is cut while its buffer is not overrun
      ([stream_is_frames], [receive_total]), sessions follow connections
      ([sessions_follow_connections]), and a remote call is a local call
      ([remote_calls_are_local]).
    - Below the frames, the socket loops carry the byte streams whatever a system
      call moves ([sockets_carry_frames]) and lose no handle ([no_handle_lost]).
    - The parts fit together. Whatever the threads and the clients do, a connection
      is sent its acknowledgement and then one answer per frame, in order, each
      justified by the very frame it answers and on record if it carries a plan or a
      proof ([replies_are_durable]). A plan read by a remote client is the planner's
      and stays on record ([remote_plans_stand]), and a restart fences what came
      before ([restart_fences_incarnation]). Once told to stop, the server program
      always can move and cannot move for ever, and when [main] returns every thread
      has ended, every handle is closed and every call answered
      ([server_program_stops_clean], with the measure [remaining] and
      [stop_progress] of [Stopping]).
    - The tool reports what the library promises: no run of it contradicts itself
      ([cli_reports_agree]), its generator only makes requests the planner admits
      ([random_instances_admitted]), its store command accumulates
      ([cli_store_accumulates]), and every run ends ([CliCorrect.cli_answers]). The
      examples print what the README shows ([consumer_output],
      [corridor_measurements]).
    - The remaining theorems and several lemmas state where the program departs
      from what its comments or documents say: [overlapping_holds_wrap],
      [validator_accepts_false_certificate], [acknowledged_writes_block_reopen],
      [foreign_session_accepted], [conflict_forgotten],
      [stale_fact_blinds_oracle], [restarts_exhaust_store] and others.

    ** What is not modelled

    - The system calls under the sockets: [Kernel] names them, [KernelLaws] says what
      is used of them. The Windows branches of the socket layer are left out, and so
      is SIGPIPE, which a [send] without [MSG_NOSIGNAL] to a closed peer may raise on
      POSIX systems: a [send] of the model returns. In [Server], [Client] and
      [Threads] what a peer sends is an argument and what it has not read is part of
      the connection; a frame is sent whole or the connection takes no more bytes
      ([cut_off]). A closed listener wakes [accept]; that the number of its handle
      may be given to another socket meanwhile is not modelled.
    - The store's files are their bytes; the stdio buffer between [fwrite] and
      [fflush] is folded into the outcome of the call. The tests of the path itself
      are [Store.check_path]; the service and the tool are modelled from where they
      have passed.
    - Work counters of the search are exact integers; the source counts in 64
      bits, which the policy's bounds never fill.
    - Mutexes and condition variables are the granularity of the step relations:
      what a thread does between two blocking calls or locks of shared data is one
      step. Counters that other threads read (statistics) move with that step.
    - The signed overflow of SERVICE_REACHABLE_DELTA beyond the 64-bit range, which
      the source leaves undefined, wraps in the model.
    - The waiting of the server program (sleeping, reading its input to the end) is
      the run of its threads.
    - The test suites under [src/tests], which only call what is modelled here.

    This file holds the error type, integers at their width, lexicographic order,
    stable sorting, duplicate removal and ordered maps, with their lemmas. *)
From stdpp Require Export base numbers list gmap strings sorting pretty.
From Stdlib Require Export ZArith Lia.

Declare Scope nrp_scope.
Delimit Scope nrp_scope with nrp.
Open Scope Z_scope.
Open Scope nrp_scope.

Create HintDb nrp.
Create Rewrite HintDb nrp.

(** ** Fallible code

    A function that returns early is a value of [result]: [Ok] carries the
    value of normal control flow, [Err] what the early [return] hands back. *)
Inductive result (E A : Type) : Type :=
| Ok (a : A)
| Err (e : E).
Arguments Ok {E A} a.
Arguments Err {E A} e.

Definition rbind {E A B} (m : result E A) (k : A -> result E B) : result E B :=
  match m with
  | Ok a => k a
  | Err e => Err e
  end.

Notation "'let*' x ':=' m 'in' k" := (rbind m (fun x => k))
  (at level 10, x pattern, m at level 100, k at level 200) : nrp_scope.

(** [require b e]: the guard [if (!b) return e;]. *)
Definition require {E} (b : bool) (e : E) : result E unit :=
  if b then Ok tt else Err e.

(** A loop over a list whose body may return early. *)
Fixpoint foldM {E S A} (f : S -> A -> result E S) (s : S) (l : list A) : result E S :=
  match l with
  | [] => Ok s
  | x :: l' => let* s' := f s x in foldM f s' l'
  end.

(** A checking loop: [for (x : l) if (!ok(x)) return error]. *)
Fixpoint checkM {E A} (f : A -> result E unit) (l : list A) : result E unit :=
  match l with
  | [] => Ok tt
  | x :: l' => let* _ := f x in checkM f l'
  end.

Definition is_ok {E A} (r : result E A) : bool :=
  match r with Ok _ => true | Err _ => false end.

(** ** Machine integers

    Every C++ integer is a [Z]; the conversions below are the truncating casts,
    the predicates say that a value fits its width. *)
Definition u8 (z : Z) : Z := z mod 2 ^ 8.
Definition u16 (z : Z) : Z := z mod 2 ^ 16.
Definition u32 (z : Z) : Z := z mod 2 ^ 32.
Definition u64 (z : Z) : Z := Z.land z 0xFFFFFFFFFFFFFFFF.
Definition UINT32_MAX : Z := 2 ^ 32 - 1.
Definition UINT64_MAX : Z := 2 ^ 64 - 1.

(** Two's complement reading of the low 64 bits. *)
Definition i64 (z : Z) : Z :=
  let w := u64 z in if w <? 2 ^ 63 then w else w - 2 ^ 64.

Definition in_u8 (z : Z) : Prop := 0 <= z < 2 ^ 8.
Definition in_u16 (z : Z) : Prop := 0 <= z < 2 ^ 16.
Definition in_u32 (z : Z) : Prop := 0 <= z < 2 ^ 32.
Definition in_u64 (z : Z) : Prop := 0 <= z < 2 ^ 64.
Definition in_i64 (z : Z) : Prop := - 2 ^ 63 <= z < 2 ^ 63.

Arguments u8 _ : simpl never.
Arguments u16 _ : simpl never.
Arguments u32 _ : simpl never.
Arguments u64 _ : simpl never.
Arguments i64 _ : simpl never.

(** Number of elements of a container, as the integer [size()] returns. *)
Definition sizez {A} (l : list A) : Z := Z.of_nat (length l).

(** [bool] of C++ as the byte it is stored in. *)
Definition b2z (b : bool) : Z := if b then 1 else 0.

(** ** Lexicographic order

    Every [operator<] of the program compares a fixed sequence of integer
    fields in turn; it is [lex_lt] on that sequence. *)
Fixpoint lex_lt (a b : list Z) : bool :=
  match a, b with
  | _, [] => false
  | [], _ :: _ => true
  | x :: a', y :: b' =>
      if x <? y then true else if y <? x then false else lex_lt a' b'
  end.

Definition lt_on {A} (key : A -> list Z) (a b : A) : bool := lex_lt (key a) (key b).

(** What [std::sort] and [std::set] require of a comparison. *)
Class StrictWeakOrder {A} (ltb : A -> A -> bool) : Prop := {
  swo_asym : forall x y, ltb x y = true -> ltb y x = false;
  swo_ntrans : forall x y z, ltb y x = false -> ltb z y = false -> ltb z x = false
}.

(** ** [std::sort], [std::unique]

    The sort is a stable insertion sort; [std::sort] may order elements that the
    comparison does not separate differently, and every theorem below that
    depends on the order assumes they are separated. *)
Section Sort.
Context {A : Type} (ltb : A -> A -> bool).

Fixpoint insert_by (x : A) (l : list A) : list A :=
  match l with
  | [] => [x]
  | y :: l' => if ltb y x then y :: insert_by x l' else x :: l
  end.

Fixpoint sort_by (l : list A) : list A :=
  match l with
  | [] => []
  | x :: l' => insert_by x (sort_by l')
  end.

Definition le_by (a b : A) : Prop := ltb b a = false.
End Sort.

Fixpoint unique_adj {A} `{EqDecision A} (l : list A) : list A :=
  match l with
  | [] => []
  | x :: l' =>
      match l' with
      | y :: _ => if decide (x = y) then unique_adj l' else x :: unique_adj l'
      | [] => [x]
      end
  end.

(** [std::find_if]: position of the first element that satisfies [p]. *)
Fixpoint find_index {A} (p : A -> bool) (l : list A) : option nat :=
  match l with
  | [] => None
  | x :: l' => if p x then Some 0%nat else S <$> find_index p l'
  end.

(** [std::lower_bound] on a sorted vector of identities, followed by the
    equality test: the index of [id], or none ([kNpos]). *)
Definition index_of (id : Z) (ids : list Z) : option nat :=
  match find_index (fun x => negb (x <? id)) ids with
  | Some i => if ids !!! i =? id then Some i else None
  | None => None
  end.

(** ** [std::map] iterated in key order: a list of bindings sorted by key. *)
Section OrderedMap.
Context {K V : Type} (key : K -> list Z).

Fixpoint om_find (k : K) (m : list (K * V)) : option V :=
  match m with
  | [] => None
  | (k', v) :: m' => if decide (key k = key k') then Some v else om_find k m'
  end.

Fixpoint om_set (k : K) (v : V) (m : list (K * V)) : list (K * V) :=
  match m with
  | [] => [(k, v)]
  | (k', v') :: m' =>
      if lex_lt (key k') (key k) then (k', v') :: om_set k v m'
      else if lex_lt (key k) (key k') then (k, v) :: m
      else (k, v) :: m'
  end.
End OrderedMap.

(** ** Lemmas: fallible code and loops *)

Lemma rbind_ok {E A B} (m : result E A) (k : A -> result E B) b :
  rbind m k = Ok b <-> exists a, m = Ok a /\ k a = Ok b.
Proof.
  destruct m; simpl; split; [eauto| |done|].
  - intros (? & [= ->] & ?); done.
  - intros (? & [=] & ?).
Qed.

Lemma rbind_err {E A B} (m : result E A) (k : A -> result E B) e :
  rbind m k = Err e <-> m = Err e \/ exists a, m = Ok a /\ k a = Err e.
Proof.
  destruct m; simpl; split; [eauto| |intros [= ->]; auto|].
  - intros [[=]|(? & [= ->] & ?)]; done.
  - intros [[= ->]|(? & [=] & ?)]; done.
Qed.

Lemma require_ok {E} (b : bool) (e : E) u : require b e = Ok u <-> b = true.
Proof. unfold require; destruct b, u; split; congruence. Qed.

Section LoopLemmas.
Context {E A S : Type}.

Lemma foldM_app (f : S -> A -> result E S) s l1 l2 :
  foldM f s (l1 ++ l2) = rbind (foldM f s l1) (fun s' => foldM f s' l2).
Proof.
  revert s; induction l1 as [|x l1 IH]; intros s; simpl; [done|].
  destruct (f s x); simpl; auto.
Qed.

Lemma foldM_ind (P : S -> Prop) (f : S -> A -> result E S) s l s' :
  (forall t x t', x ∈ l -> P t -> f t x = Ok t' -> P t') ->
  P s -> foldM f s l = Ok s' -> P s'.
Proof.
  revert s; induction l as [|x l IH]; intros s Hf Hs H; simpl in H; [congruence|].
  apply rbind_ok in H as (t & Ht & H).
  eapply IH; [|eapply Hf; eauto; set_solver|exact H].
  intros; eapply Hf; eauto; set_solver.
Qed.

(** The same with a relation that composes. *)
Lemma foldM_rel (R : S -> S -> Prop) (f : S -> A -> result E S) s l s' :
  (forall t, R t t) -> (forall t u v, R t u -> R u v -> R t v) ->
  (forall t x t', x ∈ l -> f t x = Ok t' -> R t t') ->
  foldM f s l = Ok s' -> R s s'.
Proof.
  intros Hr Ht Hf H.
  eapply (foldM_ind (R s)); [|apply Hr|exact H].
  intros t x t' Hx Hst Hfx. eapply Ht; eauto.
Qed.

Lemma checkM_ok (f : A -> result E unit) l :
  checkM f l = Ok tt <-> Forall (fun x => f x = Ok tt) l.
Proof.
  induction l as [|x l IH]; simpl; [split; auto|].
  rewrite rbind_ok, Forall_cons, <- IH. split.
  - intros ([] & ? & ?); auto.
  - intros [? ?]; exists tt; auto.
Qed.
End LoopLemmas.

(** ** Lemmas: machine integers *)

Lemma u64_mod z : u64 z = z mod 2 ^ 64.
Proof. apply (Z.land_ones z 64). lia. Qed.
Lemma u64_small z : in_u64 z -> u64 z = z.
Proof. rewrite u64_mod. apply Z.mod_small. Qed.
Lemma u32_small z : in_u32 z -> u32 z = z.
Proof. apply Z.mod_small. Qed.
Lemma u8_small z : in_u8 z -> u8 z = z.
Proof. apply Z.mod_small. Qed.
Lemma u64_range z : in_u64 (u64 z).
Proof. rewrite u64_mod. apply Z.mod_pos_bound; lia. Qed.
Lemma u32_range z : in_u32 (u32 z).
Proof. apply Z.mod_pos_bound; lia. Qed.
Lemma u8_range z : in_u8 (u8 z).
Proof. apply Z.mod_pos_bound; lia. Qed.

(** Reinterpreting a signed value as unsigned and back is the identity. *)
Lemma i64_u64 z : in_i64 z -> i64 (u64 z) = z.
Proof.
  unfold in_i64, i64. intros Hz. rewrite !u64_mod, Z.mod_mod by lia.
  destruct (Z.le_gt_cases 0 z).
  - rewrite Z.mod_small by lia. destruct (Z.ltb_spec z (2 ^ 63)); lia.
  - replace (z mod 2 ^ 64) with (z + 2 ^ 64).
    + destruct (Z.ltb_spec (z + 2 ^ 64) (2 ^ 63)); lia.
    + apply Z.mod_unique_pos with (-1); lia.
Qed.

Lemma u64_i64 z : in_u64 z -> u64 (i64 z) = z.
Proof.
  unfold in_u64, i64. intros Hz. rewrite (u64_small z) by done.
  destruct (Z.ltb_spec z (2 ^ 63)); [by apply u64_small|].
  rewrite u64_mod. symmetry. apply Z.mod_unique_pos with (-1); lia.
Qed.

Lemma i64_range z : in_i64 (i64 z).
Proof.
  unfold i64, in_i64. pose proof (u64_range z) as H. unfold in_u64 in H.
  destruct (Z.ltb_spec (u64 z) (2 ^ 63)); lia.
Qed.

(** ** Lemmas: lexicographic order *)

Lemma lex_lt_irrefl a : lex_lt a a = false.
Proof. induction a as [|x a IH]; simpl; [done|]. by rewrite Z.ltb_irrefl. Qed.

Lemma lex_lt_asym a b : lex_lt a b = true -> lex_lt b a = false.
Proof.
  revert b; induction a as [|x a IH]; intros [|y b]; simpl; try done.
  destruct (Z.ltb_spec x y), (Z.ltb_spec y x); try done; try lia. apply IH.
Qed.

Lemma lex_lt_trans a b c : lex_lt a b = true -> lex_lt b c = true -> lex_lt a c = true.
Proof.
  revert b c; induction a as [|x a IH]; intros [|y b] [|z c]; simpl; try done.
  destruct (Z.ltb_spec x y), (Z.ltb_spec y x), (Z.ltb_spec y z), (Z.ltb_spec z y),
    (Z.ltb_spec x z), (Z.ltb_spec z x); try done; try lia; apply IH.
Qed.

(** Incomparable sequences are equal: the order is total. *)
Lemma lex_lt_total a b : lex_lt a b = false -> lex_lt b a = false -> a = b.
Proof.
  revert b; induction a as [|x a IH]; intros [|y b]; simpl; try done.
  destruct (Z.ltb_spec x y), (Z.ltb_spec y x); try done; try lia.
  intros ? ?. f_equal; [lia|auto].
Qed.

Lemma lex_lt_ntrans a b c :
  lex_lt b a = false -> lex_lt c b = false -> lex_lt c a = false.
Proof.
  intros Hba Hcb. destruct (lex_lt c a) eqn:Hca; [|done].
  destruct (lex_lt a b) eqn:Hab.
  - rewrite (lex_lt_trans c a b) in Hcb; done.
  - rewrite (lex_lt_total a b Hab Hba) in *. congruence.
Qed.

Lemma lex_lt_app_r a x l : lex_lt a (a ++ x :: l) = true.
Proof. induction a as [|y a IH]; simpl; [done|]. by rewrite Z.ltb_irrefl. Qed.

(** Sequences of equal length keep their order under a common extension. *)
Lemma lex_lt_app_same a b l :
  length a = length b -> lex_lt (a ++ l) (b ++ l) = lex_lt a b.
Proof.
  revert b; induction a as [|x a IH]; intros [|y b] Hlen; simpl in *; try done.
  - apply lex_lt_irrefl.
  - by rewrite IH by lia.
Qed.

#[global] Instance lt_on_swo {A} (key : A -> list Z) : StrictWeakOrder (lt_on key).
Proof.
  split; unfold lt_on; intros *; [apply lex_lt_asym | apply lex_lt_ntrans].
Qed.

(** ** Lemmas: sorting *)

Section SortLemmas.
Context {A : Type} (ltb : A -> A -> bool) {swo : StrictWeakOrder ltb}.

Lemma insert_by_perm x l : insert_by ltb x l ≡ₚ x :: l.
Proof.
  induction l as [|y l IH]; simpl; [done|].
  destruct (ltb y x); [|done]. rewrite IH. constructor.
Qed.

Lemma sort_by_perm l : sort_by ltb l ≡ₚ l.
Proof.
  induction l as [|x l IH]; simpl; [done|]. by rewrite insert_by_perm, IH.
Qed.

Lemma insert_by_sorted x l :
  StronglySorted (le_by ltb) l -> StronglySorted (le_by ltb) (insert_by ltb x l).
Proof.
  induction 1 as [|y l Hl IH Hy]; simpl; [repeat constructor|].
  destruct (ltb y x) eqn:Hyx.
  - constructor; [done|]. rewrite insert_by_perm. constructor; [|done].
    by apply swo_asym.
  - constructor; [by constructor|]. constructor; [done|].
    eapply Forall_impl; [exact Hy|]. intros z Hz. unfold le_by in *.
    by eapply swo_ntrans.
Qed.

Lemma sort_by_sorted l : StronglySorted (le_by ltb) (sort_by ltb l).
Proof. induction l; simpl; [constructor|]. by apply insert_by_sorted. Qed.

Lemma sort_by_id l : StronglySorted (le_by ltb) l -> sort_by ltb l = l.
Proof.
  induction 1 as [|x l Hl IH Hx]; simpl; [done|]. rewrite IH.
  destruct l as [|y l]; simpl; [done|].
  apply Forall_cons in Hx as [Hx _]. unfold le_by in Hx. by rewrite Hx.
Qed.

Lemma sort_by_idemp l : sort_by ltb (sort_by ltb l) = sort_by ltb l.
Proof. apply sort_by_id, sort_by_sorted. Qed.

(** The sorted sequence does not depend on the order of the input when the
    comparison separates its elements. *)
Lemma sort_by_permutation l1 l2 :
  l1 ≡ₚ l2 ->
  (forall x y, x ∈ l1 -> y ∈ l1 -> ltb x y = false -> ltb y x = false -> x = y) ->
  sort_by ltb l1 = sort_by ltb l2.
Proof.
  intros Hp Hsep. eapply StronglySorted_unique_strong;
    [|apply sort_by_sorted|apply sort_by_sorted|by rewrite !sort_by_perm].
  intros x y Hx Hy Hxy Hyx. rewrite sort_by_perm in Hx, Hy.
  rewrite <- Hp in Hy. by apply Hsep.
Qed.

Lemma length_sort_by l : length (sort_by ltb l) = length l.
Proof. by rewrite sort_by_perm. Qed.

Lemma elem_of_sort_by x l : x ∈ sort_by ltb l <-> x ∈ l.
Proof. by rewrite sort_by_perm. Qed.
End SortLemmas.

Lemma elem_of_unique_adj {A} `{EqDecision A} (x : A) l : x ∈ unique_adj l <-> x ∈ l.
Proof.
  induction l as [|y [|z l] IH]; [done|done|].
  change (unique_adj (y :: z :: l)) with
    (if decide (y = z) then unique_adj (z :: l) else y :: unique_adj (z :: l)).
  destruct (decide (y = z)) as [->|Hne].
  - rewrite IH, !elem_of_cons. tauto.
  - rewrite !(elem_of_cons _ x y), IH. done.
Qed.

Lemma unique_adj_cons {A} `{EqDecision A} (x y : A) l :
  unique_adj (x :: y :: l) = if decide (x = y) then unique_adj (y :: l) else x :: unique_adj (y :: l).
Proof. done. Qed.

Lemma unique_adj_head {A} `{EqDecision A} (x : A) l : exists l', unique_adj (x :: l) = x :: l'.
Proof.
  revert x; induction l as [|y l IH]; intros x; [by exists []|]. rewrite unique_adj_cons.
  case_decide as H; [subst; apply IH|]. by eexists.
Qed.

Lemma unique_adj_idemp {A} `{EqDecision A} (l : list A) : unique_adj (unique_adj l) = unique_adj l.
Proof.
  induction l as [|x [|y l] IH]; [done|done|]. rewrite unique_adj_cons. case_decide; [done|].
  destruct (unique_adj_head y l) as [l' Hl]. rewrite Hl in *.
  rewrite unique_adj_cons, decide_False by done. by rewrite IH.
Qed.

Lemma unique_adj_sorted {A} `{EqDecision A} (R : A -> A -> Prop) (l : list A) :
  StronglySorted R l -> StronglySorted R (unique_adj l).
Proof.
  induction 1 as [|x [|y l] Hl IH Hx]; [constructor|by repeat constructor|]. rewrite unique_adj_cons.
  case_decide; [done|]. constructor; [done|]. rewrite Forall_forall in *. intros z Hz.
  apply Hx. by apply (elem_of_unique_adj z (y :: l)).
Qed.

(** A sorted sequence without repetitions is already in that form. *)
Lemma sorted_set_idemp {A} `{EqDecision A} (ltb : A -> A -> bool) `{!StrictWeakOrder ltb} l :
  unique_adj (sort_by ltb (unique_adj (sort_by ltb l))) = unique_adj (sort_by ltb l).
Proof.
  rewrite (sort_by_id ltb (unique_adj (sort_by ltb l))); [apply unique_adj_idemp|].
  apply unique_adj_sorted, sort_by_sorted; done.
Qed.

(** ** Lemmas: positions *)

Lemma find_index_Some {A} `{Inhabited A} (p : A -> bool) l i :
  find_index p l = Some i ->
  (i < length l)%nat /\ p (l !!! i) = true /\
  forall j, (j < i)%nat -> p (l !!! j) = false.
Proof.
  revert i; induction l as [|x l IH]; intros i; simpl; [done|].
  destruct (p x) eqn:Hx.
  - intros [= <-]. split_and!; [lia|done|lia].
  - destruct (find_index p l) as [k|]; simpl; [|done]. intros [= <-].
    destruct (IH k eq_refl) as (? & ? & Hlt). split_and!; [lia|done|].
    intros [|j] Hj; simpl; [done|]. apply Hlt. lia.
Qed.

Lemma find_index_None {A} (p : A -> bool) l :
  find_index p l = None <-> Forall (fun x => p x = false) l.
Proof.
  induction l as [|x l IH]; simpl; [split; auto|].
  rewrite Forall_cons, <- IH. destruct (p x); [split; [done|by intros []]|].
  destruct (find_index p l); simpl; split; [done|by intros []|done|done].
Qed.

Lemma index_of_Some id ids i :
  index_of id ids = Some i -> ids !! i = Some id.
Proof.
  unfold index_of. destruct (find_index _ ids) as [k|] eqn:Hk; [|done].
  destruct (Z.eqb_spec (ids !!! k) id) as [He|]; [|done]. intros [= ->].
  apply find_index_Some in Hk as (Hlt & _ & _).
  by apply list_lookup_alt.
Qed.

(** On a strictly increasing vector the search finds every identity. *)
Lemma index_of_complete id ids i :
  StronglySorted Z.lt ids -> ids !! i = Some id -> index_of id ids = Some i.
Proof.
  unfold index_of. intros Hs. revert i; induction Hs as [|x l Hl IH Hx]; intros i Hi.
  { by rewrite lookup_nil in Hi. }
  simpl. destruct i as [|i]; simpl in Hi.
  - injection Hi as ->. rewrite Z.ltb_irrefl. simpl. by rewrite Z.eqb_refl.
  - assert (x < id).
    { rewrite Forall_forall in Hx. apply Hx. by eapply list_elem_of_lookup_2. }
    destruct (Z.ltb_spec x id); [|lia]. simpl.
    specialize (IH i Hi).
    destruct (find_index _ l) as [k|]; [|done]. simpl.
    destruct (Z.eqb_spec (l !!! k) id); [|done].
    by injection IH as ->.
Qed.

(** ** Lemmas: ordered maps *)

Section OrderedMapLemmas.
Context {K V : Type} (key : K -> list Z).

Lemma om_find_set_eq k (v : V) m : om_find key k (om_set key k v m) = Some v.
Proof.
  induction m as [|[k' v'] m IH]; simpl; [by rewrite decide_True|].
  destruct (lex_lt (key k') (key k)) eqn:Hlt; simpl.
  - rewrite decide_False; [done|]. intros He. by rewrite He, lex_lt_irrefl in Hlt.
  - destruct (lex_lt (key k) (key k')); simpl; by rewrite decide_True.
Qed.

Lemma om_find_set_ne k k' (v : V) m :
  key k <> key k' -> om_find key k' (om_set key k v m) = om_find key k' m.
Proof.
  intros Hne. induction m as [|[k1 v1] m IH]; simpl.
  { by rewrite decide_False by congruence. }
  destruct (lex_lt (key k1) (key k)) eqn:H1; simpl; [by rewrite IH|].
  destruct (lex_lt (key k) (key k1)) eqn:H2; simpl.
  - by rewrite decide_False by congruence.
  - pose proof (lex_lt_total _ _ H1 H2) as He.
    by rewrite !decide_False by congruence.
Qed.

Lemma om_find_elem k (v : V) m :
  om_find key k m = Some v -> exists k', key k' = key k /\ (k', v) ∈ m.
Proof.
  induction m as [|[k1 v1] m IH]; simpl; [done|].
  destruct (decide (key k = key k1)).
  - intros [= ->]. exists k1. split; [done|]. left.
  - intros H. destruct (IH H) as (k' & ? & ?). exists k'. split; [done|]. by right.
Qed.
End OrderedMapLemmas.

(** ** Lemmas: strings *)

Lemma length_append_string a b :
  String.length (a +:+ b) = (String.length a + String.length b)%nat.
Proof. induction a as [|c a IH]; simpl; [done|]. by rewrite IH. Qed.

Lemma string_app_inj a a' b b' :
  String.length b = String.length b' -> a +:+ b = a' +:+ b' -> a = a' /\ b = b'.
Proof.
  intros Hl. revert a'. induction a as [|c a IH]; intros [|c' a'] H.
  - done.
  - apply (f_equal String.length) in H. rewrite !length_append_string in H.
    change (String.length (String c' a')) with (S (String.length a')) in H.
    change (String.length "") with 0%nat in H. lia.
  - apply (f_equal String.length) in H. rewrite !length_append_string in H.
    change (String.length (String c a)) with (S (String.length a)) in H.
    change (String.length "") with 0%nat in H. lia.
  - injection H as -> H. by destruct (IH _ H) as [-> ->].
Qed.

(** ** Lemmas: list updates *)

Lemma lookup_total_insert_eq {A} `{Inhabited A} (l : list A) i x :
  (i < length l)%nat -> <[i:=x]> l !!! i = x.
Proof. apply list_lookup_total_insert_eq. Qed.

Lemma lookup_total_insert_ne {A} `{Inhabited A} (l : list A) i j x :
  i <> j -> <[i:=x]> l !!! j = l !!! j.
Proof. intros Hi. by apply list_lookup_total_insert_ne. Qed.

Lemma lookup_total_map {A B} `{Inhabited A} `{Inhabited B} (f : A -> B) (l : list A) i :
  (i < length l)%nat -> map f l !!! i = f (l !!! i).
Proof.
  revert i; induction l as [|x l IH]; intros [|i] Hi; simpl in *; try lia; [done|].
  apply IH. lia.
Qed.

Lemma zip_map_elem {A B} (f : A -> B) (l : list A) x : x ∈ zip (map f l) l -> x = (f x.2, x.2) /\ x.2 ∈ l.
Proof.
  induction l as [|y l IH]; simpl; [set_solver|].
  rewrite elem_of_cons. intros [->|H]; [split; [done|by left]|].
  destruct (IH H). split; [done|by right].
Qed.

Lemma Forall_insert_bound {A} (P : A -> Prop) (l : list A) i x :
  Forall P l -> P x -> Forall P (<[i:=x]> l).
Proof. intros. by apply Forall_insert. Qed.

Lemma Forall_lookup_total {A} `{Inhabited A} (P : A -> Prop) (l : list A) i :
  Forall P l -> (i < length l)%nat -> P (l !!! i).
Proof.
  intros Hl Hi. rewrite Forall_forall in Hl. apply Hl.
  by apply list_elem_of_lookup_total_2.
Qed.

#[export] Hint Resolve u64_range u32_range u8_range i64_range : nrp.
#[export] Hint Resolve Forall_insert_bound lex_lt_irrefl : nrp.
#[export] Hint Rewrite @length_insert @length_replicate @length_app : nrp.

(** ** Automation *)

(** Splits conjunctions of boolean tests in the context and the goal. *)
Ltac bool_cases :=
  repeat match goal with
  | H : (_ && _)%bool = true |- _ => apply andb_true_iff in H as [? ?]
  | H : (_ || _)%bool = false |- _ => apply orb_false_iff in H as [? ?]
  | H : negb _ = true |- _ => apply negb_true_iff in H
  | H : negb _ = false |- _ => apply negb_false_iff in H
  | H : (_ <? _) = true |- _ => apply Z.ltb_lt in H
  | H : (_ <? _) = false |- _ => apply Z.ltb_ge in H
  | H : (_ <=? _) = true |- _ => apply Z.leb_le in H
  | H : (_ <=? _) = false |- _ => apply Z.leb_gt in H
  | H : (_ =? _) = true |- _ => apply Z.eqb_eq in H
  | H : (_ =? _) = false |- _ => apply Z.eqb_neq in H
  | H : bool_decide _ = true |- _ => apply bool_decide_eq_true in H
  | H : bool_decide _ = false |- _ => apply bool_decide_eq_false in H
  end.

(** Follows the successful path of an early-returning computation. *)
Ltac invert_ok :=
  repeat match goal with
  | H : rbind _ _ = Ok _ |- _ =>
      let a := fresh "r" in let E := fresh "E" in
      apply rbind_ok in H as (a & E & H)
  | H : require _ _ = Ok _ |- _ => apply require_ok in H
  | H : Ok _ = Ok _ |- _ => injection H as H
  | H : Err _ = Ok _ |- _ => discriminate H
  | H : Ok _ = Err _ |- _ => discriminate H
  | u : unit |- _ => destruct u
  end.

