(* ===== verification/Ids.v ===== *)
(** * Identities, subjects, digests and statuses

    Models [include/nrp/ids.hpp], [src/ids.cpp] and [include/nrp/result.hpp].
    A [StrongId], a [Sequence] and a [Generation] are their 64-bit value; the
    tags exist at compile time only. *)
From S2P Require Import Prelude.

Abbreviation NodeId := Z (only parsing).
Abbreviation LinkId := Z (only parsing).
Abbreviation ServiceId := Z (only parsing).
Abbreviation ResourceId := Z (only parsing).
Abbreviation ActionId := Z (only parsing).
Abbreviation ExclusionGroupId := Z (only parsing).
Abbreviation Epoch := Z (only parsing).
Abbreviation BootId := Z (only parsing).
Abbreviation Sequence := Z (only parsing).
Abbreviation Generation := Z (only parsing).

Definition is_zero (id : Z) : bool := id =? 0.

Module StatusCode.
Inductive t :=
| OK | INVALID_ARGUMENT | OUT_OF_RANGE | CORRUPT | UNSUPPORTED | IO_ERROR | EXHAUSTED
| NOT_FOUND | STATE_MISMATCH | PROTOCOL_ERROR | CLOSED | CONFLICT.

#[global] Instance eq_dec : EqDecision t.
Proof. solve_decision. Defined.

Definition to_string (code : t) : string :=
  match code with
  | OK => "OK"
  | INVALID_ARGUMENT => "INVALID_ARGUMENT"
  | OUT_OF_RANGE => "OUT_OF_RANGE"
  | CORRUPT => "CORRUPT"
  | UNSUPPORTED => "UNSUPPORTED"
  | IO_ERROR => "IO_ERROR"
  | EXHAUSTED => "EXHAUSTED"
  | NOT_FOUND => "NOT_FOUND"
  | STATE_MISMATCH => "STATE_MISMATCH"
  | PROTOCOL_ERROR => "PROTOCOL_ERROR"
  | CLOSED => "CLOSED"
  | CONFLICT => "CONFLICT"
  end.
End StatusCode.

(** [Status]: a code and a message. A function that returns a [Status] or a
    [Result<T>] is modelled in [result Status T], its error never being [OK]. *)
Record Status := mkStatus { status_code : StatusCode.t; status_message : string }.

Definition status_ok (s : Status) : bool := bool_decide (status_code s = StatusCode.OK).

Definition status_to_string (s : Status) : string :=
  StatusCode.to_string (status_code s) +:+
  (if bool_decide (status_message s = EmptyString) then EmptyString
   else ": " +:+ status_message s).

Module SubjectKind.
Inductive t := NONE | NODE | LINK | SERVICE | RESOURCE | ACTION | FABRIC.

#[global] Instance eq_dec : EqDecision t.
Proof. solve_decision. Defined.

Definition to_u8 (k : t) : Z :=
  match k with
  | NONE => 0 | NODE => 1 | LINK => 2 | SERVICE => 3 | RESOURCE => 4 | ACTION => 5
  | FABRIC => 6
  end.

(** [static_cast] from the raw byte; outside the domain the cast is not used. *)
Definition of_u8 (raw : Z) : t :=
  match raw with
  | 0 => NONE | 1 => NODE | 2 => LINK | 3 => SERVICE | 4 => RESOURCE | 5 => ACTION
  | _ => FABRIC
  end.

Definition all : list t := [NONE; NODE; LINK; SERVICE; RESOURCE; ACTION; FABRIC].

Definition to_string (k : t) : string :=
  match k with
  | NONE => "NONE" | NODE => "NODE" | LINK => "LINK" | SERVICE => "SERVICE"
  | RESOURCE => "RESOURCE" | ACTION => "ACTION" | FABRIC => "FABRIC"
  end.

Definition is_valid (k : t) : bool :=
  match k with
  | NONE | NODE | LINK | SERVICE | RESOURCE | ACTION | FABRIC => true
  end.
End SubjectKind.

(** A typed reference into the fabric model. *)
Record Subject := mkSubject { subject_kind : SubjectKind.t; subject_id : Z }.

Definition default_subject : Subject := mkSubject SubjectKind.NONE 0.

#[global] Instance Subject_eq_dec : EqDecision Subject.
Proof. solve_decision. Defined.

#[global] Instance Subject_inhabited : Inhabited Subject := populate default_subject.

Definition subject_key (s : Subject) : list Z :=
  [SubjectKind.to_u8 (subject_kind s); subject_id s].

Definition subject_lt : Subject -> Subject -> bool := lt_on subject_key.

Definition subject_of_node (id : NodeId) : Subject := mkSubject SubjectKind.NODE id.
Definition subject_of_link (id : LinkId) : Subject := mkSubject SubjectKind.LINK id.
Definition subject_of_service (id : ServiceId) : Subject := mkSubject SubjectKind.SERVICE id.
Definition subject_of_resource (id : ResourceId) : Subject := mkSubject SubjectKind.RESOURCE id.
Definition subject_of_action (id : ActionId) : Subject := mkSubject SubjectKind.ACTION id.

Definition describe (s : Subject) : string :=
  SubjectKind.to_string (subject_kind s) +:+ ":" +:+ pretty (subject_id s).

(** ** Digests *)

Record Digest := mkDigest { digest_hi : Z; digest_lo : Z }.

Definition zero_digest : Digest := mkDigest 0 0.

#[global] Instance Digest_eq_dec : EqDecision Digest.
Proof. solve_decision. Defined.

Definition mix64 (value : Z) : Z :=
  let v1 := u64 (value + 0x9E3779B97F4A7C15) in
  let v2 := u64 (Z.lxor v1 (Z.shiftr v1 30) * 0xBF58476D1CE4E5B9) in
  let v3 := u64 (Z.lxor v2 (Z.shiftr v2 27) * 0x94D049BB133111EB) in
  Z.lxor v3 (Z.shiftr v3 31).

Definition rotl (value shift : Z) : Z :=
  Z.lor (u64 (Z.shiftl value shift)) (Z.shiftr value (64 - shift)).

(** One byte of the two accumulators of [digest_of]. *)
Definition digest_step (acc : Z * Z) (byte : Z) : Z * Z :=
  let '(fnv, poly) := acc in
  let fnv := u64 (Z.lxor fnv byte * 0x100000001B3) in
  let poly := Z.lxor (rotl poly 7)
                (u64 (u64 (byte * 0x9E3779B97F4A7C15) + 0xBF58476D1CE4E5B9)) in
  (fnv, u64 (poly + 0x94D049BB133111EB)).

Definition digest_of (bytes : list Z) : Digest :=
  let '(fnv, poly) := fold_left digest_step bytes (0xCBF29CE484222325, 0x6A09E667F3BCC909) in
  let size := u64 (sizez bytes) in
  mkDigest (mix64 (Z.lxor poly (u64 (size + 0x9E3779B97F4A7C15))))
           (mix64 (Z.lxor fnv (u64 (size * 0x100000001B3)))).

(** ** Lemmas *)

Lemma SubjectKind_to_u8_inj k k' :
  SubjectKind.to_u8 k = SubjectKind.to_u8 k' -> k = k'.
Proof. by destruct k, k'. Qed.

Lemma subject_key_inj a b : subject_key a = subject_key b -> a = b.
Proof.
  destruct a, b; unfold subject_key; simpl. intros [= Hk ->].
  by rewrite (SubjectKind_to_u8_inj _ _ Hk).
Qed.
