(* ===== verification/Canonical.v ===== *)
(** * Canonical serialisation

    Models [include/nrp/canonical.hpp] and [src/canonical.cpp]. A writer method
    is the byte sequence it appends to [CanonicalWriter::buffer_]; a reader is
    the bytes from [offset_] on together with the sticky error, and a reader
    method returns its value and the reader it leaves behind. *)
From S2P Require Import Prelude Ids.

(** ** Writer *)

Definition w_u8 (value : Z) : list Z := [u8 value].

Definition w_u16 (value : Z) : list Z :=
  [Z.land value 0xFF; Z.land (Z.shiftr value 8) 0xFF].

Definition w_u32 (value : Z) : list Z :=
  map (fun shift => Z.land (Z.shiftr value shift) 0xFF) [0; 8; 16; 24].

Definition w_u64 (value : Z) : list Z :=
  map (fun shift => Z.land (Z.shiftr value shift) 0xFF) [0; 8; 16; 24; 32; 40; 48; 56].

Definition w_i64 (value : Z) : list Z := w_u64 (u64 value).

Definition w_boolean (value : bool) : list Z := w_u8 (if value then 1 else 0).

Definition w_bytes (data : list Z) : list Z := w_u32 (u32 (sizez data)) ++ data.

(** Characters of a [std::string_view] as bytes. *)
Definition string_bytes (s : string) : list Z :=
  map (fun c => Z.of_N (Ascii.N_of_ascii c)) (String.list_ascii_of_string s).

Definition bytes_string (l : list Z) : string :=
  String.string_of_list_ascii (map (fun z => Ascii.ascii_of_N (Z.to_N z)) l).

Definition w_str (value : string) : list Z :=
  w_u32 (u32 (sizez (string_bytes value))) ++ string_bytes value.

(** A container: its element count followed by its elements. *)
Definition w_list {A} (w : A -> list Z) (l : list A) : list Z :=
  w_u32 (u32 (sizez l)) ++ concat (map w l).

Arguments w_u8 _ : simpl never.
Arguments w_u16 _ : simpl never.
Arguments w_u32 _ : simpl never.
Arguments w_u64 _ : simpl never.
Arguments w_i64 _ : simpl never.
Arguments w_boolean _ : simpl never.
Arguments w_bytes _ : simpl never.
Arguments w_str _ : simpl never.
Arguments w_list {A} _ _ : simpl never.

(** ** Reader *)

Record Reader := mkReader { rd_data : list Z; rd_error : option Status }.

Definition Rd (A : Type) : Type := Reader -> A * Reader.

Definition reader (data : list Z) : Reader := mkReader data None.
Definition rd_ok (r : Reader) : bool :=
  match rd_error r with None => true | Some _ => false end.
Definition remaining (r : Reader) : Z := sizez (rd_data r).

Definition fail (code : StatusCode.t) (message : string) (r : Reader) : Reader :=
  match rd_error r with
  | None => mkReader (rd_data r) (Some (mkStatus code message))
  | Some _ => r
  end.

Definition need (count : Z) : Rd bool := fun r =>
  if negb (rd_ok r) then (false, r)
  else if remaining r <? count
  then (false, fail StatusCode.PROTOCOL_ERROR "canonical encoding truncated" r)
  else (true, r).

(** [value |= data_[offset_ + index] << (8 * index)] for [index < n]. *)
Definition read_le (n : nat) (data : list Z) : Z :=
  fold_left (fun value index =>
    Z.lor value (Z.shiftl (data !!! index) (8 * Z.of_nat index))) (seq 0 n) 0.

Definition advance (n : nat) (r : Reader) : Reader := mkReader (drop n (rd_data r)) (rd_error r).

Definition r_u8 : Rd Z := fun r =>
  let '(available, r) := need 1 r in
  if available then (rd_data r !!! 0%nat, advance 1 r) else (0, r).

Definition r_u16 : Rd Z := fun r =>
  let '(available, r) := need 2 r in
  if available then
    (Z.lor (rd_data r !!! 0%nat) (u16 (Z.shiftl (rd_data r !!! 1%nat) 8)), advance 2 r)
  else (0, r).

Definition r_u32 : Rd Z := fun r =>
  let '(available, r) := need 4 r in
  if available then (read_le 4 (rd_data r), advance 4 r) else (0, r).

Definition r_u64 : Rd Z := fun r =>
  let '(available, r) := need 8 r in
  if available then (read_le 8 (rd_data r), advance 8 r) else (0, r).

Definition r_i64 : Rd Z := fun r => let '(v, r) := r_u64 r in (i64 v, r).

Definition r_boolean : Rd bool := fun r =>
  let '(raw, r) := r_u8 r in
  if negb (rd_ok r) then (false, r)
  else if 1 <? raw
  then (false, fail StatusCode.PROTOCOL_ERROR "boolean out of domain" r)
  else (raw =? 1, r).

Definition r_enum_value {E} (cast : Z -> E) (max_exclusive : Z) (what : string) : Rd E := fun r =>
  let '(raw, r) := r_u8 r in
  if negb (rd_ok r) then (cast 0, r)
  else if max_exclusive <=? raw
  then (cast 0, fail StatusCode.PROTOCOL_ERROR
                  ("enum out of domain for " +:+ what +:+ ": " +:+ pretty raw) r)
  else (cast raw, r).

Definition r_bounded_count (max_count : Z) (what : string) : Rd Z := fun r =>
  let '(count, r) := r_u32 r in
  if negb (rd_ok r) then (0, r)
  else if max_count <? count
  then (0, fail StatusCode.OUT_OF_RANGE
             ("declared count for " +:+ what +:+ " exceeds the model limit: " +:+
              pretty count +:+ " > " +:+ pretty max_count) r)
  else (count, r).

Definition r_bytes (max_length : Z) : Rd (list Z) := fun r =>
  let '(length, r) := r_u32 r in
  if negb (rd_ok r) then ([], r)
  else if max_length <? length
  then ([], fail StatusCode.OUT_OF_RANGE "declared byte length exceeds the bound" r)
  else
    let '(available, r) := need length r in
    if available
    then (take (Z.to_nat length) (rd_data r), advance (Z.to_nat length) r)
    else ([], r).

Definition r_blob (declared_length : Z) : Rd (list Z) := fun r =>
  let '(length, r) := r_u32 r in
  if negb (rd_ok r) then ([], r)
  else if negb (length =? declared_length)
  then ([], fail StatusCode.PROTOCOL_ERROR
              ("declared blob length mismatch: " +:+ pretty length +:+ " != " +:+
               pretty declared_length) r)
  else r_bytes length r.

Definition r_str (max_length : Z) : Rd string := fun r =>
  let '(length, r) := r_u32 r in
  if negb (rd_ok r) then (EmptyString, r)
  else if max_length <? length
  then (EmptyString, fail StatusCode.OUT_OF_RANGE "declared string length exceeds the bound" r)
  else
    let '(available, r) := need length r in
    if available
    then (bytes_string (take (Z.to_nat length) (rd_data r)), advance (Z.to_nat length) r)
    else (EmptyString, r).

(** ** Decoders: reader computations that may return a failure status. *)

Definition Dec (A : Type) : Type := Reader -> result Status A * Reader.

Definition dret {A} (a : A) : Dec A := fun r => (Ok a, r).

Definition dbind {A B} (m : Dec A) (k : A -> Dec B) : Dec B := fun r =>
  match m r with
  | (Ok a, r') => k a r'
  | (Err e, r') => (Err e, r')
  end.

(** A plain read never returns early; its failure is the sticky error. *)
Definition rd {A} (m : Rd A) : Dec A := fun r => let '(a, r') := m r in (Ok a, r').

(** [if (!reader.ok()) return reader.status();] *)
Definition check_ok : Dec unit := fun r =>
  match rd_error r with
  | None => (Ok tt, r)
  | Some s => (Err s, r)
  end.

Definition dfail {A} (s : Status) : Dec A := fun r => (Err s, r).

Notation "x <- m ;; k" := (dbind m (fun x => k))
  (at level 100, m at next level, right associativity) : nrp_scope.

(** A counted loop [for (index = 0; index < n; ++index) push_back(element)]. *)
Fixpoint drepeat {A} (n : nat) (m : Dec A) : Dec (list A) :=
  match n with
  | O => dret []
  | S n' => x <- m ;; l <- drepeat n' m ;; dret (x :: l)
  end.

(** A bounded count, the check that follows it, and the loop it bounds. *)
Definition d_list {A} (max_count : Z) (what : string) (m : Dec A) : Dec (list A) :=
  count <- rd (r_bounded_count max_count what) ;;
  _ <- check_ok ;;
  drepeat (Z.to_nat count) m.

Definition require_end : Dec unit := fun r =>
  match rd_error r with
  | Some s => (Err s, r)
  | None =>
      if negb (remaining r =? 0)
      then (Err (mkStatus StatusCode.PROTOCOL_ERROR
                   ("trailing bytes after canonical value: " +:+ pretty (remaining r))), r)
      else (Ok tt, r)
  end.

(** ** Checked arithmetic: [None] is the overflow return. *)

Definition add_overflow (a b : Z) : option Z :=
  if UINT64_MAX - b <? a then None else Some (a + b).

Definition mul_overflow (a b : Z) : option Z :=
  if negb (a =? 0) && (UINT64_MAX / a <? b) then None else Some (u64 (a * b)).

(** ** What a bounded container or string may hold *)

(** A list of at most [max] elements, each of which fits. *)
Definition list_fits {A} (V : A -> Prop) (max : Z) (l : list A) : Prop :=
  Forall V l /\ sizez l <= max /\ in_u32 (sizez l).
Definition str_fits (max : Z) (s : string) : Prop :=
  sizez (string_bytes s) <= max /\ in_u32 (sizez (string_bytes s)).

(** ** The interface a canonical encoding offers its users

    [codec_dec_enc]: a decoder reads back what the encoder wrote and leaves the
    rest of the input untouched. [codec_enc_dec]: a decoder that succeeds without
    a sticky error consumed exactly the encoding of the value it returns, so no
    value has two encodings. [prim_*] are the same laws for plain reads. *)
Class Prim {A} (valid : A -> Prop) (enc : A -> list Z) (m : Rd A) : Prop := {
  prim_dec_enc : forall x rest, valid x -> m (reader (enc x ++ rest)) = (x, reader rest);
  prim_enc_dec : forall r x r', Forall in_u8 (rd_data r) -> m r = (x, r') -> rd_ok r' = true ->
    valid x /\ exists rest, r = reader (enc x ++ rest) /\ r' = reader rest
}.

Class Codec {A} (valid : A -> Prop) (enc : A -> list Z) (dec : Dec A) : Prop := {
  codec_dec_enc : forall x rest, valid x -> dec (reader (enc x ++ rest)) = (Ok x, reader rest);
  codec_enc_dec : forall r x r', Forall in_u8 (rd_data r) -> dec r = (Ok x, r') ->
    rd_ok r' = true -> valid x /\ exists rest, r = reader (enc x ++ rest) /\ r' = reader rest
}.

(** A computation that cannot clear the sticky error: when the reader it leaves
    behind has none, the reader it started from had none. *)
Class SteadyRd {A} (m : Rd A) : Prop :=
  steady_rd : forall r, rd_ok r = false -> rd_ok (snd (m r)) = false.
Class Steady {A} (m : Dec A) : Prop :=
  steady : forall r x r', m r = (Ok x, r') -> rd_ok r' = true -> rd_ok r = true.

(** ** Lemmas: little-endian bytes *)

(** The value of a little-endian byte sequence. *)
Definition le_sum (bs : list Z) : Z := foldr (fun b s => b + 256 * s) 0 bs.

Lemma le_sum_app a b : le_sum (a ++ b) = le_sum a + 256 ^ sizez a * le_sum b.
Proof.
  unfold sizez. induction a as [|x a IH]; simpl; [lia|].
  rewrite IH, Nat2Z.inj_succ, Z.pow_succ_r by lia. lia.
Qed.

Lemma le_sum_bound bs : Forall in_u8 bs -> 0 <= le_sum bs < 256 ^ sizez bs.
Proof.
  unfold sizez. induction 1 as [|x l Hx Hl IH]; simpl; [lia|].
  rewrite Nat2Z.inj_succ, Z.pow_succ_r by lia. unfold in_u8 in Hx. lia.
Qed.

Lemma le_sum_inj a b :
  Forall in_u8 a -> Forall in_u8 b -> length a = length b -> le_sum a = le_sum b -> a = b.
Proof.
  intros Ha; revert b; induction Ha as [|x a Hx Ha IH]; intros [|y b] Hb Hl He; try done.
  apply Forall_cons in Hb as [Hy Hb]. simpl in *. unfold in_u8 in *.
  assert (x = y) as -> by lia. f_equal. apply IH; [done|lia|lia].
Qed.

Lemma lor_shiftl_add a b k : 0 <= a < 2 ^ k -> 0 <= k -> Z.lor a (Z.shiftl b k) = a + b * 2 ^ k.
Proof.
  intros Ha Hk. rewrite <- Z.shiftl_mul_pow2 by done.
  assert (Hl : Z.land a (Z.shiftl b k) = 0).
  { apply Z.bits_inj'. intros n Hn. rewrite Z.land_spec, Z.bits_0.
    destruct (Z.lt_ge_cases n k).
    - rewrite Z.shiftl_spec_low by done. by rewrite andb_false_r.
    - replace (Z.testbit a n) with false; [done|]. symmetry.
      destruct (decide (a = 0)) as [->|]; [apply Z.bits_0|].
      apply Z.bits_above_log2; [lia|]. apply Z.lt_le_trans with k; [|done].
      apply Z.log2_lt_pow2; lia. }
  by rewrite Z.add_nocarry_lxor, Z.lxor_lor.
Qed.

Lemma read_le_sum n data :
  Forall in_u8 (take n data) -> (n <= length data)%nat ->
  read_le n data = le_sum (take n data).
Proof.
  induction n as [|n IH]; intros Hd Hn; [done|].
  assert (Hd' : Forall in_u8 (take n data)).
  { replace n with (n `min` S n)%nat by lia. rewrite <- take_take. by apply Forall_take. }
  unfold read_le. rewrite seq_S, fold_left_app. simpl. fold (read_le n data).
  rewrite IH by (done || lia).
  assert (Hnth : data !! n = Some (data !!! n)) by (apply list_lookup_alt; split; [lia|done]).
  rewrite (take_S_r _ _ _ Hnth), le_sum_app. simpl.
  assert (Hlen : sizez (take n data) = Z.of_nat n) by (unfold sizez; rewrite length_take; lia).
  rewrite Hlen.
  pose proof (le_sum_bound (take n data) Hd') as Hb. rewrite Hlen in Hb.
  replace (256 ^ Z.of_nat n) with (2 ^ (8 * Z.of_nat n)) in *
    by (rewrite Z.pow_mul_r by lia; done).
  rewrite lor_shiftl_add by lia. lia.
Qed.

Fixpoint shifts (n : nat) (s : Z) : list Z :=
  match n with O => [] | S n' => s :: shifts n' (s + 8) end.

Lemma le_sum_shifts n v s :
  0 <= s -> le_sum (map (fun k => Z.land (Z.shiftr v k) 0xFF) (shifts n s)) =
            (v / 2 ^ s) mod 256 ^ Z.of_nat n.
Proof.
  revert s; induction n as [|n IH]; intros s Hs.
  { simpl. by rewrite Z.mod_1_r. }
  cbn [shifts map le_sum foldr]. unfold le_sum in IH. rewrite IH by lia.
  rewrite Nat2Z.inj_succ, Z.pow_succ_r by lia.
  rewrite Z.rem_mul_r by lia.
  rewrite Z.shiftr_div_pow2 by done.
  change 0xFF with (Z.ones 8). rewrite Z.land_ones by lia. change (2 ^ 8) with 256.
  rewrite Z.pow_add_r by lia. rewrite Z.div_div by lia. done.
Qed.

Lemma land_ff_u8 z : in_u8 (Z.land z 0xFF).
Proof. change 0xFF with (Z.ones 8). rewrite Z.land_ones by lia. apply u8_range. Qed.

Lemma w_u8_bytes v : Forall in_u8 (w_u8 v).
Proof. repeat constructor; apply u8_range. Qed.
Lemma w_u32_bytes v : Forall in_u8 (w_u32 v).
Proof. repeat constructor; apply land_ff_u8. Qed.
Lemma w_u64_bytes v : Forall in_u8 (w_u64 v).
Proof. repeat constructor; apply land_ff_u8. Qed.

Lemma w_u16_sum v : le_sum (w_u16 v) = u16 v.
Proof.
  pose proof (le_sum_shifts 2 v 0) as H. rewrite Z.div_1_r in H. exact (H ltac:(lia)).
Qed.
Lemma w_u32_sum v : le_sum (w_u32 v) = u32 v.
Proof.
  pose proof (le_sum_shifts 4 v 0) as H. rewrite Z.div_1_r in H. exact (H ltac:(lia)).
Qed.
Lemma w_u64_sum v : le_sum (w_u64 v) = u64 v.
Proof.
  rewrite u64_mod. pose proof (le_sum_shifts 8 v 0) as H. rewrite Z.div_1_r in H.
  exact (H ltac:(lia)).
Qed.

(** ** Lemmas: primitive reads invert primitive writes *)

Lemma rd_ok_reader (r : Reader) : rd_ok r = true -> r = reader (rd_data r).
Proof. destruct r as [d [e|]]; simpl; done. Qed.

Lemma fail_not_ok code msg r : rd_ok (fail code msg r) = false.
Proof. destruct r as [d [e|]]; done. Qed.

Lemma need_true n r r' :
  need n r = (true, r') -> r' = r /\ rd_ok r = true /\ n <= sizez (rd_data r).
Proof.
  unfold need, remaining. destruct (rd_ok r) eqn:Hr; simpl; [|done].
  destruct (Z.ltb_spec (sizez (rd_data r)) n); [done|]. intros [= <-]. done.
Qed.

Lemma need_false n r r' : need n r = (false, r') -> rd_ok r' = false.
Proof.
  unfold need. destruct (rd_ok r) eqn:Hr; simpl; [|by intros [= <-]].
  destruct (Z.ltb_spec (remaining r) n); [|done]. intros [= <-]. apply fail_not_ok.
Qed.

Lemma need_reader n data : n <= sizez data -> need n (reader data) = (true, reader data).
Proof.
  intros H. unfold need, remaining; simpl.
  destruct (Z.ltb_spec (sizez data) n); [lia|done].
Qed.

#[global] Instance r_u8_prim : Prim in_u8 w_u8 r_u8.
Proof.
  split.
  - intros x rest Hx. unfold r_u8. rewrite need_reader by (unfold sizez; simpl; lia).
    unfold w_u8. by rewrite u8_small.
  - intros r x r' Hb. unfold r_u8. destruct (need 1 r) as [[|] r1] eqn:Hn.
    + apply need_true in Hn as (-> & Hok & Hs). intros [= <- <-] _.
      rewrite (rd_ok_reader r Hok) in *. cbn [rd_data reader advance rd_error] in *.
      destruct (rd_data r) as [|b d]; [done|]. apply Forall_cons in Hb as [Hb _]. simpl.
      split; [done|]. exists d. unfold w_u8. by rewrite u8_small.
    + apply need_false in Hn. intros [= <- <-]. congruence.
Qed.

(** The multi-byte reads share one argument: the value read is [le_sum] of the
    bytes, and the write of that value is those bytes. *)
Section MultiByte.
Context (n : nat) (w : Z -> list Z) (width : Z).
Hypothesis w_bytes_ok : forall v, Forall in_u8 (w v).
Hypothesis w_length : forall v, length (w v) = n.
Hypothesis w_sum : forall v, le_sum (w v) = v mod 2 ^ width.
Hypothesis width_n : 2 ^ width = 256 ^ Z.of_nat n.

Lemma read_le_write v rest : 0 <= v < 2 ^ width -> read_le n (w v ++ rest) = v.
Proof.
  intros Hv. rewrite read_le_sum.
  - rewrite take_app_length' by (by rewrite w_length). rewrite w_sum. by apply Z.mod_small.
  - rewrite take_app_length' by (by rewrite w_length). apply w_bytes_ok.
  - rewrite length_app, w_length. lia.
Qed.

Lemma read_le_split d :
  Forall in_u8 d -> Z.of_nat n <= sizez d ->
  0 <= read_le n d < 2 ^ width /\ d = w (read_le n d) ++ drop n d.
Proof.
  unfold sizez. intros Hd Hn. pose proof (Forall_take _ n _ Hd) as Ht.
  rewrite read_le_sum by (done || lia).
  assert (Hl : length (take n d) = n) by (rewrite length_take; lia).
  pose proof (le_sum_bound _ Ht) as Hb. unfold sizez in Hb.
  rewrite Hl, <- width_n in Hb. split; [done|].
  rewrite <- (take_drop n d) at 1. f_equal.
  apply le_sum_inj; [done|apply w_bytes_ok|by rewrite Hl, w_length|].
  rewrite w_sum. symmetry. by apply Z.mod_small.
Qed.

Lemma read_int_prim (m : Rd Z) :
  (forall r, m r = let '(available, r) := need (Z.of_nat n) r in
                   if available then (read_le n (rd_data r), advance n r) else (0, r)) ->
  Prim (fun v => 0 <= v < 2 ^ width) w m.
Proof.
  intros Hm. split.
  - intros x rest Hx. rewrite Hm.
    rewrite need_reader by (unfold sizez; rewrite length_app, w_length; lia).
    unfold advance. cbn [rd_data reader rd_error].
    rewrite drop_app_length' by (by rewrite w_length). by rewrite read_le_write.
  - intros r x r' Hb. rewrite Hm. destruct (need _ r) as [[|] r1] eqn:Hn.
    + apply need_true in Hn as (-> & Hok & Hs). intros [= <- <-] _.
      destruct (read_le_split _ Hb Hs) as [Hr Hd]. split; [done|].
      exists (drop n (rd_data r)). rewrite <- Hd.
      split; [by apply rd_ok_reader|]. by destruct r as [d [e|]].
    + apply need_false in Hn. intros [= <- <-]. congruence.
Qed.
End MultiByte.

#[global] Instance r_u32_prim : Prim in_u32 w_u32 r_u32.
Proof.
  apply (read_int_prim 4 w_u32 32); [apply w_u32_bytes|done|apply w_u32_sum|done|done].
Qed.

#[global] Instance r_u64_prim : Prim in_u64 w_u64 r_u64.
Proof.
  apply (read_int_prim 8 w_u64 64); [apply w_u64_bytes|done| |done|done].
  intros v. rewrite w_u64_sum. apply u64_mod.
Qed.

#[global] Instance r_i64_prim : Prim in_i64 w_i64 r_i64.
Proof.
  split.
  - intros x rest Hx. unfold r_i64, w_i64.
    rewrite prim_dec_enc by apply u64_range. by rewrite i64_u64.
  - intros r x r' Hb. unfold r_i64. destruct (r_u64 r) as [v r1] eqn:Hr.
    intros [= <- <-] Hok. destruct (prim_enc_dec _ _ _ Hb Hr Hok) as (Hv & rest & -> & ->).
    split; [apply i64_range|]. exists rest. unfold w_i64. by rewrite u64_i64.
Qed.

#[global] Instance r_boolean_prim : Prim (fun _ => True) w_boolean r_boolean.
Proof.
  split.
  - intros [] rest _; unfold r_boolean, w_boolean;
      by rewrite prim_dec_enc by (unfold in_u8; lia).
  - intros r x r' Hb. unfold r_boolean. destruct (r_u8 r) as [v r1] eqn:Hr.
    destruct (rd_ok r1) eqn:Hok1; simpl; [|intros [= <- <-]; congruence].
    destruct (Z.ltb_spec 1 v); [intros [= <- <-]; by rewrite fail_not_ok|].
    intros [= <- <-] _. destruct (prim_enc_dec _ _ _ Hb Hr Hok1) as (Hv & rest & -> & ->).
    split; [done|]. exists rest. unfold w_boolean. unfold in_u8 in Hv.
    assert (v = 0 \/ v = 1) as [-> | ->] by lia; done.
Qed.

(** An enumeration read through its bound: [cast] inverts [to_u8] on the domain
    and is injective below the bound. *)
Lemma r_enum_prim {E} (to_u8 : E -> Z) (cast : Z -> E) (max : Z) (what : string) :
  max <= 256 ->
  (forall e, to_u8 e < max -> 0 <= to_u8 e /\ cast (to_u8 e) = e) ->
  (forall v, 0 <= v < max -> to_u8 (cast v) = v) ->
  Prim (fun e => to_u8 e < max) (fun e => w_u8 (to_u8 e)) (r_enum_value cast max what).
Proof.
  intros Hmax Hcast Hinv. split.
  - intros x rest Hx. destruct (Hcast x Hx) as [Hpos Hc]. unfold r_enum_value.
    rewrite prim_dec_enc by (unfold in_u8; lia). simpl.
    destruct (Z.leb_spec max (to_u8 x)); [lia|]. by rewrite Hc.
  - intros r x r' Hb. unfold r_enum_value. destruct (r_u8 r) as [v r1] eqn:Hr.
    destruct (rd_ok r1) eqn:Hok1; simpl; [|intros [= <- <-]; congruence].
    destruct (Z.leb_spec max v); [intros [= <- <-]; by rewrite fail_not_ok|].
    intros [= <- <-] _. destruct (prim_enc_dec _ _ _ Hb Hr Hok1) as (Hv & rest & -> & ->).
    unfold in_u8 in Hv. rewrite Hinv by lia. split; [lia|]. by exists rest.
Qed.

#[global] Instance r_bounded_count_prim max what :
  Prim (fun n => 0 <= n <= max /\ in_u32 n) w_u32 (r_bounded_count max what).
Proof.
  split.
  - intros x rest [Hx Hu]. unfold r_bounded_count. rewrite prim_dec_enc by done. simpl.
    destruct (Z.ltb_spec max x); [lia|done].
  - intros r x r' Hb. unfold r_bounded_count. destruct (r_u32 r) as [v r1] eqn:Hr.
    destruct (rd_ok r1) eqn:Hok1; simpl; [|intros [= <- <-]; congruence].
    destruct (Z.ltb_spec max v); [intros [= <- <-]; by rewrite fail_not_ok|].
    intros [= <- <-] _. destruct (prim_enc_dec _ _ _ Hb Hr Hok1) as (Hv & rest & -> & ->).
    split; [unfold in_u32 in *; lia|]. by exists rest.
Qed.

(** A length, its bound and that many bytes: the shape of [bytes] and [str]. *)
Lemma counted_prim {A} (message : string) (a0 : A) (get : list Z -> A) (put : A -> list Z)
  (m : Rd A) (max : Z) :
  (forall r, m r =
    let '(length, r) := r_u32 r in
    if negb (rd_ok r) then (a0, r)
    else if max <? length then (a0, fail StatusCode.OUT_OF_RANGE message r)
    else let '(available, r) := need length r in
         if available
         then (get (take (Z.to_nat length) (rd_data r)), advance (Z.to_nat length) r)
         else (a0, r)) ->
  (forall l, Forall in_u8 l -> put (get l) = l) -> (forall x, get (put x) = x) ->
  Prim (fun x => Forall in_u8 (put x) /\ sizez (put x) <= max /\ in_u32 (sizez (put x)))
       (fun x => w_bytes (put x)) m.
Proof.
  intros Hm Hto Hof. split.
  - intros x rest (Hx & Hmax & Hu). rewrite Hm. unfold w_bytes. rewrite <- app_assoc.
    rewrite u32_small by done. rewrite prim_dec_enc by done. simpl.
    destruct (Z.ltb_spec max (sizez (put x))); [lia|].
    rewrite need_reader by (unfold sizez; rewrite length_app; lia).
    unfold advance, sizez; cbn [rd_data reader rd_error]. rewrite Nat2Z.id.
    by rewrite take_app_length, drop_app_length, Hof.
  - intros r x r' Hb. rewrite Hm. destruct (r_u32 r) as [v r1] eqn:Hr.
    destruct (rd_ok r1) eqn:Hok1; simpl; [|intros [= <- <-]; congruence].
    destruct (Z.ltb_spec max v); [intros [= <- <-]; by rewrite fail_not_ok|].
    destruct (prim_enc_dec _ _ _ Hb Hr Hok1) as (Hv & rest & -> & ->).
    destruct (need v _) as [[|] r2] eqn:Hn;
      [|apply need_false in Hn; intros [= <- <-]; congruence].
    apply need_true in Hn as (-> & _ & Hs). intros [= <- <-] _.
    cbn [rd_data reader] in *. apply Forall_app in Hb as [_ Hb]. unfold in_u32 in Hv.
    assert (Hl : sizez (take (Z.to_nat v) rest) = v)
      by (unfold sizez in *; rewrite length_take; lia).
    rewrite Hto by (by apply Forall_take). rewrite Hl.
    split_and!; [by apply Forall_take|lia|unfold in_u32; lia|].
    exists (drop (Z.to_nat v) rest). split; [|done].
    unfold w_bytes. rewrite ?Hl, u32_small by done. by rewrite <- ?app_assoc, take_drop.
Qed.

#[global] Instance r_bytes_prim max :
  Prim (fun l => Forall in_u8 l /\ sizez l <= max /\ in_u32 (sizez l)) w_bytes (r_bytes max).
Proof.
  apply (counted_prim "declared byte length exceeds the bound" [] (fun l => l) (fun l => l));
    [done|done|done].
Qed.

(** ** Lemmas: strings *)

Lemma string_bytes_string l : Forall in_u8 l -> string_bytes (bytes_string l) = l.
Proof.
  unfold string_bytes, bytes_string. rewrite String.list_ascii_of_string_of_list_ascii.
  rewrite map_map. induction 1 as [|x l Hx Hl IH]; simpl; [done|]. rewrite IH. f_equal.
  unfold in_u8 in Hx. rewrite Ascii.N_ascii_embedding by lia. apply Z2N.id. lia.
Qed.

Lemma bytes_string_bytes s : bytes_string (string_bytes s) = s.
Proof.
  unfold string_bytes, bytes_string. rewrite map_map.
  rewrite (map_ext _ (fun c => c)), map_id
    by (intros c; rewrite N2Z.id; apply Ascii.ascii_N_embedding).
  apply String.string_of_list_ascii_of_string.
Qed.

Lemma string_bytes_u8 s : Forall in_u8 (string_bytes s).
Proof.
  unfold string_bytes. apply Forall_map, Forall_forall. intros c _. unfold in_u8.
  pose proof (Ascii.N_ascii_bounded c). lia.
Qed.

#[global] Instance r_str_prim max :
  Prim (str_fits max) w_str (r_str max).
Proof.
  destruct (counted_prim "declared string length exceeds the bound" EmptyString bytes_string
    string_bytes (r_str max) max (fun r => eq_refl) string_bytes_string bytes_string_bytes)
    as [Hde Hed].
  split; [intros x rest []; apply Hde; split; [apply string_bytes_u8|done]|].
  intros r x r' Hb Hr Hok. by destruct (Hed r x r' Hb Hr Hok) as ((_ & ?) & ?).
Qed.

(** ** Lemmas: injectivity of the writer *)

Lemma w_u8_inj a b : in_u8 a -> in_u8 b -> w_u8 a = w_u8 b -> a = b.
Proof. unfold w_u8. intros Ha Hb [= He]. by rewrite !u8_small in He. Qed.

Lemma w_u32_inj a b : in_u32 a -> in_u32 b -> w_u32 a = w_u32 b -> a = b.
Proof.
  intros Ha Hb He%(f_equal le_sum). by rewrite !w_u32_sum, !u32_small in He.
Qed.

Lemma w_u64_inj a b : in_u64 a -> in_u64 b -> w_u64 a = w_u64 b -> a = b.
Proof.
  intros Ha Hb He%(f_equal le_sum). by rewrite !w_u64_sum, !u64_small in He.
Qed.

Section FixedWidth.
Context {A : Type} (w : A -> list Z) (n : nat) (P : A -> Prop).
Context (Hlen : forall x, length (w x) = n) (Hn : n <> 0%nat)
  (Hinj : forall x y, P x -> P y -> w x = w y -> x = y).

Lemma length_concat_fixed l : length (concat (map w l)) = (n * length l)%nat.
Proof. induction l as [|x l IH]; simpl; [lia|]. rewrite length_app, IH, Hlen. lia. Qed.

(** A sequence of fixed-width elements can be read back from its bytes. *)
Lemma concat_fixed_inj l l' :
  Forall P l -> Forall P l' -> concat (map w l) = concat (map w l') -> l = l'.
Proof.
  revert l'; induction l as [|x l IH]; intros [|y l'] Hl Hl' He; [done| | |].
  - apply (f_equal length) in He. rewrite !length_concat_fixed in He. simpl in He. lia.
  - apply (f_equal length) in He. rewrite !length_concat_fixed in He. simpl in He. lia.
  - simpl in He. apply app_inj_1 in He as [Hx He]; [|by rewrite !Hlen].
    apply Forall_cons in Hl as [? ?], Hl' as [? ?].
    f_equal; [by apply Hinj|by apply IH].
Qed.

Lemma w_list_app_inj l l' r r' :
  Forall P l -> Forall P l' -> length l = length l' ->
  w_list w l ++ r = w_list w l' ++ r' -> l = l' /\ r = r'.
Proof.
  intros Hl Hl' Hlen' He. unfold w_list in He. rewrite <- !app_assoc in He.
  apply app_inj_1 in He as [_ He]; [|done].
  apply app_inj_1 in He as [He ->]; [|by rewrite !length_concat_fixed, Hlen'].
  split; [|done]. by apply concat_fixed_inj.
Qed.

(** The count in front of the last field of an encoding need not fit 32 bits. *)
Lemma w_list_inj l l' : Forall P l -> Forall P l' -> w_list w l = w_list w l' -> l = l'.
Proof.
  intros Hl Hl' He. unfold w_list in He. apply app_inj_1 in He as [_ He]; [|done].
  by apply concat_fixed_inj.
Qed.
End FixedWidth.
