(* ===== verification/Model.v ===== *)
(** * Authority, generations, evidence and explanations

    Models [include/nrp/model.hpp] and [src/model.cpp]. An [enum class] is an
    inductive type in a module of its own, with the numeric value of each
    enumerator ([to_u8]), the cast back ([of_u8]), its name and its validity
    test. In-memory enumerations are assumed to hold one of their enumerators. *)
From S2P Require Import Prelude Ids Canonical.

Module TrustLabel.
Inductive t :=
| UNKNOWN | REAL | SYNTHETIC | UNSUPPORTED.

#[global] Instance eq_dec : EqDecision t.
Proof. solve_decision. Defined.

Definition to_u8 (x : t) : Z :=
  match x with
  | UNKNOWN => 0
  | REAL => 1
  | SYNTHETIC => 2
  | UNSUPPORTED => 3
  end.

(** [static_cast] from the raw byte; outside the domain the cast is not used. *)
Definition of_u8 (raw : Z) : t :=
  match raw with
  | 0 => UNKNOWN
  | 1 => REAL
  | 2 => SYNTHETIC
  | _ => UNSUPPORTED
  end.

Definition to_string (x : t) : string :=
  match x with
  | UNKNOWN => "UNKNOWN"
  | REAL => "REAL"
  | SYNTHETIC => "SYNTHETIC"
  | UNSUPPORTED => "UNSUPPORTED"
  end.

Definition is_valid (x : t) : bool :=
  match x with
  | UNKNOWN | REAL | SYNTHETIC | UNSUPPORTED => true
  end.
End TrustLabel.

Module AuthorityDomain.
Inductive t :=
| FABRIC_STATE | RECOVERY_ADMISSION | RESOURCE_LEASE | POLICY | EVIDENCE_INGEST | COUNT.

#[global] Instance eq_dec : EqDecision t.
Proof. solve_decision. Defined.

Definition to_u8 (x : t) : Z :=
  match x with
  | FABRIC_STATE => 0
  | RECOVERY_ADMISSION => 1
  | RESOURCE_LEASE => 2
  | POLICY => 3
  | EVIDENCE_INGEST => 4
  | COUNT => 5
  end.

(** [static_cast] from the raw byte; outside the domain the cast is not used. *)
Definition of_u8 (raw : Z) : t :=
  match raw with
  | 0 => FABRIC_STATE
  | 1 => RECOVERY_ADMISSION
  | 2 => RESOURCE_LEASE
  | 3 => POLICY
  | 4 => EVIDENCE_INGEST
  | _ => COUNT
  end.

Definition to_string (x : t) : string :=
  match x with
  | FABRIC_STATE => "FABRIC_STATE"
  | RECOVERY_ADMISSION => "RECOVERY_ADMISSION"
  | RESOURCE_LEASE => "RESOURCE_LEASE"
  | POLICY => "POLICY"
  | EVIDENCE_INGEST => "EVIDENCE_INGEST"
  | COUNT => "COUNT"
  end.

Definition is_valid (x : t) : bool :=
  match x with
  | FABRIC_STATE | RECOVERY_ADMISSION | RESOURCE_LEASE | POLICY | EVIDENCE_INGEST => true
  | COUNT => false
  end.
End AuthorityDomain.

Module AuthorityLevel.
Inductive t :=
| NONE | OBSERVATION | ELIGIBILITY | RECOMMENDATION | AUTHORIZATION | ACKNOWLEDGEMENT |
  VERIFIED_EFFECT | COUNT.

#[global] Instance eq_dec : EqDecision t.
Proof. solve_decision. Defined.

Definition to_u8 (x : t) : Z :=
  match x with
  | NONE => 0
  | OBSERVATION => 1
  | ELIGIBILITY => 2
  | RECOMMENDATION => 3
  | AUTHORIZATION => 4
  | ACKNOWLEDGEMENT => 5
  | VERIFIED_EFFECT => 6
  | COUNT => 7
  end.

(** [static_cast] from the raw byte; outside the domain the cast is not used. *)
Definition of_u8 (raw : Z) : t :=
  match raw with
  | 0 => NONE
  | 1 => OBSERVATION
  | 2 => ELIGIBILITY
  | 3 => RECOMMENDATION
  | 4 => AUTHORIZATION
  | 5 => ACKNOWLEDGEMENT
  | 6 => VERIFIED_EFFECT
  | _ => COUNT
  end.

Definition to_string (x : t) : string :=
  match x with
  | NONE => "NONE"
  | OBSERVATION => "OBSERVATION"
  | ELIGIBILITY => "ELIGIBILITY"
  | RECOMMENDATION => "RECOMMENDATION"
  | AUTHORIZATION => "AUTHORIZATION"
  | ACKNOWLEDGEMENT => "ACKNOWLEDGEMENT"
  | VERIFIED_EFFECT => "VERIFIED_EFFECT"
  | COUNT => "COUNT"
  end.

Definition is_valid (x : t) : bool :=
  match x with
  | NONE | OBSERVATION | ELIGIBILITY | RECOMMENDATION | AUTHORIZATION | ACKNOWLEDGEMENT |
  VERIFIED_EFFECT => true
  | COUNT => false
  end.
End AuthorityLevel.

Module BindingState.
Inductive t :=
| CURRENT | STALE | UNKNOWN | CONFLICT | INVALID | UNSUPPORTED | COUNT.

#[global] Instance eq_dec : EqDecision t.
Proof. solve_decision. Defined.

Definition to_u8 (x : t) : Z :=
  match x with
  | CURRENT => 0
  | STALE => 1
  | UNKNOWN => 2
  | CONFLICT => 3
  | INVALID => 4
  | UNSUPPORTED => 5
  | COUNT => 6
  end.

(** [static_cast] from the raw byte; outside the domain the cast is not used. *)
Definition of_u8 (raw : Z) : t :=
  match raw with
  | 0 => CURRENT
  | 1 => STALE
  | 2 => UNKNOWN
  | 3 => CONFLICT
  | 4 => INVALID
  | 5 => UNSUPPORTED
  | _ => COUNT
  end.

Definition to_string (x : t) : string :=
  match x with
  | CURRENT => "CURRENT"
  | STALE => "STALE"
  | UNKNOWN => "UNKNOWN"
  | CONFLICT => "CONFLICT"
  | INVALID => "INVALID"
  | UNSUPPORTED => "UNSUPPORTED"
  | COUNT => "COUNT"
  end.
End BindingState.

Module EvidenceKind.
Inductive t :=
| LINK_OPERATIONAL | NODE_OPERATIONAL | SERVICE_REACHABLE_ENDPOINTS |
  RESOURCE_AVAILABLE_UNITS | RESOURCE_RESTORED | COUNT.

#[global] Instance eq_dec : EqDecision t.
Proof. solve_decision. Defined.

Definition to_u8 (x : t) : Z :=
  match x with
  | LINK_OPERATIONAL => 0
  | NODE_OPERATIONAL => 1
  | SERVICE_REACHABLE_ENDPOINTS => 2
  | RESOURCE_AVAILABLE_UNITS => 3
  | RESOURCE_RESTORED => 4
  | COUNT => 5
  end.

(** [static_cast] from the raw byte; outside the domain the cast is not used. *)
Definition of_u8 (raw : Z) : t :=
  match raw with
  | 0 => LINK_OPERATIONAL
  | 1 => NODE_OPERATIONAL
  | 2 => SERVICE_REACHABLE_ENDPOINTS
  | 3 => RESOURCE_AVAILABLE_UNITS
  | 4 => RESOURCE_RESTORED
  | _ => COUNT
  end.

Definition to_string (x : t) : string :=
  match x with
  | LINK_OPERATIONAL => "LINK_OPERATIONAL"
  | NODE_OPERATIONAL => "NODE_OPERATIONAL"
  | SERVICE_REACHABLE_ENDPOINTS => "SERVICE_REACHABLE_ENDPOINTS"
  | RESOURCE_AVAILABLE_UNITS => "RESOURCE_AVAILABLE_UNITS"
  | RESOURCE_RESTORED => "RESOURCE_RESTORED"
  | COUNT => "COUNT"
  end.

Definition is_valid (x : t) : bool :=
  match x with
  | LINK_OPERATIONAL | NODE_OPERATIONAL | SERVICE_REACHABLE_ENDPOINTS |
  RESOURCE_AVAILABLE_UNITS | RESOURCE_RESTORED => true
  | COUNT => false
  end.
End EvidenceKind.

Module SubjectState.
Inductive t :=
| RESOLVED | MISSING | STALE | AHEAD | CONFLICT | INVALID | UNSUPPORTED | COUNT.

#[global] Instance eq_dec : EqDecision t.
Proof. solve_decision. Defined.

Definition to_u8 (x : t) : Z :=
  match x with
  | RESOLVED => 0
  | MISSING => 1
  | STALE => 2
  | AHEAD => 3
  | CONFLICT => 4
  | INVALID => 5
  | UNSUPPORTED => 6
  | COUNT => 7
  end.

(** [static_cast] from the raw byte; outside the domain the cast is not used. *)
Definition of_u8 (raw : Z) : t :=
  match raw with
  | 0 => RESOLVED
  | 1 => MISSING
  | 2 => STALE
  | 3 => AHEAD
  | 4 => CONFLICT
  | 5 => INVALID
  | 6 => UNSUPPORTED
  | _ => COUNT
  end.

Definition to_string (x : t) : string :=
  match x with
  | RESOLVED => "RESOLVED"
  | MISSING => "MISSING"
  | STALE => "STALE"
  | AHEAD => "AHEAD"
  | CONFLICT => "CONFLICT"
  | INVALID => "INVALID"
  | UNSUPPORTED => "UNSUPPORTED"
  | COUNT => "COUNT"
  end.
End SubjectState.

Module ReasonCode.
Inductive t :=
| NONE | PLAN_ACCEPTED | PLAN_OPTIMAL_BY_OBJECTIVE | PROOF_EXHAUSTIVE_SEARCH |
  PROOF_DEPENDENCY_CYCLE | PROOF_GOAL_UPPER_BOUND | SEARCH_BUDGET_EXHAUSTED |
  EVIDENCE_SUBJECT_MISSING | EVIDENCE_SUBJECT_STALE | EVIDENCE_SUBJECT_AHEAD_OF_AUTHORITY |
  EVIDENCE_SUBJECT_CONFLICTING | EVIDENCE_SUBJECT_INVALID | EVIDENCE_SUBJECT_UNSUPPORTED |
  AUTHORITY_BINDING_MISSING | AUTHORITY_BINDING_STALE | AUTHORITY_BINDING_UNKNOWN |
  AUTHORITY_BINDING_CONFLICT | AUTHORITY_BINDING_INVALID | AUTHORITY_BINDING_UNSUPPORTED |
  AUTHORITY_LEVEL_INSUFFICIENT | REQUEST_INVALID_DEFINITION | REQUEST_UNSUPPORTED_PROBLEM |
  REQUEST_MALFORMED_ENCODING | REQUEST_POLICY_RESTRICTED_ACTION | REQUEST_FENCED_BY_EPOCH |
  VALIDATION_PRECONDITION_UNMET | VALIDATION_ORDERING_VIOLATION |
  VALIDATION_RESOURCE_VIOLATION | VALIDATION_SAFETY_VIOLATION | VALIDATION_AUTHORITY_MISMATCH |
  VALIDATION_EVIDENCE_BINDING_MISMATCH | VALIDATION_GOAL_UNMET |
  VALIDATION_OBJECTIVE_MISMATCH | VALIDATION_DIGEST_MISMATCH | VALIDATION_OCCURRENCE_EXCEEDED |
  VALIDATION_EXCLUSION_VIOLATION | VALIDATION_COMPENSATION_MISSING | VALIDATION_FENCED |
  PERSISTENCE_INTEGRITY_FAILURE | PERSISTENCE_VERSION_UNSUPPORTED |
  PERSISTENCE_SEQUENCE_REGRESSION | PERSISTENCE_TRAILING_GARBAGE |
  PERSISTENCE_TORN_TAIL_RECOVERED | PERSISTENCE_EPOCH_ADVANCED |
  PERSISTENCE_STALE_DYNAMIC_STATE_FENCED | PROTOCOL_FRAME_TOO_LARGE | PROTOCOL_BAD_MAGIC |
  PROTOCOL_BAD_VERSION | PROTOCOL_BAD_CHECKSUM | PROTOCOL_TRUNCATED | PROTOCOL_TRAILING_BYTES |
  PROTOCOL_SEQUENCE_REGRESSION | PROTOCOL_SESSION_MISMATCH | PROTOCOL_STICKY_FAILURE |
  PROTOCOL_DECODE_REJECTED | SESSION_LIMIT_REACHED | QUEUE_LIMIT_REACHED | SHUTDOWN_REQUESTED |
  COUNT.

#[global] Instance eq_dec : EqDecision t.
Proof. solve_decision. Defined.

Definition to_u8 (x : t) : Z :=
  match x with
  | NONE => 0
  | PLAN_ACCEPTED => 1
  | PLAN_OPTIMAL_BY_OBJECTIVE => 2
  | PROOF_EXHAUSTIVE_SEARCH => 3
  | PROOF_DEPENDENCY_CYCLE => 4
  | PROOF_GOAL_UPPER_BOUND => 5
  | SEARCH_BUDGET_EXHAUSTED => 6
  | EVIDENCE_SUBJECT_MISSING => 7
  | EVIDENCE_SUBJECT_STALE => 8
  | EVIDENCE_SUBJECT_AHEAD_OF_AUTHORITY => 9
  | EVIDENCE_SUBJECT_CONFLICTING => 10
  | EVIDENCE_SUBJECT_INVALID => 11
  | EVIDENCE_SUBJECT_UNSUPPORTED => 12
  | AUTHORITY_BINDING_MISSING => 13
  | AUTHORITY_BINDING_STALE => 14
  | AUTHORITY_BINDING_UNKNOWN => 15
  | AUTHORITY_BINDING_CONFLICT => 16
  | AUTHORITY_BINDING_INVALID => 17
  | AUTHORITY_BINDING_UNSUPPORTED => 18
  | AUTHORITY_LEVEL_INSUFFICIENT => 19
  | REQUEST_INVALID_DEFINITION => 20
  | REQUEST_UNSUPPORTED_PROBLEM => 21
  | REQUEST_MALFORMED_ENCODING => 22
  | REQUEST_POLICY_RESTRICTED_ACTION => 23
  | REQUEST_FENCED_BY_EPOCH => 24
  | VALIDATION_PRECONDITION_UNMET => 25
  | VALIDATION_ORDERING_VIOLATION => 26
  | VALIDATION_RESOURCE_VIOLATION => 27
  | VALIDATION_SAFETY_VIOLATION => 28
  | VALIDATION_AUTHORITY_MISMATCH => 29
  | VALIDATION_EVIDENCE_BINDING_MISMATCH => 30
  | VALIDATION_GOAL_UNMET => 31
  | VALIDATION_OBJECTIVE_MISMATCH => 32
  | VALIDATION_DIGEST_MISMATCH => 33
  | VALIDATION_OCCURRENCE_EXCEEDED => 34
  | VALIDATION_EXCLUSION_VIOLATION => 35
  | VALIDATION_COMPENSATION_MISSING => 36
  | VALIDATION_FENCED => 37
  | PERSISTENCE_INTEGRITY_FAILURE => 38
  | PERSISTENCE_VERSION_UNSUPPORTED => 39
  | PERSISTENCE_SEQUENCE_REGRESSION => 40
  | PERSISTENCE_TRAILING_GARBAGE => 41
  | PERSISTENCE_TORN_TAIL_RECOVERED => 42
  | PERSISTENCE_EPOCH_ADVANCED => 43
  | PERSISTENCE_STALE_DYNAMIC_STATE_FENCED => 44
  | PROTOCOL_FRAME_TOO_LARGE => 45
  | PROTOCOL_BAD_MAGIC => 46
  | PROTOCOL_BAD_VERSION => 47
  | PROTOCOL_BAD_CHECKSUM => 48
  | PROTOCOL_TRUNCATED => 49
  | PROTOCOL_TRAILING_BYTES => 50
  | PROTOCOL_SEQUENCE_REGRESSION => 51
  | PROTOCOL_SESSION_MISMATCH => 52
  | PROTOCOL_STICKY_FAILURE => 53
  | PROTOCOL_DECODE_REJECTED => 54
  | SESSION_LIMIT_REACHED => 55
  | QUEUE_LIMIT_REACHED => 56
  | SHUTDOWN_REQUESTED => 57
  | COUNT => 58
  end.

(** [static_cast] from the raw byte; outside the domain the cast is not used. *)
Definition of_u8 (raw : Z) : t :=
  match raw with
  | 0 => NONE
  | 1 => PLAN_ACCEPTED
  | 2 => PLAN_OPTIMAL_BY_OBJECTIVE
  | 3 => PROOF_EXHAUSTIVE_SEARCH
  | 4 => PROOF_DEPENDENCY_CYCLE
  | 5 => PROOF_GOAL_UPPER_BOUND
  | 6 => SEARCH_BUDGET_EXHAUSTED
  | 7 => EVIDENCE_SUBJECT_MISSING
  | 8 => EVIDENCE_SUBJECT_STALE
  | 9 => EVIDENCE_SUBJECT_AHEAD_OF_AUTHORITY
  | 10 => EVIDENCE_SUBJECT_CONFLICTING
  | 11 => EVIDENCE_SUBJECT_INVALID
  | 12 => EVIDENCE_SUBJECT_UNSUPPORTED
  | 13 => AUTHORITY_BINDING_MISSING
  | 14 => AUTHORITY_BINDING_STALE
  | 15 => AUTHORITY_BINDING_UNKNOWN
  | 16 => AUTHORITY_BINDING_CONFLICT
  | 17 => AUTHORITY_BINDING_INVALID
  | 18 => AUTHORITY_BINDING_UNSUPPORTED
  | 19 => AUTHORITY_LEVEL_INSUFFICIENT
  | 20 => REQUEST_INVALID_DEFINITION
  | 21 => REQUEST_UNSUPPORTED_PROBLEM
  | 22 => REQUEST_MALFORMED_ENCODING
  | 23 => REQUEST_POLICY_RESTRICTED_ACTION
  | 24 => REQUEST_FENCED_BY_EPOCH
  | 25 => VALIDATION_PRECONDITION_UNMET
  | 26 => VALIDATION_ORDERING_VIOLATION
  | 27 => VALIDATION_RESOURCE_VIOLATION
  | 28 => VALIDATION_SAFETY_VIOLATION
  | 29 => VALIDATION_AUTHORITY_MISMATCH
  | 30 => VALIDATION_EVIDENCE_BINDING_MISMATCH
  | 31 => VALIDATION_GOAL_UNMET
  | 32 => VALIDATION_OBJECTIVE_MISMATCH
  | 33 => VALIDATION_DIGEST_MISMATCH
  | 34 => VALIDATION_OCCURRENCE_EXCEEDED
  | 35 => VALIDATION_EXCLUSION_VIOLATION
  | 36 => VALIDATION_COMPENSATION_MISSING
  | 37 => VALIDATION_FENCED
  | 38 => PERSISTENCE_INTEGRITY_FAILURE
  | 39 => PERSISTENCE_VERSION_UNSUPPORTED
  | 40 => PERSISTENCE_SEQUENCE_REGRESSION
  | 41 => PERSISTENCE_TRAILING_GARBAGE
  | 42 => PERSISTENCE_TORN_TAIL_RECOVERED
  | 43 => PERSISTENCE_EPOCH_ADVANCED
  | 44 => PERSISTENCE_STALE_DYNAMIC_STATE_FENCED
  | 45 => PROTOCOL_FRAME_TOO_LARGE
  | 46 => PROTOCOL_BAD_MAGIC
  | 47 => PROTOCOL_BAD_VERSION
  | 48 => PROTOCOL_BAD_CHECKSUM
  | 49 => PROTOCOL_TRUNCATED
  | 50 => PROTOCOL_TRAILING_BYTES
  | 51 => PROTOCOL_SEQUENCE_REGRESSION
  | 52 => PROTOCOL_SESSION_MISMATCH
  | 53 => PROTOCOL_STICKY_FAILURE
  | 54 => PROTOCOL_DECODE_REJECTED
  | 55 => SESSION_LIMIT_REACHED
  | 56 => QUEUE_LIMIT_REACHED
  | 57 => SHUTDOWN_REQUESTED
  | _ => COUNT
  end.

Definition to_string (x : t) : string :=
  match x with
  | NONE => "NONE"
  | PLAN_ACCEPTED => "PLAN_ACCEPTED"
  | PLAN_OPTIMAL_BY_OBJECTIVE => "PLAN_OPTIMAL_BY_OBJECTIVE"
  | PROOF_EXHAUSTIVE_SEARCH => "PROOF_EXHAUSTIVE_SEARCH"
  | PROOF_DEPENDENCY_CYCLE => "PROOF_DEPENDENCY_CYCLE"
  | PROOF_GOAL_UPPER_BOUND => "PROOF_GOAL_UPPER_BOUND"
  | SEARCH_BUDGET_EXHAUSTED => "SEARCH_BUDGET_EXHAUSTED"
  | EVIDENCE_SUBJECT_MISSING => "EVIDENCE_SUBJECT_MISSING"
  | EVIDENCE_SUBJECT_STALE => "EVIDENCE_SUBJECT_STALE"
  | EVIDENCE_SUBJECT_AHEAD_OF_AUTHORITY => "EVIDENCE_SUBJECT_AHEAD_OF_AUTHORITY"
  | EVIDENCE_SUBJECT_CONFLICTING => "EVIDENCE_SUBJECT_CONFLICTING"
  | EVIDENCE_SUBJECT_INVALID => "EVIDENCE_SUBJECT_INVALID"
  | EVIDENCE_SUBJECT_UNSUPPORTED => "EVIDENCE_SUBJECT_UNSUPPORTED"
  | AUTHORITY_BINDING_MISSING => "AUTHORITY_BINDING_MISSING"
  | AUTHORITY_BINDING_STALE => "AUTHORITY_BINDING_STALE"
  | AUTHORITY_BINDING_UNKNOWN => "AUTHORITY_BINDING_UNKNOWN"
  | AUTHORITY_BINDING_CONFLICT => "AUTHORITY_BINDING_CONFLICT"
  | AUTHORITY_BINDING_INVALID => "AUTHORITY_BINDING_INVALID"
  | AUTHORITY_BINDING_UNSUPPORTED => "AUTHORITY_BINDING_UNSUPPORTED"
  | AUTHORITY_LEVEL_INSUFFICIENT => "AUTHORITY_LEVEL_INSUFFICIENT"
  | REQUEST_INVALID_DEFINITION => "REQUEST_INVALID_DEFINITION"
  | REQUEST_UNSUPPORTED_PROBLEM => "REQUEST_UNSUPPORTED_PROBLEM"
  | REQUEST_MALFORMED_ENCODING => "REQUEST_MALFORMED_ENCODING"
  | REQUEST_POLICY_RESTRICTED_ACTION => "REQUEST_POLICY_RESTRICTED_ACTION"
  | REQUEST_FENCED_BY_EPOCH => "REQUEST_FENCED_BY_EPOCH"
  | VALIDATION_PRECONDITION_UNMET => "VALIDATION_PRECONDITION_UNMET"
  | VALIDATION_ORDERING_VIOLATION => "VALIDATION_ORDERING_VIOLATION"
  | VALIDATION_RESOURCE_VIOLATION => "VALIDATION_RESOURCE_VIOLATION"
  | VALIDATION_SAFETY_VIOLATION => "VALIDATION_SAFETY_VIOLATION"
  | VALIDATION_AUTHORITY_MISMATCH => "VALIDATION_AUTHORITY_MISMATCH"
  | VALIDATION_EVIDENCE_BINDING_MISMATCH => "VALIDATION_EVIDENCE_BINDING_MISMATCH"
  | VALIDATION_GOAL_UNMET => "VALIDATION_GOAL_UNMET"
  | VALIDATION_OBJECTIVE_MISMATCH => "VALIDATION_OBJECTIVE_MISMATCH"
  | VALIDATION_DIGEST_MISMATCH => "VALIDATION_DIGEST_MISMATCH"
  | VALIDATION_OCCURRENCE_EXCEEDED => "VALIDATION_OCCURRENCE_EXCEEDED"
  | VALIDATION_EXCLUSION_VIOLATION => "VALIDATION_EXCLUSION_VIOLATION"
  | VALIDATION_COMPENSATION_MISSING => "VALIDATION_COMPENSATION_MISSING"
  | VALIDATION_FENCED => "VALIDATION_FENCED"
  | PERSISTENCE_INTEGRITY_FAILURE => "PERSISTENCE_INTEGRITY_FAILURE"
  | PERSISTENCE_VERSION_UNSUPPORTED => "PERSISTENCE_VERSION_UNSUPPORTED"
  | PERSISTENCE_SEQUENCE_REGRESSION => "PERSISTENCE_SEQUENCE_REGRESSION"
  | PERSISTENCE_TRAILING_GARBAGE => "PERSISTENCE_TRAILING_GARBAGE"
  | PERSISTENCE_TORN_TAIL_RECOVERED => "PERSISTENCE_TORN_TAIL_RECOVERED"
  | PERSISTENCE_EPOCH_ADVANCED => "PERSISTENCE_EPOCH_ADVANCED"
  | PERSISTENCE_STALE_DYNAMIC_STATE_FENCED => "PERSISTENCE_STALE_DYNAMIC_STATE_FENCED"
  | PROTOCOL_FRAME_TOO_LARGE => "PROTOCOL_FRAME_TOO_LARGE"
  | PROTOCOL_BAD_MAGIC => "PROTOCOL_BAD_MAGIC"
  | PROTOCOL_BAD_VERSION => "PROTOCOL_BAD_VERSION"
  | PROTOCOL_BAD_CHECKSUM => "PROTOCOL_BAD_CHECKSUM"
  | PROTOCOL_TRUNCATED => "PROTOCOL_TRUNCATED"
  | PROTOCOL_TRAILING_BYTES => "PROTOCOL_TRAILING_BYTES"
  | PROTOCOL_SEQUENCE_REGRESSION => "PROTOCOL_SEQUENCE_REGRESSION"
  | PROTOCOL_SESSION_MISMATCH => "PROTOCOL_SESSION_MISMATCH"
  | PROTOCOL_STICKY_FAILURE => "PROTOCOL_STICKY_FAILURE"
  | PROTOCOL_DECODE_REJECTED => "PROTOCOL_DECODE_REJECTED"
  | SESSION_LIMIT_REACHED => "SESSION_LIMIT_REACHED"
  | QUEUE_LIMIT_REACHED => "QUEUE_LIMIT_REACHED"
  | SHUTDOWN_REQUESTED => "SHUTDOWN_REQUESTED"
  | COUNT => "COUNT"
  end.
End ReasonCode.

(** ** Authority *)

Record AuthorityBinding := mkBinding {
  bind_domain : AuthorityDomain.t;
  bind_authority : Z;
  bind_required : Generation;
  bind_granted : Generation;
  bind_level : AuthorityLevel.t
}.

#[global] Instance AuthorityBinding_eq_dec : EqDecision AuthorityBinding.
Proof. solve_decision. Defined.

(** [AuthorityBinding::evaluate] *)
Definition evaluate (b : AuthorityBinding) : BindingState.t :=
  if is_zero (bind_authority b) then BindingState.UNKNOWN
  else if bind_granted b <? bind_required b then BindingState.STALE
  else if bind_required b <? bind_granted b then BindingState.INVALID
  else if bool_decide (bind_level b = AuthorityLevel.NONE) then BindingState.UNKNOWN
  else BindingState.CURRENT.

Definition binding_key (b : AuthorityBinding) : list Z :=
  [AuthorityDomain.to_u8 (bind_domain b); bind_authority b; bind_required b; bind_granted b;
   AuthorityLevel.to_u8 (bind_level b)].

Definition binding_lt : AuthorityBinding -> AuthorityBinding -> bool := lt_on binding_key.

Record AuthorityVector := mkAuthority {
  auth_epoch : Epoch;
  auth_boot : BootId;
  auth_bindings : list AuthorityBinding
}.

Definition authority_canonicalise (v : AuthorityVector) : AuthorityVector :=
  mkAuthority (auth_epoch v) (auth_boot v) (sort_by binding_lt (auth_bindings v)).

(** [AuthorityVector::find]: the first binding of the domain. *)
Fixpoint find_binding (bindings : list AuthorityBinding) (domain : AuthorityDomain.t)
  : option AuthorityBinding :=
  match bindings with
  | [] => None
  | b :: rest => if decide (bind_domain b = domain) then Some b else find_binding rest domain
  end.

Definition authority_find (v : AuthorityVector) (domain : AuthorityDomain.t)
  : option AuthorityBinding := find_binding (auth_bindings v) domain.

(** [AuthorityVector::all_current] *)
Fixpoint bindings_all_current (bindings : list AuthorityBinding) : bool :=
  match bindings with
  | [] => true
  | b :: rest =>
      if negb (bool_decide (evaluate b = BindingState.CURRENT)) then false
      else if existsb (fun other => bool_decide (bind_domain b = bind_domain other)) rest
      then false
      else bindings_all_current rest
  end.

Definition all_current (v : AuthorityVector) : bool := bindings_all_current (auth_bindings v).

Definition encode_binding (b : AuthorityBinding) : list Z :=
  w_u8 (AuthorityDomain.to_u8 (bind_domain b)) ++ w_u64 (bind_authority b) ++
  w_u64 (bind_required b) ++ w_u64 (bind_granted b) ++
  w_u8 (AuthorityLevel.to_u8 (bind_level b)).

Definition encode_authority (v : AuthorityVector) : list Z :=
  w_u64 (auth_epoch v) ++ w_u64 (auth_boot v) ++ w_list encode_binding (auth_bindings v).

Definition authority_digest (v : AuthorityVector) : Digest := digest_of (encode_authority v).

(** The loop of [evaluate_domain]; [found] is the binding seen so far. *)
Fixpoint evaluate_domain_loop (bindings : list AuthorityBinding)
  (domain : AuthorityDomain.t) (found : option AuthorityBinding) : BindingState.t :=
  match bindings with
  | [] =>
      match found with
      | None => BindingState.UNKNOWN
      | Some b => evaluate b
      end
  | b :: rest =>
      if negb (bool_decide (bind_domain b = domain)) then evaluate_domain_loop rest domain found
      else match found with
           | Some _ => BindingState.CONFLICT
           | None => evaluate_domain_loop rest domain (Some b)
           end
  end.

Definition evaluate_domain (v : AuthorityVector) (domain : AuthorityDomain.t) : BindingState.t :=
  evaluate_domain_loop (auth_bindings v) domain None.

(** ** Fences *)

Record Fence := mkFence {
  fence_epoch : Epoch;
  fence_boot : BootId;
  fence_domain : AuthorityDomain.t;
  fence_minimum_generation : Generation;
  fence_sequence : Sequence;
  fence_reason : string
}.

#[global] Instance Fence_eq_dec : EqDecision Fence.
Proof. solve_decision. Defined.

(** [operator<] on fences does not look at the reason. *)
Definition fence_key (f : Fence) : list Z :=
  [fence_epoch f; fence_boot f; AuthorityDomain.to_u8 (fence_domain f);
   fence_minimum_generation f; fence_sequence f].

Definition fence_lt : Fence -> Fence -> bool := lt_on fence_key.

Definition encode_fence (f : Fence) : list Z :=
  w_u64 (fence_epoch f) ++ w_u64 (fence_boot f) ++
  w_u8 (AuthorityDomain.to_u8 (fence_domain f)) ++ w_u64 (fence_minimum_generation f) ++
  w_u64 (fence_sequence f) ++ w_str (fence_reason f).

(** ** Evidence *)

Definition evidence_expected_subject (kind : EvidenceKind.t) : SubjectKind.t :=
  match kind with
  | EvidenceKind.LINK_OPERATIONAL => SubjectKind.LINK
  | EvidenceKind.NODE_OPERATIONAL => SubjectKind.NODE
  | EvidenceKind.SERVICE_REACHABLE_ENDPOINTS => SubjectKind.SERVICE
  | EvidenceKind.RESOURCE_AVAILABLE_UNITS => SubjectKind.RESOURCE
  | EvidenceKind.RESOURCE_RESTORED => SubjectKind.RESOURCE
  | EvidenceKind.COUNT => SubjectKind.NONE
  end.

Record EvidenceFact := mkFact {
  fact_id : Z;
  fact_kind : EvidenceKind.t;
  fact_subject : Subject;
  fact_value : Z;
  fact_generation : Generation;
  fact_source_domain : AuthorityDomain.t;
  fact_source : Z;
  fact_label : TrustLabel.t;
  fact_sequence : Sequence
}.

#[global] Instance EvidenceFact_eq_dec : EqDecision EvidenceFact.
Proof. solve_decision. Defined.

(** [operator<] on facts does not look at the trust label. *)
Definition fact_key (f : EvidenceFact) : list Z :=
  subject_key (fact_subject f) ++
  [EvidenceKind.to_u8 (fact_kind f); AuthorityDomain.to_u8 (fact_source_domain f);
   fact_source f; fact_sequence f; fact_generation f; fact_value f; fact_id f].

Definition fact_lt : EvidenceFact -> EvidenceFact -> bool := lt_on fact_key.

Record EvidenceBundle := mkEvidence {
  ev_epoch : Epoch;
  ev_boot : BootId;
  ev_facts : list EvidenceFact
}.

Definition evidence_canonicalise (e : EvidenceBundle) : EvidenceBundle :=
  mkEvidence (ev_epoch e) (ev_boot e) (sort_by fact_lt (ev_facts e)).

Definition encode_fact (f : EvidenceFact) : list Z :=
  w_u64 (fact_id f) ++ w_u8 (EvidenceKind.to_u8 (fact_kind f)) ++
  w_u8 (SubjectKind.to_u8 (subject_kind (fact_subject f))) ++
  w_u64 (subject_id (fact_subject f)) ++ w_u64 (fact_value f) ++
  w_u64 (fact_generation f) ++ w_u8 (AuthorityDomain.to_u8 (fact_source_domain f)) ++
  w_u64 (fact_source f) ++ w_u8 (TrustLabel.to_u8 (fact_label f)) ++ w_u64 (fact_sequence f).

Definition encode_evidence (e : EvidenceBundle) : list Z :=
  w_u64 (ev_epoch e) ++ w_u64 (ev_boot e) ++ w_list encode_fact (ev_facts e).

Definition evidence_digest (e : EvidenceBundle) : Digest := digest_of (encode_evidence e).

Record EvidenceKey := mkEvidenceKey { ek_kind : EvidenceKind.t; ek_subject : Subject }.

#[global] Instance EvidenceKey_eq_dec : EqDecision EvidenceKey.
Proof. solve_decision. Defined.

Definition evidence_key_key (k : EvidenceKey) : list Z :=
  subject_key (ek_subject k) ++ [EvidenceKind.to_u8 (ek_kind k)].

(** ** Explanations *)

Record Explanation := mkExplanation {
  ex_code : ReasonCode.t;
  ex_subject : Subject;
  ex_detail_a : Z;
  ex_detail_b : Z;
  ex_text : string
}.

Definition encode_explanation (e : Explanation) : list Z :=
  w_u8 (ReasonCode.to_u8 (ex_code e)) ++
  w_u8 (SubjectKind.to_u8 (subject_kind (ex_subject e))) ++
  w_u64 (subject_id (ex_subject e)) ++ w_u64 (ex_detail_a e) ++ w_u64 (ex_detail_b e) ++
  w_str (ex_text e).

(** [ExplanationLog]: a list whose growth stops at its capacity. *)
Record ExplanationLog := mkLog {
  log_entries : list Explanation;
  log_cap : Z;
  log_overflowed : bool
}.

Definition new_log (cap : Z) : ExplanationLog :=
  mkLog [] (if cap =? 0 then 1 else cap) false.

Definition overflow_marker : Explanation :=
  mkExplanation ReasonCode.REQUEST_UNSUPPORTED_PROBLEM default_subject 0 0
    "explanation log capacity reached; further entries truncated".

(** [entries_.back() = marker], or the marker alone on an empty list. *)
Definition replace_back (l : list Explanation) (marker : Explanation) : list Explanation :=
  match l with
  | [] => [marker]
  | _ => take (length l - 1) l ++ [marker]
  end.

Definition log_add (log : ExplanationLog) (e : Explanation) : ExplanationLog :=
  if log_cap log <=? sizez (log_entries log) then
    if negb (log_overflowed log)
    then mkLog (replace_back (log_entries log) overflow_marker) (log_cap log) true
    else log
  else mkLog (log_entries log ++ [e]) (log_cap log) (log_overflowed log).

Definition log_add_text (log : ExplanationLog) (code : ReasonCode.t) (text : string)
  : ExplanationLog := log_add log (mkExplanation code default_subject 0 0 text).

Definition log_add_subject (log : ExplanationLog) (code : ReasonCode.t) (subject : Subject)
  (a b : Z) (text : string) : ExplanationLog :=
  log_add log (mkExplanation code subject a b text).

(** ** Lemmas: authority *)

Lemma evaluate_current_iff b :
  evaluate b = BindingState.CURRENT <->
  bind_authority b <> 0 /\ bind_granted b = bind_required b /\
  bind_level b <> AuthorityLevel.NONE.
Proof.
  unfold evaluate, is_zero.
  destruct (Z.eqb_spec (bind_authority b) 0); [split; [done|tauto]|].
  destruct (Z.ltb_spec (bind_granted b) (bind_required b)); [split; [done|lia]|].
  destruct (Z.ltb_spec (bind_required b) (bind_granted b)); [split; [done|lia]|].
  case_bool_decide; (split; [done || (intros; split_and!; [done|lia|done])|tauto || done]).
Qed.

(** The bindings of one domain, in order. *)
Definition domain_bindings (v : AuthorityVector) (domain : AuthorityDomain.t)
  : list AuthorityBinding := filter (fun b => bind_domain b = domain) (auth_bindings v).

Lemma evaluate_domain_loop_spec bindings domain found :
  evaluate_domain_loop bindings domain found =
  match option_list found ++ filter (fun b => bind_domain b = domain) bindings with
  | [] => BindingState.UNKNOWN
  | [b] => evaluate b
  | _ => BindingState.CONFLICT
  end.
Proof.
  revert found; induction bindings as [|b rest IH]; intros found; simpl.
  { destruct found; done. }
  rewrite filter_cons. case_bool_decide as Hd; simpl.
  - rewrite decide_True by done. destruct found as [b'|]; simpl; [done|].
    rewrite IH. done.
  - rewrite decide_False by done. apply IH.
Qed.

(** The three shapes of a domain: absent, single and contradictory. *)
Lemma evaluate_domain_spec v domain :
  evaluate_domain v domain =
  match domain_bindings v domain with
  | [] => BindingState.UNKNOWN
  | [b] => evaluate b
  | _ => BindingState.CONFLICT
  end.
Proof. apply evaluate_domain_loop_spec. Qed.

Lemma find_binding_spec bindings domain :
  find_binding bindings domain = head (filter (fun b => bind_domain b = domain) bindings).
Proof.
  induction bindings as [|b rest IH]; simpl; [done|].
  rewrite filter_cons. by destruct (decide (bind_domain b = domain)).
Qed.

(** A domain that evaluates to CURRENT has the binding [find] returns. *)
Lemma evaluate_domain_current_find v domain :
  evaluate_domain v domain = BindingState.CURRENT ->
  exists b, authority_find v domain = Some b /\ bind_domain b = domain /\
            evaluate b = BindingState.CURRENT.
Proof.
  rewrite evaluate_domain_spec. unfold authority_find. rewrite find_binding_spec.
  fold (domain_bindings v domain).
  destruct (domain_bindings v domain) as [|b [|b' l]] eqn:Hl; [done| |done].
  intros Hc. exists b. split_and!; [done| |done].
  assert (Hin : b ∈ domain_bindings v domain) by (rewrite Hl; left).
  unfold domain_bindings in Hin. by apply list_elem_of_filter in Hin as [? _].
Qed.

Lemma bindings_all_current_iff bindings :
  bindings_all_current bindings = true <->
  Forall (fun b => evaluate b = BindingState.CURRENT) bindings /\
  NoDup (map bind_domain bindings).
Proof.
  induction bindings as [|b rest IH]; simpl.
  { split; [|done]. intros _. split; constructor. }
  rewrite Forall_cons, NoDup_cons.
  case_bool_decide as Hc; simpl; [|split; [done|tauto]].
  destruct (existsb _ rest) eqn:He.
  - split; [done|]. intros (_ & Hn & _). exfalso. apply Hn.
    apply existsb_exists in He as (o & Ho & Hd). apply bool_decide_eq_true in Hd.
    rewrite Hd. apply list_elem_of_fmap. exists o. split; [done|].
    by apply list_elem_of_In.
  - rewrite IH. split; [|tauto]. intros [Hf Hn]. split_and!; try done.
    intros Hin. apply list_elem_of_fmap in Hin as (o & Hd & Ho).
    assert (existsb (fun other => bool_decide (bind_domain b = bind_domain other)) rest = true);
      [|congruence].
    apply existsb_exists. exists o. split; [by apply list_elem_of_In|].
    by apply bool_decide_eq_true.
Qed.

(** ** Lemmas: explanation log *)

Lemma length_replace_back l m : (0 < length l)%nat -> length (replace_back l m) = length l.
Proof.
  destruct l as [|x l]; simpl; [lia|]. intros _.
  rewrite length_app, length_take. simpl. lia.
Qed.

Lemma log_add_cap log e : log_cap (log_add log e) = log_cap log.
Proof. unfold log_add. by destruct (_ <=? _), (log_overflowed log). Qed.

Lemma log_add_bounded log e :
  0 < log_cap log -> sizez (log_entries log) <= log_cap log ->
  sizez (log_entries (log_add log e)) <= log_cap (log_add log e).
Proof.
  intros Hc Hb. rewrite log_add_cap. unfold log_add, sizez in *.
  destruct (Z.leb_spec (log_cap log) (Z.of_nat (length (log_entries log)))).
  - destruct (log_overflowed log); simpl; [lia|].
    rewrite length_replace_back by lia. lia.
  - simpl. rewrite length_app. simpl. lia.
Qed.

(** The log a caller starts from, and every log it reaches from there. *)
Inductive log_reachable (cap : Z) : ExplanationLog -> Prop :=
| log_reach_new : log_reachable cap (new_log cap)
| log_reach_add log e : log_reachable cap log -> log_reachable cap (log_add log e).

Lemma log_reachable_inv cap log :
  0 <= cap -> log_reachable cap log ->
  0 < log_cap log /\ sizez (log_entries log) <= log_cap log /\
  log_cap log = (if cap =? 0 then 1 else cap).
Proof.
  intros Hcap. induction 1 as [|log e _ (Hc & Hb & He)].
  - unfold new_log, sizez; simpl. destruct (Z.eqb_spec cap 0); lia.
  - split_and!; [by rewrite log_add_cap|by apply log_add_bounded|by rewrite log_add_cap].
Qed.

(** ** Properties *)

(** Authority is established for a domain exactly when the vector holds
    one binding for it, of a named authority, whose granted generation is the
    required one and whose level is not NONE; a second binding for the domain,
    even an identical one, is a conflict, and a missing one is unknown. *)
Theorem evaluate_domain_exact v domain :
  (evaluate_domain v domain = BindingState.CURRENT <->
   exists b, domain_bindings v domain = [b] /\ bind_authority b <> 0 /\
             bind_granted b = bind_required b /\ bind_level b <> AuthorityLevel.NONE) /\
  (evaluate_domain v domain = BindingState.CONFLICT <->
   (1 < length (domain_bindings v domain))%nat) /\
  (domain_bindings v domain = [] -> evaluate_domain v domain = BindingState.UNKNOWN).
Proof.
  rewrite evaluate_domain_spec.
  destruct (domain_bindings v domain) as [|b [|b' l]]; simpl.
  - split_and!; [split; [done|by intros (? & [=] & _)]|split; [done|lia]|done].
  - split_and!; [|split; [|lia]|done].
    + rewrite evaluate_current_iff. split; [intros H; by exists b|].
      by intros (? & [= <-] & H).
    + unfold evaluate. destruct (is_zero (bind_authority b)), (bind_granted b <? bind_required b),
        (bind_required b <? bind_granted b), (bool_decide (bind_level b = AuthorityLevel.NONE));
        done.
  - split_and!; [split; [done|by intros (? & [=] & _)]|split; [lia|done]|done].
Qed.

(** An explanation log never grows beyond its capacity, whatever is added
    to it; a capacity of zero is a capacity of one. *)
Theorem explanation_log_bounded cap log :
  0 <= cap -> log_reachable cap log ->
  sizez (log_entries log) <= Z.max 1 cap.
Proof.
  intros Hcap Hlog. destruct (log_reachable_inv cap log Hcap Hlog) as (_ & Hb & Hc).
  rewrite Hc in Hb. destruct (Z.eqb_spec cap 0); lia.
Qed.

Lemma explanation_log_bounded_witness :
  sizez (log_entries (log_add_text (log_add_text (new_log 1) ReasonCode.NONE "a")
                        ReasonCode.NONE "b")) <= Z.max 1 1.
Proof.
  apply explanation_log_bounded; [discriminate|]. unfold log_add_text.
  repeat apply log_reach_add. apply log_reach_new.
Defined.
