(* ===== verification/Objective.v ===== *)
(** * The lexicographic objective

    Models [include/nrp/objective.hpp] and [src/objective.cpp]. The array of
    [kObjectiveComponents] unsigned 64-bit components is a list of length 8. *)
From S2P Require Import Prelude Ids Canonical.

Definition kObjectiveComponents : nat := 8.

Record ObjectiveVector := mkObjective { component : list Z }.

Definition zero_objective : ObjectiveVector := mkObjective (replicate 8 0).

#[global] Instance ObjectiveVector_eq_dec : EqDecision ObjectiveVector.
Proof. solve_decision. Defined.

Definition objective_component_name (index : Z) : string :=
  match index with
  | 0 => "safety_violations"
  | 1 => "service_preservation_gap"
  | 2 => "recovery_incompleteness"
  | 3 => "blast_radius"
  | 4 => "action_count"
  | 5 => "disruption"
  | 6 => "cost_units"
  | 7 => "duration_ticks"
  | _ => "unknown"
  end.

(** The loop of [ObjectiveVector::add] over the components; [None] when a
    component overflows. *)
Fixpoint add_components (a b : list Z) : option (list Z) :=
  match a, b with
  | x :: a', y :: b' =>
      match add_overflow x y with
      | None => None
      | Some sum => cons sum <$> add_components a' b'
      end
  | _, _ => Some []
  end.

Definition objective_add (a b : ObjectiveVector) : option ObjectiveVector :=
  mkObjective <$> add_components (component a) (component b).

Definition is_safety_clean (o : ObjectiveVector) : bool :=
  (component o !!! 0%nat =? 0) && (component o !!! 1%nat =? 0).

Definition objective_to_string (o : ObjectiveVector) : string :=
  "[" +:+ String.concat " " (map pretty (component o)) +:+ "]".

Definition encode_objective (o : ObjectiveVector) : list Z := concat (map w_u64 (component o)).

(** The loops of [compare_objective] and [compare_encoding]. *)
Fixpoint compare_components (a b : list Z) : Z :=
  match a, b with
  | x :: a', y :: b' =>
      if x <? y then -1 else if y <? x then 1 else compare_components a' b'
  | _, _ => 0
  end.

Definition compare_objective (a b : ObjectiveVector) : Z :=
  compare_components (component a) (component b).

Definition compare_encoding (a b : list ActionId) : Z :=
  let common := compare_components a b in
  if negb (common =? 0) then common
  else if sizez a <? sizez b then -1
  else if sizez b <? sizez a then 1
  else 0.

(** [ScoredPlanLess] *)
Definition scored_plan_less (a_obj : ObjectiveVector) (a_enc : list ActionId)
  (b_obj : ObjectiveVector) (b_enc : list ActionId) : bool :=
  let objective_order := compare_objective a_obj b_obj in
  if negb (objective_order =? 0) then objective_order <? 0
  else compare_encoding a_enc b_enc <? 0.

(** ** Lemmas *)

Definition objective_wf (o : ObjectiveVector) : Prop :=
  length (component o) = kObjectiveComponents /\ Forall in_u64 (component o).

Lemma add_overflow_Some a b c :
  in_u64 a -> in_u64 b -> add_overflow a b = Some c <-> c = a + b /\ in_u64 c.
Proof.
  unfold in_u64, add_overflow, UINT64_MAX. intros Ha Hb.
  destruct (Z.ltb_spec (2 ^ 64 - 1 - b) a); split; [done|lia| |].
  - intros [= <-]. lia.
  - intros [-> ?]. done.
Qed.

Lemma mul_overflow_Some a b c :
  in_u64 a -> in_u64 b -> mul_overflow a b = Some c <-> c = a * b /\ in_u64 c.
Proof.
  unfold in_u64, mul_overflow, UINT64_MAX. intros Ha Hb.
  destruct (Z.eqb_spec a 0) as [->|Hz]; simpl.
  { split; [intros [= <-]; done|intros [-> _]; done]. }
  destruct (Z.ltb_spec ((2 ^ 64 - 1) / a) b) as [Hlt|Hge].
  - split; [done|]. intros [-> Hc]. exfalso.
    assert (b <= (2 ^ 64 - 1) / a); [|lia]. apply Z.div_le_lower_bound; lia.
  - assert (a * b <= 2 ^ 64 - 1).
    { apply Z.le_trans with (a * ((2 ^ 64 - 1) / a)); [nia|]. apply Z.mul_div_le; lia. }
    rewrite u64_small by (unfold in_u64; nia).
    split; [intros [= <-]; split; [done|nia]|intros [-> _]; done].
Qed.

(** Both comparisons are the lexicographic order of the prelude. *)
Lemma compare_components_lex a b :
  length a = length b ->
  compare_components a b = if lex_lt a b then -1 else if lex_lt b a then 1 else 0.
Proof.
  revert b; induction a as [|x a IH]; intros [|y b] Hl; simpl in *; try done.
  destruct (Z.ltb_spec x y), (Z.ltb_spec y x); try done; try lia. apply IH. lia.
Qed.

Lemma compare_components_range a b :
  compare_components a b = -1 \/ compare_components a b = 0 \/ compare_components a b = 1.
Proof.
  revert b; induction a as [|x a IH]; intros [|y b]; simpl; auto.
  destruct (x <? y), (y <? x); auto.
Qed.

Lemma compare_encoding_lex a b :
  compare_encoding a b = if lex_lt a b then -1 else if lex_lt b a then 1 else 0.
Proof.
  unfold compare_encoding, sizez.
  revert b; induction a as [|x a IH]; intros [|y b]; simpl; try done.
  destruct (Z.ltb_spec x y), (Z.ltb_spec y x); simpl; try done; try lia.
  specialize (IH b).
  destruct (negb (compare_components a b =? 0)); [done|].
  rewrite <- IH.
  repeat match goal with |- context [?u <? ?v] => destruct (Z.ltb_spec u v) end;
    done || lia.
Qed.

(** ** Lemmas: scores

    A plan's score is its objective followed by its encoding. *)
Definition score_le (a b : list Z) : Prop := lex_lt b a = false.

Lemma score_le_refl a : score_le a a.
Proof. apply lex_lt_irrefl. Qed.

Lemma score_le_trans a b c : score_le a b -> score_le b c -> score_le a c.
Proof. unfold score_le. intros H1 H2. by eapply lex_lt_ntrans. Qed.

Lemma lex_lt_score_le a b : lex_lt a b = true -> score_le a b.
Proof. apply lex_lt_asym. Qed.

Lemma lex_lt_app a a' e e' :
  length a = length a' ->
  lex_lt (a ++ e) (a' ++ e') =
    if lex_lt a a' then true else if lex_lt a' a then false else lex_lt e e'.
Proof.
  revert a'; induction a as [|x a IH]; intros [|y a'] Hl; simpl in *; try lia; try done.
  destruct (Z.ltb_spec x y), (Z.ltb_spec y x); try done; try lia. apply IH. lia.
Qed.

Lemma scored_plan_less_lex a ae b be :
  length (component a) = length (component b) ->
  scored_plan_less a ae b be = lex_lt (component a ++ ae) (component b ++ be).
Proof.
  intros Hl. unfold scored_plan_less, compare_objective.
  rewrite compare_components_lex, compare_encoding_lex, lex_lt_app by done.
  destruct (lex_lt (component a) (component b)) eqn:H1; [done|].
  destruct (lex_lt (component b) (component a)) eqn:H2; [done|].
  destruct (lex_lt ae be); [done|]. by destruct (lex_lt be ae).
Qed.

(** Adding the same costs to two plans does not change their order. *)
Lemma lex_lt_zip_add a b c :
  length a = length c -> length b = length c ->
  lex_lt (zip_with Z.add a c) (zip_with Z.add b c) = lex_lt a b.
Proof.
  revert a b; induction c as [|z c IH]; intros [|x a] [|y b] Ha Hb; simpl in *; try lia; try done.
  rewrite IH by lia.
  destruct (Z.ltb_spec (x + z) (y + z)), (Z.ltb_spec x y); try lia; try done.
  destruct (Z.ltb_spec (y + z) (x + z)), (Z.ltb_spec y x); try lia; done.
Qed.

Lemma zip_add_ge a c :
  length a = length c -> Forall (fun z => 0 <= z) c -> score_le a (zip_with Z.add a c).
Proof.
  unfold score_le. revert a; induction c as [|z c IH]; intros [|x a] Hl Hc; simpl in *; try lia;
    try done.
  apply Forall_cons in Hc as [Hz Hc].
  destruct (Z.ltb_spec (x + z) x); [lia|]. destruct (Z.ltb_spec x (x + z)); [done|].
  apply IH; [lia|done].
Qed.

(** Extending a plan by a step keeps the order of plans of equal length... *)
Lemma score_extend o o' c e e' x :
  length o = length c -> length o' = length c -> length e = length e' ->
  score_le (o ++ e) (o' ++ e') ->
  score_le (zip_with Z.add o c ++ (e ++ [x])) (zip_with Z.add o' c ++ (e' ++ [x])).
Proof.
  unfold score_le. intros Ho Ho' He H.
  rewrite lex_lt_app in H by congruence.
  rewrite lex_lt_app by (rewrite !length_zip_with; lia).
  rewrite !lex_lt_zip_add by done.
  destruct (lex_lt o' o); [done|]. destruct (lex_lt o o'); [done|].
  by rewrite lex_lt_app_same.
Qed.

(** ... and never improves it. *)
Lemma score_grows o c e x :
  length o = length c -> Forall (fun z => 0 <= z) c ->
  score_le (o ++ e) (zip_with Z.add o c ++ (e ++ [x])).
Proof.
  intros Ho Hc. unfold score_le. rewrite lex_lt_app by (rewrite length_zip_with; lia).
  pose proof (zip_add_ge o c Ho Hc) as H. unfold score_le in H. rewrite H.
  destruct (lex_lt o _); [done|]. apply lex_lt_asym, lex_lt_app_r.
Qed.

Lemma objective_add_Some a b s :
  objective_wf a -> objective_wf b -> objective_add a b = Some s ->
  component s = zip_with Z.add (component a) (component b) /\ objective_wf s.
Proof.
  intros [Hla Ha] [Hlb Hb] H. unfold objective_add in H.
  destruct (add_components _ _) as [l|] eqn:Hadd; [|done]. injection H as <-. simpl.
  enough (l = zip_with Z.add (component a) (component b) /\ Forall in_u64 l) as [-> Hty].
  { split; [done|]. split; [simpl; rewrite length_zip_with; lia|done]. }
  rewrite <- Hla in Hlb. clear Hla. revert Ha l Hadd Hlb Hb.
  generalize (component b) as ys. generalize (component a) as xs.
  induction xs as [|x xs IH]; intros [|y ys] Ha l Hadd Hl Hb; simpl in *; try lia;
    [injection Hadd as <-; done|].
  apply Forall_cons in Ha as [Hx Hxs], Hb as [Hy Hys].
  destruct (add_overflow x y) as [z|] eqn:Hz; [|done].
  apply add_overflow_Some in Hz as [-> Hz]; [|done|done].
  destruct (add_components xs ys) as [l'|] eqn:Hl'; [|done]. injection Hadd as <-.
  destruct (IH ys Hxs l' Hl') as [-> ?]; [lia|done|]. split; [done|]. by constructor.
Qed.

(** The sum exists when it fits. *)
Lemma objective_add_total a b :
  objective_wf a -> objective_wf b ->
  Forall in_u64 (zip_with Z.add (component a) (component b)) ->
  objective_add a b = Some (mkObjective (zip_with Z.add (component a) (component b))).
Proof.
  intros [Hla Ha] [Hlb Hb] H. unfold objective_add.
  enough (add_components (component a) (component b) =
          Some (zip_with Z.add (component a) (component b))) as -> by done.
  clear Hla Hlb. revert Ha Hb H. generalize (component b) as ys. generalize (component a) as xs.
  induction xs as [|x xs IH]; intros [|y ys] Ha Hb H; simpl in *; try done.
  apply Forall_cons in Ha as [Hx Ha], Hb as [Hy Hb], H as [Hz H].
  assert (add_overflow x y = Some (x + y)) as -> by (by apply add_overflow_Some).
  by rewrite (IH ys Ha Hb H).
Qed.

(** ** Properties *)

(** Plan scores are totally ordered: on objectives of eight components
    [ScoredPlanLess] is irreflexive, transitive and total, so the frontier of the
    search has one minimum, and two plans compare as equal only when their
    objectives and their encodings are the same. *)
Theorem scored_plan_order o1 e1 o2 e2 o3 e3 :
  objective_wf o1 -> objective_wf o2 -> objective_wf o3 ->
  scored_plan_less o1 e1 o1 e1 = false /\
  (scored_plan_less o1 e1 o2 e2 = true -> scored_plan_less o2 e2 o3 e3 = true ->
   scored_plan_less o1 e1 o3 e3 = true) /\
  (scored_plan_less o1 e1 o2 e2 = false -> scored_plan_less o2 e2 o1 e1 = false ->
   o1 = o2 /\ e1 = e2).
Proof.
  intros [H1 _] [H2 _] [H3 _]. rewrite !scored_plan_less_lex by congruence.
  split_and!; [apply lex_lt_irrefl|apply lex_lt_trans|].
  intros Ha Hb. pose proof (lex_lt_total _ _ Ha Hb) as He.
  apply app_inj_1 in He as [He ->]; [|congruence].
  destruct o1, o2. simpl in He. by subst.
Qed.

Lemma scored_plan_order_witness :
  scored_plan_less zero_objective [1] zero_objective [2] = true /\
  scored_plan_less zero_objective [1] zero_objective [1; 2] = true.
Proof.
  assert (Hz : objective_wf zero_objective).
  { split; [reflexivity|]. apply Forall_replicate. unfold in_u64. lia. }
  split; [vm_compute; reflexivity|].
  apply (proj1 (proj2 (scored_plan_order zero_objective [1] zero_objective [1; 1]
                         zero_objective [1; 2] Hz Hz Hz))); vm_compute; reflexivity.
Defined.
