(* ===== verification/Domain.v ===== *)
(** * Fabric definition, dynamic state, policy and request

    Models [include/nrp/domain.hpp] and [src/domain.cpp]. A pointer into one of
    the definition's vectors is the element it points to; an index equal to
    [static_cast<std::size_t>(-1)] is [None]. *)
From S2P Require Import Prelude Ids Canonical Model.

Module ResourceKind.
Inductive t :=
| CONSUMABLE | REUSABLE | COUNT.

#[global] Instance eq_dec : EqDecision t.
Proof. solve_decision. Defined.

Definition to_u8 (x : t) : Z :=
  match x with
  | CONSUMABLE => 0
  | REUSABLE => 1
  | COUNT => 2
  end.

(** [static_cast] from the raw byte; outside the domain the cast is not used. *)
Definition of_u8 (raw : Z) : t :=
  match raw with
  | 0 => CONSUMABLE
  | 1 => REUSABLE
  | _ => COUNT
  end.

Definition to_string (x : t) : string :=
  match x with
  | CONSUMABLE => "CONSUMABLE"
  | REUSABLE => "REUSABLE"
  | COUNT => "COUNT"
  end.

Definition is_valid (x : t) : bool :=
  match x with
  | CONSUMABLE | REUSABLE => true
  | COUNT => false
  end.
End ResourceKind.

Module PreconditionKind.
Inductive t :=
| LINK_OPERATIONAL | LINK_NOT_OPERATIONAL | NODE_OPERATIONAL | NODE_NOT_OPERATIONAL |
  SERVICE_REACHABLE_AT_LEAST | SERVICE_REACHABLE_AT_MOST | RESOURCE_AVAILABLE_AT_LEAST |
  ACTION_EXECUTED_AT_LEAST | COUNT.

#[global] Instance eq_dec : EqDecision t.
Proof. solve_decision. Defined.

Definition to_u8 (x : t) : Z :=
  match x with
  | LINK_OPERATIONAL => 0
  | LINK_NOT_OPERATIONAL => 1
  | NODE_OPERATIONAL => 2
  | NODE_NOT_OPERATIONAL => 3
  | SERVICE_REACHABLE_AT_LEAST => 4
  | SERVICE_REACHABLE_AT_MOST => 5
  | RESOURCE_AVAILABLE_AT_LEAST => 6
  | ACTION_EXECUTED_AT_LEAST => 7
  | COUNT => 8
  end.

(** [static_cast] from the raw byte; outside the domain the cast is not used. *)
Definition of_u8 (raw : Z) : t :=
  match raw with
  | 0 => LINK_OPERATIONAL
  | 1 => LINK_NOT_OPERATIONAL
  | 2 => NODE_OPERATIONAL
  | 3 => NODE_NOT_OPERATIONAL
  | 4 => SERVICE_REACHABLE_AT_LEAST
  | 5 => SERVICE_REACHABLE_AT_MOST
  | 6 => RESOURCE_AVAILABLE_AT_LEAST
  | 7 => ACTION_EXECUTED_AT_LEAST
  | _ => COUNT
  end.

Definition to_string (x : t) : string :=
  match x with
  | LINK_OPERATIONAL => "LINK_OPERATIONAL"
  | LINK_NOT_OPERATIONAL => "LINK_NOT_OPERATIONAL"
  | NODE_OPERATIONAL => "NODE_OPERATIONAL"
  | NODE_NOT_OPERATIONAL => "NODE_NOT_OPERATIONAL"
  | SERVICE_REACHABLE_AT_LEAST => "SERVICE_REACHABLE_AT_LEAST"
  | SERVICE_REACHABLE_AT_MOST => "SERVICE_REACHABLE_AT_MOST"
  | RESOURCE_AVAILABLE_AT_LEAST => "RESOURCE_AVAILABLE_AT_LEAST"
  | ACTION_EXECUTED_AT_LEAST => "ACTION_EXECUTED_AT_LEAST"
  | COUNT => "COUNT"
  end.

Definition is_valid (x : t) : bool :=
  match x with
  | LINK_OPERATIONAL | LINK_NOT_OPERATIONAL | NODE_OPERATIONAL | NODE_NOT_OPERATIONAL |
  SERVICE_REACHABLE_AT_LEAST | SERVICE_REACHABLE_AT_MOST | RESOURCE_AVAILABLE_AT_LEAST |
  ACTION_EXECUTED_AT_LEAST => true
  | COUNT => false
  end.
End PreconditionKind.

Module EffectKind.
Inductive t :=
| SET_LINK_OPERATIONAL | SET_NODE_OPERATIONAL | SERVICE_REACHABLE_DELTA |
  MARK_RESOURCE_RESTORED | SET_SERVICE_REACHABLE | SET_RESOURCE_AVAILABLE | COUNT.

#[global] Instance eq_dec : EqDecision t.
Proof. solve_decision. Defined.

Definition to_u8 (x : t) : Z :=
  match x with
  | SET_LINK_OPERATIONAL => 0
  | SET_NODE_OPERATIONAL => 1
  | SERVICE_REACHABLE_DELTA => 2
  | MARK_RESOURCE_RESTORED => 3
  | SET_SERVICE_REACHABLE => 4
  | SET_RESOURCE_AVAILABLE => 5
  | COUNT => 6
  end.

(** [static_cast] from the raw byte; outside the domain the cast is not used. *)
Definition of_u8 (raw : Z) : t :=
  match raw with
  | 0 => SET_LINK_OPERATIONAL
  | 1 => SET_NODE_OPERATIONAL
  | 2 => SERVICE_REACHABLE_DELTA
  | 3 => MARK_RESOURCE_RESTORED
  | 4 => SET_SERVICE_REACHABLE
  | 5 => SET_RESOURCE_AVAILABLE
  | _ => COUNT
  end.

Definition to_string (x : t) : string :=
  match x with
  | SET_LINK_OPERATIONAL => "SET_LINK_OPERATIONAL"
  | SET_NODE_OPERATIONAL => "SET_NODE_OPERATIONAL"
  | SERVICE_REACHABLE_DELTA => "SERVICE_REACHABLE_DELTA"
  | MARK_RESOURCE_RESTORED => "MARK_RESOURCE_RESTORED"
  | SET_SERVICE_REACHABLE => "SET_SERVICE_REACHABLE"
  | SET_RESOURCE_AVAILABLE => "SET_RESOURCE_AVAILABLE"
  | COUNT => "COUNT"
  end.

Definition is_valid (x : t) : bool :=
  match x with
  | SET_LINK_OPERATIONAL | SET_NODE_OPERATIONAL | SERVICE_REACHABLE_DELTA |
  MARK_RESOURCE_RESTORED | SET_SERVICE_REACHABLE | SET_RESOURCE_AVAILABLE => true
  | COUNT => false
  end.
End EffectKind.

Module ActionKind.
Inductive t :=
| REROUTE | REPLACE | RESTART | DRAIN | ISOLATE | RESTORE | DEGRADE | COUNT.

#[global] Instance eq_dec : EqDecision t.
Proof. solve_decision. Defined.

Definition to_u8 (x : t) : Z :=
  match x with
  | REROUTE => 0
  | REPLACE => 1
  | RESTART => 2
  | DRAIN => 3
  | ISOLATE => 4
  | RESTORE => 5
  | DEGRADE => 6
  | COUNT => 7
  end.

(** [static_cast] from the raw byte; outside the domain the cast is not used. *)
Definition of_u8 (raw : Z) : t :=
  match raw with
  | 0 => REROUTE
  | 1 => REPLACE
  | 2 => RESTART
  | 3 => DRAIN
  | 4 => ISOLATE
  | 5 => RESTORE
  | 6 => DEGRADE
  | _ => COUNT
  end.

Definition to_string (x : t) : string :=
  match x with
  | REROUTE => "REROUTE"
  | REPLACE => "REPLACE"
  | RESTART => "RESTART"
  | DRAIN => "DRAIN"
  | ISOLATE => "ISOLATE"
  | RESTORE => "RESTORE"
  | DEGRADE => "DEGRADE"
  | COUNT => "COUNT"
  end.

Definition is_valid (x : t) : bool :=
  match x with
  | REROUTE | REPLACE | RESTART | DRAIN | ISOLATE | RESTORE | DEGRADE => true
  | COUNT => false
  end.
End ActionKind.

Module Reversibility.
Inductive t :=
| REVERSIBLE | IRREVERSIBLE | COUNT.

#[global] Instance eq_dec : EqDecision t.
Proof. solve_decision. Defined.

Definition to_u8 (x : t) : Z :=
  match x with
  | REVERSIBLE => 0
  | IRREVERSIBLE => 1
  | COUNT => 2
  end.

(** [static_cast] from the raw byte; outside the domain the cast is not used. *)
Definition of_u8 (raw : Z) : t :=
  match raw with
  | 0 => REVERSIBLE
  | 1 => IRREVERSIBLE
  | _ => COUNT
  end.

Definition to_string (x : t) : string :=
  match x with
  | REVERSIBLE => "REVERSIBLE"
  | IRREVERSIBLE => "IRREVERSIBLE"
  | COUNT => "COUNT"
  end.

Definition is_valid (x : t) : bool :=
  match x with
  | REVERSIBLE | IRREVERSIBLE => true
  | COUNT => false
  end.
End Reversibility.

Module GoalKind.
Inductive t :=
| SERVICE_REACHABLE_AT_LEAST | LINK_OPERATIONAL | NODE_OPERATIONAL | RESOURCE_RESTORED | COUNT.

#[global] Instance eq_dec : EqDecision t.
Proof. solve_decision. Defined.

Definition to_u8 (x : t) : Z :=
  match x with
  | SERVICE_REACHABLE_AT_LEAST => 0
  | LINK_OPERATIONAL => 1
  | NODE_OPERATIONAL => 2
  | RESOURCE_RESTORED => 3
  | COUNT => 4
  end.

(** [static_cast] from the raw byte; outside the domain the cast is not used. *)
Definition of_u8 (raw : Z) : t :=
  match raw with
  | 0 => SERVICE_REACHABLE_AT_LEAST
  | 1 => LINK_OPERATIONAL
  | 2 => NODE_OPERATIONAL
  | 3 => RESOURCE_RESTORED
  | _ => COUNT
  end.

Definition to_string (x : t) : string :=
  match x with
  | SERVICE_REACHABLE_AT_LEAST => "SERVICE_REACHABLE_AT_LEAST"
  | LINK_OPERATIONAL => "LINK_OPERATIONAL"
  | NODE_OPERATIONAL => "NODE_OPERATIONAL"
  | RESOURCE_RESTORED => "RESOURCE_RESTORED"
  | COUNT => "COUNT"
  end.

Definition is_valid (x : t) : bool :=
  match x with
  | SERVICE_REACHABLE_AT_LEAST | LINK_OPERATIONAL | NODE_OPERATIONAL | RESOURCE_RESTORED => true
  | COUNT => false
  end.
End GoalKind.

(** ** Bounds *)

Record ModelLimits := mkLimits {
  max_nodes : Z;
  max_links : Z;
  max_services : Z;
  max_resources : Z;
  max_actions : Z;
  max_goals : Z;
  max_exclusion_groups : Z;
  max_preconditions_per_action : Z;
  max_effects_per_action : Z;
  max_evidence_facts : Z;
  max_authority_bindings : Z;
  max_fences : Z;
  max_action_occurrences : Z;
  max_hold_steps : Z;
  max_service_endpoints : Z;
  max_string_length : Z
}.

Definition default_model_limits : ModelLimits :=
  mkLimits 4096 8192 1024 1024 512 1024 512 32 32 65536 32 1024 16 64 1000000 128.

(** ** Static definition *)

Record NodeSpec := mkNode { node_id : NodeId; protected_node : bool }.

Record LinkSpec := mkLink { link_id : LinkId; endpoint_a : NodeId; endpoint_b : NodeId }.

Record ServiceSpec := mkService {
  service_id : ServiceId;
  required_reachable : Z;
  target_reachable : Z;
  max_reachable : Z;
  protected_service : bool
}.

Record ResourceSpec := mkResource {
  resource_id : ResourceId;
  resource_kind : ResourceKind.t;
  capacity : Z;
  hold_steps : Z
}.

Definition precondition_expected_subject (kind : PreconditionKind.t) : SubjectKind.t :=
  match kind with
  | PreconditionKind.LINK_OPERATIONAL | PreconditionKind.LINK_NOT_OPERATIONAL =>
      SubjectKind.LINK
  | PreconditionKind.NODE_OPERATIONAL | PreconditionKind.NODE_NOT_OPERATIONAL =>
      SubjectKind.NODE
  | PreconditionKind.SERVICE_REACHABLE_AT_LEAST | PreconditionKind.SERVICE_REACHABLE_AT_MOST =>
      SubjectKind.SERVICE
  | PreconditionKind.RESOURCE_AVAILABLE_AT_LEAST => SubjectKind.RESOURCE
  | PreconditionKind.ACTION_EXECUTED_AT_LEAST => SubjectKind.ACTION
  | PreconditionKind.COUNT => SubjectKind.NONE
  end.

Record Precondition := mkPrecondition {
  pre_kind : PreconditionKind.t;
  pre_subject : Subject;
  pre_value : Z
}.

Definition effect_expected_subject (kind : EffectKind.t) : SubjectKind.t :=
  match kind with
  | EffectKind.SET_LINK_OPERATIONAL => SubjectKind.LINK
  | EffectKind.SET_NODE_OPERATIONAL => SubjectKind.NODE
  | EffectKind.SERVICE_REACHABLE_DELTA => SubjectKind.SERVICE
  | EffectKind.SET_SERVICE_REACHABLE => SubjectKind.SERVICE
  | EffectKind.MARK_RESOURCE_RESTORED => SubjectKind.RESOURCE
  | EffectKind.SET_RESOURCE_AVAILABLE => SubjectKind.RESOURCE
  | EffectKind.COUNT => SubjectKind.NONE
  end.

(** [effect_value] is signed. *)
Record Effect := mkEffect { eff_kind : EffectKind.t; eff_subject : Subject; eff_value : Z }.

Record ResourceUse := mkUse { use_resource : ResourceId; use_units : Z }.

Record ActionDependency := mkDependency { dep_predecessor : ActionId; dep_min_occurrences : Z }.

Record ActionSpec := mkAction {
  action_id : ActionId;
  action_name : string;
  action_kind : ActionKind.t;
  reversibility : Reversibility.t;
  compensation : ActionId;
  blast_radius : Z;
  disruption : Z;
  cost_units : Z;
  duration_ticks : Z;
  max_occurrences : Z;
  required_domain : AuthorityDomain.t;
  required_level : AuthorityLevel.t;
  preconditions : list Precondition;
  effects : list Effect;
  resource_uses : list ResourceUse;
  dependencies : list ActionDependency;
  exclusion_groups : list ExclusionGroupId
}.

Definition goal_expected_subject (kind : GoalKind.t) : SubjectKind.t :=
  match kind with
  | GoalKind.SERVICE_REACHABLE_AT_LEAST => SubjectKind.SERVICE
  | GoalKind.LINK_OPERATIONAL => SubjectKind.LINK
  | GoalKind.NODE_OPERATIONAL => SubjectKind.NODE
  | GoalKind.RESOURCE_RESTORED => SubjectKind.RESOURCE
  | GoalKind.COUNT => SubjectKind.NONE
  end.

Record GoalSpec := mkGoal {
  goal_kind : GoalKind.t;
  goal_subject : Subject;
  goal_value : Z;
  goal_weight : Z
}.

Record ExclusionGroup := mkGroup { group_id : ExclusionGroupId; max_selected : Z }.

#[global] Instance NodeSpec_eq_dec : EqDecision NodeSpec.
Proof. solve_decision. Defined.
#[global] Instance LinkSpec_eq_dec : EqDecision LinkSpec.
Proof. solve_decision. Defined.
#[global] Instance ServiceSpec_eq_dec : EqDecision ServiceSpec.
Proof. solve_decision. Defined.
#[global] Instance ResourceSpec_eq_dec : EqDecision ResourceSpec.
Proof. solve_decision. Defined.
#[global] Instance Precondition_eq_dec : EqDecision Precondition.
Proof. solve_decision. Defined.
#[global] Instance Effect_eq_dec : EqDecision Effect.
Proof. solve_decision. Defined.
#[global] Instance ResourceUse_eq_dec : EqDecision ResourceUse.
Proof. solve_decision. Defined.
#[global] Instance ActionDependency_eq_dec : EqDecision ActionDependency.
Proof. solve_decision. Defined.
#[global] Instance ActionSpec_eq_dec : EqDecision ActionSpec.
Proof. solve_decision. Defined.
#[global] Instance GoalSpec_eq_dec : EqDecision GoalSpec.
Proof. solve_decision. Defined.
#[global] Instance ExclusionGroup_eq_dec : EqDecision ExclusionGroup.
Proof. solve_decision. Defined.

Record FabricDefinition := mkDefinition {
  nodes : list NodeSpec;
  links : list LinkSpec;
  services : list ServiceSpec;
  resources : list ResourceSpec;
  actions : list ActionSpec;
  goals : list GoalSpec;
  groups : list ExclusionGroup
}.

(** Out-of-range reads of a [std::vector] are undefined in the source; these
    defaults are what the model reads there, and the index theorems show that
    the planner never does. *)
#[global] Instance NodeSpec_inhabited : Inhabited NodeSpec := populate (mkNode 0 false).
#[global] Instance LinkSpec_inhabited : Inhabited LinkSpec := populate (mkLink 0 0 0).
#[global] Instance ServiceSpec_inhabited : Inhabited ServiceSpec :=
  populate (mkService 0 0 0 0 false).
#[global] Instance ResourceSpec_inhabited : Inhabited ResourceSpec :=
  populate (mkResource 0 ResourceKind.CONSUMABLE 0 0).
#[global] Instance ActionSpec_inhabited : Inhabited ActionSpec :=
  populate (mkAction 0 "" ActionKind.RESTORE Reversibility.IRREVERSIBLE 0 0 0 0 0 1
              AuthorityDomain.RECOVERY_ADMISSION AuthorityLevel.AUTHORIZATION [] [] [] [] []).
#[global] Instance ExclusionGroup_inhabited : Inhabited ExclusionGroup := populate (mkGroup 0 1).
#[global] Instance ResourceUse_inhabited : Inhabited ResourceUse := populate (mkUse 0 0).
#[global] Instance ActionDependency_inhabited : Inhabited ActionDependency :=
  populate (mkDependency 0 1).

(** ** Canonical order *)

Definition precondition_key (p : Precondition) : list Z :=
  subject_key (pre_subject p) ++ [PreconditionKind.to_u8 (pre_kind p); pre_value p].
Definition effect_key (e : Effect) : list Z :=
  subject_key (eff_subject e) ++ [EffectKind.to_u8 (eff_kind e); eff_value e].
Definition use_key (u : ResourceUse) : list Z := [use_resource u; use_units u].
Definition dependency_key (d : ActionDependency) : list Z :=
  [dep_predecessor d; dep_min_occurrences d].
Definition goal_key (g : GoalSpec) : list Z :=
  subject_key (goal_subject g) ++ [GoalKind.to_u8 (goal_kind g); goal_value g; goal_weight g].

Definition canonicalise_action (a : ActionSpec) : ActionSpec :=
  mkAction (action_id a) (action_name a) (action_kind a) (reversibility a) (compensation a)
    (blast_radius a) (disruption a) (cost_units a) (duration_ticks a) (max_occurrences a)
    (required_domain a) (required_level a)
    (sort_by (lt_on precondition_key) (preconditions a))
    (sort_by (lt_on effect_key) (effects a))
    (sort_by (lt_on use_key) (resource_uses a))
    (sort_by (lt_on dependency_key) (dependencies a))
    (sort_by (lt_on (fun g : Z => [g])) (exclusion_groups a)).

(** [FabricDefinition::canonicalise] *)
Definition canonicalise (d : FabricDefinition) : FabricDefinition :=
  mkDefinition
    (sort_by (lt_on (fun n => [node_id n])) (nodes d))
    (sort_by (lt_on (fun l => [link_id l])) (links d))
    (sort_by (lt_on (fun s => [service_id s])) (services d))
    (sort_by (lt_on (fun r => [resource_id r])) (resources d))
    (map canonicalise_action (sort_by (lt_on (fun a => [action_id a])) (actions d)))
    (sort_by (lt_on goal_key) (goals d))
    (sort_by (lt_on (fun g => [group_id g])) (groups d)).

(** ** Lookups by identity *)

Definition node_index (d : FabricDefinition) (id : NodeId) : option nat :=
  find_index (fun n => node_id n =? id) (nodes d).
Definition link_index (d : FabricDefinition) (id : LinkId) : option nat :=
  find_index (fun l => link_id l =? id) (links d).
Definition service_index (d : FabricDefinition) (id : ServiceId) : option nat :=
  find_index (fun s => service_id s =? id) (services d).
Definition resource_index (d : FabricDefinition) (id : ResourceId) : option nat :=
  find_index (fun r => resource_id r =? id) (resources d).
Definition action_index (d : FabricDefinition) (id : ActionId) : option nat :=
  find_index (fun a => action_id a =? id) (actions d).

Definition find_action (d : FabricDefinition) (id : ActionId) : option ActionSpec :=
  match action_index d id with Some i => actions d !! i | None => None end.
Definition find_resource (d : FabricDefinition) (id : ResourceId) : option ResourceSpec :=
  match resource_index d id with Some i => resources d !! i | None => None end.
Definition find_service (d : FabricDefinition) (id : ServiceId) : option ServiceSpec :=
  match service_index d id with Some i => services d !! i | None => None end.

(** ** Canonical encoding *)

Definition encode_node (n : NodeSpec) : list Z :=
  w_u64 (node_id n) ++ w_boolean (protected_node n).
Definition encode_link (l : LinkSpec) : list Z :=
  w_u64 (link_id l) ++ w_u64 (endpoint_a l) ++ w_u64 (endpoint_b l).
Definition encode_service (s : ServiceSpec) : list Z :=
  w_u64 (service_id s) ++ w_u32 (required_reachable s) ++ w_u32 (target_reachable s) ++
  w_u32 (max_reachable s) ++ w_boolean (protected_service s).
Definition encode_resource (r : ResourceSpec) : list Z :=
  w_u64 (resource_id r) ++ w_u8 (ResourceKind.to_u8 (resource_kind r)) ++
  w_u32 (capacity r) ++ w_u32 (hold_steps r).
Definition encode_subject (s : Subject) : list Z :=
  w_u8 (SubjectKind.to_u8 (subject_kind s)) ++ w_u64 (subject_id s).
Definition encode_precondition (p : Precondition) : list Z :=
  w_u8 (PreconditionKind.to_u8 (pre_kind p)) ++ encode_subject (pre_subject p) ++
  w_u64 (pre_value p).
Definition encode_effect (e : Effect) : list Z :=
  w_u8 (EffectKind.to_u8 (eff_kind e)) ++ encode_subject (eff_subject e) ++
  w_i64 (eff_value e).
Definition encode_use (u : ResourceUse) : list Z :=
  w_u64 (use_resource u) ++ w_u32 (use_units u).
Definition encode_dependency (p : ActionDependency) : list Z :=
  w_u64 (dep_predecessor p) ++ w_u32 (dep_min_occurrences p).
Definition encode_action (a : ActionSpec) : list Z :=
  w_u64 (action_id a) ++ w_str (action_name a) ++ w_u8 (ActionKind.to_u8 (action_kind a)) ++
  w_u8 (Reversibility.to_u8 (reversibility a)) ++ w_u64 (compensation a) ++
  w_u32 (blast_radius a) ++ w_u32 (disruption a) ++ w_u64 (cost_units a) ++
  w_u64 (duration_ticks a) ++ w_u32 (max_occurrences a) ++
  w_u8 (AuthorityDomain.to_u8 (required_domain a)) ++
  w_u8 (AuthorityLevel.to_u8 (required_level a)) ++
  w_list encode_precondition (preconditions a) ++
  w_list encode_effect (effects a) ++
  w_list encode_use (resource_uses a) ++
  w_list encode_dependency (dependencies a) ++
  w_list w_u64 (exclusion_groups a).
Definition encode_goal (g : GoalSpec) : list Z :=
  w_u8 (GoalKind.to_u8 (goal_kind g)) ++ encode_subject (goal_subject g) ++
  w_u64 (goal_value g) ++ w_u32 (goal_weight g).
Definition encode_group (g : ExclusionGroup) : list Z :=
  w_u64 (group_id g) ++ w_u32 (max_selected g).

Definition encode_definition (d : FabricDefinition) : list Z :=
  w_list encode_node (nodes d) ++ w_list encode_link (links d) ++
  w_list encode_service (services d) ++ w_list encode_resource (resources d) ++
  w_list encode_action (actions d) ++ w_list encode_goal (goals d) ++
  w_list encode_group (groups d).

Definition definition_digest (d : FabricDefinition) : Digest := digest_of (encode_definition d).

(** ** Dynamic state *)

(** The masks are 0 where a value is UNKNOWN. *)
Record FabricState := mkState {
  node_operational : list Z;
  link_operational : list Z;
  resource_restored : list Z;
  resource_available : list Z;
  service_reachable : list Z;
  action_occurrences : list Z;
  node_known : list Z;
  link_known : list Z;
  resource_known : list Z;
  service_known : list Z;
  tick : Z
}.

Definition encode_state (s : FabricState) : list Z :=
  w_list w_u8 (node_operational s) ++ w_list w_u8 (link_operational s) ++
  w_list w_u8 (resource_restored s) ++ w_list w_u32 (resource_available s) ++
  w_list w_u32 (service_reachable s) ++ w_list w_u32 (action_occurrences s) ++
  w_list w_u8 (node_known s) ++ w_list w_u8 (link_known s) ++
  w_list w_u8 (resource_known s) ++ w_list w_u8 (service_known s) ++ w_u64 (tick s).

Record ResourceHold := mkHold {
  hold_resource_index : Z;
  hold_units : Z;
  hold_remaining_steps : Z
}.

#[global] Instance ResourceHold_eq_dec : EqDecision ResourceHold.
Proof. solve_decision. Defined.

Definition hold_key (h : ResourceHold) : list Z :=
  [hold_resource_index h; hold_remaining_steps h; hold_units h].

(** ** Policy and request *)

Record PlanPolicy := mkPolicy {
  allow_irreversible_actions : bool;
  require_current_authority : bool;
  max_plan_steps : Z;
  max_nodes_expanded : Z;
  max_generated_states : Z;
  max_frontier_entries : Z;
  budget_scale : Z
}.

Definition default_policy : PlanPolicy := mkPolicy false true 32 200000 400000 200000 1.

Definition encode_policy (p : PlanPolicy) : list Z :=
  w_boolean (allow_irreversible_actions p) ++ w_boolean (require_current_authority p) ++
  w_u64 (max_plan_steps p) ++ w_u64 (max_nodes_expanded p) ++
  w_u64 (max_generated_states p) ++ w_u64 (max_frontier_entries p) ++ w_u32 (budget_scale p).

Definition policy_digest (p : PlanPolicy) : Digest := digest_of (encode_policy p).

Record PlanRequest := mkRequest {
  req_id : Z;
  req_epoch : Epoch;
  req_boot : BootId;
  req_attempt : Z;
  req_definition : FabricDefinition;
  req_evidence : EvidenceBundle;
  req_authority : AuthorityVector;
  req_policy : PlanPolicy;
  req_fences : list Fence
}.

Definition encode_request (r : PlanRequest) : list Z :=
  w_u64 (req_id r) ++ w_u64 (req_epoch r) ++ w_u64 (req_boot r) ++ w_u64 (req_attempt r) ++
  encode_definition (req_definition r) ++ encode_evidence (req_evidence r) ++
  encode_authority (req_authority r) ++ encode_policy (req_policy r) ++
  w_list encode_fence (req_fences r).

Definition request_digest (r : PlanRequest) : Digest := digest_of (encode_request r).

(** ** Machine types of a definition

    The fields of the source have fixed widths; a value of the model is a
    possible value of the program when every field fits its width. *)
Record action_typed (a : ActionSpec) : Prop := {
  aty_id : in_u64 (action_id a);
  aty_compensation : in_u64 (compensation a);
  aty_blast : in_u32 (blast_radius a);
  aty_disruption : in_u32 (disruption a);
  aty_cost : in_u64 (cost_units a);
  aty_duration : in_u64 (duration_ticks a);
  aty_occurrences : in_u32 (max_occurrences a);
  aty_preconditions : Forall (fun p => in_u64 (pre_value p) /\
                                       in_u64 (subject_id (pre_subject p))) (preconditions a);
  aty_effects : Forall (fun e => in_i64 (eff_value e) /\
                                 in_u64 (subject_id (eff_subject e))) (effects a);
  aty_uses : Forall (fun u => in_u64 (use_resource u) /\ in_u32 (use_units u)) (resource_uses a);
  aty_dependencies : Forall (fun p => in_u64 (dep_predecessor p) /\
                                      in_u32 (dep_min_occurrences p)) (dependencies a);
  aty_groups : Forall in_u64 (exclusion_groups a)
}.

Record definition_typed (d : FabricDefinition) : Prop := {
  dty_nodes : Forall (fun n => in_u64 (node_id n)) (nodes d);
  dty_links : Forall (fun k => in_u64 (link_id k) /\ in_u64 (endpoint_a k) /\
                               in_u64 (endpoint_b k)) (links d);
  dty_services : Forall (fun s => in_u64 (service_id s) /\ in_u32 (required_reachable s) /\
                                  in_u32 (target_reachable s) /\ in_u32 (max_reachable s))
                   (services d);
  dty_resources : Forall (fun r => in_u64 (resource_id r) /\ in_u32 (capacity r) /\
                                   in_u32 (hold_steps r)) (resources d);
  dty_actions : Forall action_typed (actions d);
  dty_goals : Forall (fun g => in_u64 (subject_id (goal_subject g)) /\ in_u64 (goal_value g) /\
                               in_u32 (goal_weight g)) (goals d);
  dty_groups : Forall (fun g => in_u64 (group_id g) /\ in_u32 (max_selected g)) (groups d)
}.

(** The machine types of a request. *)
Record request_typed (r : PlanRequest) : Prop := {
  rty_definition : definition_typed (req_definition r);
  rty_facts : Forall (fun f => in_u64 (fact_value f)) (ev_facts (req_evidence r));
  rty_steps : in_u64 (max_plan_steps (req_policy r))
}.

(** ** Canonical definitions *)

(** Every identity vector is strictly increasing, as binary search needs. *)
Record canonical_ids (d : FabricDefinition) : Prop := {
  cid_nodes : StronglySorted Z.lt (map node_id (nodes d));
  cid_links : StronglySorted Z.lt (map link_id (links d));
  cid_services : StronglySorted Z.lt (map service_id (services d));
  cid_resources : StronglySorted Z.lt (map resource_id (resources d));
  cid_actions : StronglySorted Z.lt (map action_id (actions d))
}.

Lemma sort_ids_sorted {A} (id : A -> Z) l :
  NoDup (map id l) -> StronglySorted Z.lt (map id (sort_by (lt_on (fun x => [id x])) l)).
Proof.
  intros Hnd.
  assert (Hnd' : NoDup (map id (sort_by (lt_on (fun x => [id x])) l)))
    by (by rewrite (sort_by_perm (lt_on (fun x => [id x])))).
  pose proof (sort_by_sorted (lt_on (fun x => [id x])) l) as Hs.
  induction Hs as [|x l' Hs IH Hx]; simpl in *; [constructor|].
  apply NoDup_cons in Hnd' as [Hn Hnd']. constructor; [by apply IH|].
  apply Forall_forall. intros z (y & -> & Hy)%list_elem_of_fmap.
  rewrite Forall_forall in Hx. specialize (Hx y Hy). unfold le_by, lt_on in Hx. simpl in Hx.
  destruct (Z.ltb_spec (id y) (id x)); [done|].
  assert (id x <> id y) by (intros He; apply Hn; rewrite He; by apply list_elem_of_fmap_2). lia.
Qed.

Lemma index_of_elem {A} (id : A -> Z) v l :
  StronglySorted Z.lt (map id l) -> v ∈ map id l -> exists i, index_of v (map id l) = Some i.
Proof.
  intros Hs [i Hi]%list_elem_of_lookup_1. exists i. by apply index_of_complete.
Qed.

(** Two actions that list the same preconditions, effects, uses, dependencies
    and groups, possibly in another order. *)
Definition action_perm (a b : ActionSpec) : Prop :=
  preconditions a ≡ₚ preconditions b /\ effects a ≡ₚ effects b /\
  resource_uses a ≡ₚ resource_uses b /\ dependencies a ≡ₚ dependencies b /\
  exclusion_groups a ≡ₚ exclusion_groups b /\
  b = mkAction (action_id a) (action_name a) (action_kind a) (reversibility a) (compensation a)
        (blast_radius a) (disruption a) (cost_units a) (duration_ticks a) (max_occurrences a)
        (required_domain a) (required_level a) (preconditions b) (effects b) (resource_uses b)
        (dependencies b) (exclusion_groups b).

(** Two definitions that differ only by the order of their containers. *)
Record definition_perm (d e : FabricDefinition) : Prop := {
  dp_nodes : nodes d ≡ₚ nodes e;
  dp_links : links d ≡ₚ links e;
  dp_services : services d ≡ₚ services e;
  dp_resources : resources d ≡ₚ resources e;
  dp_actions : exists mid, actions d ≡ₚ mid /\ Forall2 action_perm mid (actions e);
  dp_goals : goals d ≡ₚ goals e;
  dp_groups : groups d ≡ₚ groups e
}.

(** Identities are unique within each container. *)
Record unique_ids (d : FabricDefinition) : Prop := {
  uid_nodes : NoDup (map node_id (nodes d));
  uid_links : NoDup (map link_id (links d));
  uid_services : NoDup (map service_id (services d));
  uid_resources : NoDup (map resource_id (resources d));
  uid_actions : NoDup (map action_id (actions d));
  uid_groups : NoDup (map group_id (groups d))
}.

(** Keys that determine the element make the sort independent of the input order. *)
Lemma sort_key_perm {A} (key : A -> list Z) l1 l2 :
  (forall x y, key x = key y -> x = y) -> l1 ≡ₚ l2 ->
  sort_by (lt_on key) l1 = sort_by (lt_on key) l2.
Proof.
  intros Hinj Hp. apply sort_by_permutation; [apply _|done|].
  intros x y _ _ Hxy Hyx. apply Hinj. by apply lex_lt_total.
Qed.

Lemma sort_id_perm {A} (id : A -> Z) l1 l2 :
  NoDup (map id l1) -> l1 ≡ₚ l2 ->
  sort_by (lt_on (fun x => [id x])) l1 = sort_by (lt_on (fun x => [id x])) l2.
Proof.
  intros Hnd Hp. apply sort_by_permutation; [apply _|done|].
  intros x y Hx Hy Hxy Hyx. pose proof (lex_lt_total _ _ Hxy Hyx) as [= He].
  apply list_elem_of_lookup_1 in Hx as [i Hi], Hy as [j Hj].
  assert (i = j) as ->; [|congruence].
  apply (NoDup_lookup (map id l1) i j (id x) Hnd).
  - rewrite list_lookup_fmap, Hi. done.
  - rewrite list_lookup_fmap, Hj. simpl. by rewrite He.
Qed.

Lemma precondition_key_inj x y : precondition_key x = precondition_key y -> x = y.
Proof.
  destruct x as [k [sk si] v], y as [k' [sk' si'] v']. unfold precondition_key, subject_key. simpl.
  intros [= Hs -> Hk ->]. rewrite (SubjectKind_to_u8_inj _ _ Hs). f_equal.
  by destruct k, k'.
Qed.

Lemma effect_key_inj x y : effect_key x = effect_key y -> x = y.
Proof.
  destruct x as [k [sk si] v], y as [k' [sk' si'] v']. unfold effect_key, subject_key. simpl.
  intros [= Hs -> Hk ->]. rewrite (SubjectKind_to_u8_inj _ _ Hs). f_equal.
  by destruct k, k'.
Qed.

Lemma goal_key_inj x y : goal_key x = goal_key y -> x = y.
Proof.
  destruct x as [k [sk si] v w], y as [k' [sk' si'] v' w']. unfold goal_key, subject_key. simpl.
  intros [= Hs -> Hk -> ->]. rewrite (SubjectKind_to_u8_inj _ _ Hs). f_equal.
  by destruct k, k'.
Qed.

Lemma canonicalise_action_perm a b :
  action_perm a b -> canonicalise_action a = canonicalise_action b.
Proof.
  intros (Hp & He & Hu & Hd & Hg & Hb). rewrite Hb. unfold canonicalise_action. simpl.
  rewrite (sort_key_perm precondition_key _ _ precondition_key_inj Hp),
    (sort_key_perm effect_key _ _ effect_key_inj He).
  rewrite (sort_key_perm use_key _ _ ltac:(by intros [] [] [= -> ->]) Hu).
  rewrite (sort_key_perm dependency_key _ _ ltac:(by intros [] [] [= -> ->]) Hd).
  by rewrite (sort_key_perm (fun g : Z => [g]) _ _ ltac:(by intros x y [= ->]) Hg).
Qed.

Lemma action_perm_id a b : action_perm a b -> action_id a = action_id b.
Proof. intros (_ & _ & _ & _ & _ & ->). done. Qed.

(** Canonicalising corresponding actions commutes with sorting them. *)
Lemma sort_actions_perm l1 l2 :
  Forall2 action_perm l1 l2 ->
  map canonicalise_action (sort_by (lt_on (fun a => [action_id a])) l1) =
  map canonicalise_action (sort_by (lt_on (fun a => [action_id a])) l2).
Proof.
  intros H.
  assert (Hs : Forall2 action_perm (sort_by (lt_on (fun a => [action_id a])) l1)
                 (sort_by (lt_on (fun a => [action_id a])) l2)).
  { induction H as [|a b l1 l2 Hab Hl IH]; simpl; [constructor|].
    revert IH. generalize (sort_by (lt_on (fun a => [action_id a])) l1),
      (sort_by (lt_on (fun a => [action_id a])) l2).
    induction 1 as [|x y xs ys Hxy Hxs IHxs]; simpl; [by constructor|].
    unfold lt_on in *. rewrite (action_perm_id _ _ Hab), (action_perm_id _ _ Hxy).
    destruct (lex_lt _ _); constructor; try done. by constructor. }
  induction Hs; simpl; [done|]. f_equal; [by apply canonicalise_action_perm|done].
Qed.

Lemma canonicalise_permuted d e :
  unique_ids d -> definition_perm d e -> canonicalise d = canonicalise e.
Proof.
  intros [] []. destruct dp_actions0 as (mid & Hmid & Hact). unfold canonicalise.
  rewrite (sort_id_perm node_id _ _ uid_nodes0 dp_nodes0),
    (sort_id_perm link_id _ _ uid_links0 dp_links0),
    (sort_id_perm service_id _ _ uid_services0 dp_services0),
    (sort_id_perm resource_id _ _ uid_resources0 dp_resources0),
    (sort_id_perm group_id _ _ uid_groups0 dp_groups0),
    (sort_id_perm action_id _ _ uid_actions0 Hmid),
    (sort_key_perm goal_key _ _ goal_key_inj dp_goals0),
    (sort_actions_perm _ _ Hact).
  done.
Qed.

(** ** Properties *)

(** Results do not depend on the order in which a caller built its
    containers: two definitions with unique identities that differ only in the
    order of their nodes, links, services, resources, actions, goals and groups,
    and of the lists inside their actions, have the same canonical form, hence
    the same encoding and the same digest. *)
Theorem canonicalise_perm d e :
  unique_ids d -> definition_perm d e ->
  canonicalise d = canonicalise e /\
  definition_digest (canonicalise d) = definition_digest (canonicalise e).
Proof.
  intros Hu Hp. by rewrite (canonicalise_permuted d e Hu Hp).
Qed.

Lemma canonicalise_perm_witness :
  let n1 := mkNode 1 true in let n2 := mkNode 2 false in
  definition_digest (canonicalise (mkDefinition [n1; n2] [] [] [] [] [] [])) =
  definition_digest (canonicalise (mkDefinition [n2; n1] [] [] [] [] [] [])).
Proof.
  apply canonicalise_perm.
  - split; simpl; repeat constructor; set_solver.
  - split; simpl; try done; [constructor|]. exists []. split; constructor.
Defined.
