(* ===== verification/DefinitionCheck.v ===== *)
(** * Structural validation of a fabric definition

    Models [validate_definition] of [src/domain.cpp] (lines 470-687). A failure
    is the text of the first violation; the caller turns it into the
    INVALID_ARGUMENT status and logs it as REQUEST_INVALID_DEFINITION. The
    specification [definition_wf] states the same requirements declaratively. *)
From S2P Require Import Prelude Ids Canonical Model Domain.

Definition subject_exists (d : FabricDefinition) (s : Subject) : bool :=
  match subject_kind s with
  | SubjectKind.NODE => bool_decide (is_Some (node_index d (subject_id s)))
  | SubjectKind.LINK => bool_decide (is_Some (link_index d (subject_id s)))
  | SubjectKind.SERVICE => bool_decide (is_Some (service_index d (subject_id s)))
  | SubjectKind.RESOURCE => bool_decide (is_Some (resource_index d (subject_id s)))
  | SubjectKind.ACTION => bool_decide (is_Some (action_index d (subject_id s)))
  | SubjectKind.FABRIC | SubjectKind.NONE => false
  end.

(** The loop shape shared by the identity sections: checks before the
    [seen.insert(id).second] test, the test, checks after it. *)
Definition unique_loop {A} (id : A -> Z) (duplicate : string)
  (pre post : A -> result string unit) (l : list A) : result string (gset Z) :=
  foldM (fun (seen : gset Z) x =>
    let* _ := pre x in
    let* _ := require (bool_decide (id x ∉ seen)) duplicate in
    let* _ := post x in
    Ok ({[id x]} ∪ seen)) ∅ l.

Definition nonzero {A} (id : A -> Z) (text : string) (x : A) : result string unit :=
  require (negb (is_zero (id x))) text.

Definition no_check {A} (x : A) : result string unit := Ok tt.

Definition check_sizes (d : FabricDefinition) (l : ModelLimits) : result string unit :=
  let* _ := require (sizez (nodes d) <=? max_nodes l) "node count exceeds the model limit" in
  let* _ := require (sizez (links d) <=? max_links l) "link count exceeds the model limit" in
  let* _ := require (sizez (services d) <=? max_services l)
              "service count exceeds the model limit" in
  let* _ := require (sizez (resources d) <=? max_resources l)
              "resource count exceeds the model limit" in
  let* _ := require (sizez (actions d) <=? max_actions l)
              "action count exceeds the model limit" in
  let* _ := require (sizez (goals d) <=? max_goals l) "goal count exceeds the model limit" in
  require (sizez (groups d) <=? max_exclusion_groups l)
    "exclusion group count exceeds the model limit".

Definition check_link (d : FabricDefinition) (l : LinkSpec) : result string unit :=
  let* _ := require (bool_decide (is_Some (node_index d (endpoint_a l))))
              "link references an unknown endpoint node" in
  require (bool_decide (is_Some (node_index d (endpoint_b l))))
    "link references an unknown endpoint node".

Definition check_service (l : ModelLimits) (s : ServiceSpec) : result string unit :=
  let* _ := require (max_reachable s <=? max_service_endpoints l)
              "service max_reachable exceeds the model limit" in
  let* _ := require (required_reachable s <=? max_reachable s)
              "service required_reachable exceeds max_reachable" in
  let* _ := require (target_reachable s <=? max_reachable s)
              "service target_reachable exceeds max_reachable" in
  require (required_reachable s <=? target_reachable s)
    "service target_reachable is below required_reachable".

Definition check_resource (l : ModelLimits) (r : ResourceSpec) : result string unit :=
  let* _ := require (ResourceKind.is_valid (resource_kind r))
              "resource kind is outside the defined domain" in
  require (hold_steps r <=? max_hold_steps l) "resource hold_steps exceeds the model limit".

Definition check_group (g : ExclusionGroup) : result string unit :=
  require (negb (max_selected g =? 0)) "exclusion group max_selected must be at least one".

Definition check_compensation (d : FabricDefinition) (a : ActionSpec) : result string unit :=
  if bool_decide (reversibility a = Reversibility.REVERSIBLE) then
    let* _ := require (negb (is_zero (compensation a)))
                "reversible action must declare a compensation action" in
    let* _ := require (negb (compensation a =? action_id a))
                "action cannot compensate itself" in
    require (bool_decide (is_Some (action_index d (compensation a))))
      "action compensation references an unknown action"
  else require (is_zero (compensation a))
         "irreversible action must not declare a compensation action".

Definition validate_precondition (d : FabricDefinition) (p : Precondition) : result string unit :=
  let* _ := require (PreconditionKind.is_valid (pre_kind p))
              "precondition kind is outside the domain" in
  let* _ := require (bool_decide
                (subject_kind (pre_subject p) = precondition_expected_subject (pre_kind p)))
              "precondition subject kind does not match the precondition kind" in
  require (subject_exists d (pre_subject p)) "precondition references an unknown subject".

(** The value constraints of one effect, by kind. *)
Definition check_effect_value (d : FabricDefinition) (e : Effect) : result string unit :=
  match eff_kind e with
  | EffectKind.SET_LINK_OPERATIONAL | EffectKind.SET_NODE_OPERATIONAL =>
      require ((eff_value e =? 0) || (eff_value e =? 1)) "SET effect value must be zero or one"
  | EffectKind.MARK_RESOURCE_RESTORED =>
      require (eff_value e =? 1) "MARK_RESOURCE_RESTORED value must be one"
  | EffectKind.SET_SERVICE_REACHABLE =>
      let* _ := require (0 <=? eff_value e) "SET_SERVICE_REACHABLE value must not be negative" in
      match find_service d (subject_id (eff_subject e)) with
      | Some s => require (u64 (eff_value e) <=? max_reachable s)
                    "SET_SERVICE_REACHABLE exceeds the structural maximum of the service"
      | None => Ok tt
      end
  | EffectKind.SET_RESOURCE_AVAILABLE =>
      let* _ := require (0 <=? eff_value e) "SET_RESOURCE_AVAILABLE value must not be negative" in
      match find_resource d (subject_id (eff_subject e)) with
      | Some r => require (u64 (eff_value e) <=? capacity r)
                    "SET_RESOURCE_AVAILABLE exceeds the capacity of the resource"
      | None => Ok tt
      end
  | EffectKind.SERVICE_REACHABLE_DELTA | EffectKind.COUNT => Ok tt
  end.

Definition check_effect (d : FabricDefinition) (e : Effect) : result string unit :=
  let* _ := require (EffectKind.is_valid (eff_kind e)) "effect kind is outside the domain" in
  let* _ := require (bool_decide
                (subject_kind (eff_subject e) = effect_expected_subject (eff_kind e)))
              "effect subject kind does not match the effect kind" in
  let* _ := require (subject_exists d (eff_subject e)) "effect references an unknown subject" in
  check_effect_value d e.

Definition validate_use (d : FabricDefinition) (u : ResourceUse) : result string unit :=
  match find_resource d (use_resource u) with
  | None => Err "resource use references an unknown resource"
  | Some r =>
      let* _ := require (negb (use_units u =? 0)) "resource use must request at least one unit" in
      require (use_units u <=? capacity r) "resource use exceeds the capacity of the resource"
  end.

Definition validate_dependency (d : FabricDefinition) (a : ActionSpec) (p : ActionDependency)
  : result string unit :=
  let* _ := require (negb (dep_predecessor p =? action_id a))
              "action dependency cycle: an action cannot require itself" in
  match find_action d (dep_predecessor p) with
  | None => Err "action dependency references an unknown action"
  | Some predecessor =>
      let* _ := require (negb (dep_min_occurrences p =? 0))
                  "action dependency min_occurrences must be at least one" in
      require (dep_min_occurrences p <=? max_occurrences predecessor)
        "action dependency requires more occurrences than the action can execute"
  end.

Definition check_declared_group (d : FabricDefinition) (g : ExclusionGroupId)
  : result string unit :=
  require (existsb (fun declared => group_id declared =? g) (groups d))
    "action references an unknown exclusion group".

Definition check_action_scalars (l : ModelLimits) (a : ActionSpec) : result string unit :=
  let* _ := require (sizez (string_bytes (action_name a)) <=? max_string_length l)
              "action name exceeds the limit" in
  let* _ := require (ActionKind.is_valid (action_kind a))
              "action kind is outside the defined domain" in
  let* _ := require (Reversibility.is_valid (reversibility a))
              "action reversibility is outside the domain" in
  let* _ := require (AuthorityDomain.is_valid (required_domain a))
              "action required_domain is outside the domain" in
  let* _ := require (AuthorityLevel.is_valid (required_level a))
              "action required_level is outside the domain" in
  let* _ := require (negb (max_occurrences a =? 0)) "action max_occurrences must be at least one" in
  let* _ := require (max_occurrences a <=? max_action_occurrences l)
              "action max_occurrences exceeds the model limit" in
  let* _ := require (sizez (preconditions a) <=? max_preconditions_per_action l)
              "action precondition count exceeds the model limit" in
  require (sizez (effects a) <=? max_effects_per_action l)
    "action effect count exceeds the model limit".

Definition check_action (d : FabricDefinition) (l : ModelLimits) (a : ActionSpec)
  : result string unit :=
  let* _ := check_action_scalars l a in
  let* _ := check_compensation d a in
  let* _ := checkM (validate_precondition d) (preconditions a) in
  let* _ := checkM (check_effect d) (effects a) in
  let* _ := checkM (validate_use d) (resource_uses a) in
  let* _ := checkM (validate_dependency d a) (dependencies a) in
  let* _ := unique_loop (fun g => g) "action lists the same exclusion group twice"
              (nonzero (fun g => g) "exclusion group reference must be non-zero")
              (check_declared_group d) (exclusion_groups a) in
  Ok tt.

Definition check_goal (d : FabricDefinition) (g : GoalSpec) : result string unit :=
  let* _ := require (GoalKind.is_valid (goal_kind g)) "goal kind is outside the domain" in
  let* _ := require (bool_decide
                (subject_kind (goal_subject g) = goal_expected_subject (goal_kind g)))
              "goal subject kind does not match the goal kind" in
  let* _ := require (subject_exists d (goal_subject g)) "goal references an unknown subject" in
  let* _ := require (negb (goal_weight g =? 0)) "goal weight must be at least one" in
  if bool_decide (goal_kind g = GoalKind.SERVICE_REACHABLE_AT_LEAST) then
    match find_service d (subject_id (goal_subject g)) with
    | Some s => require (goal_value g <=? max_reachable s)
                  "service goal exceeds the structural maximum for the service"
    | None => Ok tt
    end
  else Ok tt.

Definition check_definition (d : FabricDefinition) (l : ModelLimits) : result string unit :=
  let* _ := check_sizes d l in
  let* _ := unique_loop node_id "duplicate node identity"
              (nonzero node_id "node identity must be non-zero") no_check (nodes d) in
  let* _ := unique_loop link_id "duplicate link identity"
              (nonzero link_id "link identity must be non-zero") (check_link d) (links d) in
  let* _ := unique_loop service_id "duplicate service identity"
              (nonzero service_id "service identity must be non-zero") (check_service l)
              (services d) in
  let* _ := unique_loop resource_id "duplicate resource identity"
              (nonzero resource_id "resource identity must be non-zero") (check_resource l)
              (resources d) in
  let* _ := unique_loop group_id "duplicate exclusion group identity"
              (nonzero group_id "exclusion group identity must be non-zero") check_group
              (groups d) in
  let* _ := unique_loop action_id "duplicate action identity"
              (nonzero action_id "action identity must be non-zero") (check_action d l)
              (actions d) in
  checkM (check_goal d) (goals d).

(** [validate_definition]: the returned status and the log it leaves. *)
Definition validate_definition (d : FabricDefinition) (l : ModelLimits) (log : ExplanationLog)
  : result Status unit * ExplanationLog :=
  match check_definition d l with
  | Ok _ => (Ok tt, log)
  | Err text =>
      (Err (mkStatus StatusCode.INVALID_ARGUMENT text),
       log_add_text log ReasonCode.REQUEST_INVALID_DEFINITION text)
  end.

(** ** Specification *)

Definition ids_wf {A} (id : A -> Z) (l : list A) : Prop :=
  Forall (fun x => id x <> 0) l /\ NoDup (map id l).

(** A subject reference resolves in the definition. *)
Definition declared (d : FabricDefinition) (s : Subject) : Prop :=
  match subject_kind s with
  | SubjectKind.NODE => subject_id s ∈ map node_id (nodes d)
  | SubjectKind.LINK => subject_id s ∈ map link_id (links d)
  | SubjectKind.SERVICE => subject_id s ∈ map service_id (services d)
  | SubjectKind.RESOURCE => subject_id s ∈ map resource_id (resources d)
  | SubjectKind.ACTION => subject_id s ∈ map action_id (actions d)
  | SubjectKind.FABRIC | SubjectKind.NONE => False
  end.

Record service_wf (l : ModelLimits) (s : ServiceSpec) : Prop := {
  swf_max : max_reachable s <= max_service_endpoints l;
  swf_target : target_reachable s <= max_reachable s;
  swf_required : required_reachable s <= target_reachable s
}.

Definition precondition_wf (d : FabricDefinition) (p : Precondition) : Prop :=
  pre_kind p <> PreconditionKind.COUNT /\
  subject_kind (pre_subject p) = precondition_expected_subject (pre_kind p) /\
  declared d (pre_subject p).

(** What the kind of an effect requires of its value. *)
Definition effect_value_wf (d : FabricDefinition) (e : Effect) : Prop :=
  match eff_kind e with
  | EffectKind.SET_LINK_OPERATIONAL | EffectKind.SET_NODE_OPERATIONAL =>
      eff_value e = 0 \/ eff_value e = 1
  | EffectKind.MARK_RESOURCE_RESTORED => eff_value e = 1
  | EffectKind.SET_SERVICE_REACHABLE =>
      0 <= eff_value e /\
      forall s, find_service d (subject_id (eff_subject e)) = Some s ->
                u64 (eff_value e) <= max_reachable s
  | EffectKind.SET_RESOURCE_AVAILABLE =>
      0 <= eff_value e /\
      forall r, find_resource d (subject_id (eff_subject e)) = Some r ->
                u64 (eff_value e) <= capacity r
  | _ => True
  end.

Definition effect_wf (d : FabricDefinition) (e : Effect) : Prop :=
  eff_kind e <> EffectKind.COUNT /\
  subject_kind (eff_subject e) = effect_expected_subject (eff_kind e) /\
  declared d (eff_subject e) /\ effect_value_wf d e.

Definition use_wf (d : FabricDefinition) (u : ResourceUse) : Prop :=
  exists r, find_resource d (use_resource u) = Some r /\ use_units u <> 0 /\
            use_units u <= capacity r.

Definition dependency_wf (d : FabricDefinition) (a : ActionSpec) (p : ActionDependency) : Prop :=
  dep_predecessor p <> action_id a /\
  exists q, find_action d (dep_predecessor p) = Some q /\ dep_min_occurrences p <> 0 /\
            dep_min_occurrences p <= max_occurrences q.

Definition compensation_wf (d : FabricDefinition) (a : ActionSpec) : Prop :=
  if decide (reversibility a = Reversibility.REVERSIBLE)
  then compensation a <> 0 /\ compensation a <> action_id a /\
       compensation a ∈ map action_id (actions d)
  else compensation a = 0.

Record action_wf (d : FabricDefinition) (l : ModelLimits) (a : ActionSpec) : Prop := {
  awf_name : sizez (string_bytes (action_name a)) <= max_string_length l;
  awf_kinds : action_kind a <> ActionKind.COUNT /\ reversibility a <> Reversibility.COUNT /\
              required_domain a <> AuthorityDomain.COUNT /\
              required_level a <> AuthorityLevel.COUNT;
  awf_occurrences : max_occurrences a <> 0 /\ max_occurrences a <= max_action_occurrences l;
  awf_sizes : sizez (preconditions a) <= max_preconditions_per_action l /\
              sizez (effects a) <= max_effects_per_action l;
  awf_compensation : compensation_wf d a;
  awf_preconditions : Forall (precondition_wf d) (preconditions a);
  awf_effects : Forall (effect_wf d) (effects a);
  awf_uses : Forall (use_wf d) (resource_uses a);
  awf_dependencies : Forall (dependency_wf d a) (dependencies a);
  awf_groups : ids_wf (fun g => g) (exclusion_groups a);
  awf_groups_declared : Forall (fun g => g ∈ map group_id (groups d)) (exclusion_groups a)
}.

Definition goal_wf (d : FabricDefinition) (g : GoalSpec) : Prop :=
  goal_kind g <> GoalKind.COUNT /\
  subject_kind (goal_subject g) = goal_expected_subject (goal_kind g) /\
  declared d (goal_subject g) /\ goal_weight g <> 0 /\
  (goal_kind g = GoalKind.SERVICE_REACHABLE_AT_LEAST ->
   forall s, find_service d (subject_id (goal_subject g)) = Some s ->
             goal_value g <= max_reachable s).

Record definition_wf (l : ModelLimits) (d : FabricDefinition) : Prop := {
  dwf_sizes : sizez (nodes d) <= max_nodes l /\ sizez (links d) <= max_links l /\
              sizez (services d) <= max_services l /\ sizez (resources d) <= max_resources l /\
              sizez (actions d) <= max_actions l /\ sizez (goals d) <= max_goals l /\
              sizez (groups d) <= max_exclusion_groups l;
  dwf_nodes : ids_wf node_id (nodes d);
  dwf_links : ids_wf link_id (links d);
  dwf_endpoints : Forall (fun k => endpoint_a k ∈ map node_id (nodes d) /\
                                   endpoint_b k ∈ map node_id (nodes d)) (links d);
  dwf_services : ids_wf service_id (services d);
  dwf_service : Forall (service_wf l) (services d);
  dwf_resources : ids_wf resource_id (resources d);
  dwf_resource : Forall (fun r => resource_kind r <> ResourceKind.COUNT /\
                                  hold_steps r <= max_hold_steps l) (resources d);
  dwf_groups : ids_wf group_id (groups d);
  dwf_group : Forall (fun g => max_selected g <> 0) (groups d);
  dwf_actions : ids_wf action_id (actions d);
  dwf_action : Forall (action_wf d l) (actions d);
  dwf_goals : Forall (goal_wf d) (goals d)
}.

(** ** Lemmas *)

Lemma find_index_id_is_Some {A} (id : A -> Z) (v : Z) l :
  is_Some (find_index (fun x => id x =? v) l) <-> v ∈ map id l.
Proof.
  induction l as [|x l IH]; simpl.
  { rewrite elem_of_nil. split; [by intros [? ?]|done]. }
  rewrite elem_of_cons, <- IH. destruct (Z.eqb_spec (id x) v) as [->|Hne].
  - split; [auto|intros _; eauto].
  - destruct (find_index _ l); simpl; split.
    + intros _. right. eauto.
    + intros _. eauto.
    + intros [? [=]].
    + intros [->|[? [=]]]. done.
Qed.

Lemma require_iff {E} (b : bool) (e : E) : require b e = Ok tt <-> b = true.
Proof. apply require_ok. Qed.

Lemma bind_unit_ok {E A} (m : result E unit) (k : result E A) a :
  (let* _ := m in k) = Ok a <-> m = Ok tt /\ k = Ok a.
Proof.
  rewrite rbind_ok. split; [intros ([] & ? & ?); auto|intros [? ?]; exists tt; auto].
Qed.

(** A loop over identities succeeds exactly when every element passes both
    checks and the identities are pairwise distinct. *)
Lemma unique_loop_ok {A} (id : A -> Z) dup pre post (l : list A) :
  is_ok (unique_loop id dup pre post l) = true <->
  Forall (fun x => pre x = Ok tt /\ post x = Ok tt) l /\ NoDup (map id l).
Proof.
  unfold unique_loop.
  enough (H : forall seen : gset Z,
    is_ok (foldM (fun (seen : gset Z) x =>
      let* _ := pre x in
      let* _ := require (bool_decide (id x ∉ seen)) dup in
      let* _ := post x in
      Ok ({[id x]} ∪ seen)) seen l) = true <->
    (Forall (fun x => pre x = Ok tt /\ post x = Ok tt) l /\ NoDup (map id l)) /\
    forall x, x ∈ map id l -> x ∉ seen).
  { rewrite H. split; [tauto|]. intros; split; [done|set_solver]. }
  induction l as [|x l IH]; intros seen; simpl.
  { split; [|done]. intros _. split_and!; [constructor|constructor|set_solver]. }
  rewrite Forall_cons, NoDup_cons.
  destruct (pre x) as [[]|]; simpl; [|split; [done|intros [[[[[=] _] _] _] _]]].
  unfold require. case_bool_decide as Hx; simpl;
    [|split; [done|intros [_ Hd]; exfalso; apply (Hd (id x)); [left|done]]].
  destruct (post x) as [[]|]; simpl; [|split; [done|intros [[[[_ [=]] _] _] _]]].
  rewrite IH. clear IH. split.
  - intros [[Hf Hn] Hd]. split_and!; try done; set_solver.
  - intros [[[_ Hf] [Hx' Hn]] Hd]. split_and!; [done|done|set_solver].
Qed.

Lemma rbind_is_ok {E A} (m : result E A) (k : result E unit) :
  (let* _ := m in k) = Ok tt <-> is_ok m = true /\ k = Ok tt.
Proof. destruct m; simpl; split; try done; by intros []. Qed.

Lemma nonzero_ok {A} (id : A -> Z) text x : nonzero id text x = Ok tt <-> id x <> 0.
Proof.
  unfold nonzero, is_zero. rewrite require_iff, negb_true_iff. apply Z.eqb_neq.
Qed.

Lemma subject_exists_declared d s : subject_exists d s = true <-> declared d s.
Proof.
  unfold subject_exists, declared, node_index, link_index, service_index, resource_index,
    action_index.
  destruct (subject_kind s); rewrite ?bool_decide_eq_true, ?find_index_id_is_Some; done.
Qed.

Lemma existsb_group_iff (g : Z) gs :
  existsb (fun declared => group_id declared =? g) gs = true <-> g ∈ map group_id gs.
Proof.
  rewrite existsb_exists, list_elem_of_fmap. split; intros (x & H1 & H2).
  - exists x. split; [by apply Z.eqb_eq in H2|by apply list_elem_of_In].
  - exists x. split; [by apply list_elem_of_In|by apply Z.eqb_eq].
Qed.

(** Normalises a successful check into the conditions it tests. *)
Ltac check_iff :=
  rewrite ?bind_unit_ok, ?require_iff, ?orb_true_iff, ?bool_decide_eq_true, ?Z.leb_le,
    ?negb_true_iff, ?Z.eqb_neq, ?Z.eqb_eq, ?subject_exists_declared.

Lemma valid_kind_iff :
  (forall k, ResourceKind.is_valid k = true <-> k <> ResourceKind.COUNT) /\
  (forall k, PreconditionKind.is_valid k = true <-> k <> PreconditionKind.COUNT) /\
  (forall k, EffectKind.is_valid k = true <-> k <> EffectKind.COUNT) /\
  (forall k, ActionKind.is_valid k = true <-> k <> ActionKind.COUNT) /\
  (forall k, Reversibility.is_valid k = true <-> k <> Reversibility.COUNT) /\
  (forall k, GoalKind.is_valid k = true <-> k <> GoalKind.COUNT) /\
  (forall k, AuthorityDomain.is_valid k = true <-> k <> AuthorityDomain.COUNT) /\
  (forall k, AuthorityLevel.is_valid k = true <-> k <> AuthorityLevel.COUNT).
Proof. split_and!; intros []; simpl; split; congruence. Qed.

Lemma precondition_check_iff d p : validate_precondition d p = Ok tt <-> precondition_wf d p.
Proof.
  destruct valid_kind_iff as (_ & Hv & _). unfold validate_precondition, precondition_wf.
  check_iff. by rewrite Hv.
Qed.

Lemma effect_value_iff d e : check_effect_value d e = Ok tt <-> effect_value_wf d e.
Proof.
  unfold check_effect_value, effect_value_wf.
  destruct (eff_kind e); check_iff; try tauto.
  - destruct (find_service d _) as [s|]; check_iff;
      [|split; intros [? _]; split; [done|by intros ? [=]|done|done]].
    split; intros [? H]; split; try done; [by intros ? [= <-]|by apply H].
  - destruct (find_resource d _) as [s|]; check_iff;
      [|split; intros [? _]; split; [done|by intros ? [=]|done|done]].
    split; intros [? H]; split; try done; [by intros ? [= <-]|by apply H].
Qed.

Lemma effect_check_iff d e : check_effect d e = Ok tt <-> effect_wf d e.
Proof.
  destruct valid_kind_iff as (_ & _ & Hv & _). unfold check_effect, effect_wf.
  check_iff. by rewrite Hv, effect_value_iff.
Qed.

Lemma use_check_iff d u : validate_use d u = Ok tt <-> use_wf d u.
Proof.
  unfold validate_use, use_wf. destruct (find_resource d _) as [r|].
  - check_iff. split; [intros []; eauto|by intros (? & [= ->] & ?)].
  - split; [done|by intros (? & [=] & ?)].
Qed.

Lemma dependency_check_iff d a p : validate_dependency d a p = Ok tt <-> dependency_wf d a p.
Proof.
  unfold validate_dependency, dependency_wf. check_iff.
  destruct (find_action d _) as [r|].
  - check_iff. split; [intros (? & ? & ?); eauto|by intros (? & ? & [= ->] & ?)].
  - split; [by intros [_ [=]]|by intros (_ & ? & [=] & ?)].
Qed.

Lemma compensation_check_iff d a : check_compensation d a = Ok tt <-> compensation_wf d a.
Proof.
  unfold check_compensation, compensation_wf, action_index, is_zero.
  case_bool_decide as H.
  - rewrite (decide_True _ _ H). check_iff. by rewrite find_index_id_is_Some.
  - rewrite (decide_False _ _ H). by check_iff.
Qed.

Lemma goal_check_iff d g : check_goal d g = Ok tt <-> goal_wf d g.
Proof.
  destruct valid_kind_iff as (_ & _ & _ & _ & _ & Hv & _). unfold check_goal, goal_wf.
  check_iff. rewrite Hv. repeat (apply and_iff_compat_l).
  case_bool_decide as H; [|by split].
  destruct (find_service d _) as [s|]; check_iff.
  - split; [by intros ? _ ? [= <-]|intros Hs; by apply Hs].
  - by split.
Qed.

Lemma service_check_iff l s : check_service l s = Ok tt <-> service_wf l s.
Proof.
  unfold check_service. check_iff. split.
  - intros (? & ? & ? & ?). by split.
  - intros [? ? ?]. split_and!; lia.
Qed.

Lemma checkM_iff {E A} (f : A -> result E unit) (P : A -> Prop) l :
  (forall x, f x = Ok tt <-> P x) -> checkM f l = Ok tt <-> Forall P l.
Proof. intros H. rewrite checkM_ok. apply Forall_iff. done. Qed.

Lemma scalars_check_iff l a :
  check_action_scalars l a = Ok tt <->
  sizez (string_bytes (action_name a)) <= max_string_length l /\
  (action_kind a <> ActionKind.COUNT /\ reversibility a <> Reversibility.COUNT /\
   required_domain a <> AuthorityDomain.COUNT /\ required_level a <> AuthorityLevel.COUNT) /\
  (max_occurrences a <> 0 /\ max_occurrences a <= max_action_occurrences l) /\
  (sizez (preconditions a) <= max_preconditions_per_action l /\
   sizez (effects a) <= max_effects_per_action l).
Proof.
  destruct valid_kind_iff as (_ & _ & _ & Ha & Hr & _ & Hd & Hl).
  unfold check_action_scalars. check_iff. rewrite Ha, Hr, Hd, Hl. tauto.
Qed.

Lemma groups_check_iff d a :
  is_ok (unique_loop (fun g => g) "action lists the same exclusion group twice"
           (nonzero (fun g => g) "exclusion group reference must be non-zero")
           (check_declared_group d) (exclusion_groups a)) = true <->
  ids_wf (fun g => g) (exclusion_groups a) /\
  Forall (fun g => g ∈ map group_id (groups d)) (exclusion_groups a).
Proof.
  rewrite unique_loop_ok, Forall_and. unfold ids_wf.
  setoid_rewrite nonzero_ok. unfold check_declared_group. setoid_rewrite require_iff.
  setoid_rewrite existsb_group_iff. tauto.
Qed.

Lemma action_check_iff d l a : check_action d l a = Ok tt <-> action_wf d l a.
Proof.
  unfold check_action. rewrite !bind_unit_ok, rbind_is_ok, scalars_check_iff,
    compensation_check_iff, groups_check_iff,
    (checkM_iff _ _ _ (precondition_check_iff d)), (checkM_iff _ _ _ (effect_check_iff d)),
    (checkM_iff _ _ _ (use_check_iff d)), (checkM_iff _ _ _ (dependency_check_iff d a)).
  split; [intros; destruct_and?; by constructor|intros []; tauto].
Qed.

(** One identity section of the definition. *)
Lemma section_ok {A} (id : A -> Z) dup text post (P : A -> Prop) l :
  (forall x, post x = Ok tt <-> P x) ->
  is_ok (unique_loop id dup (nonzero id text) post l) = true <-> ids_wf id l /\ Forall P l.
Proof.
  intros HP. rewrite unique_loop_ok, Forall_and. unfold ids_wf.
  setoid_rewrite nonzero_ok. setoid_rewrite HP. tauto.
Qed.

Lemma link_check_iff d k :
  check_link d k = Ok tt <->
  endpoint_a k ∈ map node_id (nodes d) /\ endpoint_b k ∈ map node_id (nodes d).
Proof. unfold check_link, node_index. check_iff. by rewrite !find_index_id_is_Some. Qed.

Lemma resource_check_iff l r :
  check_resource l r = Ok tt <->
  resource_kind r <> ResourceKind.COUNT /\ hold_steps r <= max_hold_steps l.
Proof. destruct valid_kind_iff as [Hv _]. unfold check_resource. check_iff. by rewrite Hv. Qed.

Lemma group_check_iff g : check_group g = Ok tt <-> max_selected g <> 0.
Proof. unfold check_group. by check_iff. Qed.

Lemma sizes_check_iff d l :
  check_sizes d l = Ok tt <->
  sizez (nodes d) <= max_nodes l /\ sizez (links d) <= max_links l /\
  sizez (services d) <= max_services l /\ sizez (resources d) <= max_resources l /\
  sizez (actions d) <= max_actions l /\ sizez (goals d) <= max_goals l /\
  sizez (groups d) <= max_exclusion_groups l.
Proof. unfold check_sizes. by check_iff. Qed.

Lemma check_definition_iff d l : check_definition d l = Ok tt <-> definition_wf l d.
Proof.
  unfold check_definition.
  rewrite bind_unit_ok, sizes_check_iff, !rbind_is_ok,
    (section_ok node_id _ _ no_check (fun _ => True)) by done.
  rewrite (section_ok link_id _ _ _ _ _ (link_check_iff d)),
    (section_ok service_id _ _ _ _ _ (service_check_iff l)),
    (section_ok resource_id _ _ _ _ _ (resource_check_iff l)),
    (section_ok group_id _ _ _ _ _ group_check_iff),
    (section_ok action_id _ _ _ _ _ (action_check_iff d l)),
    (checkM_iff _ _ _ (goal_check_iff d)).
  split; [intros; destruct_and?; constructor; tauto|].
  intros []. split_and!; try tauto. by apply Forall_true.
Qed.

(** Identities of a well-formed definition name one element each. *)
Lemma find_index_id {A} `{Inhabited A} (id : A -> Z) l i :
  NoDup (map id l) -> (i < length l)%nat -> find_index (fun x => id x =? id (l !!! i)) l = Some i.
Proof.
  revert i; induction l as [|x l IH]; intros i Hn Hi; simpl in *; [lia|].
  apply NoDup_cons in Hn as [Hx Hn]. destruct i as [|i]; simpl.
  - by rewrite Z.eqb_refl.
  - destruct (Z.eqb_spec (id x) (id (l !!! i))) as [He|_].
    + exfalso. apply Hx. rewrite He. apply list_elem_of_fmap.
      exists (l !!! i). split; [done|]. apply list_elem_of_lookup_total_2. lia.
    + rewrite IH by (done || lia). done.
Qed.

(** ** Properties *)

(** C37: validation is exact: [validate_definition] accepts a definition exactly
    when it is well formed (sizes within the limits, every identity non-zero and
    unique, every reference declared with the subject kind its use expects,
    values within the bounds of their subjects), and it then leaves the log
    untouched; otherwise it reports an invalid argument and explains it. *)
Theorem validate_definition_exact d l log :
  ((validate_definition d l log).1 = Ok tt <-> definition_wf l d) /\
  ((validate_definition d l log).1 = Ok tt -> (validate_definition d l log).2 = log) /\
  (~ definition_wf l d -> exists text,
     validate_definition d l log =
       (Err (mkStatus StatusCode.INVALID_ARGUMENT text),
        log_add_text log ReasonCode.REQUEST_INVALID_DEFINITION text)).
Proof.
  rewrite <- check_definition_iff. unfold validate_definition.
  destruct (check_definition d l) as [[]|text]; simpl.
  - split_and!; [done|done|]. intros H. by destruct H.
  - split_and!; [split; done|done|]. intros _. by exists text.
Qed.

Lemma validate_definition_exact_witness :
  exists text, validate_definition
      (mkDefinition [mkNode 1 true; mkNode 1 false] [] [] [] [] [] []) default_model_limits
      (new_log 4) =
    (Err (mkStatus StatusCode.INVALID_ARGUMENT text),
     log_add_text (new_log 4) ReasonCode.REQUEST_INVALID_DEFINITION text).
Proof.
  apply (proj2 (proj2 (validate_definition_exact
    (mkDefinition [mkNode 1 true; mkNode 1 false] [] [] [] [] [] []) default_model_limits
    (new_log 4)))).
  rewrite <- check_definition_iff. vm_compute. discriminate.
Defined.
