(* ===== verification/Plan.v ===== *)
(** * Plans, decisions and proof certificates

    Models [include/nrp/plan.hpp], [src/plan.cpp] and [encode_plan] of
    [src/codec.cpp]. The human readable renderings are in [Render]. *)
From S2P Require Import Prelude Ids Canonical Model Objective Domain.

Module PlanDecision.
Inductive t :=
| PLAN_FOUND | PROVEN_INFEASIBLE | INDETERMINATE_SEARCH_LIMIT |
  INDETERMINATE_INCOMPLETE_EVIDENCE | REJECTED_INVALID_REQUEST | REJECTED_UNSUPPORTED_PROBLEM |
  REJECTED_STALE_AUTHORITY | REJECTED_UNKNOWN_AUTHORITY | REJECTED_CONFLICTING_AUTHORITY |
  REJECTED_FENCED | REJECTED_EXHAUSTED | COUNT.

#[global] Instance eq_dec : EqDecision t.
Proof. solve_decision. Defined.

Definition to_u8 (x : t) : Z :=
  match x with
  | PLAN_FOUND => 0
  | PROVEN_INFEASIBLE => 1
  | INDETERMINATE_SEARCH_LIMIT => 2
  | INDETERMINATE_INCOMPLETE_EVIDENCE => 3
  | REJECTED_INVALID_REQUEST => 4
  | REJECTED_UNSUPPORTED_PROBLEM => 5
  | REJECTED_STALE_AUTHORITY => 6
  | REJECTED_UNKNOWN_AUTHORITY => 7
  | REJECTED_CONFLICTING_AUTHORITY => 8
  | REJECTED_FENCED => 9
  | REJECTED_EXHAUSTED => 10
  | COUNT => 11
  end.

(** [static_cast] from the raw byte; outside the domain the cast is not used. *)
Definition of_u8 (raw : Z) : t :=
  match raw with
  | 0 => PLAN_FOUND
  | 1 => PROVEN_INFEASIBLE
  | 2 => INDETERMINATE_SEARCH_LIMIT
  | 3 => INDETERMINATE_INCOMPLETE_EVIDENCE
  | 4 => REJECTED_INVALID_REQUEST
  | 5 => REJECTED_UNSUPPORTED_PROBLEM
  | 6 => REJECTED_STALE_AUTHORITY
  | 7 => REJECTED_UNKNOWN_AUTHORITY
  | 8 => REJECTED_CONFLICTING_AUTHORITY
  | 9 => REJECTED_FENCED
  | 10 => REJECTED_EXHAUSTED
  | _ => COUNT
  end.

Definition to_string (x : t) : string :=
  match x with
  | PLAN_FOUND => "PLAN_FOUND"
  | PROVEN_INFEASIBLE => "PROVEN_INFEASIBLE"
  | INDETERMINATE_SEARCH_LIMIT => "INDETERMINATE_SEARCH_LIMIT"
  | INDETERMINATE_INCOMPLETE_EVIDENCE => "INDETERMINATE_INCOMPLETE_EVIDENCE"
  | REJECTED_INVALID_REQUEST => "REJECTED_INVALID_REQUEST"
  | REJECTED_UNSUPPORTED_PROBLEM => "REJECTED_UNSUPPORTED_PROBLEM"
  | REJECTED_STALE_AUTHORITY => "REJECTED_STALE_AUTHORITY"
  | REJECTED_UNKNOWN_AUTHORITY => "REJECTED_UNKNOWN_AUTHORITY"
  | REJECTED_CONFLICTING_AUTHORITY => "REJECTED_CONFLICTING_AUTHORITY"
  | REJECTED_FENCED => "REJECTED_FENCED"
  | REJECTED_EXHAUSTED => "REJECTED_EXHAUSTED"
  | COUNT => "COUNT"
  end.

Definition is_valid (x : t) : bool :=
  match x with
  | PLAN_FOUND | PROVEN_INFEASIBLE | INDETERMINATE_SEARCH_LIMIT |
  INDETERMINATE_INCOMPLETE_EVIDENCE | REJECTED_INVALID_REQUEST | REJECTED_UNSUPPORTED_PROBLEM |
  REJECTED_STALE_AUTHORITY | REJECTED_UNKNOWN_AUTHORITY | REJECTED_CONFLICTING_AUTHORITY |
  REJECTED_FENCED | REJECTED_EXHAUSTED => true
  | COUNT => false
  end.
End PlanDecision.

Module ProofKind.
Inductive t :=
| EXHAUSTIVE_SEARCH | DEPENDENCY_CYCLE | GOAL_UPPER_BOUND | COUNT.

#[global] Instance eq_dec : EqDecision t.
Proof. solve_decision. Defined.

Definition to_u8 (x : t) : Z :=
  match x with
  | EXHAUSTIVE_SEARCH => 0
  | DEPENDENCY_CYCLE => 1
  | GOAL_UPPER_BOUND => 2
  | COUNT => 3
  end.

(** [static_cast] from the raw byte; outside the domain the cast is not used. *)
Definition of_u8 (raw : Z) : t :=
  match raw with
  | 0 => EXHAUSTIVE_SEARCH
  | 1 => DEPENDENCY_CYCLE
  | 2 => GOAL_UPPER_BOUND
  | _ => COUNT
  end.

Definition to_string (x : t) : string :=
  match x with
  | EXHAUSTIVE_SEARCH => "EXHAUSTIVE_SEARCH"
  | DEPENDENCY_CYCLE => "DEPENDENCY_CYCLE"
  | GOAL_UPPER_BOUND => "GOAL_UPPER_BOUND"
  | COUNT => "COUNT"
  end.
End ProofKind.


Definition is_indeterminate (decision : PlanDecision.t) : bool :=
  match decision with
  | PlanDecision.INDETERMINATE_SEARCH_LIMIT | PlanDecision.INDETERMINATE_INCOMPLETE_EVIDENCE
  | PlanDecision.REJECTED_EXHAUSTED => true
  | _ => false
  end.

Definition is_rejection (decision : PlanDecision.t) : bool :=
  match decision with
  | PlanDecision.REJECTED_INVALID_REQUEST | PlanDecision.REJECTED_UNSUPPORTED_PROBLEM
  | PlanDecision.REJECTED_STALE_AUTHORITY | PlanDecision.REJECTED_UNKNOWN_AUTHORITY
  | PlanDecision.REJECTED_CONFLICTING_AUTHORITY | PlanDecision.REJECTED_FENCED
  | PlanDecision.REJECTED_EXHAUSTED => true
  | _ => false
  end.

(** ** Plans *)

Record EvidenceBinding := mkEvidenceBinding {
  eb_kind : EvidenceKind.t;
  eb_subject : Subject;
  eb_generation : Generation
}.

#[global] Instance EvidenceBinding_eq_dec : EqDecision EvidenceBinding.
Proof. solve_decision. Defined.

Definition evidence_binding_key (b : EvidenceBinding) : list Z :=
  subject_key (eb_subject b) ++ [EvidenceKind.to_u8 (eb_kind b); eb_generation b].

Definition evidence_binding_lt : EvidenceBinding -> EvidenceBinding -> bool :=
  lt_on evidence_binding_key.

Record PlanStep := mkStep {
  step_index : Z;
  step_action : ActionId;
  step_occurrence : Z;
  step_start_tick : Z;
  step_end_tick : Z;
  step_required_domain : AuthorityDomain.t;
  step_required_level : AuthorityLevel.t;
  step_required_generation : Generation;
  step_issued_level : AuthorityLevel.t;
  step_evidence : list EvidenceBinding;
  step_irreversible : bool;
  step_compensation : ActionId
}.

#[global] Instance PlanStep_eq_dec : EqDecision PlanStep.
Proof. solve_decision. Defined.

Record RecoveryPlan := mkPlan {
  plan_id : Z;
  plan_request : Z;
  plan_epoch : Epoch;
  plan_boot : BootId;
  plan_attempt : Z;
  plan_steps : list PlanStep;
  plan_objective : ObjectiveVector;
  plan_request_digest : Digest;
  plan_definition_digest : Digest;
  plan_evidence_digest : Digest;
  plan_authority_digest : Digest;
  plan_policy_digest : Digest;
  plan_digest : Digest;
  plan_explanations : list Explanation
}.

(** [RecoveryPlan::encoding] *)
Definition encoding (p : RecoveryPlan) : list ActionId := map step_action (plan_steps p).

Definition encode_evidence_binding (b : EvidenceBinding) : list Z :=
  w_u8 (EvidenceKind.to_u8 (eb_kind b)) ++
  w_u8 (SubjectKind.to_u8 (subject_kind (eb_subject b))) ++
  w_u64 (subject_id (eb_subject b)) ++ w_u64 (eb_generation b).

Definition encode_step (s : PlanStep) : list Z :=
  w_u32 (step_index s) ++ w_u64 (step_action s) ++ w_u32 (step_occurrence s) ++
  w_u64 (step_start_tick s) ++ w_u64 (step_end_tick s) ++
  w_u8 (AuthorityDomain.to_u8 (step_required_domain s)) ++
  w_u8 (AuthorityLevel.to_u8 (step_required_level s)) ++
  w_u64 (step_required_generation s) ++
  w_u8 (AuthorityLevel.to_u8 (step_issued_level s)) ++
  w_list encode_evidence_binding (step_evidence s) ++
  w_boolean (step_irreversible s) ++ w_u64 (step_compensation s).

Definition encode_digest (d : Digest) : list Z := w_u64 (digest_hi d) ++ w_u64 (digest_lo d).

(** [encode_plan]: the plan digest itself is not part of the encoding. *)
Definition encode_plan (p : RecoveryPlan) : list Z :=
  w_u64 (plan_id p) ++ w_u64 (plan_request p) ++ w_u64 (plan_epoch p) ++
  w_u64 (plan_boot p) ++ w_u64 (plan_attempt p) ++
  w_list encode_step (plan_steps p) ++ encode_objective (plan_objective p) ++
  encode_digest (plan_request_digest p) ++ encode_digest (plan_definition_digest p) ++
  encode_digest (plan_evidence_digest p) ++ encode_digest (plan_authority_digest p) ++
  encode_digest (plan_policy_digest p) ++ w_list encode_explanation (plan_explanations p).

(** The plan under another identity and digest. *)
Definition set_identity (p : RecoveryPlan) (id : Z) (digest : Digest) : RecoveryPlan :=
  mkPlan id (plan_request p) (plan_epoch p) (plan_boot p) (plan_attempt p) (plan_steps p)
    (plan_objective p) (plan_request_digest p) (plan_definition_digest p)
    (plan_evidence_digest p) (plan_authority_digest p) (plan_policy_digest p) digest
    (plan_explanations p).

(** [RecoveryPlan::compute_digest]: identity and digest are zeroed first. *)
Definition compute_digest (p : RecoveryPlan) : Digest :=
  digest_of (encode_plan (set_identity p 0 zero_digest)).

(** ** Certificates and results *)

Record InfeasibilityCertificate := mkCertificate {
  cert_kind : ProofKind.t;
  cert_request_digest : Digest;
  cert_policy_digest : Digest;
  cert_nodes_expanded : Z;
  cert_nodes_generated : Z;
  cert_reachable_states : Z;
  cert_cycle : list ActionId;
  cert_unreachable_subject : Subject;
  cert_unreachable_value : Z;
  cert_required_value : Z;
  cert_assumptions : list string;
  cert_explanations : list Explanation
}.

Record SearchStats := mkStats {
  st_nodes_expanded : Z;
  st_nodes_generated : Z;
  st_nodes_pruned_by_dominance : Z;
  st_nodes_pruned_by_safety : Z;
  st_nodes_pruned_by_authority : Z;
  st_nodes_pruned_by_policy : Z;
  st_frontier_high_water : Z;
  st_states_revisited : Z;
  st_budget_nodes : Z;
  st_budget_exhausted : bool;
  st_frontier_emptied : bool
}.

Definition zero_stats : SearchStats := mkStats 0 0 0 0 0 0 0 0 0 false false.

Record PlanningResult := mkResult {
  pr_decision : PlanDecision.t;
  pr_request : Z;
  pr_epoch : Epoch;
  pr_boot : BootId;
  pr_attempt : Z;
  pr_plan : option RecoveryPlan;
  pr_certificate : option InfeasibilityCertificate;
  pr_stats : SearchStats;
  pr_unresolved_subjects : list Subject;
  pr_explanations : list Explanation;
  pr_request_digest : Digest
}.

(** ** Properties *)

(** The plan digest identifies the plan's content, not its name: renaming
    a plan or writing the digest into it leaves the digest unchanged, so the
    identity derived from the digest can be stored in the plan and the digest
    recomputed from the stored plan. *)
Theorem compute_digest_ignores_identity p id digest :
  compute_digest (set_identity p id digest) = compute_digest p.
Proof. done. Qed.

(** The three classes of outcome: [REJECTED_EXHAUSTED] is the one decision
    that is both indeterminate and a rejection; every other valid decision is in
    exactly one of found, proven infeasible, indeterminate and rejected. *)
Theorem decision_classes d :
  PlanDecision.is_valid d = true ->
  (is_indeterminate d = true /\ is_rejection d = true <-> d = PlanDecision.REJECTED_EXHAUSTED) /\
  (is_indeterminate d = false -> is_rejection d = false ->
   d = PlanDecision.PLAN_FOUND \/ d = PlanDecision.PROVEN_INFEASIBLE).
Proof. destruct d; simpl; intros; split; try split; try intros [? ?]; intros; auto; congruence. Qed.

Lemma decision_classes_witness :
  is_indeterminate PlanDecision.REJECTED_EXHAUSTED = true /\
  is_rejection PlanDecision.REJECTED_EXHAUSTED = true.
Proof.
  apply (proj1 (decision_classes PlanDecision.REJECTED_EXHAUSTED eq_refl)). reflexivity.
Defined.
