(* ===== verification/Fixture.v ===== *)
(** * A concrete fabric

    A small recovery problem on which the witnesses of the development evaluate
    the definitions: a failed link 1 must be restored (consuming a spare) before
    link 2 can be brought back, and both raise the reachability of service 1. *)
From S2P Require Import Prelude Ids Canonical Model Objective Domain DefinitionCheck.

Definition restore_action : ActionSpec :=
  mkAction 10 "restore-1" ActionKind.RESTORE Reversibility.REVERSIBLE 11 1 2 5 10 1
    AuthorityDomain.RECOVERY_ADMISSION AuthorityLevel.RECOMMENDATION
    [mkPrecondition PreconditionKind.LINK_NOT_OPERATIONAL (subject_of_link 1) 1]
    [mkEffect EffectKind.SERVICE_REACHABLE_DELTA (subject_of_service 1) 1;
     mkEffect EffectKind.SET_LINK_OPERATIONAL (subject_of_link 1) 1]
    [mkUse 1 1; mkUse 2 1] [] [].

Definition reroute_action : ActionSpec :=
  mkAction 11 "reroute-2" ActionKind.REROUTE Reversibility.REVERSIBLE 10 2 1 3 4 2
    AuthorityDomain.RECOVERY_ADMISSION AuthorityLevel.RECOMMENDATION
    [mkPrecondition PreconditionKind.LINK_OPERATIONAL (subject_of_link 1) 1]
    [mkEffect EffectKind.SERVICE_REACHABLE_DELTA (subject_of_service 1) 1;
     mkEffect EffectKind.SET_LINK_OPERATIONAL (subject_of_link 2) 1]
    [] [mkDependency 10 1] [7].

Definition example_definition : FabricDefinition :=
  mkDefinition [mkNode 1 true; mkNode 2 false] [mkLink 1 1 2; mkLink 2 1 2]
    [mkService 1 1 3 4 true]
    [mkResource 1 ResourceKind.CONSUMABLE 2 0; mkResource 2 ResourceKind.REUSABLE 1 2]
    [restore_action; reroute_action]
    [mkGoal GoalKind.SERVICE_REACHABLE_AT_LEAST (subject_of_service 1) 3 1;
     mkGoal GoalKind.LINK_OPERATIONAL (subject_of_link 2) 1 1]
    [mkGroup 7 1].

Definition example_binding (d : AuthorityDomain.t) (level : AuthorityLevel.t) : AuthorityBinding :=
  mkBinding d 100 4 4 level.

Definition example_authority : AuthorityVector :=
  mkAuthority 3 9
    (map (fun d => example_binding d AuthorityLevel.AUTHORIZATION)
       [AuthorityDomain.FABRIC_STATE; AuthorityDomain.RECOVERY_ADMISSION;
        AuthorityDomain.RESOURCE_LEASE; AuthorityDomain.POLICY; AuthorityDomain.EVIDENCE_INGEST]).

Definition fabric_fact (id : Z) (kind : EvidenceKind.t) (s : Subject) (value seq : Z)
  : EvidenceFact :=
  mkFact id kind s value 4 AuthorityDomain.FABRIC_STATE 50 TrustLabel.REAL seq.

Definition lease_fact (id : Z) (kind : EvidenceKind.t) (s : Subject) (value seq : Z)
  : EvidenceFact :=
  mkFact id kind s value 4 AuthorityDomain.RESOURCE_LEASE 50 TrustLabel.REAL seq.

Definition example_facts : list EvidenceFact :=
  [fabric_fact 1 EvidenceKind.LINK_OPERATIONAL (subject_of_link 1) 0 7;
   fabric_fact 2 EvidenceKind.LINK_OPERATIONAL (subject_of_link 2) 0 7;
   fabric_fact 3 EvidenceKind.SERVICE_REACHABLE_ENDPOINTS (subject_of_service 1) 1 7;
   lease_fact 4 EvidenceKind.RESOURCE_AVAILABLE_UNITS (subject_of_resource 1) 2 7].

Definition example_evidence : EvidenceBundle := mkEvidence 3 9 example_facts.

(** Reversible actions only, plans of at most 8 steps. *)
Definition example_policy : PlanPolicy := mkPolicy false true 8 100 100 100 1.

Definition example_request : PlanRequest :=
  mkRequest 1 3 9 1 example_definition example_evidence example_authority example_policy [].

(** ** Lemmas *)

(** Decides the range conditions of a concrete value. *)
Ltac concrete :=
  repeat (constructor || (hnf; lia)); done.

Lemma example_typed : definition_typed example_definition.
Proof.
  split; simpl; repeat constructor; unfold in_u64, in_u32, in_i64; simpl; done || lia.
Qed.

Lemma example_wf : definition_wf default_model_limits example_definition.
Proof. apply check_definition_iff. vm_compute. reflexivity. Qed.

Lemma example_facts_typed : Forall (fun f => in_u64 (fact_value f)) example_facts.
Proof. repeat constructor; unfold in_u64; simpl; done || lia. Qed.
