(* ===== verification/Codec.v ===== *)
(** * Canonical decoders

    Models [src/codec.cpp]. A decoder is the reader computation of the source:
    plain reads go through the sticky error, [check_ok] is the early return of
    that error, and a nested decoder returns its own failure. The first part has
    the decoders, the second proves that each one is a [Codec] of the matching
    encoder: it reads back what was written, and it accepts nothing but the
    encoding of the value it returns, so that no value has two encodings. *)
From S2P Require Import Prelude Ids Canonical Model Objective Domain DefinitionCheck Plan Fixture.

(** ** Decoders *)

(** The kind [NONE] is a domain value but not an addressable subject. *)
Definition read_subject (what : string) : Rd Subject := fun r =>
  let '(kind, r) := r_enum_value SubjectKind.of_u8 7 what r in
  let '(id, r) := r_u64 r in
  let subject := mkSubject kind id in
  if rd_ok r && bool_decide (kind = SubjectKind.NONE)
  then (subject, fail StatusCode.PROTOCOL_ERROR
                   ("subject kind NONE is not addressable in " +:+ what) r)
  else (subject, r).

Definition decode_node : Dec NodeSpec :=
  id <- rd r_u64 ;; protected <- rd r_boolean ;; _ <- check_ok ;;
  dret (mkNode id protected).

Definition decode_link : Dec LinkSpec :=
  id <- rd r_u64 ;; a <- rd r_u64 ;; b <- rd r_u64 ;; _ <- check_ok ;;
  dret (mkLink id a b).

Definition decode_service : Dec ServiceSpec :=
  id <- rd r_u64 ;; required <- rd r_u32 ;; target <- rd r_u32 ;; maximum <- rd r_u32 ;;
  protected <- rd r_boolean ;; _ <- check_ok ;;
  dret (mkService id required target maximum protected).

Definition decode_resource : Dec ResourceSpec :=
  id <- rd r_u64 ;; kind <- rd (r_enum_value ResourceKind.of_u8 2 "resource kind") ;;
  capacity <- rd r_u32 ;; hold <- rd r_u32 ;; _ <- check_ok ;;
  dret (mkResource id kind capacity hold).

Definition decode_precondition : Dec Precondition :=
  kind <- rd (r_enum_value PreconditionKind.of_u8 8 "precondition kind") ;;
  subject <- rd (read_subject "precondition") ;; value <- rd r_u64 ;; _ <- check_ok ;;
  dret (mkPrecondition kind subject value).

Definition decode_effect : Dec Effect :=
  kind <- rd (r_enum_value EffectKind.of_u8 6 "effect kind") ;;
  subject <- rd (read_subject "effect") ;; value <- rd r_i64 ;; _ <- check_ok ;;
  dret (mkEffect kind subject value).

Definition decode_use : Dec ResourceUse :=
  resource <- rd r_u64 ;; units <- rd r_u32 ;; _ <- check_ok ;; dret (mkUse resource units).

Definition decode_dependency : Dec ActionDependency :=
  predecessor <- rd r_u64 ;; minimum <- rd r_u32 ;; _ <- check_ok ;;
  dret (mkDependency predecessor minimum).

Definition decode_group_id : Dec ExclusionGroupId :=
  id <- rd r_u64 ;; _ <- check_ok ;; dret id.

Definition decode_action (limits : ModelLimits) : Dec ActionSpec :=
  id <- rd r_u64 ;; name <- rd (r_str (max_string_length limits)) ;;
  kind <- rd (r_enum_value ActionKind.of_u8 7 "action kind") ;;
  reversible <- rd (r_enum_value Reversibility.of_u8 2 "action reversibility") ;;
  compensated_by <- rd r_u64 ;; blast <- rd r_u32 ;; disrupts <- rd r_u32 ;;
  cost <- rd r_u64 ;; duration <- rd r_u64 ;; occurrences <- rd r_u32 ;;
  domain <- rd (r_enum_value AuthorityDomain.of_u8 5 "action required_domain") ;;
  level <- rd (r_enum_value AuthorityLevel.of_u8 7 "action required_level") ;;
  _ <- check_ok ;;
  pres <- d_list (max_preconditions_per_action limits) "preconditions" decode_precondition ;;
  effs <- d_list (max_effects_per_action limits) "effects" decode_effect ;;
  uses <- d_list (max_resources limits) "resource uses per action" decode_use ;;
  deps <- d_list (max_actions limits) "action dependencies" decode_dependency ;;
  excl <- d_list (max_exclusion_groups limits) "action exclusion groups" decode_group_id ;;
  dret (mkAction id name kind reversible compensated_by blast disrupts cost duration occurrences
          domain level pres effs uses deps excl).

Definition decode_goal : Dec GoalSpec :=
  kind <- rd (r_enum_value GoalKind.of_u8 4 "goal kind") ;;
  subject <- rd (read_subject "goal") ;; value <- rd r_u64 ;; weight <- rd r_u32 ;;
  _ <- check_ok ;; dret (mkGoal kind subject value weight).

Definition decode_group : Dec ExclusionGroup :=
  id <- rd r_u64 ;; maximum <- rd r_u32 ;; _ <- check_ok ;; dret (mkGroup id maximum).

Definition decode_definition (limits : ModelLimits) : Dec FabricDefinition :=
  ns <- d_list (max_nodes limits) "nodes" decode_node ;;
  ls <- d_list (max_links limits) "links" decode_link ;;
  ss <- d_list (max_services limits) "services" decode_service ;;
  rs <- d_list (max_resources limits) "resources" decode_resource ;;
  acts <- d_list (max_actions limits) "actions" (decode_action limits) ;;
  gs <- d_list (max_goals limits) "goals" decode_goal ;;
  xs <- d_list (max_exclusion_groups limits) "exclusion groups" decode_group ;;
  dret (mkDefinition ns ls ss rs acts gs xs).

Definition decode_fact : Dec EvidenceFact :=
  id <- rd r_u64 ;; kind <- rd (r_enum_value EvidenceKind.of_u8 5 "evidence kind") ;;
  subject <- rd (read_subject "evidence") ;; value <- rd r_u64 ;; generation <- rd r_u64 ;;
  domain <- rd (r_enum_value AuthorityDomain.of_u8 5 "evidence source_domain") ;;
  source <- rd r_u64 ;; label <- rd (r_enum_value TrustLabel.of_u8 4 "evidence trust label") ;;
  sequence <- rd r_u64 ;; _ <- check_ok ;;
  dret (mkFact id kind subject value generation domain source label sequence).

Definition decode_evidence (limits : ModelLimits) : Dec EvidenceBundle :=
  epoch <- rd r_u64 ;; boot <- rd r_u64 ;;
  facts <- d_list (max_evidence_facts limits) "evidence facts" decode_fact ;;
  dret (mkEvidence epoch boot facts).

Definition decode_binding : Dec AuthorityBinding :=
  domain <- rd (r_enum_value AuthorityDomain.of_u8 5 "authority domain") ;;
  authority <- rd r_u64 ;; required <- rd r_u64 ;; granted <- rd r_u64 ;;
  level <- rd (r_enum_value AuthorityLevel.of_u8 7 "authority level") ;; _ <- check_ok ;;
  dret (mkBinding domain authority required granted level).

Definition decode_authority (limits : ModelLimits) : Dec AuthorityVector :=
  epoch <- rd r_u64 ;; boot <- rd r_u64 ;;
  bindings <- d_list (max_authority_bindings limits) "authority bindings" decode_binding ;;
  dret (mkAuthority epoch boot bindings).

Definition decode_policy : Dec PlanPolicy :=
  irreversible <- rd r_boolean ;; current <- rd r_boolean ;; steps <- rd r_u64 ;;
  expanded <- rd r_u64 ;; generated <- rd r_u64 ;; frontier <- rd r_u64 ;; scale <- rd r_u32 ;;
  _ <- check_ok ;;
  if steps =? 0
  then dfail (mkStatus StatusCode.INVALID_ARGUMENT "policy max_plan_steps must be at least one")
  else if (expanded =? 0) || (generated =? 0) || (frontier =? 0)
  then dfail (mkStatus StatusCode.INVALID_ARGUMENT "policy search budgets must be at least one")
  else dret (mkPolicy irreversible current steps expanded generated frontier scale).

Definition decode_fence : Dec Fence :=
  epoch <- rd r_u64 ;; boot <- rd r_u64 ;;
  domain <- rd (r_enum_value AuthorityDomain.of_u8 5 "fence domain") ;;
  minimum <- rd r_u64 ;; sequence <- rd r_u64 ;; reason <- rd (r_str 128) ;; _ <- check_ok ;;
  dret (mkFence epoch boot domain minimum sequence reason).

Definition decode_plan_request_body (limits : ModelLimits) : Dec PlanRequest :=
  id <- rd r_u64 ;; epoch <- rd r_u64 ;; boot <- rd r_u64 ;; attempt <- rd r_u64 ;;
  _ <- check_ok ;;
  definition <- decode_definition limits ;; evidence <- decode_evidence limits ;;
  authority <- decode_authority limits ;; policy <- decode_policy ;;
  fences <- d_list (max_fences limits) "fences" decode_fence ;;
  dret (mkRequest id epoch boot attempt definition evidence authority policy fences).

(** Runs a decoder on the whole of [bytes]; nothing may be left over. *)
Definition decode_all {A} (m : Dec A) (bytes : list Z) : result Status A :=
  fst ((x <- m ;; _ <- require_end ;; dret x) (reader bytes)).

Definition decode_plan_request (bytes : list Z) (limits : ModelLimits) : result Status PlanRequest :=
  decode_all (decode_plan_request_body limits) bytes.

Definition decode_explanation (limits : ModelLimits) : Dec Explanation :=
  code <- rd (r_enum_value ReasonCode.of_u8 (ReasonCode.to_u8 ReasonCode.COUNT) "reason code") ;;
  kind <- rd (r_enum_value SubjectKind.of_u8 7 "explanation subject kind") ;;
  id <- rd r_u64 ;; a <- rd r_u64 ;; b <- rd r_u64 ;;
  text <- rd (r_str (u32 (max_string_length limits * 4))) ;; _ <- check_ok ;;
  dret (mkExplanation code (mkSubject kind id) a b text).

Definition decode_evidence_binding : Dec EvidenceBinding :=
  kind <- rd (r_enum_value EvidenceKind.of_u8 5 "evidence binding kind") ;;
  subject <- rd (read_subject "evidence binding") ;; generation <- rd r_u64 ;; _ <- check_ok ;;
  dret (mkEvidenceBinding kind subject generation).

Definition decode_step (limits : ModelLimits) : Dec PlanStep :=
  index <- rd r_u32 ;; action <- rd r_u64 ;; occurrence <- rd r_u32 ;; start <- rd r_u64 ;;
  finish <- rd r_u64 ;;
  domain <- rd (r_enum_value AuthorityDomain.of_u8 5 "step required_domain") ;;
  level <- rd (r_enum_value AuthorityLevel.of_u8 7 "step required_level") ;;
  generation <- rd r_u64 ;;
  issued <- rd (r_enum_value AuthorityLevel.of_u8 7 "step issued_level") ;; _ <- check_ok ;;
  bindings <- d_list (max_evidence_facts limits) "step evidence bindings"
                decode_evidence_binding ;;
  irreversible <- rd r_boolean ;; compensated_by <- rd r_u64 ;; _ <- check_ok ;;
  dret (mkStep index action occurrence start finish domain level generation issued bindings
          irreversible compensated_by).

Definition decode_digest : Dec Digest :=
  hi <- rd r_u64 ;; lo <- rd r_u64 ;; dret (mkDigest hi lo).

(** The digest of the plan is not transmitted: it stays zero. *)
Definition decode_plan (limits : ModelLimits) : Dec RecoveryPlan :=
  id <- rd r_u64 ;; request <- rd r_u64 ;; epoch <- rd r_u64 ;; boot <- rd r_u64 ;;
  attempt <- rd r_u64 ;;
  steps <- d_list (u32 (max_actions limits * max_action_occurrences limits + 1)) "plan steps"
             (decode_step limits) ;;
  objective <- drepeat kObjectiveComponents (rd r_u64) ;;
  rdig <- decode_digest ;; ddig <- decode_digest ;; edig <- decode_digest ;;
  adig <- decode_digest ;; pdig <- decode_digest ;; _ <- check_ok ;;
  explanations <- d_list 256 "plan explanations" (decode_explanation limits) ;;
  dret (mkPlan id request epoch boot attempt steps (mkObjective objective) rdig ddig edig adig
          pdig zero_digest explanations).

(** ** Lemmas: composing decoders *)

#[global] Hint Mode Prim ! - - ! : typeclass_instances.
#[global] Hint Mode Codec ! - - ! : typeclass_instances.

Lemma need_bad n r : rd_ok r = false -> need n r = (false, r).
Proof. unfold need. by intros ->. Qed.

(** A read that starts with [need], and one that starts with another read. *)
Ltac steady_need := intros r Hr; unfold r_u8, r_u32, r_u64; rewrite need_bad by done; exact Hr.
Ltac steady_after m :=
  intros r Hr;
  let H := fresh in pose proof (steady_rd (m := m) r Hr) as H; revert H;
  unfold r_boolean, r_enum_value, r_bounded_count, r_str; intros H;
  destruct (m r) as [? ?]; simpl in H; simpl; rewrite H; exact H.

#[global] Instance r_u8_steady : SteadyRd r_u8.
Proof. steady_need. Qed.
#[global] Instance r_u32_steady : SteadyRd r_u32.
Proof. steady_need. Qed.
#[global] Instance r_u64_steady : SteadyRd r_u64.
Proof. steady_need. Qed.
#[global] Instance r_i64_steady : SteadyRd r_i64.
Proof.
  intros r Hr. pose proof (steady_rd (m := r_u64) r Hr) as H. unfold r_i64.
  by destruct (r_u64 r).
Qed.
#[global] Instance r_boolean_steady : SteadyRd r_boolean.
Proof. steady_after r_u8. Qed.
#[global] Instance r_enum_steady {E} (cast : Z -> E) max what :
  SteadyRd (r_enum_value cast max what).
Proof. steady_after r_u8. Qed.
#[global] Instance r_count_steady max what : SteadyRd (r_bounded_count max what).
Proof. steady_after r_u32. Qed.
#[global] Instance r_str_steady max : SteadyRd (r_str max).
Proof. steady_after r_u32. Qed.
#[global] Instance read_subject_steady what : SteadyRd (read_subject what).
Proof.
  intros r Hr. unfold read_subject.
  pose proof (steady_rd (m := r_enum_value SubjectKind.of_u8 7 what) r Hr) as H.
  destruct (r_enum_value _ _ _ r) as [k r1]. simpl in H.
  pose proof (steady_rd (m := r_u64) r1 H) as H2. destruct (r_u64 r1) as [v r2].
  simpl in *. by rewrite H2.
Qed.

#[global] Instance dret_steady {A} (a : A) : Steady (dret a).
Proof. intros r x r' H. by injection H as <- <-. Qed.
#[global] Instance dfail_steady {A} s : Steady (dfail s : Dec A).
Proof. intros r x r' H. discriminate. Qed.
#[global] Instance check_ok_steady : Steady check_ok.
Proof. intros r x r'. unfold check_ok. destruct (rd_error r); [done|]. by intros [= <- <-]. Qed.
#[global] Instance rd_steady {A} (m : Rd A) `{!SteadyRd m} : Steady (rd m).
Proof.
  intros r x r'. unfold rd. destruct (m r) as [a r1] eqn:Hm. intros [= <- <-] Hok.
  apply not_false_iff_true. intros Hr. apply (steady_rd (m := m)) in Hr. rewrite Hm in Hr.
  simpl in Hr. congruence.
Qed.
#[global] Instance dbind_steady {A B} (m : Dec A) (k : A -> Dec B)
  `{!Steady m} `{!forall x, Steady (k x)} : Steady (dbind m k).
Proof.
  intros r x r'. unfold dbind. destruct (m r) as [[a|e] r1] eqn:Hm; [|discriminate].
  intros Hk Hok. by apply (steady _ _ _ Hm), (steady _ _ _ Hk).
Qed.
#[global] Instance if_steady {A} (b : bool) (m n : Dec A) `{!Steady m} `{!Steady n} :
  Steady (if b then m else n).
Proof. by destruct b. Qed.
#[global] Instance drepeat_steady {A} n (m : Dec A) `{!Steady m} : Steady (drepeat n m).
Proof. induction n; simpl; apply _. Qed.
#[global] Instance d_list_steady {A} max what (m : Dec A) `{!Steady m} :
  Steady (d_list max what m).
Proof. unfold d_list. apply _. Qed.

(** Running a decoder forwards, on an encoding. *)
Lemma run_rd {A V} {e : A -> list Z} (m : Rd A) `{!Prim V e m} B (k : A -> Dec B) x rest :
  V x -> dbind (rd m) k (reader (e x ++ rest)) = k x (reader rest).
Proof. intros Hx. unfold dbind, rd. by rewrite prim_dec_enc. Qed.

Lemma run_dec {A V} {e : A -> list Z} (m : Dec A) `{!Codec V e m} B (k : A -> Dec B) x rest :
  V x -> dbind m k (reader (e x ++ rest)) = k x (reader rest).
Proof. intros Hx. unfold dbind. by rewrite codec_dec_enc. Qed.

Lemma run_check {B} (k : unit -> Dec B) d :
  dbind check_ok k (reader d) = k tt (reader d).
Proof. done. Qed.

(** Running it backwards, from its success. *)
Lemma back_rd {A B V} {e : A -> list Z} (m : Rd A) `{!Prim V e m} (k : A -> Dec B)
  `{!forall x, Steady (k x)} d y r' :
  dbind (rd m) k (reader d) = (Ok y, r') -> Forall in_u8 d -> rd_ok r' = true ->
  exists x rest, V x /\ d = e x ++ rest /\ Forall in_u8 rest /\ k x (reader rest) = (Ok y, r').
Proof.
  intros Hr Hd Hok. unfold dbind, rd in Hr. destruct (m (reader d)) as [x r1] eqn:Hm.
  destruct (prim_enc_dec (reader d) x r1 Hd Hm (steady _ _ _ Hr Hok)) as (Hx & rest & He & ->).
  injection He as ->. exists x, rest. split_and!; [done|done| |done].
  by apply Forall_app in Hd as [].
Qed.

Lemma back_dec {A B V} {e : A -> list Z} (m : Dec A) `{!Codec V e m} (k : A -> Dec B)
  `{!forall x, Steady (k x)} d y r' :
  dbind m k (reader d) = (Ok y, r') -> Forall in_u8 d -> rd_ok r' = true ->
  exists x rest, V x /\ d = e x ++ rest /\ Forall in_u8 rest /\ k x (reader rest) = (Ok y, r').
Proof.
  intros Hr Hd Hok. unfold dbind in Hr. destruct (m (reader d)) as [[x|er] r1] eqn:Hm; [|discriminate].
  destruct (codec_enc_dec (reader d) x r1 Hd Hm (steady _ _ _ Hr Hok)) as (Hx & rest & He & ->).
  injection He as ->. exists x, rest. split_and!; [done|done| |done].
  by apply Forall_app in Hd as [].
Qed.

Lemma codec_intro {A} (V : A -> Prop) (e : A -> list Z) (m : Dec A) `{!Steady m} :
  (forall x rest, V x -> m (reader (e x ++ rest)) = (Ok x, reader rest)) ->
  (forall d x r', m (reader d) = (Ok x, r') -> Forall in_u8 d -> rd_ok r' = true ->
     V x /\ exists rest, d = e x ++ rest /\ r' = reader rest) ->
  Codec V e m.
Proof.
  intros Hf Hb. split; [done|]. intros r x r' Hr Hm Hok.
  pose proof (rd_ok_reader r (steady _ _ _ Hm Hok)) as He. rewrite He in Hm.
  destruct (Hb _ _ _ Hm Hr Hok) as (Hx & rest & Hd & ->).
  split; [done|]. exists rest. split; [|done]. by rewrite He, Hd.
Qed.

(** Steps through a decoder in both directions, one field at a time. *)
Ltac run_codec :=
  repeat first
    [ rewrite run_check
    | match goal with
      | |- dbind (rd ?m) _ _ = _ =>
          let H := fresh in pose proof (run_rd m) as H; cbv beta in H; rewrite H by tauto; clear H
      | |- dbind ?m _ _ = _ =>
          let H := fresh in pose proof (run_dec m) as H; cbv beta in H; rewrite H by tauto; clear H
      end ].

Ltac back_codec :=
  repeat match goal with
  | H : dbind check_ok _ (reader _) = _ |- _ => rewrite run_check in H
  | H : dbind (rd ?m) _ (reader _) = _, Hd : Forall in_u8 _, Hok : rd_ok _ = true |- _ =>
      apply (back_rd m) in H as (? & ? & ? & -> & ? & H); [|apply _|exact Hd|exact Hok]; clear Hd;
      cbv beta in H
  | H : dbind ?m _ (reader _) = _, Hd : Forall in_u8 _, Hok : rd_ok _ = true |- _ =>
      apply (back_dec m) in H as (? & ? & ? & -> & ? & H); [|apply _|exact Hd|exact Hok]; clear Hd;
      cbv beta in H
  | H : dret _ _ = _ |- _ => injection H as <- <-
  end.

Ltac solve_codec_with fits enc dec prepare :=
  apply codec_intro; [unfold dec; apply _| |];
  [ intros x rest Hx; destruct x; unfold enc, dec; unfold fits in Hx; simpl in Hx;
    rewrite <- ?app_assoc; simpl; rewrite <- ?app_assoc; prepare tt; run_codec; reflexivity
  | intros d x r' Hrun Hd Hok; unfold dec in Hrun; back_codec; unfold fits; simpl;
    split; [tauto|eexists; split; [|reflexivity]; unfold enc; simpl;
                  rewrite <- ?app_assoc; prepare tt; reflexivity] ].
Ltac solve_codec fits enc dec := solve_codec_with fits enc dec ltac:(fun _ => idtac).

(** ** Enumerations and subjects *)

(** The raw bytes below an enumerator count, one by one. *)
Fixpoint below (n : nat) : list Z := match n with O => [] | S n' => Z.of_nat n' :: below n' end.

Lemma elem_of_below n v : 0 <= v < Z.of_nat n -> v ∈ below n.
Proof.
  induction n as [|n IH]; intros Hv; [lia|]. cbn [below].
  destruct (decide (v = Z.of_nat n)) as [->|]; [left|right; apply IH; lia].
Qed.

Lemma r_enum_below {E} (to_u8 : E -> Z) (cast : Z -> E) (n : nat) (max : Z) (what : string) :
  max = Z.of_nat n -> max <= 256 ->
  (forall e, to_u8 e < max -> 0 <= to_u8 e /\ cast (to_u8 e) = e) ->
  forallb (fun v => to_u8 (cast v) =? v) (below n) = true ->
  Prim (fun e => to_u8 e < max) (fun e => w_u8 (to_u8 e)) (r_enum_value cast max what).
Proof.
  intros -> Hmax Hc Hall. apply r_enum_prim; [done|done|]. intros v Hv.
  apply Z.eqb_eq. apply (proj1 (forallb_forall _ _) Hall v). by apply list_elem_of_In, elem_of_below.
Qed.

Ltac enum_prim n :=
  apply (r_enum_below _ _ n); [reflexivity|done| |reflexivity];
  let e := fresh in intros e; destruct e; simpl; (lia || (intros _; split; [lia|reflexivity])).

#[global] Instance subject_kind_prim what :
  Prim (fun k => SubjectKind.to_u8 k < 7) (fun k => w_u8 (SubjectKind.to_u8 k))
    (r_enum_value SubjectKind.of_u8 7 what).
Proof. enum_prim 7%nat. Qed.
#[global] Instance trust_label_prim what :
  Prim (fun k => TrustLabel.to_u8 k < 4) (fun k => w_u8 (TrustLabel.to_u8 k))
    (r_enum_value TrustLabel.of_u8 4 what).
Proof. enum_prim 4%nat. Qed.
#[global] Instance authority_domain_prim what :
  Prim (fun k => AuthorityDomain.to_u8 k < 5) (fun k => w_u8 (AuthorityDomain.to_u8 k))
    (r_enum_value AuthorityDomain.of_u8 5 what).
Proof. enum_prim 5%nat. Qed.
#[global] Instance authority_level_prim what :
  Prim (fun k => AuthorityLevel.to_u8 k < 7) (fun k => w_u8 (AuthorityLevel.to_u8 k))
    (r_enum_value AuthorityLevel.of_u8 7 what).
Proof. enum_prim 7%nat. Qed.
#[global] Instance evidence_kind_prim what :
  Prim (fun k => EvidenceKind.to_u8 k < 5) (fun k => w_u8 (EvidenceKind.to_u8 k))
    (r_enum_value EvidenceKind.of_u8 5 what).
Proof. enum_prim 5%nat. Qed.
#[global] Instance reason_code_prim what :
  Prim (fun k => ReasonCode.to_u8 k < 58) (fun k => w_u8 (ReasonCode.to_u8 k))
    (r_enum_value ReasonCode.of_u8 (ReasonCode.to_u8 ReasonCode.COUNT) what).
Proof. enum_prim 58%nat. Qed.
#[global] Instance resource_kind_prim what :
  Prim (fun k => ResourceKind.to_u8 k < 2) (fun k => w_u8 (ResourceKind.to_u8 k))
    (r_enum_value ResourceKind.of_u8 2 what).
Proof. enum_prim 2%nat. Qed.
#[global] Instance precondition_kind_prim what :
  Prim (fun k => PreconditionKind.to_u8 k < 8) (fun k => w_u8 (PreconditionKind.to_u8 k))
    (r_enum_value PreconditionKind.of_u8 8 what).
Proof. enum_prim 8%nat. Qed.
#[global] Instance effect_kind_prim what :
  Prim (fun k => EffectKind.to_u8 k < 6) (fun k => w_u8 (EffectKind.to_u8 k))
    (r_enum_value EffectKind.of_u8 6 what).
Proof. enum_prim 6%nat. Qed.
#[global] Instance action_kind_prim what :
  Prim (fun k => ActionKind.to_u8 k < 7) (fun k => w_u8 (ActionKind.to_u8 k))
    (r_enum_value ActionKind.of_u8 7 what).
Proof. enum_prim 7%nat. Qed.
#[global] Instance reversibility_prim what :
  Prim (fun k => Reversibility.to_u8 k < 2) (fun k => w_u8 (Reversibility.to_u8 k))
    (r_enum_value Reversibility.of_u8 2 what).
Proof. enum_prim 2%nat. Qed.
#[global] Instance goal_kind_prim what :
  Prim (fun k => GoalKind.to_u8 k < 4) (fun k => w_u8 (GoalKind.to_u8 k))
    (r_enum_value GoalKind.of_u8 4 what).
Proof. enum_prim 4%nat. Qed.

(** What the decoders accept as a subject. *)
Definition addressable (s : Subject) : Prop :=
  subject_kind s <> SubjectKind.NONE /\ in_u64 (subject_id s).

#[global] Instance read_subject_prim what : Prim addressable encode_subject (read_subject what).
Proof.
  split.
  - intros [kind id] rest [Hk Hi]. simpl in Hk, Hi. unfold read_subject, encode_subject.
    rewrite <- app_assoc. cbn [subject_kind subject_id].
    pose proof (prim_dec_enc (m := r_enum_value SubjectKind.of_u8 7 what) kind
                  (w_u64 id ++ rest)) as H. cbv beta in H. rewrite H by (destruct kind; simpl; lia).
    rewrite prim_dec_enc by done. simpl. by rewrite bool_decide_eq_false_2.
  - intros r x r' Hb. unfold read_subject.
    destruct (r_enum_value _ _ _ r) as [k r1] eqn:Hk. destruct (r_u64 r1) as [i r2] eqn:Hi.
    destruct (rd_ok r2) eqn:Hok2; simpl; [|intros [= <- <-]; congruence].
    case_bool_decide as Hn; [intros [= <- <-]; by rewrite fail_not_ok|]. intros [= <- <-] _.
    assert (Hok1 : rd_ok r1 = true).
    { apply not_false_iff_true. intros H. apply (steady_rd (m := r_u64)) in H.
      rewrite Hi in H. simpl in H. congruence. }
    destruct (prim_enc_dec _ _ _ Hb Hk Hok1) as (_ & rest & -> & ->).
    apply Forall_app in Hb as [_ Hb].
    destruct (prim_enc_dec (reader rest) _ _ Hb Hi Hok2) as (Hv & rest' & He & ->).
    injection He as ->. split; [done|]. by exists rest'.
Qed.

(** Some encoders write the two fields of a subject in place. *)
Lemma inline_subject s rest :
  w_u8 (SubjectKind.to_u8 (subject_kind s)) ++ w_u64 (subject_id s) ++ rest =
  encode_subject s ++ rest.
Proof. unfold encode_subject. by rewrite <- app_assoc. Qed.

Ltac codec_subject fits enc dec :=
  solve_codec_with fits enc dec ltac:(fun _ => rewrite ?inline_subject).

(** ** Containers *)

Lemma drepeat_codec {A} (V : A -> Prop) e (m : Dec A) `{!Codec V e m} `{!Steady m} n :
  Codec (fun l => Forall V l /\ length l = n) (fun l => concat (map e l)) (drepeat n m).
Proof.
  induction n as [|n IH]; apply codec_intro; try apply _; simpl.
  - by intros [|x l] rest [_ Hl].
  - intros d l r' [= <- <-] _ _. split; [done|]. by exists d.
  - intros [|x l] rest [Hv Hl]; [done|]. apply Forall_cons in Hv as [Hx Hv].
    injection Hl as Hl. simpl. rewrite <- app_assoc. by run_codec.
  - intros d l r' H Hd Hok.
    apply (back_dec m) in H as (x & rest & Hx & -> & Hr & H); [|apply _|done|done].
    apply (back_dec (drepeat n m)) in H as (l' & rest' & [Hl' Hn] & -> & _ & H); [|apply _|done|done].
    injection H as <- <-. split; [split; [by constructor|simpl; congruence]|].
    exists rest'. simpl. by rewrite <- app_assoc.
Qed.

#[global] Instance d_list_codec {A} (V : A -> Prop) e (m : Dec A) max what
  `{!Codec V e m} `{!Steady m} :
  Codec (list_fits V max) (w_list e) (d_list max what m).
Proof.
  apply codec_intro; [apply _| |]; unfold d_list.
  - intros l rest (Hv & Hmax & Hu). unfold w_list. rewrite u32_small by done.
    rewrite <- app_assoc.
    rewrite (run_rd (r_bounded_count max what)), run_check
      by (split; [unfold sizez in *; lia|done]).
    unfold sizez at 1. rewrite Nat2Z.id.
    by apply (codec_dec_enc (Codec := drepeat_codec V e m (length l))).
  - intros d l r' H Hd Hok.
    apply (back_rd (r_bounded_count max what)) in H as (n & rest & [Hn Hu] & -> & Hr & H);
      [|apply _|done|done].
    rewrite run_check in H.
    destruct (codec_enc_dec (Codec := drepeat_codec V e m (Z.to_nat n))
                (reader rest) _ _ Hr H Hok)
      as ([Hv Hl] & rest' & He & ->). injection He as ->.
    assert (Hs : sizez l = n) by (unfold sizez; lia).
    unfold list_fits. rewrite Hs. split; [split_and!; [done|lia|done]|]. exists rest'. unfold w_list. rewrite Hs, u32_small by done.
    by rewrite <- app_assoc.
Qed.

(** ** The values a decoder can return

    Each predicate says that every field fits its type, that every container is
    within the limit the decoder enforces, and that every subject is addressable. *)

Definition node_fits (n : NodeSpec) : Prop := in_u64 (node_id n).
Definition link_fits (l : LinkSpec) : Prop :=
  in_u64 (link_id l) /\ in_u64 (endpoint_a l) /\ in_u64 (endpoint_b l).
Definition service_fits (s : ServiceSpec) : Prop :=
  in_u64 (service_id s) /\ in_u32 (required_reachable s) /\ in_u32 (target_reachable s) /\
  in_u32 (max_reachable s).
Definition resource_fits (r : ResourceSpec) : Prop :=
  in_u64 (resource_id r) /\ ResourceKind.to_u8 (resource_kind r) < 2 /\
  in_u32 (capacity r) /\ in_u32 (hold_steps r).
Definition precondition_fits (p : Precondition) : Prop :=
  PreconditionKind.to_u8 (pre_kind p) < 8 /\ addressable (pre_subject p) /\ in_u64 (pre_value p).
Definition effect_fits (e : Effect) : Prop :=
  EffectKind.to_u8 (eff_kind e) < 6 /\ addressable (eff_subject e) /\ in_i64 (eff_value e).
Definition use_fits (u : ResourceUse) : Prop := in_u64 (use_resource u) /\ in_u32 (use_units u).
Definition dependency_fits (p : ActionDependency) : Prop :=
  in_u64 (dep_predecessor p) /\ in_u32 (dep_min_occurrences p).

Definition action_fits (limits : ModelLimits) (a : ActionSpec) : Prop :=
  in_u64 (action_id a) /\ str_fits (max_string_length limits) (action_name a) /\
  ActionKind.to_u8 (action_kind a) < 7 /\ Reversibility.to_u8 (reversibility a) < 2 /\
  in_u64 (compensation a) /\ in_u32 (blast_radius a) /\ in_u32 (disruption a) /\
  in_u64 (cost_units a) /\ in_u64 (duration_ticks a) /\ in_u32 (max_occurrences a) /\
  AuthorityDomain.to_u8 (required_domain a) < 5 /\
  AuthorityLevel.to_u8 (required_level a) < 7 /\
  list_fits precondition_fits (max_preconditions_per_action limits) (preconditions a) /\
  list_fits effect_fits (max_effects_per_action limits) (effects a) /\
  list_fits use_fits (max_resources limits) (resource_uses a) /\
  list_fits dependency_fits (max_actions limits) (dependencies a) /\
  list_fits in_u64 (max_exclusion_groups limits) (exclusion_groups a).
Definition goal_fits (g : GoalSpec) : Prop :=
  GoalKind.to_u8 (goal_kind g) < 4 /\ addressable (goal_subject g) /\ in_u64 (goal_value g) /\
  in_u32 (goal_weight g).
Definition group_fits (g : ExclusionGroup) : Prop :=
  in_u64 (group_id g) /\ in_u32 (max_selected g).

Definition definition_fits (limits : ModelLimits) (d : FabricDefinition) : Prop :=
  list_fits node_fits (max_nodes limits) (nodes d) /\
  list_fits link_fits (max_links limits) (links d) /\
  list_fits service_fits (max_services limits) (services d) /\
  list_fits resource_fits (max_resources limits) (resources d) /\
  list_fits (action_fits limits) (max_actions limits) (actions d) /\
  list_fits goal_fits (max_goals limits) (goals d) /\
  list_fits group_fits (max_exclusion_groups limits) (groups d).

Definition fact_fits (f : EvidenceFact) : Prop :=
  in_u64 (fact_id f) /\ EvidenceKind.to_u8 (fact_kind f) < 5 /\ addressable (fact_subject f) /\
  in_u64 (fact_value f) /\ in_u64 (fact_generation f) /\
  AuthorityDomain.to_u8 (fact_source_domain f) < 5 /\ in_u64 (fact_source f) /\
  TrustLabel.to_u8 (fact_label f) < 4 /\ in_u64 (fact_sequence f).
Definition evidence_fits (limits : ModelLimits) (e : EvidenceBundle) : Prop :=
  in_u64 (ev_epoch e) /\ in_u64 (ev_boot e) /\
  list_fits fact_fits (max_evidence_facts limits) (ev_facts e).

Definition binding_fits (b : AuthorityBinding) : Prop :=
  AuthorityDomain.to_u8 (bind_domain b) < 5 /\ in_u64 (bind_authority b) /\
  in_u64 (bind_required b) /\ in_u64 (bind_granted b) /\
  AuthorityLevel.to_u8 (bind_level b) < 7.
Definition authority_fits (limits : ModelLimits) (v : AuthorityVector) : Prop :=
  in_u64 (auth_epoch v) /\ in_u64 (auth_boot v) /\
  list_fits binding_fits (max_authority_bindings limits) (auth_bindings v).

Definition policy_fits (p : PlanPolicy) : Prop :=
  in_u64 (max_plan_steps p) /\ in_u64 (max_nodes_expanded p) /\
  in_u64 (max_generated_states p) /\ in_u64 (max_frontier_entries p) /\
  in_u32 (budget_scale p) /\ max_plan_steps p <> 0 /\ max_nodes_expanded p <> 0 /\
  max_generated_states p <> 0 /\ max_frontier_entries p <> 0.

Definition fence_fits (f : Fence) : Prop :=
  in_u64 (fence_epoch f) /\ in_u64 (fence_boot f) /\
  AuthorityDomain.to_u8 (fence_domain f) < 5 /\ in_u64 (fence_minimum_generation f) /\
  in_u64 (fence_sequence f) /\ str_fits 128 (fence_reason f).

Definition request_fits (limits : ModelLimits) (r : PlanRequest) : Prop :=
  in_u64 (req_id r) /\ in_u64 (req_epoch r) /\ in_u64 (req_boot r) /\ in_u64 (req_attempt r) /\
  definition_fits limits (req_definition r) /\ evidence_fits limits (req_evidence r) /\
  authority_fits limits (req_authority r) /\ policy_fits (req_policy r) /\
  list_fits fence_fits (max_fences limits) (req_fences r).

Definition explanation_fits (limits : ModelLimits) (e : Explanation) : Prop :=
  ReasonCode.to_u8 (ex_code e) < 58 /\ SubjectKind.to_u8 (subject_kind (ex_subject e)) < 7 /\
  in_u64 (subject_id (ex_subject e)) /\ in_u64 (ex_detail_a e) /\ in_u64 (ex_detail_b e) /\
  str_fits (u32 (max_string_length limits * 4)) (ex_text e).

Definition evidence_binding_fits (b : EvidenceBinding) : Prop :=
  EvidenceKind.to_u8 (eb_kind b) < 5 /\ addressable (eb_subject b) /\ in_u64 (eb_generation b).

Definition step_fits (limits : ModelLimits) (s : PlanStep) : Prop :=
  in_u32 (step_index s) /\ in_u64 (step_action s) /\ in_u32 (step_occurrence s) /\
  in_u64 (step_start_tick s) /\ in_u64 (step_end_tick s) /\
  AuthorityDomain.to_u8 (step_required_domain s) < 5 /\
  AuthorityLevel.to_u8 (step_required_level s) < 7 /\
  in_u64 (step_required_generation s) /\ AuthorityLevel.to_u8 (step_issued_level s) < 7 /\
  list_fits evidence_binding_fits (max_evidence_facts limits) (step_evidence s) /\
  in_u64 (step_compensation s).

Definition digest_fits (d : Digest) : Prop := in_u64 (digest_hi d) /\ in_u64 (digest_lo d).

Definition plan_fits (limits : ModelLimits) (p : RecoveryPlan) : Prop :=
  in_u64 (plan_id p) /\ in_u64 (plan_request p) /\ in_u64 (plan_epoch p) /\
  in_u64 (plan_boot p) /\ in_u64 (plan_attempt p) /\
  list_fits (step_fits limits) (u32 (max_actions limits * max_action_occurrences limits + 1))
    (plan_steps p) /\
  (Forall in_u64 (component (plan_objective p)) /\
   length (component (plan_objective p)) = kObjectiveComponents) /\
  digest_fits (plan_request_digest p) /\ digest_fits (plan_definition_digest p) /\
  digest_fits (plan_evidence_digest p) /\ digest_fits (plan_authority_digest p) /\
  digest_fits (plan_policy_digest p) /\ plan_digest p = zero_digest /\
  list_fits (explanation_fits limits) 256 (plan_explanations p).

(** ** Every decoder is the codec of its encoder *)

#[local] Opaque w_u8 w_u32 w_u64 w_i64 w_boolean w_str w_list encode_subject.

#[global] Instance node_codec : Codec node_fits encode_node decode_node.
Proof. solve_codec node_fits encode_node decode_node. Qed.
#[global] Instance link_codec : Codec link_fits encode_link decode_link.
Proof. solve_codec link_fits encode_link decode_link. Qed.
#[global] Instance service_codec : Codec service_fits encode_service decode_service.
Proof. solve_codec service_fits encode_service decode_service. Qed.
#[global] Instance resource_codec : Codec resource_fits encode_resource decode_resource.
Proof. solve_codec resource_fits encode_resource decode_resource. Qed.
#[global] Instance precondition_codec : Codec precondition_fits encode_precondition decode_precondition.
Proof. solve_codec precondition_fits encode_precondition decode_precondition. Qed.
#[global] Instance effect_codec : Codec effect_fits encode_effect decode_effect.
Proof. solve_codec effect_fits encode_effect decode_effect. Qed.
#[global] Instance use_codec : Codec use_fits encode_use decode_use.
Proof. solve_codec use_fits encode_use decode_use. Qed.
#[global] Instance dependency_codec : Codec dependency_fits encode_dependency decode_dependency.
Proof. solve_codec dependency_fits encode_dependency decode_dependency. Qed.
#[global] Instance goal_codec : Codec goal_fits encode_goal decode_goal.
Proof. solve_codec goal_fits encode_goal decode_goal. Qed.
#[global] Instance group_codec : Codec group_fits encode_group decode_group.
Proof. solve_codec group_fits encode_group decode_group. Qed.
#[global] Instance fact_codec : Codec fact_fits encode_fact decode_fact.
Proof. codec_subject fact_fits encode_fact decode_fact. Qed.
#[global] Instance binding_codec : Codec binding_fits encode_binding decode_binding.
Proof. solve_codec binding_fits encode_binding decode_binding. Qed.
#[global] Instance fence_codec : Codec fence_fits encode_fence decode_fence.
Proof. solve_codec fence_fits encode_fence decode_fence. Qed.
#[global] Instance group_id_codec : Codec in_u64 w_u64 decode_group_id.
Proof.
  apply codec_intro; [unfold decode_group_id; apply _| |]; unfold decode_group_id.
  - intros x rest Hx. by run_codec.
  - intros d x r' Hrun Hd Hok. back_codec. split; [done|]. by eexists.
Qed.
#[global] Instance action_codec limits : Codec (action_fits limits) encode_action (decode_action limits).
Proof. solve_codec action_fits encode_action decode_action. Qed.
#[global] Instance definition_codec limits : Codec (definition_fits limits) encode_definition (decode_definition limits).
Proof. solve_codec definition_fits encode_definition decode_definition. Qed.
#[global] Instance evidence_codec limits : Codec (evidence_fits limits) encode_evidence (decode_evidence limits).
Proof. solve_codec evidence_fits encode_evidence decode_evidence. Qed.
#[global] Instance authority_codec limits : Codec (authority_fits limits) encode_authority (decode_authority limits).
Proof. solve_codec authority_fits encode_authority decode_authority. Qed.
#[global] Instance policy_codec : Codec policy_fits encode_policy decode_policy.
Proof.
  apply codec_intro; [unfold decode_policy; apply _| |]; unfold decode_policy, encode_policy.
  - intros [i c s e g f b] rest Hx. unfold policy_fits in Hx. simpl in Hx. simpl.
    rewrite <- ?app_assoc. run_codec.
    destruct Hx as (_ & _ & _ & _ & _ & Hs & He & Hg & Hf).
    apply Z.eqb_neq in Hs, He, Hg, Hf. by rewrite Hs, He, Hg, Hf.
  - intros d x r' Hrun Hd Hok. back_codec.
    repeat match type of Hrun with
    | (if ?b then _ else _) _ = _ => destruct b eqn:?; [discriminate|]
    end.
    back_codec. unfold policy_fits. simpl.
    repeat match goal with
    | H : (_ || _) = false |- _ => apply orb_false_iff in H as [? ?]
    | H : (_ =? _) = false |- _ => apply Z.eqb_neq in H
    end.
    split; [tauto|]. eexists. split; [|done]. by rewrite <- ?app_assoc.
Qed.
#[global] Instance request_codec limits : Codec (request_fits limits) encode_request (decode_plan_request_body limits).
Proof. solve_codec request_fits encode_request decode_plan_request_body. Qed.
#[global] Instance evidence_binding_codec : Codec evidence_binding_fits encode_evidence_binding decode_evidence_binding.
Proof. codec_subject evidence_binding_fits encode_evidence_binding decode_evidence_binding. Qed.
#[global] Instance explanation_codec limits : Codec (explanation_fits limits) encode_explanation (decode_explanation limits).
Proof.
  apply codec_intro; [unfold decode_explanation; apply _| |];
    unfold decode_explanation, encode_explanation, explanation_fits.
  - intros [c [k i] a b t] rest Hx. simpl in Hx. simpl. rewrite <- ?app_assoc. by run_codec.
  - intros d x r' Hrun Hd Hok. back_codec. simpl. split; [tauto|].
    eexists. split; [|done]. by rewrite <- ?app_assoc.
Qed.
#[global] Instance step_codec limits : Codec (step_fits limits) encode_step (decode_step limits).
Proof. solve_codec step_fits encode_step decode_step. Qed.
#[global] Instance digest_codec : Codec digest_fits encode_digest decode_digest.
Proof. solve_codec digest_fits encode_digest decode_digest. Qed.

#[local] Instance components_codec :
  Codec (fun l => Forall in_u64 l /\ length l = kObjectiveComponents)
    (fun l => concat (map w_u64 l)) (drepeat kObjectiveComponents (rd r_u64)).
Proof.
  apply drepeat_codec; [|apply _]. apply codec_intro; [apply _| |].
  - intros x rest Hx. unfold rd. by rewrite prim_dec_enc.
  - intros d x r' Hr Hd Hok. unfold rd in Hr. destruct (r_u64 (reader d)) as [v r1] eqn:Hv.
    injection Hr as <- <-. destruct (prim_enc_dec (reader d) v r1 Hd Hv Hok) as (? & rest & He & ->).
    injection He as ->. split; [done|]. by exists rest.
Qed.

#[global] Instance plan_codec limits : Codec (plan_fits limits) encode_plan (decode_plan limits).
Proof.
  apply codec_intro; [unfold decode_plan; apply _| |];
    unfold decode_plan, encode_plan, encode_objective, plan_fits.
  - intros x rest Hx. destruct x as [? ? ? ? ? ? [?] ? ? ? ? ? ? ?]. simpl in Hx. simpl.
    rewrite <- ?app_assoc. run_codec.
    by destruct Hx as (_ & _ & _ & _ & _ & _ & _ & _ & _ & _ & _ & _ & -> & _).
  - intros d x r' Hrun Hd Hok. back_codec. simpl. split; [tauto|].
    eexists. split; [|done]. by rewrite <- ?app_assoc.
Qed.

#[local] Transparent w_u8 w_u32 w_u64 w_i64 w_boolean w_str w_list encode_subject.

(** A decoder run on a whole buffer, in terms of its codec. *)
Lemma decode_all_iff {A V} {e : A -> list Z} (m : Dec A) `{!Codec V e m} bytes x :
  Forall in_u8 bytes ->
  decode_all m bytes = Ok x <-> V x /\ bytes = e x.
Proof.
  intros Hb. unfold decode_all, dbind, require_end, dret. split.
  - destruct (m (reader bytes)) as [[y|s] r'] eqn:Hm; [|discriminate].
    destruct (rd_error r') as [s|] eqn:He; [discriminate|].
    destruct (codec_enc_dec (reader bytes) y r' Hb Hm) as (Hy & rest & Hr & ->);
      [unfold rd_ok; by rewrite He|]. injection Hr as ->.
    destruct (Z.eqb_spec (remaining (reader rest)) 0) as [Hz|Hz]; simpl; [|discriminate].
    intros [= <-]. split; [done|]. destruct rest; [by rewrite app_nil_r|].
    unfold remaining, sizez in Hz. simpl in Hz. lia.
  - intros [Hx ->]. rewrite <- (app_nil_r (e x)). by rewrite codec_dec_enc.
Qed.

(** ** What the codecs promise *)

(** No encoding continues another one: what is cut off or appended is noticed. *)
Lemma codec_prefix_free {A V} {e : A -> list Z} (m : Dec A) `{!Codec V e m} x y rest :
  V x -> V y -> e y = e x ++ rest -> y = x /\ rest = [].
Proof.
  intros Hx Hy He. pose proof (codec_dec_enc (dec := m) x rest Hx) as H1.
  pose proof (codec_dec_enc (dec := m) y [] Hy) as H2.
  rewrite app_nil_r, He in H2. rewrite H2 in H1. by injection H1 as -> <-.
Qed.

(** Encodings are byte sequences. *)
Lemma concat_bytes {A} (w : A -> list Z) l :
  (forall x, Forall in_u8 (w x)) -> Forall in_u8 (concat (map w l)).
Proof.
  intros Hw. induction l as [|x l IH]; simpl; [constructor|]. by apply Forall_app_2.
Qed.

Lemma w_list_bytes {A} (w : A -> list Z) l :
  (forall x, Forall in_u8 (w x)) -> Forall in_u8 (w_list w l).
Proof.
  intros Hw. apply Forall_app_2; [apply w_u32_bytes|by apply concat_bytes].
Qed.

Lemma w_str_bytes s : Forall in_u8 (w_str s).
Proof. apply Forall_app_2; [apply w_u32_bytes|apply string_bytes_u8]. Qed.

Lemma w_boolean_bytes b : Forall in_u8 (w_boolean b).
Proof. apply w_u8_bytes. Qed.
Lemma w_i64_bytes z : Forall in_u8 (w_i64 z).
Proof. apply w_u64_bytes. Qed.

Create HintDb bytes.
#[export] Hint Resolve w_u8_bytes w_u32_bytes w_u64_bytes w_i64_bytes w_boolean_bytes w_str_bytes
  : bytes.

(** Proves that an encoder writes bytes, layer by layer. *)
Ltac encoder_bytes :=
  repeat first [ solve [eauto with bytes] | apply w_list_bytes; intros ? | apply Forall_app_2 ].

Lemma encode_action_bytes a : Forall in_u8 (encode_action a).
Proof.
  unfold encode_action, encode_precondition, encode_effect, encode_use, encode_dependency,
    encode_subject. encoder_bytes.
Qed.
#[export] Hint Resolve encode_action_bytes : bytes.

Lemma encode_definition_bytes d : Forall in_u8 (encode_definition d).
Proof.
  unfold encode_definition, encode_node, encode_link, encode_service, encode_resource,
    encode_goal, encode_group, encode_subject. encoder_bytes.
Qed.
#[export] Hint Resolve encode_definition_bytes : bytes.

Lemma encode_request_bytes r : Forall in_u8 (encode_request r).
Proof.
  unfold encode_request, encode_evidence, encode_fact, encode_authority, encode_binding,
    encode_policy, encode_fence. encoder_bytes.
Qed.

Lemma encode_plan_bytes p : Forall in_u8 (encode_plan p).
Proof.
  unfold encode_plan, encode_step, encode_evidence_binding, encode_digest, encode_explanation,
    encode_objective.
  encoder_bytes. apply concat_bytes. intros ?. apply w_u64_bytes.
Qed.

(** A list that fits holds elements that satisfy what follows from fitting. *)
Lemma list_fits_typed {A} (V P : A -> Prop) max l :
  (forall x, V x -> P x) -> list_fits V max l -> Forall P l.
Proof. intros H [Hl _]. by eapply Forall_impl. Qed.

Lemma action_fits_typed limits a : action_fits limits a -> action_typed a.
Proof.
  unfold action_fits. intros H. destruct_and! H.
  split; try done; (eapply list_fits_typed; [|eassumption]).
  - intros x (_ & [_ ?] & ?). done.
  - intros x (_ & [_ ?] & ?). done.
  - by intros x.
  - by intros x.
  - by intros x.
Qed.

Lemma definition_fits_typed limits d : definition_fits limits d -> definition_typed d.
Proof.
  unfold definition_fits. intros H. destruct_and! H.
  split; (eapply list_fits_typed; [|eassumption]).
  - by intros x.
  - by intros x.
  - by intros x.
  - intros x (? & _ & ? & ?). done.
  - apply action_fits_typed.
  - intros x (_ & [_ ?] & ? & ?). done.
  - by intros x.
Qed.

Lemma example_request_fits : request_fits default_model_limits example_request.
Proof.
  refine (proj1 (proj1 (decode_all_iff (decode_plan_request_body default_model_limits)
                   (encode_request example_request) example_request
                   (encode_request_bytes _)) _)).
  vm_compute. reflexivity.
Qed.

(** C28: decoding a request is exactly the inverse of encoding it. A buffer
    decodes to a request when, and only when, the request fits the machine types
    and the limits and the buffer is its canonical encoding; so a request has one
    encoding, and truncated, extended or altered buffers are never accepted as
    the request they were made from. *)
Theorem decode_plan_request_iff limits bytes r :
  Forall in_u8 bytes ->
  decode_plan_request bytes limits = Ok r <->
  request_fits limits r /\ bytes = encode_request r.
Proof. apply decode_all_iff. apply _. Qed.

(** A damaged length is always noticed. No proper prefix of the encoding of
    a request decodes, and neither does the encoding followed by anything. *)
Theorem damaged_length_rejected limits r n extra :
  request_fits limits r -> (n < length (encode_request r))%nat -> extra <> [] ->
  is_ok (decode_plan_request (take n (encode_request r)) limits) = false /\
  decode_plan_request (encode_request r ++ extra) limits =
    Err (mkStatus StatusCode.PROTOCOL_ERROR
           ("trailing bytes after canonical value: " +:+ pretty (sizez extra))).
Proof.
  intros Hr Hn Hx. split.
  - destruct (decode_plan_request _ _) as [y|s] eqn:Hd; [exfalso|done].
    apply (decode_all_iff (decode_plan_request_body limits)) in Hd as [Hy He];
      [|apply Forall_take, encode_request_bytes].
    destruct (codec_prefix_free (decode_plan_request_body limits) y r
                (drop n (encode_request r)) Hy Hr) as [_ H0].
    { rewrite <- He. by rewrite take_drop. }
    apply (f_equal length) in H0. rewrite length_drop in H0. cbn [length] in H0. lia.
  - unfold decode_plan_request, decode_all, dbind, require_end.
    rewrite codec_dec_enc by done. simpl. unfold remaining. simpl.
    destruct (Z.eqb_spec (sizez extra) 0) as [H0|]; [|done].
    destruct extra; [done|]. unfold sizez in H0. simpl in H0. lia.
Qed.

Lemma request_fits_typed limits r : request_fits limits r -> request_typed r.
Proof.
  unfold request_fits, evidence_fits. intros Hr. destruct_and! Hr.
  assert (Hd : definition_fits limits (req_definition r)) by done.
  unfold list_fits in *. destruct_and!.
  split; [by eapply definition_fits_typed| |by unfold policy_fits in *; destruct_and!].
  eapply Forall_impl; [eassumption|]. intros f Hf. unfold fact_fits in Hf. by destruct_and! Hf.
Qed.

Lemma decode_plan_request_iff_witness :
  decode_plan_request (encode_request example_request) default_model_limits = Ok example_request.
Proof.
  apply (decode_plan_request_iff default_model_limits (encode_request example_request)
           example_request (encode_request_bytes example_request)).
  split; [exact example_request_fits|reflexivity].
Defined.

Lemma damaged_length_rejected_witness :
  is_ok (decode_plan_request (take 40 (encode_request example_request)) default_model_limits) =
    false.
Proof.
  refine (proj1 (damaged_length_rejected default_model_limits example_request 40 [0]
                   example_request_fits _ _)).
  - apply Nat.ltb_lt. vm_compute. reflexivity.
  - discriminate.
Defined.
