(* ===== verification/Crc32.v ===== *)
(** * CRC-32

    Models [src/crc32.cpp]: the table the constructor fills, the table-driven
    update, and the bitwise division it stands for. The last part proves what a
    reader of a checked record relies on: the checksum is injective in any four
    consecutive bytes, so no corruption within such a window goes unnoticed. *)
From S2P Require Import Prelude.

(** One turn of the inner loop of the table constructor. *)
Definition crc_bit (value : Z) : Z :=
  if negb (Z.land value 1 =? 0) then Z.lxor 0xEDB88320 (Z.shiftr value 1) else Z.shiftr value 1.

Definition table_entry (i : Z) : Z := Nat.iter 8 crc_bit i.

Definition kTable : list Z := Eval vm_compute in map table_entry (map Z.of_nat (seq 0 256)).

Definition crc_step (crc byte : Z) : Z :=
  Z.lxor (kTable !!! Z.to_nat (Z.land (Z.lxor crc byte) 0xFF)) (Z.shiftr crc 8).

Definition crc32 (data : list Z) (seed : Z) : Z :=
  Z.lxor (fold_left crc_step data (Z.lxor seed 0xFFFFFFFF)) 0xFFFFFFFF.

(** The reference: eight turns of the shift register per byte, no table. *)
Definition crc_bitwise (crc byte : Z) : Z := Nat.iter 8 crc_bit (Z.lxor crc byte).

Example crc32_check : crc32 [49; 50; 51; 52; 53; 54; 55; 56; 57] 0 = 0xCBF43926.
Proof. reflexivity. Qed.

(** ** Lemmas: xor of machine words *)

(** A word is what the shift right by its width leaves nothing of. *)
Lemma word_shiftr x k : 0 <= k -> 0 <= x < 2 ^ k <-> Z.shiftr x k = 0.
Proof.
  intros Hk. rewrite Z.shiftr_div_pow2 by done. split.
  - intros. by apply Z.div_small.
  - intros H. apply Z.div_small_iff in H; lia.
Qed.

Lemma lxor_small a b k : 0 <= k -> 0 <= a < 2 ^ k -> 0 <= b < 2 ^ k -> 0 <= Z.lxor a b < 2 ^ k.
Proof.
  intros Hk Ha%word_shiftr Hb%word_shiftr; try done. apply word_shiftr; [done|].
  by rewrite Z.shiftr_lxor, Ha, Hb.
Qed.

Lemma lxor_cancel a b : Z.lxor (Z.lxor a b) b = a.
Proof. by rewrite Z.lxor_assoc, Z.lxor_nilpotent, Z.lxor_0_r. Qed.

Lemma lxor_inj_l a b c : Z.lxor a c = Z.lxor b c -> a = b.
Proof. intros H%(f_equal (fun x => Z.lxor x c)). by rewrite !lxor_cancel in H. Qed.

(** ** The table *)

Lemma table_lookup i : 0 <= i < 256 -> kTable !!! Z.to_nat i = table_entry i.
Proof.
  intros Hi.
  assert (H : forallb (fun n => kTable !!! n =? table_entry (Z.of_nat n)) (seq 0 256) = true)
    by (vm_compute; reflexivity).
  rewrite forallb_forall in H. specialize (H (Z.to_nat i)).
  rewrite Z.eqb_eq, Z2Nat.id in H by lia. apply H, in_seq. lia.
Qed.

(** The shift register is linear over xor. *)
Lemma crc_bit_lxor a b : crc_bit (Z.lxor a b) = Z.lxor (crc_bit a) (crc_bit b).
Proof.
  assert (Hl : forall x, Z.land x 1 = Z.b2z (Z.testbit x 0)).
  { intros x. change 1 with (Z.ones 1). rewrite Z.land_ones by lia.
    rewrite Z.bit0_mod. by rewrite Z.pow_1_r. }
  unfold crc_bit. rewrite !Hl, Z.lxor_spec, Z.shiftr_lxor.
  destruct (Z.testbit a 0), (Z.testbit b 0); simpl.
  - rewrite (Z.lxor_comm 0xEDB88320 (Z.shiftr b 1)), <- Z.lxor_assoc.
    rewrite (Z.lxor_assoc 0xEDB88320), (Z.lxor_comm 0xEDB88320), lxor_cancel. done.
  - by rewrite Z.lxor_assoc.
  - by rewrite <- !Z.lxor_assoc, (Z.lxor_comm (Z.shiftr a 1)).
  - done.
Qed.

Lemma crc_bits_lxor n a b :
  Nat.iter n crc_bit (Z.lxor a b) = Z.lxor (Nat.iter n crc_bit a) (Nat.iter n crc_bit b).
Proof. induction n as [|n IH]; simpl; [done|]. by rewrite IH, crc_bit_lxor. Qed.

Lemma crc_bit_even x : crc_bit (Z.shiftl x 1) = x.
Proof.
  unfold crc_bit. assert (Hl : Z.land (Z.shiftl x 1) 1 = 0).
  { change 1 with (Z.ones 1) at 2. rewrite Z.land_ones, Z.shiftl_mul_pow2 by lia.
    by apply Z.mod_mul. }
  rewrite Hl. simpl. rewrite Z.shiftr_shiftl_l by lia. apply Z.shiftl_0_r.
Qed.

Lemma crc_bits_even n x : Nat.iter n crc_bit (Z.shiftl x (Z.of_nat n)) = x.
Proof.
  revert x; induction n as [|n IH]; intros x; [apply Z.shiftl_0_r|].
  simpl Nat.iter. rewrite <- (crc_bit_even x) at 2. f_equal.
  rewrite <- (IH (Z.shiftl x 1)). f_equal. rewrite Z.shiftl_shiftl by lia. f_equal. lia.
Qed.

Lemma crc_bits_add m n x : Nat.iter (m + n) crc_bit x = Nat.iter m crc_bit (Nat.iter n crc_bit x).
Proof. apply Nat.iter_add. Qed.

Lemma split_byte x : 0 <= x -> x = Z.lxor (Z.land x 0xFF) (Z.shiftl (Z.shiftr x 8) 8).
Proof.
  intros Hx. apply Z.bits_inj'. intros n Hn. rewrite Z.lxor_spec, Z.land_spec.
  change 0xFF with (Z.ones 8). destruct (Z.lt_ge_cases n 8).
  - rewrite Z.ones_spec_low, Z.shiftl_spec_low by lia. by rewrite andb_true_r, xorb_false_r.
  - rewrite Z.ones_spec_high, Z.shiftl_spec_high, Z.shiftr_spec by lia.
    rewrite andb_false_r, xorb_false_l. f_equal. lia.
Qed.

(** The table-driven step is eight turns of the shift register. *)
Lemma crc_step_bitwise crc byte : 0 <= crc -> in_u8 byte -> crc_step crc byte = crc_bitwise crc byte.
Proof.
  intros Hc Hb. unfold crc_step, crc_bitwise.
  assert (Hx : 0 <= Z.lxor crc byte) by (apply Z.lxor_nonneg; unfold in_u8 in Hb; lia).
  assert (Hlo : 0 <= Z.land (Z.lxor crc byte) 0xFF < 256).
  { change 0xFF with (Z.ones 8). rewrite Z.land_ones by lia. apply Z.mod_pos_bound. lia. }
  rewrite table_lookup by done. rewrite (split_byte (Z.lxor crc byte) Hx) at 2.
  rewrite crc_bits_lxor. unfold table_entry. f_equal.
  change 8 with (Z.of_nat 8) at 3. rewrite crc_bits_even.
  rewrite Z.shiftr_lxor. apply word_shiftr in Hb; [|lia]. by rewrite Hb, Z.lxor_0_r.
Qed.

Lemma crc_bit_u32 x : in_u32 x -> in_u32 (crc_bit x).
Proof.
  intros Hx. assert (Hs : in_u32 (Z.shiftr x 1)).
  { unfold in_u32 in *. rewrite Z.shiftr_div_pow2 by lia.
    split; [apply Z.div_pos; lia|apply Z.div_lt_upper_bound; lia]. }
  unfold crc_bit. destruct (negb _); [|done]. apply lxor_small; [lia|lia|done].
Qed.

Lemma crc_bits_u32 n x : in_u32 x -> in_u32 (Nat.iter n crc_bit x).
Proof. intros Hx. induction n; simpl; [done|by apply crc_bit_u32]. Qed.

(** Nothing but zero is shifted to zero, so no two words are shifted to one. *)
Lemma crc_bit_zero z : in_u32 z -> crc_bit z = 0 -> z = 0.
Proof.
  unfold in_u32, crc_bit. intros Hz. destruct (Z.eqb_spec (Z.land z 1) 0) as [He|He]; simpl.
  - intros Hs. rewrite Z.shiftr_div_pow2 in Hs by lia. change (2 ^ 1) with 2 in Hs.
    change 1 with (Z.ones 1) in He. rewrite Z.land_ones in He by lia. change (2 ^ 1) with 2 in He.
    pose proof (Z.div_mod z 2). lia.
  - intros Hs%Z.lxor_eq. rewrite Z.shiftr_div_pow2 in Hs by lia. change (2 ^ 1) with 2 in Hs.
    pose proof (Z.div_lt_upper_bound z 2 (2 ^ 31)). lia.
Qed.

Lemma crc_bits_inj n a b : in_u32 a -> in_u32 b ->
  Nat.iter n crc_bit a = Nat.iter n crc_bit b -> a = b.
Proof.
  intros Ha Hb He. assert (Hz : Nat.iter n crc_bit (Z.lxor a b) = 0)
    by (rewrite crc_bits_lxor, He; apply Z.lxor_nilpotent).
  assert (Hu : in_u32 (Z.lxor a b)) by (apply lxor_small; done).
  apply Z.lxor_eq. clear He. induction n as [|n IH]; [done|]. apply IH.
  apply crc_bit_zero; [by apply crc_bits_u32|done].
Qed.

(** ** Several bytes at once *)

(** The bytes as one word, the first in the lowest place. *)
Definition le_word (bs : list Z) : Z := foldr (fun b acc => Z.lxor b (Z.shiftl acc 8)) 0 bs.

Lemma le_word_range bs : Forall in_u8 bs -> 0 <= le_word bs < 2 ^ (8 * Z.of_nat (length bs)).
Proof.
  induction 1 as [|b bs Hb Hbs IH]; simpl; [lia|]. unfold in_u8 in Hb.
  apply lxor_small; [lia| |].
  - split; [lia|]. apply Z.lt_le_trans with (2 ^ 8); [lia|]. apply Z.pow_le_mono_r; lia.
  - rewrite Z.shiftl_mul_pow2 by lia. split; [lia|].
    replace (8 * Z.of_nat (S (length bs))) with (8 * Z.of_nat (length bs) + 8) by lia.
    rewrite Z.pow_add_r by lia. nia.
Qed.

Lemma le_word_inj a b : Forall in_u8 a -> Forall in_u8 b -> length a = length b ->
  le_word a = le_word b -> a = b.
Proof.
  intros Ha; revert b; induction Ha as [|x a Hx Ha IH]; intros [|y b] Hb Hl He; try done.
  apply Forall_cons in Hb as [Hy Hb]. simpl in *.
  assert (Hs : le_word a = le_word b).
  { apply (f_equal (fun z => Z.shiftr z 8)) in He. rewrite !Z.shiftr_lxor in He.
    rewrite !Z.shiftr_shiftl_l, !Z.shiftl_0_r in He by lia.
    apply word_shiftr in Hx, Hy; [|lia|lia]. by rewrite Hx, Hy, !Z.lxor_0_l in He. }
  rewrite Hs in He. apply lxor_inj_l in He as ->. f_equal. apply IH; [done|lia|done].
Qed.

Lemma crc_bytes bs s :
  fold_left crc_bitwise bs s = Nat.iter (8 * length bs) crc_bit (Z.lxor s (le_word bs)).
Proof.
  revert s; induction bs as [|b bs IH]; intros s; simpl fold_left; [by rewrite Z.lxor_0_r|].
  rewrite IH. unfold crc_bitwise. simpl le_word.
  replace (8 * length (b :: bs))%nat with (8 * length bs + 8)%nat by (simpl; lia).
  rewrite crc_bits_add. f_equal. rewrite <- Z.lxor_assoc, (crc_bits_lxor 8 (Z.lxor s b)).
  pose proof (crc_bits_even 8 (le_word bs)) as He. change (Z.of_nat 8) with 8 in He.
  by rewrite He.
Qed.

Lemma crc_fold_bitwise data s : Forall in_u8 data -> in_u32 s ->
  fold_left crc_step data s = fold_left crc_bitwise data s /\ in_u32 (fold_left crc_step data s).
Proof.
  intros Hd; revert s; induction Hd as [|b data Hb Hd IH]; intros s Hs; [done|]. simpl.
  assert (Hn : in_u32 (crc_bitwise s b)).
  { apply crc_bits_u32, lxor_small; [lia|done|]. unfold in_u8 in Hb. lia. }
  rewrite crc_step_bitwise by (done || unfold in_u32 in Hs; lia). by apply IH.
Qed.

Lemma seed_u32 seed : in_u32 seed -> in_u32 (Z.lxor seed 0xFFFFFFFF).
Proof. intros Hs. apply lxor_small; [lia|done|lia]. Qed.

Lemma crc32_u32 data seed : Forall in_u8 data -> in_u32 seed -> in_u32 (crc32 data seed).
Proof.
  intros Hd Hs. apply lxor_small; [lia| |lia]. by apply crc_fold_bitwise, seed_u32.
Qed.

(** Equal checksums leave no room for a difference in four consecutive bytes. *)
Lemma crc32_burst before bad good after seed :
  Forall in_u8 (before ++ good ++ after) -> Forall in_u8 bad -> in_u32 seed ->
  length bad = length good -> (length good <= 4)%nat -> bad <> good ->
  crc32 (before ++ bad ++ after) seed <> crc32 (before ++ good ++ after) seed.
Proof.
  rewrite !Forall_app. intros (Hp & Hg & Ha) Hb Hs Hl Hn Hne He. apply Hne. clear Hne.
  unfold crc32 in He. apply lxor_inj_l in He. rewrite !fold_left_app in He.
  destruct (crc_fold_bitwise before _ Hp (seed_u32 _ Hs)) as [_ Hs1].
  set (s := fold_left crc_step before _) in *.
  destruct (crc_fold_bitwise good s Hg Hs1) as [Eg Ug].
  destruct (crc_fold_bitwise bad s Hb Hs1) as [Eb Ub].
  assert (Hmid : fold_left crc_step bad s = fold_left crc_step good s).
  { revert He Ug Ub. generalize (fold_left crc_step good s), (fold_left crc_step bad s).
    clear - Ha. induction Ha as [|x l Hx Hl IH]; intros u v Hf Hu Hv; [done|]. simpl in Hf.
    assert (Hstep : forall w, in_u32 w -> in_u32 (Z.lxor w x)).
    { intros w Hw. apply lxor_small; [lia|done|]. unfold in_u8 in Hx. lia. }
    rewrite !crc_step_bitwise in Hf by (done || unfold in_u32 in *; lia).
    apply IH in Hf; try (by apply crc_bits_u32, Hstep).
    apply crc_bits_inj in Hf; [|by apply Hstep|by apply Hstep]. by apply lxor_inj_l in Hf. }
  rewrite Eg, Eb, !crc_bytes, Hl in Hmid.
  assert (Hw : forall l, Forall in_u8 l -> length l = length good -> in_u32 (le_word l)).
  { intros l Hlu Hll. pose proof (le_word_range l Hlu). unfold in_u32. split; [lia|].
    apply Z.lt_le_trans with (2 ^ (8 * Z.of_nat (length l))); [lia|]. apply Z.pow_le_mono_r; lia. }
  apply crc_bits_inj in Hmid; [|by apply lxor_small; [lia|done|by apply Hw]
                               |by apply lxor_small; [lia|done|by apply Hw]].
  rewrite (Z.lxor_comm s (le_word bad)), (Z.lxor_comm s) in Hmid.
  apply lxor_inj_l in Hmid. by apply le_word_inj.
Qed.

(** ** What the checksum promises *)

(** The table-driven checksum is the bitwise division by the reflected
    polynomial 0xEDB88320, for every input. *)
Theorem crc32_is_bitwise data seed :
  Forall in_u8 data -> in_u32 seed ->
  crc32 data seed = Z.lxor (fold_left crc_bitwise data (Z.lxor seed 0xFFFFFFFF)) 0xFFFFFFFF.
Proof. intros Hd Hs. unfold crc32. by destruct (crc_fold_bitwise data _ Hd (seed_u32 _ Hs)) as [->]. Qed.

(** A concrete buffer holds bytes. *)
Ltac concrete_bytes :=
  simpl; repeat (apply Forall_cons; split; [unfold in_u8; lia|]); apply Forall_nil; exact I.

Lemma crc32_is_bitwise_witness : crc32 [1; 2; 3] 0 = 0x55BC801D.
Proof.
  assert (Hb : Forall in_u8 [1; 2; 3]) by concrete_bytes.
  assert (Hs : in_u32 0) by done.
  rewrite (crc32_is_bitwise [1; 2; 3] 0 Hb Hs). vm_compute. reflexivity.
Defined.
