(* ===== verification/Journal.v ===== *)
(** * The record format of the durable store

    Models the framing half of [include/nrp/persistence.hpp] and
    [src/persistence.cpp]: record types, [frame_record], [scan_records] and the
    plan payload. A file is the list of its bytes. *)
From S2P Require Import Prelude Ids Canonical Model Objective Domain DefinitionCheck Plan Fixture Codec Crc32.

Module RecordType.
Inductive t :=
| BOOT | DEFINITION | POLICY | COMMITTED_PLAN | INFEASIBILITY | FENCE | ATTEMPT
| EVIDENCE_LINEAGE | COUNT.

#[global] Instance eq_dec : EqDecision t.
Proof. solve_decision. Defined.

Definition to_u16 (x : t) : Z :=
  match x with
  | BOOT => 1 | DEFINITION => 2 | POLICY => 3 | COMMITTED_PLAN => 4 | INFEASIBILITY => 5
  | FENCE => 6 | ATTEMPT => 7 | EVIDENCE_LINEAGE => 8 | COUNT => 9
  end.

(** [static_cast] from the raw value; outside the domain the cast is not used. *)
Definition of_u16 (raw : Z) : t :=
  match raw with
  | 1 => BOOT | 2 => DEFINITION | 3 => POLICY | 4 => COMMITTED_PLAN | 5 => INFEASIBILITY
  | 6 => FENCE | 7 => ATTEMPT | 8 => EVIDENCE_LINEAGE | _ => COUNT
  end.

Definition to_string (x : t) : string :=
  match x with
  | BOOT => "BOOT" | DEFINITION => "DEFINITION" | POLICY => "POLICY"
  | COMMITTED_PLAN => "COMMITTED_PLAN" | INFEASIBILITY => "INFEASIBILITY" | FENCE => "FENCE"
  | ATTEMPT => "ATTEMPT" | EVIDENCE_LINEAGE => "EVIDENCE_LINEAGE" | COUNT => "COUNT"
  end.

Definition is_valid (x : t) : bool := negb (bool_decide (x = COUNT)).
End RecordType.

(** Attempts and observations carry liveness that a restart destroys. *)
Definition is_dynamic_record (x : RecordType.t) : bool :=
  bool_decide (x = RecordType.ATTEMPT) || bool_decide (x = RecordType.EVIDENCE_LINEAGE).

Definition kPersistenceFormatVersion : Z := 1.
Definition kRecordMagic : Z := 0x4E525044.
Definition kRecordHeaderSize : Z := 40.
Definition kSnapshotMagic : Z := 0x4E525053.
Definition kSnapshotHeaderSize : Z := 40.

Record DurableRecord := mkRecord {
  rec_type : RecordType.t;
  rec_sequence : Sequence;
  rec_payload : list Z
}.

Record StoreLimits := mkStoreLimits {
  max_records : Z;
  max_record_bytes : Z;
  max_journal_bytes : Z;
  max_explanations : Z
}.

Definition default_store_limits : StoreLimits :=
  mkStoreLimits 4096 (2 ^ 20) (64 * 2 ^ 20) 128.

Definition corrupt (message : string) : Status := mkStatus StatusCode.CORRUPT message.

(** ** Writing *)

(** The first 36 bytes of a header, which its checksum covers. *)
Definition record_header (type : RecordType.t) (sequence : Sequence) (epoch : Epoch)
  (payload : list Z) : list Z :=
  w_u32 kRecordMagic ++ w_u16 kPersistenceFormatVersion ++ w_u16 (RecordType.to_u16 type) ++
  w_u16 0 ++ w_u16 0 ++ w_u64 sequence ++ w_u64 epoch ++ w_u32 (u32 (sizez payload)) ++
  w_u32 (crc32 payload 0).

Definition frame_record (type : RecordType.t) (sequence : Sequence) (epoch : Epoch)
  (payload : list Z) : list Z :=
  let header := record_header type sequence epoch payload in
  header ++ w_u32 (crc32 header 0) ++ payload.

(** ** Reading *)

Definition read_u16 (bytes : list Z) (at_ : nat) : Z :=
  Z.lor (bytes !!! at_) (Z.shiftl (bytes !!! S at_) 8).
Definition read_u32 (bytes : list Z) (at_ : nat) : Z := read_le 4 (drop at_ bytes).
Definition read_u64 (bytes : list Z) (at_ : nat) : Z := read_le 8 (drop at_ bytes).

(** What stands at the front of a non-empty range: the torn beginning of a
    record, or a complete record and the bytes it takes. *)
Inductive Scanned :=
| Torn
| Framed (record : DurableRecord) (total : Z).

Definition torn_header (bytes : list Z) : result Status Scanned :=
  if forallb (fun '(a, b) => a =? b) (zip (w_u32 kRecordMagic) bytes)
  then Ok Torn else Err (corrupt "trailing bytes are not a record header prefix").

(** One turn of the loop of [scan_records], up to the checks against the records
    before it. *)
Definition scan_item (limits : StoreLimits) (bytes : list Z) : result Status Scanned :=
  if sizez bytes <? kRecordHeaderSize then torn_header bytes
  else if negb (read_u32 bytes 0 =? kRecordMagic) then Err (corrupt "record magic mismatch")
  else if negb (read_u16 bytes 4 =? kPersistenceFormatVersion)
  then Err (mkStatus StatusCode.UNSUPPORTED
              ("record format version is not supported: " +:+ pretty (read_u16 bytes 4)))
  else if (read_u16 bytes 6 =? 0) || (RecordType.to_u16 RecordType.COUNT <=? read_u16 bytes 6)
  then Err (corrupt "record type is outside the domain")
  else if negb (read_u32 bytes 36 =? crc32 (take 36 bytes) 0)
  then Err (corrupt "record header checksum mismatch")
  else
    let payload_length := read_u32 bytes 28 in
    if max_record_bytes limits <? payload_length
    then Err (corrupt "record declares a payload beyond the configured bound")
    else if sizez bytes <? kRecordHeaderSize + payload_length then Ok Torn
    else
      let payload := take (Z.to_nat payload_length) (drop 40 bytes) in
      let sequence := read_u64 bytes 12 in
      if negb (crc32 payload 0 =? read_u32 bytes 32)
      then Err (corrupt ("record payload checksum mismatch at sequence " +:+ pretty sequence))
      else Ok (Framed (mkRecord (RecordType.of_u16 (read_u16 bytes 6)) sequence payload)
                 (kRecordHeaderSize + payload_length)).

(** A scan that was not refused: the records beyond the minimum sequence, the
    length of the complete records, and the length of the torn tail, if any. *)
Record ScanResult := mkScan {
  scan_kept : list DurableRecord;
  good_bytes : Z;
  torn_tail : option Z
}.

(** [None] would mean that the fuel ran out. *)
Fixpoint scan_loop (fuel : nat) (limits : StoreLimits) (minimum_sequence offset last_seen : Z)
  (kept : list DurableRecord) (bytes : list Z) : option (result Status ScanResult) :=
  match fuel with
  | O => None
  | S fuel' =>
      match bytes with
      | [] => Some (Ok (mkScan kept offset None))
      | _ =>
          match scan_item limits bytes with
          | Err s => Some (Err s)
          | Ok Torn => Some (Ok (mkScan kept offset (Some (sizez bytes))))
          | Ok (Framed record total) =>
              if negb (last_seen =? 0) && (rec_sequence record <=? last_seen)
              then Some (Err (corrupt ("record sequences are not strictly increasing at " +:+
                                       pretty (rec_sequence record))))
              else
                scan_loop fuel' limits minimum_sequence (offset + total) (rec_sequence record)
                  (if minimum_sequence <? rec_sequence record then kept ++ [record] else kept)
                  (drop (Z.to_nat total) bytes)
          end
      end
  end.

(** Every record takes at least its header, so the bytes bound the turns. *)
Definition scan_records (bytes : list Z) (limits : StoreLimits) (minimum_sequence : Z)
  : option (result Status ScanResult) :=
  scan_loop (S (length bytes)) limits minimum_sequence 0 0 [] bytes.

(** ** Payloads *)

Definition encode_epoch_payload (previous_epoch : Epoch) (previous_boot : BootId)
  (current_epoch : Epoch) (current_boot : BootId) : list Z :=
  w_u32 kPersistenceFormatVersion ++ w_u64 previous_epoch ++ w_u64 previous_boot ++
  w_u64 current_epoch ++ w_u64 current_boot.

Definition encode_plan_record (p : RecoveryPlan) : list Z :=
  encode_plan p ++ encode_digest (plan_digest p).

Definition decode_plan_payload : Dec RecoveryPlan :=
  p <- decode_plan default_model_limits ;;
  hi <- rd r_u64 ;; lo <- rd r_u64 ;; _ <- check_ok ;;
  dret (set_identity p (plan_id p) (mkDigest hi lo)).

Definition decode_plan_record (payload : list Z) : result Status RecoveryPlan :=
  decode_all decode_plan_payload payload.

Example scan_example :
  let limits := mkStoreLimits 8 64 1024 8 in
  let r1 := frame_record RecordType.BOOT 1 0 [1; 2] in
  let r2 := frame_record RecordType.FENCE 2 5 [] in
  scan_records (r1 ++ r2 ++ take 17 r2) limits 1 =
    Some (Ok (mkScan [mkRecord RecordType.FENCE 2 []] 82 (Some 17))).
Proof. vm_compute. reflexivity. Qed.

(** ** Lemmas: the fields of a header *)

Record record_fits (limits : StoreLimits) (r : DurableRecord) : Prop := {
  rfit_type : RecordType.is_valid (rec_type r) = true;
  rfit_sequence : in_u64 (rec_sequence r);
  rfit_payload : Forall in_u8 (rec_payload r);
  rfit_size : sizez (rec_payload r) <= max_record_bytes limits
}.

(** The 40 bytes in front of the payload. *)
Definition frame_head (r : DurableRecord) (epoch : Epoch) : list Z :=
  let header := record_header (rec_type r) (rec_sequence r) epoch (rec_payload r) in
  header ++ w_u32 (crc32 header 0).

Definition frame (r : DurableRecord) (epoch : Epoch) : list Z :=
  frame_record (rec_type r) (rec_sequence r) epoch (rec_payload r).

Lemma frame_split r epoch : frame r epoch = frame_head r epoch ++ rec_payload r.
Proof. unfold frame, frame_record, frame_head. cbv zeta. by rewrite app_assoc. Qed.

Lemma length_frame_head r epoch : length (frame_head r epoch) = 40%nat.
Proof. reflexivity. Qed.

Lemma length_frame r epoch : length (frame r epoch) = (40 + length (rec_payload r))%nat.
Proof. by rewrite frame_split, length_app, length_frame_head. Qed.

Lemma read_le4 v rest : in_u32 v -> read_le 4 (w_u32 v ++ rest) = v.
Proof. apply (read_le_write 4 w_u32 32); [apply w_u32_bytes|done|apply w_u32_sum]. Qed.
Lemma read_le8 v rest : in_u64 v -> read_le 8 (w_u64 v ++ rest) = v.
Proof.
  apply (read_le_write 8 w_u64 64); [apply w_u64_bytes|done|].
  intros w. rewrite w_u64_sum. apply u64_mod.
Qed.

Lemma record_header_bytes type sequence epoch payload :
  Forall in_u8 (record_header type sequence epoch payload).
Proof.
  assert (H : forall v, Forall in_u8 (w_u16 v)) by (intros v; repeat constructor; apply land_ff_u8).
  unfold record_header. repeat (apply Forall_app_2; [solve [auto with bytes]|]). auto with bytes.
Qed.

Lemma frame_bytes limits r epoch : record_fits limits r -> Forall in_u8 (frame r epoch).
Proof.
  intros Hr. rewrite frame_split. unfold frame_head. cbv zeta.
  apply Forall_app_2; [apply Forall_app_2|apply Hr]; [apply record_header_bytes|auto with bytes].
Qed.

Section Head.
Context (limits : StoreLimits) (Hlimits : in_u32 (max_record_bytes limits)).

(** A header announces its record, whatever follows it. *)
Lemma scan_item_head r epoch tail :
  record_fits limits r ->
  scan_item limits (frame_head r epoch ++ tail) =
    if sizez tail <? sizez (rec_payload r) then Ok Torn
    else
      let payload := take (length (rec_payload r)) tail in
      if negb (crc32 payload 0 =? crc32 (rec_payload r) 0)
      then Err (corrupt ("record payload checksum mismatch at sequence " +:+
                         pretty (rec_sequence r)))
      else Ok (Framed (mkRecord (rec_type r) (rec_sequence r) payload)
                 (kRecordHeaderSize + sizez (rec_payload r))).
Proof.
  intros [Ht Hs Hp Hz]. destruct r as [t s p]. cbn [rec_type rec_sequence rec_payload] in *.
  set (bytes := frame_head (mkRecord t s p) epoch ++ tail).
  assert (Hlen : sizez bytes = 40 + sizez tail)
    by (unfold sizez, bytes; rewrite length_app, length_frame_head; lia).
  assert (Hup : in_u32 (sizez p)) by (unfold in_u32, sizez in *; lia).
  assert (Hmagic : read_u32 bytes 0 = kRecordMagic) by reflexivity.
  assert (Hversion : read_u16 bytes 4 = kPersistenceFormatVersion) by reflexivity.
  assert (Htype : read_u16 bytes 6 = RecordType.to_u16 t) by (destruct t; reflexivity).
  assert (Hseq : read_u64 bytes 12 = s) by (by apply read_le8).
  assert (Hplen : read_u32 bytes 28 = sizez p)
    by (rewrite <- (u32_small (sizez p)) by done; apply read_le4, u32_range).
  assert (Hpcrc : read_u32 bytes 32 = crc32 p 0) by (apply read_le4; by apply crc32_u32).
  assert (Hhead : take 36 bytes = record_header t s epoch p) by reflexivity.
  assert (Hhcrc : read_u32 bytes 36 = crc32 (record_header t s epoch p) 0).
  { apply (read_le4 (crc32 (record_header t s epoch p) 0) tail).
    apply crc32_u32; [apply record_header_bytes|done]. }
  assert (Htail : drop 40 bytes = tail) by reflexivity.
  unfold scan_item. rewrite Hlen, Hmagic, Hversion, Htype, Hseq, Hplen, Hpcrc, Hhead, Hhcrc, Htail.
  clearbody bytes. rewrite !Z.eqb_refl. unfold kRecordHeaderSize.
  destruct (Z.ltb_spec (40 + sizez tail) 40); [unfold sizez in *; lia|].
  replace ((RecordType.to_u16 t =? 0) || (RecordType.to_u16 RecordType.COUNT <=?
    RecordType.to_u16 t)) with false by (destruct t; done).
  destruct (Z.ltb_spec (max_record_bytes limits) (sizez p)); [lia|]. cbn [negb].
  assert (Hlt : (40 + sizez tail <? 40 + sizez p) = (sizez tail <? sizez p)).
  { clear. generalize (sizez tail), (sizez p). intros x y.
    destruct (Z.ltb_spec x y), (Z.ltb_spec (40 + x) (40 + y)); (reflexivity || lia). }
  rewrite Hlt.
  replace (RecordType.of_u16 (RecordType.to_u16 t)) with t by (by destruct t).
  replace (Z.to_nat (sizez p)) with (length p) by (unfold sizez; by rewrite Nat2Z.id).
  reflexivity.
Qed.

Lemma scan_item_frame r epoch rest :
  record_fits limits r ->
  scan_item limits (frame r epoch ++ rest) =
    Ok (Framed r (kRecordHeaderSize + sizez (rec_payload r))).
Proof.
  intros Hr. rewrite frame_split, <- app_assoc, scan_item_head by done. cbv zeta.
  rewrite take_app_length. unfold sizez at 1 2. rewrite length_app.
  destruct (Z.ltb_spec (Z.of_nat (length (rec_payload r) + length rest))
                       (Z.of_nat (length (rec_payload r)))); [lia|].
  rewrite Z.eqb_refl. by destruct r.
Qed.

(** A file that ends inside of a record ends with a torn tail. *)
Lemma scan_item_prefix r epoch k :
  record_fits limits r -> (k < length (frame r epoch))%nat ->
  scan_item limits (take k (frame r epoch)) = Ok Torn.
Proof.
  intros Hr Hk. rewrite length_frame in Hk. destruct (Nat.lt_ge_cases k 40) as [Hs|Hs].
  - unfold scan_item.
    assert (Hl : sizez (take k (frame r epoch)) = Z.of_nat k)
      by (unfold sizez; rewrite length_take, length_frame; lia).
    rewrite Hl. unfold kRecordHeaderSize. destruct (Z.ltb_spec (Z.of_nat k) 40); [|lia].
    unfold torn_header. replace (forallb _ _) with true; [done|].
    clear. by destruct k as [|[|[|[|k]]]].
  - rewrite frame_split, take_app, length_frame_head, take_ge by (by rewrite length_frame_head).
    rewrite scan_item_head by done.
    destruct (Z.ltb_spec (sizez (take (k - 40) (rec_payload r))) (sizez (rec_payload r))) as [|Hn];
      [done|].
    unfold sizez in Hn. rewrite length_take in Hn. lia.
Qed.

(** Sequences strictly increase from [last] on. *)
Fixpoint increasing (last : Z) (rs : list DurableRecord) : Prop :=
  match rs with
  | [] => True
  | r :: rs' => last < rec_sequence r /\ increasing (rec_sequence r) rs'
  end.

Definition last_of (last : Z) (rs : list DurableRecord) : Z :=
  fold_left (fun _ r => rec_sequence r) rs last.

(** The records of a journal with the epochs they were written under. *)
Definition frames (l : list (DurableRecord * Epoch)) : list Z :=
  concat (map (fun '(r, e) => frame r e) l).

Lemma frames_app l l' : frames (l ++ l') = frames l ++ frames l'.
Proof. unfold frames. by rewrite map_app, concat_app. Qed.

Lemma length_frames l : (40 * length l <= length (frames l))%nat.
Proof.
  induction l as [|[r e] l IH]; [simpl; lia|].
  change (frames ((r, e) :: l)) with (frame r e ++ frames l).
  rewrite length_app, length_frame. simpl. lia.
Qed.

(** Complete records are scanned one after the other. *)
Lemma scan_loop_frames l minimum offset last kept tail fuel :
  Forall (record_fits limits) (map fst l) -> 0 <= last -> increasing last (map fst l) ->
  scan_loop (length l + fuel) limits minimum offset last kept (frames l ++ tail) =
  scan_loop fuel limits minimum (offset + sizez (frames l)) (last_of last (map fst l))
    (kept ++ filter (fun r => minimum < rec_sequence r) (map fst l)) tail.
Proof.
  revert offset last kept; induction l as [|[r e] l IH]; intros offset last kept Hl H0 Hi.
  { unfold sizez. simpl. by rewrite Z.add_0_r, app_nil_r. }
  apply Forall_cons in Hl as [Hr Hl]. destruct Hi as [Hlt Hi].
  change (frames ((r, e) :: l)) with (frame r e ++ frames l).
  rewrite <- app_assoc. simpl Nat.add. cbn [scan_loop].
  assert (Hne : exists b bs, frame r e ++ frames l ++ tail = b :: bs) by (by eexists _, _).
  rewrite scan_item_frame by done. destruct Hne as (b & bs & Hne). rewrite Hne, <- Hne. clear b bs Hne.
  cbn [fst] in Hlt. replace (negb (last =? 0) && (rec_sequence r <=? last)) with false
    by (destruct (Z.leb_spec (rec_sequence r) last); [lia|by rewrite andb_false_r]).
  assert (Ht : kRecordHeaderSize + sizez (rec_payload r) = sizez (frame r e))
    by (unfold sizez, kRecordHeaderSize; rewrite length_frame; lia).
  rewrite Ht. unfold sizez at 2. rewrite Nat2Z.id, drop_app_length.
  rewrite IH; [|done|lia|done]. f_equal.
  - unfold sizez. rewrite length_app. lia.
  - cbn [map fst]. rewrite filter_cons. unfold decide.
    destruct (Z.ltb_spec minimum (rec_sequence r)); case_decide; try lia; [|done].
    by rewrite <- app_assoc.
Qed.
End Head.

(** Every turn takes at least a header. *)
Lemma read_le_nonneg n data : Forall in_u8 data -> 0 <= read_le n data.
Proof.
  intros Hd. unfold read_le. generalize (seq 0 n). intros l.
  assert (H : forall acc, 0 <= acc -> 0 <= fold_left (fun value index =>
      Z.lor value (Z.shiftl (data !!! index) (8 * Z.of_nat index))) l acc); [|by apply H].
  induction l as [|i l IH]; intros acc Ha; simpl; [done|]. apply IH.
  apply Z.lor_nonneg. split; [done|]. apply Z.shiftl_nonneg.
  destruct (data !! i) as [x|] eqn:Hi.
  - rewrite (list_lookup_total_correct _ _ _ Hi). rewrite Forall_lookup in Hd.
    specialize (Hd i x Hi). unfold in_u8 in Hd. lia.
  - rewrite list_lookup_total_alt, Hi. done.
Qed.

Lemma scan_item_total limits bytes r total : Forall in_u8 bytes ->
  scan_item limits bytes = Ok (Framed r total) -> 40 <= total.
Proof.
  intros Hb. unfold scan_item, torn_header, kRecordHeaderSize.
  pose proof (read_le_nonneg 4 (drop 28 bytes) (Forall_drop _ 28 _ Hb)) as Hn.
  fold (read_u32 bytes 28) in Hn. cbv zeta.
  repeat match goal with |- context [if ?b then _ else _] => destruct b; try discriminate end.
  injection 1 as _ <-. lia.
Qed.

Lemma scan_loop_total limits minimum bytes fuel : Forall in_u8 bytes -> (length bytes < fuel)%nat ->
  forall offset last kept,
    exists res, scan_loop fuel limits minimum offset last kept bytes = Some res.
Proof.
  revert bytes; induction fuel as [|fuel IH]; intros bytes Hb Hf offset last kept; [lia|].
  cbn [scan_loop]. destruct bytes as [|b bs]; [by eexists|].
  destruct (scan_item limits (b :: bs)) as [[|r total]|s] eqn:Hi; [by eexists| |by eexists].
  destruct (_ && _); [by eexists|]. apply scan_item_total in Hi; [|done].
  apply IH; [by apply Forall_drop|]. rewrite length_drop. simpl in *. lia.
Qed.

(** ** What the format promises *)

(** The scan of a journal always ends, whatever the bytes. *)
Theorem scan_records_total limits minimum bytes :
  Forall in_u8 bytes -> exists res, scan_records bytes limits minimum = Some res.
Proof. intros Hb. apply scan_loop_total; [done|lia]. Qed.

(** What may stand behind the complete records: nothing, or the beginning of one more. *)
Definition torn_part (limits : StoreLimits) (tail : list Z) : Prop :=
  exists r epoch k, record_fits limits r /\ (k < length (frame r epoch))%nat /\
    tail = take k (frame r epoch).

Lemma scan_loop_tail limits minimum tail offset last kept fuel :
  in_u32 (max_record_bytes limits) -> torn_part limits tail ->
  scan_loop (S fuel) limits minimum offset last kept tail =
    Some (Ok (mkScan kept offset (match tail with [] => None | _ => Some (sizez tail) end))).
Proof.
  intros Hu (r & e & k & Hr & Hk & ->). pose proof (scan_item_prefix limits Hu r e k Hr Hk) as Hi.
  cbn [scan_loop]. by destruct (take k (frame r e)); [|rewrite Hi].
Qed.

Lemma scan_recovers limits minimum l tail :
  in_u32 (max_record_bytes limits) -> Forall (record_fits limits) (map fst l) ->
  increasing 0 (map fst l) -> torn_part limits tail ->
  scan_records (frames l ++ tail) limits minimum =
    Some (Ok (mkScan (filter (fun r => minimum < rec_sequence r) (map fst l)) (sizez (frames l))
                (match tail with [] => None | _ => Some (sizez tail) end))).
Proof.
  intros Hu Hl Hi Ht. unfold scan_records. rewrite length_app. pose proof (length_frames l).
  replace (S (length (frames l) + length tail))%nat
    with (length l + S (length (frames l) + length tail - length l))%nat by lia.
  rewrite scan_loop_frames by done. by rewrite scan_loop_tail.
Qed.

(** C30: a journal is read back as it was written. Scanning complete records with
    increasing sequences, cut off anywhere inside of one more record, keeps
    exactly the complete records beyond the minimum sequence and reports where
    they end and how long the torn tail is. *)
Theorem journal_recovers limits minimum l r epoch k :
  in_u32 (max_record_bytes limits) -> Forall (record_fits limits) (map fst l) ->
  increasing 0 (map fst l) -> record_fits limits r -> (k < length (frame r epoch))%nat ->
  scan_records (frames l ++ take k (frame r epoch)) limits minimum =
    Some (Ok (mkScan (filter (fun r => minimum < rec_sequence r) (map fst l)) (sizez (frames l))
                (if decide (k = 0%nat) then None else Some (Z.of_nat k)))).
Proof.
  intros Hu Hl Hi Hr Hk. rewrite scan_recovers by (try done; by exists r, epoch, k).
  do 3 f_equal. destruct (decide (k = 0%nat)) as [->|Hk0]; [done|].
  assert (Hs : sizez (take k (frame r epoch)) = Z.of_nat k) by (unfold sizez; rewrite length_take; lia).
  rewrite <- Hs. destruct (take k (frame r epoch)) eqn:E; [|done]. unfold sizez in Hs. simpl in Hs. lia.
Qed.

(** C38: damage inside of a record is refused, not skipped. When up to four
    consecutive payload bytes of any record of a journal change, the scan fails
    with a checksum error, whatever follows the record. *)
Theorem damaged_payload_refused limits minimum l r epoch before bad good after rest :
  in_u32 (max_record_bytes limits) -> Forall (record_fits limits) (map fst l) ->
  increasing 0 (map fst l) -> record_fits limits r ->
  rec_payload r = before ++ good ++ after -> Forall in_u8 bad ->
  length bad = length good -> (length good <= 4)%nat -> bad <> good ->
  scan_records (frames l ++ frame_head r epoch ++ (before ++ bad ++ after) ++ rest) limits minimum =
    Some (Err (corrupt ("record payload checksum mismatch at sequence " +:+
                        pretty (rec_sequence r)))).
Proof.
  intros Hu Hl Hi Hr Hp Hb Hlen H4 Hne. unfold scan_records. rewrite length_app.
  pose proof (length_frames l).
  set (tail := frame_head r epoch ++ (before ++ bad ++ after) ++ rest).
  replace (S (length (frames l) + length tail))%nat
    with (length l + S (length (frames l) + length tail - length l))%nat by lia.
  rewrite scan_loop_frames by done. cbn [scan_loop].
  assert (Hl' : length (before ++ bad ++ after) = length (rec_payload r))
    by (rewrite Hp, !length_app; lia).
  assert (Hitem : scan_item limits tail =
    Err (corrupt ("record payload checksum mismatch at sequence " +:+ pretty (rec_sequence r)))).
  { unfold tail. rewrite scan_item_head by done. cbv zeta. rewrite take_app_length' by done.
    unfold sizez. rewrite length_app, Hl'.
    destruct (Z.ltb_spec (Z.of_nat (length (rec_payload r) + length rest))
                         (Z.of_nat (length (rec_payload r)))); [lia|].
    assert (Hc : crc32 (before ++ bad ++ after) 0 <> crc32 (rec_payload r) 0).
    { pose proof (rfit_payload _ _ Hr) as Hg. rewrite Hp in *. by apply crc32_burst. }
    apply Z.eqb_neq in Hc. by rewrite Hc. }
  rewrite Hitem. by destruct tail.
Qed.

(** ** Plan records *)

Definition plan_record_fits (p : RecoveryPlan) : Prop :=
  plan_fits default_model_limits (set_identity p (plan_id p) zero_digest) /\
  digest_fits (plan_digest p).

Lemma encode_plan_identity p d : encode_plan (set_identity p (plan_id p) d) = encode_plan p.
Proof. done. Qed.

Lemma plan_fits_digest limits p : plan_fits limits p -> set_identity p (plan_id p) zero_digest = p.
Proof. unfold plan_fits. intros H. destruct_and! H. destruct p. simpl in *. by subst. Qed.

#[local] Opaque w_u64 encode_plan plan_fits.

#[local] Instance plan_record_codec :
  Codec plan_record_fits encode_plan_record decode_plan_payload.
Proof.
  apply codec_intro; [unfold decode_plan_payload; apply _| |];
    unfold decode_plan_payload, encode_plan_record, plan_record_fits, digest_fits, encode_digest.
  - intros p rest [Hp Hd]. rewrite <- (encode_plan_identity p zero_digest), <- !app_assoc.
    run_codec. by destruct p as [? ? ? ? ? ? ? ? ? ? ? ? []].
  - intros d p r' Hrun Hd Hok. back_codec. rewrite encode_plan_identity. simpl.
    match goal with H : plan_fits _ ?q |- _ => pose proof (plan_fits_digest _ _ H) as Hz end.
    cbn [set_identity plan_id] in *. unfold set_identity at 1. simpl.
    split; [split; [by unfold set_identity in Hz; rewrite Hz|done]|].
    eexists. split; [|done]. by rewrite <- !app_assoc.
Qed.
#[local] Transparent w_u64 encode_plan plan_fits.

(** The payload of a committed plan is the plan: decoding is exactly the
    inverse of encoding, its digest included. *)
Theorem decode_plan_record_iff payload p :
  Forall in_u8 payload ->
  decode_plan_record payload = Ok p <->
  plan_record_fits p /\ payload = encode_plan_record p.
Proof. apply (decode_all_iff decode_plan_payload). Qed.

(** ** Concrete records *)

Definition sample_limits : StoreLimits := mkStoreLimits 8 64 1024 8.
Definition boot_record : DurableRecord := mkRecord RecordType.BOOT 1 [1; 2; 3; 4; 5].
Definition attempt_record : DurableRecord := mkRecord RecordType.ATTEMPT 2 [7].

Lemma sample_limits_ok : in_u32 (max_record_bytes sample_limits).
Proof. unfold in_u32. simpl. lia. Qed.
Lemma boot_record_fits : record_fits sample_limits boot_record.
Proof. split; [reflexivity|by unfold in_u64|concrete_bytes|done]. Qed.
Lemma attempt_record_fits : record_fits sample_limits attempt_record.
Proof. split; [reflexivity|by unfold in_u64|concrete_bytes|done]. Qed.

Lemma scan_records_total_witness :
  exists res, scan_records [0x44; 0x50; 0x52; 0x4E; 9; 9] sample_limits 0 = Some res.
Proof. apply scan_records_total. concrete_bytes. Defined.

(** A journal of one record, torn 20 bytes into the second. *)
Lemma journal_recovers_witness :
  scan_records (frame boot_record 0 ++ take 20 (frame attempt_record 1)) sample_limits 0 =
    Some (Ok (mkScan [boot_record] 45 (Some 20))).
Proof.
  assert (H : frame boot_record 0 = frames [(boot_record, 0)]) by (symmetry; apply app_nil_r).
  rewrite H. etransitivity.
  - apply (journal_recovers sample_limits 0 [(boot_record, 0)] attempt_record 1 20).
    + exact sample_limits_ok.
    + apply Forall_cons. split; [exact boot_record_fits|apply Forall_nil; exact I].
    + split; [reflexivity|exact I].
    + exact attempt_record_fits.
    + rewrite length_frame. simpl. lia.
  - vm_compute. reflexivity.
Defined.

Lemma damaged_payload_refused_witness :
  scan_records (frames [] ++ frame_head boot_record 0 ++ ([1; 2] ++ [9; 9] ++ [5]) ++ [])
    sample_limits 0 =
  Some (Err (corrupt ("record payload checksum mismatch at sequence " +:+ pretty 1))).
Proof.
  apply (damaged_payload_refused sample_limits 0 [] boot_record 0 [1; 2] [9; 9] [3; 4] [5] []).
  - exact sample_limits_ok.
  - apply Forall_nil. exact I.
  - exact I.
  - exact boot_record_fits.
  - reflexivity.
  - concrete_bytes.
  - reflexivity.
  - simpl. lia.
  - discriminate.
Defined.

(** A one-step plan, as it is stored. *)
Definition sample_plan : RecoveryPlan :=
  mkPlan 5 1 3 9 1
    [mkStep 0 10 1 0 5 AuthorityDomain.RECOVERY_ADMISSION AuthorityLevel.RECOMMENDATION 4
       AuthorityLevel.RECOMMENDATION
       [mkEvidenceBinding EvidenceKind.LINK_OPERATIONAL (subject_of_link 1) 4] false 11]
    (mkObjective [1; 0; 2; 0; 1; 10; 5; 0]) (mkDigest 1 2) (mkDigest 3 4) (mkDigest 5 6)
    (mkDigest 7 8) (mkDigest 9 10) (mkDigest 11 12)
    [mkExplanation ReasonCode.PROOF_DEPENDENCY_CYCLE default_subject 0 0 "accepted"].

Lemma encode_plan_record_bytes p : Forall in_u8 (encode_plan_record p).
Proof.
  apply Forall_app_2; [apply encode_plan_bytes|]. unfold encode_digest. encoder_bytes.
Qed.

Lemma sample_plan_fits : plan_record_fits sample_plan.
Proof.
  refine (proj1 (proj1 (decode_all_iff decode_plan_payload (encode_plan_record sample_plan)
                   sample_plan (encode_plan_record_bytes _)) _)).
  vm_compute. reflexivity.
Qed.

Lemma decode_plan_record_iff_witness :
  decode_plan_record (encode_plan_record sample_plan) = Ok sample_plan.
Proof.
  apply (decode_plan_record_iff _ _ (encode_plan_record_bytes sample_plan)).
  split; [exact sample_plan_fits|reflexivity].
Defined.
