(* ===== verification/Store.v ===== *)
(** * The durable store

    Models [DurableStore] of [src/persistence.cpp]: opening with recovery,
    appending, fencing and snapshots. The two files are their bytes; the
    outcomes of the operating system calls are given by an [Io], so that every
    error path of the source is a branch of the model. *)
From S2P Require Import Prelude Ids Canonical Model Objective Domain DefinitionCheck Plan Fixture Codec Crc32 Journal.

(** The journal and the snapshot; [None] where the file does not exist. *)
Record Disk := mkDisk { journal_file : option (list Z); snapshot_file : option (list Z) }.

(** How reading a file can fail. *)
Inductive ReadFault :=
| StatFails (message : string)
| OpenFails
| ShortRead.

(** Which calls succeed. A write that falls short says how many bytes it wrote;
    a failed flush says what it reported. *)
Record Io := mkIo {
  io_read_snapshot : option ReadFault;
  io_read_journal : option ReadFault;
  io_reopen_tail : bool;
  io_truncate : bool;
  io_append_open : bool;
  io_create : bool;
  io_write : Sequence -> option nat;
  io_flush : Sequence -> option Status;
  io_temporary : option Status;
  io_rename : bool;
  io_reset : bool;
  io_reset_flush : option Status;
  io_reopen : bool
}.

Definition io_ok : Io :=
  mkIo None None true true true true (fun _ => None) (fun _ => None) None true true None true.

Record OpenOptions := mkOptions {
  opt_limits : StoreLimits;
  opt_create_if_missing : bool;
  opt_advance_epoch : bool
}.

Record RecoveryReport := mkRecovery {
  fresh_store : bool;
  previous_epoch : Epoch;
  current_epoch : Epoch;
  previous_boot : BootId;
  current_boot : BootId;
  records_recovered : Z;
  torn_tail_bytes : Z;
  torn_tail_recovered : bool;
  fenced_dynamic_records : Z;
  restored_static_records : Z;
  report_explanations : list Explanation
}.

Record Store := mkStore {
  st_limits : StoreLimits;
  st_records : list DurableRecord;
  st_fences : list Fence;
  last_sequence : Sequence;
  st_epoch : Epoch;
  st_boot : BootId;
  recovery : RecoveryReport;
  st_closed : bool;
  st_handle : bool
}.

Definition io_error (message : string) : Status := mkStatus StatusCode.IO_ERROR message.

(** ** Appending *)

Definition push_record (st : Store) (r : DurableRecord) : Store :=
  mkStore (st_limits st) (st_records st ++ [r]) (st_fences st) (rec_sequence r) (st_epoch st)
    (st_boot st) (recovery st) (st_closed st) (st_handle st).

Definition push_fence (st : Store) (f : Fence) : Store :=
  mkStore (st_limits st) (st_records st) (st_fences st ++ [f]) (last_sequence st) (st_epoch st)
    (st_boot st) (recovery st) (st_closed st) (st_handle st).

Definition set_handle (st : Store) (handle : bool) : Store :=
  mkStore (st_limits st) (st_records st) (st_fences st) (last_sequence st) (st_epoch st)
    (st_boot st) (recovery st) (st_closed st) handle.

Definition write_journal (d : Disk) (bytes : list Z) : Disk :=
  mkDisk (Some (default [] (journal_file d) ++ bytes)) (snapshot_file d).

Definition next_sequence (st : Store) : Sequence := u64 (last_sequence st + 1).

Definition append (io : Io) (type : RecordType.t) (payload : list Z) (flush_now : bool)
  (st : Store) (d : Disk) : result Status Sequence * Store * Disk :=
  let refuse code message := (Err (mkStatus code message), st, d) in
  if st_closed st then refuse StatusCode.CLOSED "store is closed"
  else if negb (RecordType.is_valid type)
  then refuse StatusCode.INVALID_ARGUMENT "record type is outside the domain"
  else if max_record_bytes (st_limits st) <? sizez payload
  then refuse StatusCode.EXHAUSTED "record payload exceeds the configured bound"
  else if max_records (st_limits st) <=? sizez (st_records st)
  then refuse StatusCode.EXHAUSTED "durable record count bound reached"
  else
    let sequence := next_sequence st in
    let bytes := frame_record type sequence (st_epoch st) payload in
    if negb (st_handle st) then refuse StatusCode.CLOSED "store has no journal handle"
    else match io_write io sequence with
    | Some written => (Err (io_error "journal write failed"), st, write_journal d (take written bytes))
    | None =>
        let d := write_journal d bytes in
        match (if flush_now then io_flush io sequence else None) with
        | Some status => (Err status, st, d)
        | None => (Ok sequence, push_record st (mkRecord type sequence payload), d)
        end
    end.

Definition record_fence (io : Io) (fence : Fence) (st : Store) (d : Disk)
  : result Status unit * Store * Disk :=
  match append io RecordType.FENCE (encode_fence fence) true st d with
  | (Ok _, st, d) => (Ok tt, push_fence st fence, d)
  | (Err s, st, d) => (Err s, st, d)
  end.

(** ** Snapshots *)

Definition snapshot_payload (st : Store) : list Z :=
  concat (map (fun r => frame r (st_epoch st)) (st_records st)).

Definition snapshot_header (count : Z) (payload : list Z) (last : Sequence) (epoch : Epoch)
  : list Z :=
  w_u32 kSnapshotMagic ++ w_u16 kPersistenceFormatVersion ++ w_u16 0 ++ w_u32 (u32 count) ++
  w_u32 (u32 (sizez payload)) ++ w_u32 (crc32 payload 0) ++ w_u64 last ++ w_u64 epoch.

Definition snapshot_image (count : Z) (payload : list Z) (last : Sequence) (epoch : Epoch)
  : list Z :=
  let header := snapshot_header count payload last epoch in
  header ++ w_u32 (crc32 header 0) ++ payload.

Definition snapshot_bytes (st : Store) : list Z :=
  snapshot_image (sizez (st_records st)) (snapshot_payload st) (last_sequence st) (st_epoch st).

Definition commit_snapshot (io : Io) (st : Store) (d : Disk)
  : result Status unit * Store * Disk :=
  if st_closed st then (Err (mkStatus StatusCode.CLOSED "store is closed"), st, d)
  else match io_temporary io with
  | Some status => (Err status, st, d)
  | None =>
      if negb (io_rename io)
      then (Err (io_error "transactional snapshot replacement failed"), st, d)
      else
        let st := set_handle st false in
        let d := mkDisk (journal_file d) (Some (snapshot_bytes st)) in
        if negb (io_reset io)
        then (Err (io_error "cannot reset the journal after the snapshot"), st, d)
        else
          let d := mkDisk (Some []) (snapshot_file d) in
          match io_reset_flush io with
          | Some status => (Err status, st, d)
          | None =>
              if negb (io_reopen io)
              then (Err (io_error "cannot reopen the journal after the snapshot"), st, d)
              else (Ok tt, set_handle st true, d)
          end
  end.

(** ** Opening: reading the files *)

Definition read_file (fault : option ReadFault) (path : string) (max_bytes : Z) (bytes : list Z)
  : result Status (list Z) :=
  match fault with
  | Some (StatFails message) => Err (io_error ("cannot stat " +:+ path +:+ ": " +:+ message))
  | _ =>
      if max_bytes <? sizez bytes
      then Err (corrupt "durable state exceeds the configured bound")
      else match fault with
           | Some OpenFails => Err (io_error ("cannot open " +:+ path))
           | Some ShortRead => Err (io_error ("short read from " +:+ path))
           | _ => Ok bytes
           end
  end.

(** The header of a snapshot, and the payload it describes. *)
Definition check_snapshot (bytes : list Z) : result Status (list Z * Sequence) :=
  if sizez bytes <? kSnapshotHeaderSize then Err (corrupt "snapshot header is truncated")
  else if negb (read_u32 bytes 0 =? kSnapshotMagic) then Err (corrupt "snapshot magic mismatch")
  else if negb (read_u16 bytes 4 =? kPersistenceFormatVersion)
  then Err (mkStatus StatusCode.UNSUPPORTED "snapshot format version is not supported")
  else if negb (read_u32 bytes 36 =? crc32 (take 36 bytes) 0)
  then Err (corrupt "snapshot header checksum mismatch")
  else
    let payload_length := read_u32 bytes 12 in
    let payload := drop 40 bytes in
    if negb (sizez bytes =? kSnapshotHeaderSize + payload_length)
    then Err (corrupt "snapshot length does not match its header")
    else if negb (crc32 payload 0 =? read_u32 bytes 16)
    then Err (corrupt "snapshot payload checksum mismatch")
    else Ok (payload, read_u64 bytes 20).

(** What the files hold: the records, how many of them come from the snapshot,
    and the torn tail that was cut off. *)
Record Loaded := mkLoaded {
  ld_records : list DurableRecord;
  ld_restored : Z;
  ld_torn : option Z
}.

Definition load_snapshot (io : Io) (path : string) (limits : StoreLimits) (d : Disk)
  : option (result Status (list DurableRecord * Sequence)) :=
  match snapshot_file d with
  | None => Some (Ok ([], 0))
  | Some bytes =>
      match (let* bytes := read_file (io_read_snapshot io) (path +:+ ".snapshot")
                             (max_journal_bytes limits) bytes in
             check_snapshot bytes) with
      | Err s => Some (Err s)
      | Ok (payload, sequence) =>
          match scan_records payload limits 0 with
          | None => None
          | Some (Err s) => Some (Err s)
          | Some (Ok scan) =>
              match torn_tail scan with
              | Some _ => Some (Err (corrupt "snapshot contains a torn record"))
              | None => Some (Ok (scan_kept scan, sequence))
              end
          end
      end
  end.

Definition load_journal (io : Io) (path : string) (limits : StoreLimits)
  (snapshot : list DurableRecord * Sequence) (d : Disk)
  : option (result Status Loaded * Disk) :=
  let '(restored, snapshot_sequence) := snapshot in
  match journal_file d with
  | None => Some (Ok (mkLoaded restored (u32 (sizez restored)) None), d)
  | Some bytes =>
      match read_file (io_read_journal io) path (max_journal_bytes limits) bytes with
      | Err s => Some (Err s, d)
      | Ok bytes =>
          match scan_records bytes limits snapshot_sequence with
          | None => None
          | Some (Err s) => Some (Err s, d)
          | Some (Ok scan) =>
              let loaded := mkLoaded (restored ++ scan_kept scan) (u32 (sizez restored))
                              (torn_tail scan) in
              match torn_tail scan with
              | None => Some (Ok loaded, d)
              | Some _ =>
                  if negb (io_reopen_tail io)
                  then Some (Err (io_error "cannot open the journal to recover a torn tail"), d)
                  else if negb (io_truncate io)
                  then Some (Err (io_error "cannot truncate the recovered journal tail"), d)
                  else Some (Ok loaded, mkDisk (Some (take (Z.to_nat (good_bytes scan)) bytes))
                                               (snapshot_file d))
              end
          end
      end
  end.

Definition load_records (io : Io) (path : string) (limits : StoreLimits) (d : Disk)
  : option (result Status Loaded * Disk) :=
  match load_snapshot io path limits d with
  | None => None
  | Some (Err s) => Some (Err s, d)
  | Some (Ok snapshot) => load_journal io path limits snapshot d
  end.

(** ** Opening: the recovered state *)

(** Last sequence, durable epoch and boot, and the fences on record. *)
Record Recovered := mkRecovered {
  rv_last : Sequence;
  rv_epoch : Epoch;
  rv_boot : BootId;
  rv_fences : list Fence
}.

(** The incarnation a boot record announces; [None] where it is malformed. *)
Definition boot_identity (payload : list Z) : option (Epoch * BootId) :=
  let '(_, r) := r_u32 (reader payload) in
  let '(_, r) := r_u64 r in
  let '(_, r) := r_u64 r in
  let '(epoch, r) := r_u64 r in
  let '(boot, r) := r_u64 r in
  if rd_ok r then Some (epoch, boot) else None.

Definition recover_boot (acc : Recovered) (payload : list Z) : result Status Recovered :=
  match boot_identity payload with
  | None => Err (corrupt "boot record payload is malformed")
  | Some (epoch, boot) => Ok (mkRecovered (rv_last acc) epoch boot (rv_fences acc))
  end.

Definition recover_fence (acc : Recovered) (payload : list Z) : result Status Recovered :=
  let* fence := fst (decode_fence (reader payload)) in
  Ok (mkRecovered (rv_last acc) (rv_epoch acc) (rv_boot acc) (rv_fences acc ++ [fence])).

Definition recover_record (acc : Recovered) (r : DurableRecord) : result Status Recovered :=
  if (rec_sequence r <=? rv_last acc) && negb (rv_last acc =? 0)
  then Err (corrupt "durable sequences are not strictly increasing")
  else
    let acc := mkRecovered (rec_sequence r) (rv_epoch acc) (rv_boot acc) (rv_fences acc) in
    match rec_type r with
    | RecordType.BOOT => recover_boot acc (rec_payload r)
    | RecordType.FENCE => recover_fence acc (rec_payload r)
    | _ => Ok acc
    end.

Definition recover_records (rs : list DurableRecord) : result Status Recovered :=
  foldM recover_record (mkRecovered 0 0 0 []) rs.

(** The handle for appending; creating the file empties it. *)
Definition open_handle (io : Io) (options : OpenOptions) (d : Disk) : result Status Disk :=
  if io_append_open io then Ok (mkDisk (Some (default [] (journal_file d))) (snapshot_file d))
  else if negb (opt_create_if_missing options)
  then Err (io_error "cannot open the journal for append")
  else if io_create io then Ok (mkDisk (Some []) (snapshot_file d))
  else Err (io_error "cannot create the journal").

Definition restart_fence (epoch : Epoch) (boot : BootId) (sequence : Sequence) : Fence :=
  mkFence epoch boot AuthorityDomain.FABRIC_STATE sequence sequence
    ("process restart fenced a dynamic record recovered from sequence " +:+ pretty sequence).

Definition dynamic_sequences (rs : list DurableRecord) : list Sequence :=
  map rec_sequence (filter (fun r => is_dynamic_record (rec_type r) = true) rs).

(** The fencing pass: one fence record for every recovered dynamic record. *)
Fixpoint fence_dynamic (io : Io) (epoch : Epoch) (boot : BootId) (sequences : list Sequence)
  (st : Store) (d : Disk) : result Status unit * Store * Disk :=
  match sequences with
  | [] => (Ok tt, st, d)
  | sequence :: rest =>
      match record_fence io (restart_fence epoch boot sequence) st d with
      | (Ok _, st, d) => fence_dynamic io epoch boot rest st d
      | (Err s, st, d) => (Err s, st, d)
      end
  end.

(** ** Opening: the report *)

Definition torn_explanation (bytes : Z) : Explanation :=
  mkExplanation ReasonCode.PERSISTENCE_TORN_TAIL_RECOVERED default_subject bytes 0
    "a strictly partial trailing record was discarded".

Definition fenced_explanation (fenced : Z) : Explanation :=
  mkExplanation ReasonCode.PERSISTENCE_STALE_DYNAMIC_STATE_FENCED default_subject fenced 0
    "recovered attempts and observations are fenced and are not restored as live state".

Definition epoch_explanation (previous current : Epoch) : Explanation :=
  mkExplanation ReasonCode.PERSISTENCE_EPOCH_ADVANCED default_subject previous current
    "coordinator epoch and boot incarnation advance on every open".

(** The report of a successful open. [current_epoch] and [current_boot] keep
    their initial values: no statement of the source assigns them. *)
Definition recovery_report (fresh : bool) (loaded : Loaded) (recovered : Recovered)
  (current : Epoch) (fenced : Z) : RecoveryReport :=
  mkRecovery fresh (rv_epoch recovered) 0 (rv_boot recovered) 0 (sizez (ld_records loaded))
    (default 0 (ld_torn loaded)) (match ld_torn loaded with Some _ => true | None => false end)
    fenced (ld_restored loaded)
    (match ld_torn loaded with Some bytes => [torn_explanation bytes] | None => [] end ++
     (if 0 <? fenced then [fenced_explanation fenced] else []) ++
     [epoch_explanation (rv_epoch recovered) current]).

(** ** Opening *)

(** The store after recovery, before it publishes its incarnation. *)
Definition recovered_store (options : OpenOptions) (fresh : bool) (loaded : Loaded)
  (recovered : Recovered) : Store :=
  let advance n := if opt_advance_epoch options then u64 (n + 1) else n in
  let epoch := advance (rv_epoch recovered) in
  mkStore (opt_limits options) (ld_records loaded) (rv_fences recovered) (rv_last recovered)
    epoch (advance (rv_boot recovered))
    (recovery_report fresh loaded recovered epoch
       (u32 (sizez (dynamic_sequences (ld_records loaded))))) false true.

Definition publish (io : Io) (recovered : Recovered) (st : Store) (d : Disk)
  : result Status Store * Disk :=
  match fence_dynamic io (rv_epoch recovered) (rv_boot recovered)
          (dynamic_sequences (st_records st)) st d with
  | (Err s, _, d) => (Err s, d)
  | (Ok _, st, d) =>
      match append io RecordType.BOOT
              (encode_epoch_payload (rv_epoch recovered) (rv_boot recovered) (st_epoch st)
                 (st_boot st)) true st d with
      | (Err s, _, d) => (Err s, d)
      | (Ok _, st, d) => (Ok st, d)
      end
  end.

(** [DurableStore::open], from the existence tests of the two files on. *)
Definition open (io : Io) (path : string) (options : OpenOptions) (d : Disk)
  : option (result Status Store * Disk) :=
  let limits := opt_limits options in
  let fresh := match journal_file d, snapshot_file d with None, None => true | _, _ => false end in
  match load_records io path limits d with
  | None => None
  | Some (Err s, d) => Some (Err s, d)
  | Some (Ok loaded, d) =>
      if max_records limits <? sizez (ld_records loaded)
      then Some (Err (mkStatus StatusCode.EXHAUSTED
                        "durable record count exceeds the configured bound"), d)
      else match recover_records (ld_records loaded) with
      | Err s => Some (Err s, d)
      | Ok recovered =>
          match open_handle io options d with
          | Err s => Some (Err s, d)
          | Ok d => Some (publish io recovered (recovered_store options fresh loaded recovered) d)
          end
      end
  end.

(** ** The path

    [open] above starts where the path has passed its tests. What the file system
    says of the path and of the directory before its last separator. *)
Record PathState := mkPathState { path_is_directory : bool; parent_is_directory : bool }.

Definition has_char (n : nat) (path : string) : bool :=
  existsb (fun c => Ascii.eqb c (Ascii.ascii_of_nat n)) (String.list_ascii_of_string path).

Definition check_path (ps : PathState) (path : string) : result Status unit :=
  if bool_decide (path = EmptyString) || has_char 0 path
  then Err (mkStatus StatusCode.INVALID_ARGUMENT "store path must be a non-empty path")
  else if path_is_directory ps
  then Err (mkStatus StatusCode.INVALID_ARGUMENT "store path is a directory")
  else if has_char 47 path && negb (parent_is_directory ps)
  then Err (io_error "store directory does not exist")
  else Ok tt.

(** [DurableStore::open], the tests of the path included. *)
Definition open_at (ps : PathState) (io : Io) (path : string) (options : OpenOptions) (d : Disk)
  : option (result Status Store * Disk) :=
  match check_path ps path with
  | Err e => Some (Err e, d)
  | Ok _ => open io path options d
  end.

Definition default_options : OpenOptions := mkOptions default_store_limits true true.

Definition store_log (res : option (result Status Store * Disk)) : option (list (RecordType.t * Z)) :=
  match res with
  | Some (Ok st, _) => Some (map (fun r => (rec_type r, rec_sequence r)) (st_records st))
  | _ => None
  end.

Example open_fresh :
  store_log (open io_ok "s" default_options (mkDisk None None)) = Some [(RecordType.BOOT, 1)].
Proof. vm_compute. reflexivity. Qed.
