(* ===== verification/StoreCorrect.v ===== *)
(** * The durable store loses nothing it acknowledged

    The files of a store hold a log of records ([Holds]); every operation keeps
    that true, a crash at any point of an operation leaves files that still hold
    the acknowledged records, and opening the store recovers them, fences what is
    dynamic and starts a new incarnation. The last part shows what the store does
    not survive: failed flushes, short writes, and writes it accepts but refuses
    to read back. *)
From S2P Require Import Prelude Ids Canonical Model Objective Domain DefinitionCheck Plan Fixture Codec Crc32 Journal Store.

(** ** Logs *)

Lemma increasing_snoc last rs r :
  increasing last (rs ++ [r]) <-> increasing last rs /\ last_of last rs < rec_sequence r.
Proof.
  revert last; induction rs as [|x rs IH]; intros last; simpl; [tauto|]. rewrite IH.
  unfold last_of. simpl. tauto.
Qed.

Lemma last_of_app last rs rs' : last_of last (rs ++ rs') = last_of (last_of last rs) rs'.
Proof. unfold last_of. by rewrite fold_left_app. Qed.

Lemma increasing_le last rs : increasing last rs -> last <= last_of last rs.
Proof.
  revert last; induction rs as [|x rs IH]; intros last; simpl; [unfold last_of; simpl; lia|].
  intros [Hl Hi]. specialize (IH _ Hi). unfold last_of in *. simpl. lia.
Qed.

Lemma increasing_bound last rs :
  increasing last rs -> Forall (fun r => last < rec_sequence r <= last_of last rs) rs.
Proof.
  revert last; induction rs as [|x rs IH]; intros last Hi; [constructor|]. destruct Hi as [Hl Hi].
  pose proof (increasing_le _ _ Hi). change (last_of last (x :: rs)) with (last_of (rec_sequence x) rs).
  constructor; [lia|]. eapply Forall_impl; [by apply IH|]. simpl. lia.
Qed.

Lemma last_of_bound last rs m :
  last <= m -> Forall (fun r => rec_sequence r <= m) rs -> last_of last rs <= m.
Proof.
  intros Hl Hr; revert last Hl; induction Hr as [|x rs Hx Hr IH]; intros last Hl; [done|].
  by apply (IH (rec_sequence x)).
Qed.

(** What recovery needs of the payloads it interprets. *)
Definition payload_ok (r : DurableRecord) : Prop :=
  match rec_type r with
  | RecordType.BOOT => boot_identity (rec_payload r) <> None
  | RecordType.FENCE => is_ok (fst (decode_fence (reader (rec_payload r)))) = true
  | _ => True
  end.

Lemma recover_record_ok acc r :
  rv_last acc < rec_sequence r -> payload_ok r ->
  exists acc', recover_record acc r = Ok acc' /\ rv_last acc' = rec_sequence r.
Proof.
  intros Hl Hp. unfold recover_record.
  destruct (Z.leb_spec (rec_sequence r) (rv_last acc)); [lia|]. simpl. unfold payload_ok in Hp.
  destruct (rec_type r); try (by eexists).
  - unfold recover_boot. by destruct (boot_identity (rec_payload r)) as [[e b]|]; [eexists|].
  - unfold recover_fence. by destruct (fst (decode_fence _)) as [f|s]; [eexists|].
Qed.

Lemma recover_records_ok rs : Forall payload_ok rs -> forall acc,
  increasing (rv_last acc) rs ->
  exists acc', foldM recover_record acc rs = Ok acc' /\ rv_last acc' = last_of (rv_last acc) rs.
Proof.
  induction 1 as [|r rs Hr Hrs IH]; intros acc Hi; [by eexists|]. destruct Hi as [Hl Hi].
  destruct (recover_record_ok acc r Hl Hr) as (acc1 & He & Hl1). simpl. rewrite He. simpl.
  rewrite <- Hl1 in Hi. destruct (IH acc1 Hi) as (acc' & He' & Hl'). exists acc'.
  split; [done|]. by rewrite Hl', Hl1.
Qed.

(** ** What the files hold *)

Record Holds (limits : StoreLimits) (d : Disk) (srs : list DurableRecord) (sseq : Sequence)
  (js : list (DurableRecord * Epoch)) (rs : list DurableRecord) : Prop := {
  hold_snapshot :
    (snapshot_file d = None /\ srs = [] /\ sseq = 0) \/
    exists n epoch, snapshot_file d =
      Some (snapshot_image n (frames (map (fun r => (r, epoch)) srs)) sseq epoch);
  hold_journal : (journal_file d = None /\ js = []) \/ journal_file d = Some (frames js);
  hold_records : rs = srs ++ filter (fun r => sseq < rec_sequence r) (map fst js);
  hold_fits : Forall (record_fits limits) (srs ++ map fst js);
  hold_srs : increasing 0 srs;
  hold_js : increasing 0 (map fst js);
  hold_rs : increasing 0 rs;
  hold_payloads : Forall payload_ok rs;
  hold_sseq : 0 <= sseq <= last_of 0 rs;
  hold_last : Forall (fun r => rec_sequence r <= last_of 0 rs) (map fst js);
  hold_u64 : in_u64 (last_of 0 rs)
}.

Definition holds (limits : StoreLimits) (d : Disk) (rs : list DurableRecord) : Prop :=
  exists srs sseq js, Holds limits d srs sseq js rs.

(** Limits a file of which the 32-bit length fields can describe; a fence record
    takes at most 165 bytes. *)
Record limits_sound (limits : StoreLimits) : Prop := {
  lim_record : in_u32 (max_record_bytes limits);
  lim_fence : 165 <= max_record_bytes limits;
  lim_journal : max_journal_bytes limits < 2 ^ 32
}.

Definition file_small (limits : StoreLimits) (file : option (list Z)) : Prop :=
  sizez (default [] file) <= max_journal_bytes limits.

Definition small (limits : StoreLimits) (d : Disk) : Prop :=
  file_small limits (journal_file d) /\ file_small limits (snapshot_file d).

(** ** Reading back a snapshot *)

Lemma snapshot_header_bytes n payload last epoch :
  Forall in_u8 (snapshot_header n payload last epoch).
Proof.
  assert (H : forall v, Forall in_u8 (w_u16 v)) by (intros v; repeat constructor; apply land_ff_u8).
  unfold snapshot_header. repeat (apply Forall_app_2; [solve [auto with bytes]|]). auto with bytes.
Qed.

Lemma check_snapshot_image n payload last epoch :
  Forall in_u8 payload -> in_u64 last -> in_u32 (sizez payload) ->
  check_snapshot (snapshot_image n payload last epoch) = Ok (payload, last).
Proof.
  intros Hp Hl Hs. set (bytes := snapshot_image n payload last epoch).
  assert (Hlen : sizez bytes = 40 + sizez payload).
  { unfold bytes, snapshot_image. cbv zeta. unfold sizez. rewrite !length_app.
    change (length (snapshot_header n payload last epoch)) with 36%nat.
    change (length (w_u32 (crc32 (snapshot_header n payload last epoch) 0))) with 4%nat. lia. }
  assert (Hmagic : read_u32 bytes 0 = kSnapshotMagic) by reflexivity.
  assert (Hversion : read_u16 bytes 4 = kPersistenceFormatVersion) by reflexivity.
  assert (Hplen : read_u32 bytes 12 = sizez payload)
    by (rewrite <- (u32_small (sizez payload)) by done; apply read_le4, u32_range).
  assert (Hpcrc : read_u32 bytes 16 = crc32 payload 0) by (apply read_le4; by apply crc32_u32).
  assert (Hseq : read_u64 bytes 20 = last) by (by apply read_le8).
  assert (Hhead : take 36 bytes = snapshot_header n payload last epoch) by reflexivity.
  assert (Hhcrc : read_u32 bytes 36 = crc32 (snapshot_header n payload last epoch) 0).
  { apply (read_le4 (crc32 (snapshot_header n payload last epoch) 0) payload).
    apply crc32_u32; [apply snapshot_header_bytes|done]. }
  assert (Htail : drop 40 bytes = payload) by reflexivity.
  unfold check_snapshot.
  rewrite Hlen, Hmagic, Hversion, Hplen, Hpcrc, Hseq, Hhead, Hhcrc, Htail. clearbody bytes.
  rewrite !Z.eqb_refl. unfold kSnapshotHeaderSize.
  by destruct (Z.ltb_spec (40 + sizez payload) 40); [unfold sizez in *; lia|].
Qed.

Lemma frames_bytes limits l :
  Forall (record_fits limits) (map fst l) -> Forall in_u8 (frames l).
Proof.
  induction l as [|[r e] l IH]; intros Hl; [constructor|]. apply Forall_cons in Hl as [Hr Hl].
  apply Forall_app_2; [by eapply frame_bytes|by apply IH].
Qed.

Lemma map_fst_pair {A B} (b : B) (l : list A) : map fst (map (fun r => (r, b)) l) = l.
Proof. induction l as [|x l IH]; simpl; [done|]. by rewrite IH. Qed.

(** ** Loading what the files hold *)

Lemma scan_frames limits minimum l :
  in_u32 (max_record_bytes limits) -> Forall (record_fits limits) (map fst l) ->
  increasing 0 (map fst l) ->
  scan_records (frames l) limits minimum =
    Some (Ok (mkScan (filter (fun r => minimum < rec_sequence r) (map fst l)) (sizez (frames l))
                None)).
Proof.
  intros Hu Hl Hi. unfold scan_records. pose proof (length_frames l).
  replace (S (length (frames l))) with (length l + S (length (frames l) - length l))%nat by lia.
  rewrite <- (app_nil_r (frames l)) at 2. by rewrite scan_loop_frames.
Qed.

Lemma filter_all {A} (P : A -> Prop) `{!forall x, Decision (P x)} l :
  Forall P l -> filter P l = l.
Proof. induction 1 as [|x l Hx Hl IH]; [done|]. by rewrite filter_cons_True, IH. Qed.

Lemma filter_none {A} (P : A -> Prop) `{!forall x, Decision (P x)} l :
  Forall (fun x => ~ P x) l -> filter P l = [].
Proof. induction 1 as [|x l Hx Hl IH]; [done|]. by rewrite filter_cons_False. Qed.

(** The payload of a snapshot fits its length field when the file fits. *)
Lemma image_length n payload last epoch :
  sizez (snapshot_image n payload last epoch) = 40 + sizez payload.
Proof.
  unfold snapshot_image. cbv zeta. unfold sizez. rewrite !length_app.
  change (length (snapshot_header n payload last epoch)) with 36%nat.
  change (length (w_u32 (crc32 (snapshot_header n payload last epoch) 0))) with 4%nat. lia.
Qed.

Lemma to_nat_sizez {A} (l : list A) : Z.to_nat (sizez l) = length l.
Proof. unfold sizez. apply Nat2Z.id. Qed.

Section Limits.
Context (limits : StoreLimits) (Hlimits : limits_sound limits).

Lemma load_snapshot_holds path d srs sseq js rs :
  Holds limits d srs sseq js rs -> small limits d ->
  load_snapshot io_ok path limits d = Some (Ok (srs, sseq)).
Proof.
  intros H [_ Hsmall]. unfold load_snapshot. unfold file_small in Hsmall.
  destruct (hold_snapshot _ _ _ _ _ _ H) as [(-> & -> & ->)|(n & e & Hs)]; [done|].
  rewrite Hs in *. cbn [from_option id] in Hsmall.
  set (payload := frames (map (fun r => (r, e)) srs)) in *.
  pose proof (hold_fits _ _ _ _ _ _ H) as [Hf _]%Forall_app.
  assert (Hfst : map fst (map (fun r => (r, e)) srs) = srs) by apply map_fst_pair.
  assert (Hb : Forall in_u8 payload) by (eapply frames_bytes; by rewrite Hfst).
  pose proof (hold_sseq _ _ _ _ _ _ H). pose proof (hold_u64 _ _ _ _ _ _ H) as Hu.
  unfold in_u64 in Hu. simpl io_read_snapshot. unfold read_file.
  destruct (Z.ltb_spec (max_journal_bytes limits)
              (sizez (snapshot_image n payload sseq e))); [lia|]. simpl rbind.
  rewrite check_snapshot_image; [|done|unfold in_u64; lia|].
  - unfold payload. rewrite scan_frames; rewrite ?Hfst; [|apply Hlimits|done|apply H].
    cbn [torn_tail scan_kept]. do 3 f_equal. apply filter_all.
    eapply Forall_impl; [apply increasing_bound, (hold_srs _ _ _ _ _ _ H)|]. simpl. lia.
  - rewrite image_length in Hsmall. pose proof (lim_journal _ Hlimits).
    unfold in_u32, sizez in *. lia.
Qed.

(** Files that hold records, the journal possibly torn inside of one more. *)
Lemma load_records_torn path d srs sseq js rs tail :
  Holds limits d srs sseq js rs -> torn_part limits tail ->
  journal_file d = Some (frames js) ->
  small limits (write_journal d tail) ->
  load_records io_ok path limits (write_journal d tail) =
    Some (Ok (mkLoaded rs (u32 (sizez srs)) (match tail with [] => None | _ => Some (sizez tail) end)),
          d).
Proof.
  intros H Ht Hj Hsmall. unfold load_records.
  assert (Hd : Holds limits (write_journal d []) srs sseq js rs).
  { destruct H. split; try done. right. simpl. by rewrite Hj, app_nil_r. }
  assert (Hs : load_snapshot io_ok path limits (write_journal d tail) = Some (Ok (srs, sseq))).
  { apply (load_snapshot_holds path _ _ _ _ _ Hd). destruct Hsmall as [Hs1 Hs2]. split; [|done].
    unfold file_small in *. simpl in *. rewrite Hj in *. simpl in *. rewrite app_nil_r.
    unfold sizez in *. rewrite length_app in Hs1. lia. }
  rewrite Hs. unfold load_journal, write_journal. cbn [journal_file snapshot_file]. rewrite Hj.
  cbn [from_option id]. unfold read_file. simpl io_read_journal. cbv iota.
  destruct Hsmall as [Hs1 _]. unfold file_small in Hs1. simpl in Hs1. rewrite Hj in Hs1. simpl in Hs1.
  destruct (Z.ltb_spec (max_journal_bytes limits) (sizez (frames js ++ tail))); [lia|].
  pose proof (hold_fits _ _ _ _ _ _ H) as [_ Hf]%Forall_app.
  rewrite scan_recovers; [|apply Hlimits|done|apply H|done].
  cbn [torn_tail scan_kept good_bytes]. rewrite <- (hold_records _ _ _ _ _ _ H).
  destruct tail as [|b tail].
  - rewrite app_nil_r, <- Hj. by destruct d.
  - simpl io_reopen_tail. simpl io_truncate. cbn [negb]. cbv iota.
    rewrite to_nat_sizez, take_app_length, <- Hj. by destruct d.
Qed.
End Limits.

(** ** Fences of a restart *)

Lemma pretty_N_go_length k x s : (x < 10 ^ N.of_nat k)%N ->
  (String.length (pretty_N_go x s) <= k + String.length s)%nat.
Proof.
  revert x s; induction k as [|k IH]; intros x s Hx.
  { assert (x = 0%N) as -> by (simpl in Hx; lia). rewrite pretty_N_go_0. lia. }
  destruct (decide (x = 0%N)) as [->|]; [rewrite pretty_N_go_0; lia|].
  rewrite pretty_N_go_step by lia. etransitivity; [apply IH|simpl; lia].
  rewrite Nat2N.inj_succ, N.pow_succ_r' in Hx. apply N.Div0.div_lt_upper_bound. lia.
Qed.

Lemma pretty_u64_length z : in_u64 z -> (String.length (pretty z) <= 20)%nat.
Proof.
  intros Hz. unfold in_u64 in Hz. unfold pretty, pretty_Z. destruct z as [|p|p]; [simpl; lia| |lia].
  unfold pretty, pretty_positive, pretty, pretty_N. destruct (decide _); [simpl; lia|].
  etransitivity; [apply (pretty_N_go_length 20)|simpl; lia].
  apply N2Z.inj_lt. rewrite N2Z.inj_pow. simpl Z.of_N. lia.
Qed.

Lemma length_string_bytes s : length (string_bytes s) = String.length s.
Proof. unfold string_bytes. rewrite length_map. induction s; simpl; congruence. Qed.

Lemma restart_fence_fits epoch boot sequence :
  in_u64 epoch -> in_u64 boot -> in_u64 sequence -> fence_fits (restart_fence epoch boot sequence).
Proof.
  intros He Hb Hs. unfold fence_fits, restart_fence, str_fits. simpl fence_reason.
  assert (Hl : sizez (string_bytes ("process restart fenced a dynamic record recovered from sequence "
    +:+ pretty sequence)) <= 128).
  { unfold sizez. rewrite length_string_bytes, length_append_string.
    pose proof (pretty_u64_length _ Hs). simpl String.length at 1. lia. }
  split_and!; try done; unfold in_u32, sizez in *; lia.
Qed.

Lemma length_encode_fence f : fence_fits f -> sizez (encode_fence f) <= 165.
Proof.
  unfold fence_fits, str_fits. intros H. destruct_and! H. unfold encode_fence, w_str, sizez in *.
  rewrite !length_app. simpl length. lia.
Qed.

Lemma encode_fence_bytes f : Forall in_u8 (encode_fence f).
Proof. unfold encode_fence. encoder_bytes. Qed.

Lemma fence_payload_ok sequence f :
  fence_fits f -> payload_ok (mkRecord RecordType.FENCE sequence (encode_fence f)).
Proof.
  intros Hf. unfold payload_ok. cbn [rec_type rec_payload].
  rewrite <- (app_nil_r (encode_fence f)).
  by rewrite codec_dec_enc.
Qed.

(** ** The invariant of an open store *)

Record Inv (limits : StoreLimits) (st : Store) (d : Disk) : Prop := {
  inv_limits : st_limits st = limits;
  inv_closed : st_closed st = false;
  inv_handle : st_handle st = true;
  inv_holds : holds limits d (st_records st);
  inv_last : last_sequence st = last_of 0 (st_records st);
  inv_journal : is_Some (journal_file d);
  inv_count : sizez (st_records st) <= max_records limits
}.

(** The record an append adds. *)
Definition new_record (st : Store) (type : RecordType.t) (payload : list Z) : DurableRecord :=
  mkRecord type (next_sequence st) payload.

(** A record recovery can read back. *)
Definition sound_record (limits : StoreLimits) (r : DurableRecord) : Prop :=
  record_fits limits r /\ payload_ok r.

Lemma holds_append limits d rs r e :
  holds limits d rs -> is_Some (journal_file d) -> sound_record limits r ->
  last_of 0 rs < rec_sequence r -> holds limits (write_journal d (frame r e)) (rs ++ [r]).
Proof.
  intros (srs & sseq & js & []) [j Hj] [Hf Hp] Hlt. exists srs, sseq, (js ++ [(r, e)]).
  assert (Hl : last_of 0 (rs ++ [r]) = rec_sequence r) by (by rewrite last_of_app).
  split; rewrite ?Hl, ?map_app; try done.
  - right. unfold write_journal. simpl. rewrite Hj. destruct hold_journal0 as [[]|Hj2]; [congruence|].
    rewrite Hj in Hj2. injection Hj2 as ->. rewrite frames_app. simpl.
    unfold frames at 3. simpl. by rewrite app_nil_r.
  - rewrite filter_app. rewrite app_assoc, <- hold_records0. f_equal. symmetry.
    apply filter_all. constructor; [simpl; lia|constructor].
  - rewrite app_assoc. apply Forall_app_2; [done|by constructor].
  - apply increasing_snoc. split; [done|].
    apply Z.le_lt_trans with (last_of 0 rs); [|done]. apply last_of_bound; [lia|done].
  - by apply increasing_snoc.
  - apply Forall_app_2; [done|by constructor].
  - lia.
  - apply Forall_app_2; [eapply Forall_impl; [done|]; simpl; lia|constructor; [simpl; lia|constructor]].
  - apply Hf.
Qed.

Lemma append_ok_inv io type payload flush st d s st' d' :
  append io type payload flush st d = (Ok s, st', d') ->
  RecordType.is_valid type = true /\ sizez payload <= max_record_bytes (st_limits st) /\
  sizez (st_records st) < max_records (st_limits st) /\ s = next_sequence st /\
  st' = push_record st (new_record st type payload) /\
  d' = write_journal d (frame (new_record st type payload) (st_epoch st)).
Proof.
  unfold append. cbv zeta. destruct (st_closed st); [discriminate|].
  destruct (RecordType.is_valid type); [simpl|discriminate].
  destruct (Z.ltb_spec (max_record_bytes (st_limits st)) (sizez payload)); [discriminate|].
  destruct (Z.leb_spec (max_records (st_limits st)) (sizez (st_records st))); [discriminate|].
  destruct (st_handle st); [simpl|discriminate].
  destruct (io_write io _); [discriminate|].
  destruct (if flush then _ else _); [discriminate|]. by intros [= <- <- <-].
Qed.

Lemma append_succeeds limits type payload flush st d :
  Inv limits st d -> RecordType.is_valid type = true ->
  sizez payload <= max_record_bytes limits -> sizez (st_records st) < max_records limits ->
  append io_ok type payload flush st d =
    (Ok (next_sequence st), push_record st (new_record st type payload),
     write_journal d (frame (new_record st type payload) (st_epoch st))).
Proof.
  intros [] Ht Hp Hr. unfold append. rewrite inv_closed0, Ht, inv_limits0, inv_handle0. cbv zeta.
  cbn [negb]. destruct (Z.ltb_spec (max_record_bytes limits) (sizez payload)); [lia|].
  destruct (Z.leb_spec (max_records limits) (sizez (st_records st))); [lia|]. by destruct flush.
Qed.

Lemma next_sequence_succ limits st d :
  Inv limits st d -> last_sequence st < UINT64_MAX -> next_sequence st = last_sequence st + 1.
Proof.
  intros [? ? ? (srs & sseq & js & H) Hl ? ?] Hlt. apply u64_small.
  pose proof (hold_sseq _ _ _ _ _ _ H). unfold in_u64, UINT64_MAX in *. lia.
Qed.

Lemma inv_append limits st d type payload :
  Inv limits st d -> last_sequence st < UINT64_MAX -> sizez (st_records st) < max_records limits ->
  sound_record limits (new_record st type payload) ->
  Inv limits (push_record st (new_record st type payload))
    (write_journal d (frame (new_record st type payload) (st_epoch st))).
Proof.
  intros Hi Hlt Hroom Hs. pose proof (next_sequence_succ _ _ _ Hi Hlt) as Hn. destruct Hi.
  split; try done; simpl.
  - apply holds_append; try done. simpl. lia.
  - by rewrite last_of_app.
  - unfold sizez in *. rewrite length_app. simpl. lia.
Qed.

Lemma inv_push_fence limits st d f : Inv limits st d -> Inv limits (push_fence st f) d.
Proof. by intros []. Qed.

(** ** Snapshots and crashes *)

Lemma snapshot_bytes_frames st : snapshot_bytes st =
  snapshot_image (sizez (st_records st))
    (frames (map (fun r => (r, st_epoch st)) (st_records st))) (last_sequence st) (st_epoch st).
Proof. unfold snapshot_bytes, snapshot_payload, frames. by rewrite map_map. Qed.

#[local] Opaque crc32 snapshot_image snapshot_bytes frame.

Lemma holds_records_fit limits d rs : holds limits d rs -> Forall (record_fits limits) rs.
Proof.
  intros (srs & sseq & js & H). pose proof (hold_fits _ _ _ _ _ _ H) as [Hs Hj]%Forall_app.
  rewrite (hold_records _ _ _ _ _ _ H). apply Forall_app_2; [done|].
  apply Forall_forall. intros r [_ Hr]%list_elem_of_filter. rewrite Forall_forall in Hj. auto.
Qed.

Lemma holds_snapshot limits st d j :
  Inv limits st d -> j = journal_file d \/ j = Some [] ->
  holds limits (mkDisk j (Some (snapshot_bytes st))) (st_records st).
Proof.
  intros [? ? ? Hh Hl [x Hx] ?] Hj. pose proof (holds_records_fit _ _ _ Hh) as Hf.
  destruct Hh as (srs & sseq & js & H).
  pose proof (snapshot_bytes_frames st) as Hsnap. rewrite Hl in Hsnap.
  pose proof (hold_sseq _ _ _ _ _ _ H). pose proof (hold_last _ _ _ _ _ _ H) as Hlast.
  destruct Hj as [-> | ->].
  - exists (st_records st), (last_of 0 (st_records st)), js.
    destruct H. split; cbn [journal_file snapshot_file map]; try assumption.
    + right. exists (sizez (st_records st)), (st_epoch st). exact (f_equal Some Hsnap).
    + rewrite filter_none, app_nil_r; [done|]. eapply Forall_impl; [done|]. simpl. lia.
    + apply Forall_app_2; [done|]. by apply Forall_app in hold_fits0 as [].
    + lia.
  - exists (st_records st), (last_of 0 (st_records st)), [].
    destruct H. split; cbn [journal_file snapshot_file map]; try assumption.
    + right. exists (sizez (st_records st)), (st_epoch st). exact (f_equal Some Hsnap).
    + by right.
    + by rewrite app_nil_r.
    + by rewrite app_nil_r.
    + exact I.
    + lia.
    + constructor.
Qed.

(** What a crash during an operation can leave on disk: the journal with some of
    the bytes of a record, or one of the stages of a snapshot. *)
Inductive crash (limits : StoreLimits) (st : Store) (d : Disk) : Disk -> Prop :=
| crash_idle : crash limits st d d
| crash_appending type payload k :
    sound_record limits (new_record st type payload) ->
    (k <= length (frame (new_record st type payload) (st_epoch st)))%nat ->
    crash limits st d
      (write_journal d (take k (frame (new_record st type payload) (st_epoch st))))
| crash_installed : crash limits st d (mkDisk (journal_file d) (Some (snapshot_bytes st)))
| crash_reset : crash limits st d (mkDisk (Some []) (Some (snapshot_bytes st))).

Section Recovery.
Context (limits : StoreLimits) (Hlimits : limits_sound limits).

Lemma torn_nothing : torn_part limits [].
Proof.
  exists (mkRecord RecordType.BOOT 0 []), 0, 0%nat. destruct Hlimits as [Hu Hf _].
  split_and!; [|rewrite length_frame; simpl; lia|done].
  split; [done|by unfold in_u64|constructor|simpl; unfold sizez; simpl; lia].
Qed.

Lemma load_records_holds path d rs :
  holds limits d rs -> small limits d ->
  exists restored, load_records io_ok path limits d = Some (Ok (mkLoaded rs restored None), d).
Proof.
  intros (srs & sseq & js & H) Hs. exists (u32 (sizez srs)).
  destruct (hold_journal _ _ _ _ _ _ H) as [[Hj ->]|Hj].
  - unfold load_records. rewrite (load_snapshot_holds _ Hlimits path _ _ _ _ _ H Hs).
    unfold load_journal. rewrite Hj. do 3 f_equal. rewrite (hold_records _ _ _ _ _ _ H). simpl.
    by rewrite app_nil_r.
  - assert (Hw : write_journal d [] = d)
      by (unfold write_journal; rewrite Hj; simpl; rewrite app_nil_r, <- Hj; by destruct d).
    pose proof (load_records_torn _ Hlimits path d _ _ _ _ [] H torn_nothing Hj) as Hload.
    rewrite Hw in Hload. by apply Hload.
Qed.

(** A crash keeps the records, and adds the one being appended when all of its
    bytes made it. *)
Lemma crash_recovers path st d d1 :
  Inv limits st d -> last_sequence st < UINT64_MAX -> crash limits st d d1 -> small limits d1 ->
  exists rs restored torn d2,
    load_records io_ok path limits d1 = Some (Ok (mkLoaded rs restored torn), d2) /\
    holds limits d2 rs /\
    (rs = st_records st \/
     exists type payload, let r := new_record st type payload in
       rs = st_records st ++ [r] /\ d1 = write_journal d (frame r (st_epoch st))).
Proof.
  intros Hi Hlt Hc Hs. pose proof (next_sequence_succ _ _ _ Hi Hlt) as Hn.
  assert (Hdone : forall rs, holds limits d1 rs -> 
    exists restored torn d2,
      load_records io_ok path limits d1 = Some (Ok (mkLoaded rs restored torn), d2) /\
      holds limits d2 rs).
  { intros rs Hh. destruct (load_records_holds path d1 rs Hh Hs) as [n Hl]. by exists n, None, d1. }
  destruct Hc as [|type payload k Hr Hk| |].
  - destruct (Hdone _ (inv_holds _ _ _ Hi)) as (n & t & d2 & ? & ?). exists (st_records st), n, t, d2. auto.
  - set (r := new_record st type payload) in *.
    destruct (decide (k = length (frame r (st_epoch st)))) as [->|Hne].
    + rewrite take_ge in * by done.
      assert (Hh : holds limits (write_journal d (frame r (st_epoch st))) (st_records st ++ [r])).
      { destruct Hi. apply holds_append; try done. simpl. lia. }
      destruct (Hdone _ Hh) as (n & t & d2 & ? & ?). exists (st_records st ++ [r]), n, t, d2.
      split_and!; [done|done|right; by exists type, payload].
    + destruct (inv_holds _ _ _ Hi) as (srs & sseq & js & H).
      destruct (inv_journal _ _ _ Hi) as [j Hj].
      assert (Hjs : journal_file d = Some (frames js)).
      { destruct (hold_journal _ _ _ _ _ _ H) as [[]|]; [congruence|done]. }
      eexists _, _, _, d. split; [apply (load_records_torn _ Hlimits path d _ _ _ _ _ H)|].
      * exists r, (st_epoch st), k. split_and!; [apply Hr|lia|done].
      * done.
      * done.
      * split; [by exists srs, sseq, js|by left].
  - destruct (Hdone _ (holds_snapshot _ _ _ _ Hi (or_introl eq_refl))) as (n & t & d2 & ? & ?).
    exists (st_records st), n, t, d2. auto.
  - destruct (Hdone _ (holds_snapshot _ _ _ _ Hi (or_intror eq_refl))) as (n & t & d2 & ? & ?).
    exists (st_records st), n, t, d2. auto.
Qed.
End Recovery.

(** ** Opening *)

Lemma r_u64_range r : Forall in_u8 (rd_data r) ->
  in_u64 (fst (r_u64 r)) /\ Forall in_u8 (rd_data (snd (r_u64 r))).
Proof.
  intros Hb. unfold r_u64, need, remaining. destruct (rd_ok r); [simpl|done].
  destruct (Z.ltb_spec (sizez (rd_data r)) 8) as [|Hs].
  - unfold fail. by destruct (rd_error r).
  - split; [|by apply Forall_drop]. simpl fst.
    destruct (read_le_split 8 w_u64 64 (fun v => w_u64_bytes v) (fun _ => eq_refl)
      (fun v => eq_trans (w_u64_sum v) (u64_mod v)) eq_refl _ Hb Hs) as [H _]. exact H.
Qed.

Lemma r_u32_data r : Forall in_u8 (rd_data r) -> Forall in_u8 (rd_data (snd (r_u32 r))).
Proof.
  intros Hb. unfold r_u32, need. destruct (rd_ok r); [simpl|done].
  destruct (remaining r <? 4); [|by apply Forall_drop]. unfold fail. by destruct (rd_error r).
Qed.

Lemma boot_identity_typed payload e b :
  Forall in_u8 payload -> boot_identity payload = Some (e, b) -> in_u64 e /\ in_u64 b.
Proof.
  intros Hp. unfold boot_identity.
  pose proof (r_u32_data (reader payload) Hp) as H0. destruct (r_u32 _) as [? r0]. simpl in H0.
  destruct (r_u64_range r0 H0) as [_ H1]. destruct (r_u64 r0) as [? r1]. simpl in H1.
  destruct (r_u64_range r1 H1) as [_ H2]. destruct (r_u64 r1) as [? r2]. simpl in H2.
  destruct (r_u64_range r2 H2) as [He H3]. destruct (r_u64 r2) as [e' r3]. simpl in He, H3.
  destruct (r_u64_range r3 H3) as [Hb _]. destruct (r_u64 r3) as [b' r4]. simpl in Hb.
  destruct (rd_ok r4); [|done]. by intros [= <- <-].
Qed.

Lemma boot_identity_payload pe pb e b :
  in_u64 pe -> in_u64 pb -> in_u64 e -> in_u64 b ->
  boot_identity (encode_epoch_payload pe pb e b) = Some (e, b).
Proof.
  intros Hpe Hpb He Hb. unfold boot_identity, encode_epoch_payload.
  rewrite prim_dec_enc by done. rewrite prim_dec_enc by done. rewrite prim_dec_enc by done.
  rewrite prim_dec_enc by done. rewrite <- (app_nil_r (w_u64 b)). by rewrite prim_dec_enc.
Qed.

Definition typed_incarnation (rv : Recovered) : Prop := in_u64 (rv_epoch rv) /\ in_u64 (rv_boot rv).

Lemma recover_record_typed acc r acc' :
  Forall in_u8 (rec_payload r) -> typed_incarnation acc -> recover_record acc r = Ok acc' ->
  typed_incarnation acc'.
Proof.
  unfold typed_incarnation, recover_record. intros Hp Ha. destruct (_ && _); [discriminate|].
  destruct (rec_type r); try (intros [= <-]; exact Ha).
  - unfold recover_boot. destruct (boot_identity _) as [[e b]|] eqn:Hb; [|discriminate].
    intros [= <-]. by apply (boot_identity_typed (rec_payload r)).
  - unfold recover_fence. destruct (fst (decode_fence _)); [|discriminate]. by intros [= <-].
Qed.

Lemma recover_records_typed limits rs : Forall (record_fits limits) rs -> forall acc acc',
  typed_incarnation acc -> foldM recover_record acc rs = Ok acc' -> typed_incarnation acc'.
Proof.
  induction 1 as [|r rs Hr Hrs IH]; intros acc acc' Ha; simpl; [by intros [= <-]|].
  destruct (recover_record acc r) as [acc1|] eqn:He; [|discriminate]. apply IH.
  eapply recover_record_typed; [|done|done]. apply Hr.
Qed.

(** The records the fencing pass adds behind sequence [last]. *)
Fixpoint fence_log (epoch : Epoch) (boot : BootId) (last : Sequence) (sequences : list Sequence)
  : list DurableRecord :=
  match sequences with
  | [] => []
  | s :: rest =>
      mkRecord RecordType.FENCE (last + 1) (encode_fence (restart_fence epoch boot s)) ::
      fence_log epoch boot (last + 1) rest
  end.

Lemma length_fence_log e b last ss : length (fence_log e b last ss) = length ss.
Proof. revert last; induction ss as [|s ss IH]; intros last; simpl; [done|]. by rewrite IH. Qed.

Section Open.
Context (limits : StoreLimits) (Hlimits : limits_sound limits).

Lemma restart_record_sound st e b s :
  in_u64 e -> in_u64 b -> in_u64 s -> in_u64 (next_sequence st) ->
  sound_record limits (new_record st RecordType.FENCE (encode_fence (restart_fence e b s))).
Proof.
  intros He Hb Hs Hn. pose proof (restart_fence_fits e b s He Hb Hs) as Hf. split.
  - split; [reflexivity|exact Hn|apply encode_fence_bytes|].
    cbn [rec_payload new_record]. pose proof (length_encode_fence _ Hf).
    pose proof (lim_fence _ Hlimits). lia.
  - by apply fence_payload_ok.
Qed.

Lemma fence_dynamic_spec e b ss : in_u64 e -> in_u64 b -> Forall in_u64 ss -> forall st d,
  Inv limits st d -> last_sequence st + sizez ss <= UINT64_MAX ->
  sizez (st_records st) + sizez ss <= max_records limits ->
  exists st' d', fence_dynamic io_ok e b ss st d = (Ok tt, st', d') /\ Inv limits st' d' /\
    st_records st' = st_records st ++ fence_log e b (last_sequence st) ss /\
    last_sequence st' = last_sequence st + sizez ss /\
    st_epoch st' = st_epoch st /\ st_boot st' = st_boot st.
Proof.
  intros He Hb. unfold sizez. induction 1 as [|s ss Hs Hss IH]; intros st d Hi Hl Hr.
  { exists st, d. simpl. rewrite app_nil_r, Z.add_0_r. done. }
  simpl length in Hl, Hr.
  pose proof (next_sequence_succ _ _ _ Hi ltac:(lia)) as Hn.
  assert (Hu : in_u64 (next_sequence st)) by apply u64_range.
  pose proof (restart_record_sound st e b s He Hb Hs Hu) as Hsound.
  cbn [fence_dynamic]. unfold record_fence.
  rewrite (append_succeeds limits) by (done || apply Hsound || (unfold sizez; lia)).
  set (r := new_record st RecordType.FENCE (encode_fence (restart_fence e b s))) in *.
  destruct (IH (push_fence (push_record st r) (restart_fence e b s))
              (write_journal d (frame r (st_epoch st)))) as (st' & d' & Hf & Hi' & Hrs & Hl' & ?).
  - apply inv_push_fence, inv_append; [done|lia|unfold sizez; lia|done].
  - simpl. lia.
  - simpl. rewrite length_app. simpl. lia.
  - exists st', d'. split_and!; [done|done| |simpl in *; lia|tauto|tauto].
    rewrite Hrs. simpl. rewrite <- app_assoc. unfold r, new_record. by rewrite Hn.
Qed.

(** Without the room for its records the fencing pass fails. *)
Lemma fence_dynamic_full e b ss : forall st d,
  in_u64 e -> in_u64 b -> Forall in_u64 ss -> Inv limits st d ->
  last_sequence st + sizez ss <= UINT64_MAX ->
  max_records limits < sizez (st_records st) + sizez ss ->
  exists st' d', fence_dynamic io_ok e b ss st d =
    (Err (mkStatus StatusCode.EXHAUSTED "durable record count bound reached"), st', d').
Proof.
  unfold sizez. induction ss as [|s ss IH]; intros st d He Hb Hss Hi Hl Hr.
  { pose proof (inv_count _ _ _ Hi). unfold sizez in *. simpl in *. lia. }
  apply Forall_cons in Hss as [Hs Hss]. simpl length in Hl, Hr.
  assert (Hu : in_u64 (next_sequence st)) by apply u64_range.
  pose proof (restart_record_sound st e b s He Hb Hs Hu) as Hsound.
  cbn [fence_dynamic]. unfold record_fence.
  destruct (Z.lt_ge_cases (sizez (st_records st)) (max_records limits)) as [Hlt|Hge].
  - rewrite (append_succeeds limits) by (done || apply Hsound).
    apply IH; try done.
    + apply inv_push_fence, inv_append; [done|lia|done|done].
    + simpl. rewrite (next_sequence_succ _ _ _ Hi) by lia. lia.
    + simpl. rewrite length_app. simpl. lia.
  - unfold append. rewrite (inv_closed _ _ _ Hi), (inv_limits _ _ _ Hi). simpl. 
    destruct Hsound as [[_ _ _ Hsz] _]. cbn [rec_payload new_record] in Hsz.
    destruct (Z.ltb_spec (max_record_bytes limits)
                (sizez (encode_fence (restart_fence e b s)))); [lia|].
    destruct (Z.leb_spec (max_records limits) (sizez (st_records st))); [|lia]. by eexists _, _.
Qed.

Lemma length_dynamic rs : 0 <= sizez (dynamic_sequences rs) <= sizez rs.
Proof.
  unfold dynamic_sequences, sizez. rewrite length_map.
  pose proof (length_filter (fun r => is_dynamic_record (rec_type r) = true) rs). lia.
Qed.

Lemma dynamic_typed rs : Forall (record_fits limits) rs -> Forall in_u64 (dynamic_sequences rs).
Proof.
  intros Hf. apply Forall_map, Forall_forall. intros r [_ Hr]%list_elem_of_filter.
  rewrite Forall_forall in Hf. apply (Hf r Hr).
Qed.

(** The boot record of an incarnation. *)
Definition boot_log (pe : Epoch) (pb : BootId) (e : Epoch) (b : BootId) (last : Sequence)
  : DurableRecord := mkRecord RecordType.BOOT (last + 1) (encode_epoch_payload pe pb e b).

Lemma encode_epoch_bytes pe pb e b : Forall in_u8 (encode_epoch_payload pe pb e b).
Proof. unfold encode_epoch_payload. encoder_bytes. Qed.

Lemma publish_spec rv st d :
  typed_incarnation rv -> in_u64 (st_epoch st) -> in_u64 (st_boot st) -> Inv limits st d ->
  let ss := dynamic_sequences (st_records st) in
  last_sequence st + sizez ss + 1 <= UINT64_MAX ->
  if decide (sizez (st_records st) + sizez ss + 1 <= max_records limits)
  then exists st' d', publish io_ok rv st d = (Ok st', d') /\ Inv limits st' d' /\
    st_records st' = st_records st ++ fence_log (rv_epoch rv) (rv_boot rv) (last_sequence st) ss ++
      [boot_log (rv_epoch rv) (rv_boot rv) (st_epoch st) (st_boot st)
         (last_sequence st + sizez ss)] /\
    st_epoch st' = st_epoch st /\ st_boot st' = st_boot st
  else exists d', publish io_ok rv st d =
    (Err (mkStatus StatusCode.EXHAUSTED "durable record count bound reached"), d').
Proof.
  intros [He Hb] Hse Hsb Hi ss Hl. unfold publish. fold ss.
  pose proof (inv_last _ _ _ Hi) as Hlast.
  assert (Hss : Forall in_u64 ss)
    by (apply dynamic_typed; eapply holds_records_fit, (inv_holds _ _ _ Hi)).
  pose proof (length_dynamic (st_records st)) as Hd. fold ss in Hd.
  destruct (decide (sizez (st_records st) + sizez ss <= max_records limits)) as [Hr|Hr].
  2:{ rewrite decide_False by lia.
      destruct (fence_dynamic_full (rv_epoch rv) (rv_boot rv) ss st d) as (st' & d' & ->);
        try done; [lia|lia|]. by exists d'. }
  destruct (fence_dynamic_spec (rv_epoch rv) (rv_boot rv) ss He Hb Hss st d Hi)
    as (st1 & d1 & Hf & Hi1 & Hrs & Hl1 & He1 & Hb1); [lia|lia|]. rewrite Hf.
  set (payload := encode_epoch_payload _ _ _ _).
  assert (Hcount : sizez (st_records st1) = sizez (st_records st) + sizez ss)
    by (unfold sizez; rewrite Hrs, length_app, length_fence_log; lia).
  pose proof (next_sequence_succ _ _ _ Hi1 ltac:(lia)) as Hn.
  assert (Hsound : sound_record limits (new_record st1 RecordType.BOOT payload)).
  { pose proof (lim_fence _ Hlimits). split.
    - split; [reflexivity|apply u64_range|apply encode_epoch_bytes|]. cbn [rec_payload new_record].
      change (sizez payload) with 36. lia.
    - unfold payload_ok. cbn [rec_type rec_payload new_record]. unfold payload.
      rewrite boot_identity_payload; congruence. }
  case_decide as Hroom.
  - rewrite (append_succeeds limits) by (done || apply Hsound || lia).
    eexists _, _. split; [reflexivity|]. split_and!; [|  |done|done].
    + apply inv_append; [done|lia|lia|done].
    + simpl. rewrite Hrs, <- app_assoc. unfold new_record, boot_log, payload.
      by rewrite Hn, Hl1, He1, Hb1.
  - unfold append. rewrite (inv_closed _ _ _ Hi1), (inv_limits _ _ _ Hi1). simpl.
    destruct Hsound as [[_ _ _ Hsz] _]. cbn [rec_payload new_record] in Hsz.
    destruct (Z.ltb_spec (max_record_bytes limits) (sizez payload)); [lia|].
    destruct (Z.leb_spec (max_records limits) (sizez (st_records st1))); [|lia]. by eexists.
Qed.

(** Opening files that load: the outcome depends on the room that is left. *)
Definition reopened (rs : list DurableRecord) (rv : Recovered) (st : Store) : Prop :=
  let ss := dynamic_sequences rs in
  recover_records rs = Ok rv /\
  st_epoch st = u64 (rv_epoch rv + 1) /\ st_boot st = u64 (rv_boot rv + 1) /\
  st_records st = rs ++ fence_log (rv_epoch rv) (rv_boot rv) (last_of 0 rs) ss ++
    [boot_log (rv_epoch rv) (rv_boot rv) (st_epoch st) (st_boot st) (last_of 0 rs + sizez ss)].

Lemma open_loaded path create d1 rs restored torn d2 :
  load_records io_ok path limits d1 = Some (Ok (mkLoaded rs restored torn), d2) ->
  holds limits d2 rs -> last_of 0 rs + max_records limits + 1 <= UINT64_MAX ->
  if decide (sizez rs + sizez (dynamic_sequences rs) + 1 <= max_records limits)
  then exists st d3 rv, open io_ok path (mkOptions limits create true) d1 = Some (Ok st, d3) /\
    Inv limits st d3 /\ reopened rs rv st
  else exists s d3, open io_ok path (mkOptions limits create true) d1 = Some (Err s, d3) /\
    status_code s = StatusCode.EXHAUSTED.
Proof.
  intros Hload Hh Hl. unfold open. cbn [opt_limits]. rewrite Hload. cbn [ld_records].
  pose proof (length_dynamic rs) as Hd.
  destruct (Z.ltb_spec (max_records limits) (sizez rs)).
  { rewrite decide_False by lia. by eexists _, _. }
  pose proof Hh as (srs & sseq & js & Hp).
  destruct (recover_records_ok rs (hold_payloads _ _ _ _ _ _ Hp) (mkRecovered 0 0 0 [])
              (hold_rs _ _ _ _ _ _ Hp)) as (rv & Hrv & Hlast).
  fold (recover_records rs) in Hrv. rewrite Hrv.
  assert (Hty : typed_incarnation rv).
  { eapply recover_records_typed; [eapply holds_records_fit, Hh| |exact Hrv].
    split; unfold in_u64; simpl; lia. }
  unfold open_handle. simpl io_append_open. cbv iota.
  set (st0 := recovered_store _ _ _ rv). set (d0 := mkDisk _ _).
  assert (Hi : Inv limits st0 d0).
  { split; try done.
    - exists srs, sseq, js. destruct Hp. split; try assumption.
      right. simpl. destruct hold_journal0 as [[-> ->]| ->]; done. }
  assert (Hl0 : last_sequence st0 = last_of 0 rs) by exact Hlast.
  pose proof (publish_spec rv st0 d0 Hty (u64_range _) (u64_range _) Hi) as Hpub.
  change (st_records st0) with rs in Hpub. rewrite Hl0 in Hpub. cbv zeta in Hpub.
  specialize (Hpub ltac:(lia)). case_decide.
  - destruct Hpub as (st & d3 & Hpub & Hi' & Hrs & He & Hb). exists st, d3, rv. rewrite Hpub.
    split; [done|]. split; [done|]. split; [done|]. rewrite He, Hb. done.
  - destruct Hpub as (d3 & ->). by eexists _, _.
Qed.
End Open.

(** ** What the store promises *)

(** The calls of a client, and a restart after a crash at any point of one. *)
Inductive step (limits : StoreLimits) (path : string) : Store * Disk -> Store * Disk -> Prop :=
| step_append st d type payload s st' d' :
    last_sequence st < UINT64_MAX -> sound_record limits (new_record st type payload) ->
    append io_ok type payload true st d = (Ok s, st', d') ->
    step limits path (st, d) (st', d')
| step_fence st d f st' d' :
    last_sequence st < UINT64_MAX -> fence_fits f ->
    record_fence io_ok f st d = (Ok tt, st', d') ->
    step limits path (st, d) (st', d')
| step_snapshot st d st' d' :
    commit_snapshot io_ok st d = (Ok tt, st', d') -> step limits path (st, d) (st', d')
| step_restart st d d1 create st' d' :
    crash limits st d d1 -> small limits d1 ->
    last_sequence st + max_records limits + 2 <= UINT64_MAX ->
    open io_ok path (mkOptions limits create true) d1 = Some (Ok st', d') ->
    step limits path (st, d) (st', d').

Section Promises.
Context (limits : StoreLimits) (Hlimits : limits_sound limits) (path : string).

Lemma commit_snapshot_ok st d st' d' :
  Inv limits st d -> commit_snapshot io_ok st d = (Ok tt, st', d') ->
  st' = set_handle (set_handle st false) true /\ d' = mkDisk (Some []) (Some (snapshot_bytes st)).
Proof.
  intros Hi. unfold commit_snapshot. rewrite (inv_closed _ _ _ Hi). simpl.
  intros H. by inversion H.
Qed.

Lemma reopen_spec st d d1 create :
  Inv limits st d -> crash limits st d d1 -> small limits d1 ->
  last_sequence st + max_records limits + 2 <= UINT64_MAX ->
  exists rs,
    (rs = st_records st \/
     exists type payload, let r := new_record st type payload in
       rs = st_records st ++ [r] /\ d1 = write_journal d (frame r (st_epoch st))) /\
    if decide (sizez rs + sizez (dynamic_sequences rs) + 1 <= max_records limits)
    then exists st' d' rv, open io_ok path (mkOptions limits create true) d1 = Some (Ok st', d') /\
      Inv limits st' d' /\ reopened rs rv st'
    else exists s d', open io_ok path (mkOptions limits create true) d1 = Some (Err s, d') /\
      status_code s = StatusCode.EXHAUSTED.
Proof.
  intros Hi Hc Hs Hl. pose proof (inv_count _ _ _ Hi) as Hcount.
  assert (0 <= sizez (st_records st)) by (unfold sizez; lia).
  assert (Hlt : last_sequence st < UINT64_MAX) by lia.
  pose proof (next_sequence_succ _ _ _ Hi Hlt) as Hn. pose proof (inv_last _ _ _ Hi) as Hlast.
  destruct (crash_recovers limits Hlimits path st d d1 Hi Hlt Hc Hs)
    as (rs & restored & torn & d2 & Hload & Hh & Hrs).
  exists rs. split; [done|]. apply (open_loaded limits Hlimits path create _ _ _ _ _ Hload Hh).
  destruct Hrs as [->|(type & payload & -> & _)]; [lia|]. rewrite last_of_app.
  change (last_of _ [?r]) with (rec_sequence r). simpl. lia.
Qed.

Lemma step_spec c c' :
  step limits path c c' -> Inv limits (fst c) (snd c) ->
  Inv limits (fst c') (snd c') /\ st_records (fst c) `prefix_of` st_records (fst c').
Proof.
  intros Hstep Hi. destruct Hstep as [st d type payload s st' d' Hlt Hs Ha|st d f st' d' Hlt Hf Ha|
    st d st' d' Hc|st d d1 create st' d' Hc Hsm Hl Ho]; cbn [fst snd] in *.
  - apply append_ok_inv in Ha as (_ & _ & Hroom & _ & -> & ->).
    rewrite (inv_limits _ _ _ Hi) in Hroom. split; [by apply inv_append|]. by apply prefix_app_r.
  - unfold record_fence in Ha. destruct (append _ _ _ _ _ _) as [[[s|s] st1] d1] eqn:He;
      [|discriminate]. injection Ha as <- <-.
    apply append_ok_inv in He as (_ & Hz & Hroom & _ & -> & ->).
    rewrite (inv_limits _ _ _ Hi) in Hroom, Hz. split; [|by apply prefix_app_r].
    apply inv_push_fence, inv_append; try done. split; [|by apply fence_payload_ok].
    split; [reflexivity|apply u64_range|apply encode_fence_bytes|done].
  - apply (commit_snapshot_ok _ _ _ _ Hi) in Hc as [-> ->].
    pose proof (holds_snapshot _ _ _ _ Hi (or_intror eq_refl)) as Hh.
    split; [|done]. destruct Hi. split; try assumption; [reflexivity|by eexists].
  - destruct (reopen_spec st d d1 create Hi Hc Hsm Hl) as (rs & Hrs & Hopen).
    case_decide; [|destruct Hopen as (s & d3 & Hopen & _); rewrite Ho in Hopen; discriminate].
    destruct Hopen as (st2 & d2 & rv & Hopen & Hi2 & _ & _ & _ & Hrec). rewrite Ho in Hopen.
    injection Hopen as -> ->. split; [done|]. rewrite Hrec. apply prefix_app_r.
    destruct Hrs as [->|(? & ? & -> & _)]; [done|by apply prefix_app_r].
Qed.
End Promises.

(** C9: what a store has acknowledged it never loses, as long as the file system
    does its work. Take any sequence of acknowledged synchronous appends of sound
    records and fences that fit their encoding, of snapshots, and of crashes (in the
    middle of an append, or between any two stages of a snapshot) that leave files
    within the bounds of the store and are followed by an open that succeeds. Along
    it the store keeps the invariant that its files hold its log, and the log only
    grows at its end. *)
Theorem records_never_lost limits path c c' :
  limits_sound limits -> Inv limits (fst c) (snd c) -> rtc (step limits path) c c' ->
  Inv limits (fst c') (snd c') /\ st_records (fst c) `prefix_of` st_records (fst c').
Proof.
  intros Hlimits Hi Hrun. revert Hi. induction Hrun as [c|c c1 c' Hs Hr IH]; intros Hi; [done|].
  destruct (step_spec limits Hlimits path c c1 Hs Hi) as [Hi1 Hp1]. destruct (IH Hi1) as [Hi' Hp'].
  split; [done|]. by etransitivity.
Qed.


(** ** A concrete store *)

Definition tiny_limits : StoreLimits := mkStoreLimits 8 256 4096 8.
Definition tiny_options : OpenOptions := mkOptions tiny_limits true true.
Definition fresh : option (result Status Store * Disk) :=
  open io_ok "s" tiny_options (mkDisk None None).

Lemma tiny_limits_sound : limits_sound tiny_limits.
Proof. split; unfold in_u32; simpl; lia. Qed.

Lemma empty_holds limits : limits_sound limits -> holds limits (mkDisk None None) [].
Proof.
  intros _. exists [], 0, []. split; simpl; try done; try (by left); unfold in_u64, last_of; simpl; lia.
Qed.

Lemma fresh_inv : exists st d, fresh = Some (Ok st, d) /\ Inv tiny_limits st d.
Proof.
  pose proof (open_loaded tiny_limits tiny_limits_sound "s" true (mkDisk None None) [] 0 None
    (mkDisk None None) ltac:(reflexivity) (empty_holds _ tiny_limits_sound) ltac:(done)) as H.
  rewrite decide_True in H by done. destruct H as (st & d & rv & Ho & Hi & _). by exists st, d.
Qed.

Lemma fresh_facts :
  match fresh with
  | Some (Ok st, d) => (last_sequence st =? 1) && (sizez (st_records st) =? 1) &&
      (sizez (default [] (journal_file d)) =? 76) && bool_decide (snapshot_file d = None)
  | _ => false
  end = true.
Proof. vm_compute. reflexivity. Qed.

(** A policy record behind the boot record. *)
Lemma policy_record_sound st :
  sound_record tiny_limits (new_record st RecordType.POLICY [1; 2; 3]).
Proof. split; [|done]. split; [reflexivity|apply u64_range|concrete_bytes|simpl; unfold sizez; simpl; lia]. Qed.

Lemma records_never_lost_witness :
  exists st d st' d', fresh = Some (Ok st, d) /\
    append io_ok RecordType.POLICY [1; 2; 3] true st d = (Ok 2, st', d') /\
    st_records st `prefix_of` st_records st'.
Proof.
  destruct fresh_inv as (st & d & Hf & Hi). pose proof fresh_facts as Hx. rewrite Hf in Hx.
  destruct (last_sequence st =? 1) eqn:Hl; [|discriminate Hx]. apply Z.eqb_eq in Hl.
  destruct (sizez (st_records st) =? 1) eqn:Hc; [|discriminate Hx]. apply Z.eqb_eq in Hc.
  assert (Ha : append io_ok RecordType.POLICY [1; 2; 3] true st d =
    (Ok (next_sequence st), push_record st (new_record st RecordType.POLICY [1; 2; 3]),
     write_journal d (frame (new_record st RecordType.POLICY [1; 2; 3]) (st_epoch st)))).
  { apply (append_succeeds tiny_limits _ _ _ _ _ Hi); [reflexivity|unfold sizez; simpl; lia|].
    rewrite Hc. simpl. lia. }
  assert (Hn : next_sequence st = 2) by (unfold next_sequence; by rewrite Hl).
  eexists st, d, _, _. split; [exact Hf|]. split; [rewrite Ha, Hn; reflexivity|].
  refine (proj2 (records_never_lost tiny_limits "s" (st, d) _ tiny_limits_sound Hi
    (rtc_once _ _ (step_append _ _ _ _ _ _ _ _ _ _ (policy_record_sound st) Ha)))).
  rewrite Hl. reflexivity.
Defined.


(** ** What the store does not survive *)

(** The outcome of reopening: whether it succeeds, and what it reports. *)
Definition verdict (res : option (result Status Store * Disk)) : option Status :=
  match res with Some (Err s, _) => Some s | _ => None end.

(** Runs [k] on the fresh store. *)
Definition on_fresh {A} (k : Store -> Disk -> option A) : option A :=
  match fresh with Some (Ok st, d) => k st d | _ => None end.

(** Flushing record 2 fails, or its write stops after nine bytes. *)
Definition io_flush_fails : Io :=
  mkIo None None true true true true (fun _ => None)
    (fun s => if s =? 2 then Some (io_error "fsync failed") else None) None true true None true.
Definition io_write_short : Io :=
  mkIo None None true true true true (fun s => if s =? 2 then Some 9%nat else None)
    (fun _ => None) None true true None true.

(** Appends under [io], which fails, then again, which succeeds, and reopens. *)
Definition retry_and_reopen (io : Io) : option (bool * bool * option Status) :=
  on_fresh (fun st d =>
    let '(first, st, d) := append io RecordType.POLICY [1; 2; 3] true st d in
    let '(second, st, d) := append io_ok RecordType.POLICY [1; 2; 3] true st d in
    Some (is_ok first, is_ok second, verdict (open io_ok "s" tiny_options d))).

(** A failed append poisons the journal. The bytes of a record whose flush
    failed, or whose write fell short, stay in the file while the store forgets
    them, so the next append, which is acknowledged as durable, writes a second
    record of the same sequence or one in the middle of the first, and the store
    can never be opened again. *)
Theorem failed_append_poisons_journal :
  retry_and_reopen io_flush_fails = Some (false, true,
    Some (corrupt "record sequences are not strictly increasing at 2")) /\
  retry_and_reopen io_write_short = Some (false, true,
    Some (corrupt "record header checksum mismatch")).
Proof. split; vm_compute; reflexivity. Qed.

(** A reason one byte longer than a reader accepts. *)
Definition long_reason : string := bytes_string (repeat 120 129).

Definition fence_and_reopen (reason : string) : option (bool * option Status) :=
  on_fresh (fun st d =>
    let '(res, st, d) := record_fence io_ok (mkFence 1 1 AuthorityDomain.POLICY 0 1 reason) st d in
    Some (is_ok res, verdict (open io_ok "s" tiny_options d))).

(** The same store under a journal bound of 100 bytes, which appends ignore. *)
Definition bounded_options : OpenOptions := mkOptions (mkStoreLimits 8 256 100 8) true true.

Definition fill_and_reopen : option (bool * option Status) :=
  match open io_ok "s" bounded_options (mkDisk None None) with
  | Some (Ok st, d) =>
      let '(res, st, d) := append io_ok RecordType.POLICY [1; 2; 3] true st d in
      Some (is_ok res, verdict (open io_ok "s" bounded_options d))
  | _ => None
  end.

(** The store acknowledges writes that it refuses to read back. A fence with
    a reason of 129 bytes, and a record that takes the journal beyond its bound,
    are both appended and flushed, and both make every later open fail. *)
Theorem acknowledged_writes_block_reopen :
  fence_and_reopen long_reason = Some (true,
    Some (mkStatus StatusCode.OUT_OF_RANGE "declared string length exceeds the bound")) /\
  fill_and_reopen = Some (true, Some (corrupt "durable state exceeds the configured bound")).
Proof. split; vm_compute; reflexivity. Qed.

(** [create_if_missing = false] creates a missing store all the same: opening for
    append creates the file, so the option is never looked at. *)
Lemma missing_store_created :
  match open io_ok "s" (mkOptions tiny_limits false true) (mkDisk None None) with
  | Some (Ok st, d) => journal_file d <> None
  | _ => False
  end.
Proof. vm_compute. discriminate. Qed.

(** The report of an open never names the incarnation it starts. *)
Lemma report_omits_incarnation options fresh loaded rv :
  current_epoch (recovery (recovered_store options fresh loaded rv)) = 0 /\
  current_boot (recovery (recovered_store options fresh loaded rv)) = 0.
Proof. done. Qed.

(** Nothing but the magic of a torn header is looked at: garbage behind it is cut
    off as a torn tail. *)
Lemma garbage_behind_magic_is_torn :
  scan_records (w_u32 kRecordMagic ++ [255; 255; 255; 255]) tiny_limits 0 =
    Some (Ok (mkScan [] 0 (Some 8))).
Proof. vm_compute. reflexivity. Qed.
