(* ===== verification/Reconcile.v ===== *)
(** * Evidence reconciliation of the planner

    Models the identity indexing, the [Reconciler], [materialise_state] and
    [derive_initial_state] of [src/planner.cpp] (lines 22-320 and 1199-1247). *)
From S2P Require Import Prelude Ids Canonical Model Domain DefinitionCheck Fixture.

(** ** Identity indexing *)

Record Indexer := mkIndexer {
  node_ids : list NodeId;
  link_ids : list LinkId;
  service_ids : list ServiceId;
  resource_ids : list ResourceId;
  action_ids : list ActionId
}.

Definition indexer_build (d : FabricDefinition) : Indexer :=
  mkIndexer (map node_id (nodes d)) (map link_id (links d)) (map service_id (services d))
    (map resource_id (resources d)) (map action_id (actions d)).

(** [Indexer::subject_index]; [kNpos] is [None]. *)
Definition subject_index (ix : Indexer) (s : Subject) : option nat :=
  match subject_kind s with
  | SubjectKind.NODE => index_of (subject_id s) (node_ids ix)
  | SubjectKind.LINK => index_of (subject_id s) (link_ids ix)
  | SubjectKind.SERVICE => index_of (subject_id s) (service_ids ix)
  | SubjectKind.RESOURCE => index_of (subject_id s) (resource_ids ix)
  | SubjectKind.ACTION => index_of (subject_id s) (action_ids ix)
  | SubjectKind.NONE | SubjectKind.FABRIC => None
  end.

(** ** Reconciler *)

Record SubjectResolution := mkResolution {
  res_subject : Subject;
  res_kind : EvidenceKind.t;
  res_state : SubjectState.t;
  res_value : Z;
  res_generation : Generation;
  res_sequence : Sequence;
  res_sources : Z
}.

Definition fresh_resolution (kind : EvidenceKind.t) (subject : Subject) : SubjectResolution :=
  mkResolution subject kind SubjectState.MISSING 0 0 0 0.

Definition state_priority (s : SubjectState.t) : Z :=
  match s with
  | SubjectState.CONFLICT => 6
  | SubjectState.STALE => 5
  | SubjectState.AHEAD => 4
  | SubjectState.INVALID => 3
  | SubjectState.UNSUPPORTED => 2
  | SubjectState.MISSING => 1
  | SubjectState.RESOLVED => 0
  | SubjectState.COUNT => 0
  end.

Definition reason_for (s : SubjectState.t) : ReasonCode.t :=
  match s with
  | SubjectState.MISSING => ReasonCode.EVIDENCE_SUBJECT_MISSING
  | SubjectState.STALE => ReasonCode.EVIDENCE_SUBJECT_STALE
  | SubjectState.AHEAD => ReasonCode.EVIDENCE_SUBJECT_AHEAD_OF_AUTHORITY
  | SubjectState.CONFLICT => ReasonCode.EVIDENCE_SUBJECT_CONFLICTING
  | SubjectState.INVALID => ReasonCode.EVIDENCE_SUBJECT_INVALID
  | SubjectState.UNSUPPORTED => ReasonCode.EVIDENCE_SUBJECT_UNSUPPORTED
  | SubjectState.RESOLVED | SubjectState.COUNT => ReasonCode.NONE
  end.

Definition domain_for_evidence (k : EvidenceKind.t) : AuthorityDomain.t :=
  match k with
  | EvidenceKind.LINK_OPERATIONAL | EvidenceKind.NODE_OPERATIONAL
  | EvidenceKind.SERVICE_REACHABLE_ENDPOINTS => AuthorityDomain.FABRIC_STATE
  | EvidenceKind.RESOURCE_AVAILABLE_UNITS | EvidenceKind.RESOURCE_RESTORED =>
      AuthorityDomain.RESOURCE_LEASE
  | EvidenceKind.COUNT => AuthorityDomain.FABRIC_STATE
  end.

Abbreviation ResolutionTable := (list (EvidenceKey * SubjectResolution)) (only parsing).

Definition table_find (k : EvidenceKey) (t : ResolutionTable) : option SubjectResolution :=
  om_find evidence_key_key k t.

Definition value_in_domain (d : FabricDefinition) (ix : Indexer) (limits : ModelLimits)
  (f : EvidenceFact) : bool :=
  let id := subject_id (fact_subject f) in
  match fact_kind f with
  | EvidenceKind.LINK_OPERATIONAL =>
      match index_of id (link_ids ix) with Some _ => fact_value f <=? 1 | None => false end
  | EvidenceKind.NODE_OPERATIONAL =>
      match index_of id (node_ids ix) with Some _ => fact_value f <=? 1 | None => false end
  | EvidenceKind.SERVICE_REACHABLE_ENDPOINTS =>
      match index_of id (service_ids ix) with
      | Some i => (fact_value f <=? max_reachable (services d !!! i)) &&
                  (fact_value f <=? max_service_endpoints limits)
      | None => false
      end
  | EvidenceKind.RESOURCE_AVAILABLE_UNITS =>
      match index_of id (resource_ids ix) with
      | Some i => fact_value f <=? capacity (resources d !!! i)
      | None => false
      end
  | EvidenceKind.RESOURCE_RESTORED =>
      match index_of id (resource_ids ix) with Some _ => fact_value f <=? 1 | None => false end
  | EvidenceKind.COUNT => false
  end.

Definition set_res_state (r : SubjectResolution) (s : SubjectState.t) : SubjectResolution :=
  mkResolution (res_subject r) (res_kind r) s (res_value r) (res_generation r)
    (res_sequence r) (res_sources r).

Definition downgrade (r : SubjectResolution) (s : SubjectState.t) : SubjectResolution :=
  if bool_decide (res_state r = SubjectState.RESOLVED) then r
  else if state_priority (res_state r) <? state_priority s then set_res_state r s
  else r.

(** A resolution that takes over the fact's value. *)
Definition resolve_with (r : SubjectResolution) (f : EvidenceFact) : SubjectResolution :=
  mkResolution (res_subject r) (res_kind r) SubjectState.RESOLVED (fact_value f)
    (fact_generation f) (fact_sequence f) 1.

(** The admissible tail of [ingest]: [sequence] decides between observations. *)
Definition observe (r : SubjectResolution) (f : EvidenceFact) : SubjectResolution :=
  if bool_decide (res_state r = SubjectState.RESOLVED) then
    if res_sequence r <? fact_sequence f then resolve_with r f
    else if fact_sequence f =? res_sequence r then
      if negb (fact_value f =? res_value r) then set_res_state r SubjectState.CONFLICT
      else mkResolution (res_subject r) (res_kind r) (res_state r) (res_value r)
             (res_generation r) (res_sequence r) (u32 (res_sources r + 1))
    else r
  else resolve_with r f.

Section Reconciler.
Context (d : FabricDefinition) (ix : Indexer) (auth : AuthorityVector) (limits : ModelLimits).

(** The checks [ingest] makes of a fact before it looks at other observations:
    [None] when the fact is admissible, the downgrade otherwise. *)
Definition fact_defect (f : EvidenceFact) : option SubjectState.t :=
  if negb (bool_decide (subject_kind (fact_subject f) = evidence_expected_subject (fact_kind f)))
     || bool_decide (subject_index ix (fact_subject f) = None)
     || negb (bool_decide (fact_source_domain f = domain_for_evidence (fact_kind f)))
     || bool_decide (fact_label f = TrustLabel.UNKNOWN)
     || negb (value_in_domain d ix limits f)
  then Some SubjectState.INVALID
  else if bool_decide (fact_label f = TrustLabel.UNSUPPORTED) then Some SubjectState.UNSUPPORTED
  else match authority_find auth (fact_source_domain f) with
       | None => Some SubjectState.MISSING
       | Some b =>
           if fact_generation f <? bind_granted b then Some SubjectState.STALE
           else if bind_granted b <? fact_generation f then Some SubjectState.AHEAD
           else None
       end.

Definition ingest_resolution (r : SubjectResolution) (f : EvidenceFact) : SubjectResolution :=
  match fact_defect f with
  | Some s => downgrade r s
  | None => observe r f
  end.

Definition fact_table_key (f : EvidenceFact) : EvidenceKey :=
  mkEvidenceKey (fact_kind f) (fact_subject f).

Definition ingest (t : ResolutionTable) (f : EvidenceFact) : ResolutionTable :=
  if negb (EvidenceKind.is_valid (fact_kind f)) then t
  else
    let k := fact_table_key f in
    let r := default (fresh_resolution (fact_kind f) (fact_subject f)) (table_find k t) in
    om_set evidence_key_key k (ingest_resolution r f) t.

Definition reconcile (facts : list EvidenceFact) : ResolutionTable := fold_left ingest facts [].
End Reconciler.

(** ** Initial state *)

Definition set_link (s : FabricState) (i : nat) (v : Z) : FabricState :=
  mkState (node_operational s) (<[i:=v]> (link_operational s)) (resource_restored s)
    (resource_available s) (service_reachable s) (action_occurrences s) (node_known s)
    (<[i:=1]> (link_known s)) (resource_known s) (service_known s) (tick s).

Definition set_node (s : FabricState) (i : nat) (v : Z) : FabricState :=
  mkState (<[i:=v]> (node_operational s)) (link_operational s) (resource_restored s)
    (resource_available s) (service_reachable s) (action_occurrences s)
    (<[i:=1]> (node_known s)) (link_known s) (resource_known s) (service_known s) (tick s).

Definition set_service (s : FabricState) (i : nat) (v : Z) : FabricState :=
  mkState (node_operational s) (link_operational s) (resource_restored s)
    (resource_available s) (<[i:=v]> (service_reachable s)) (action_occurrences s)
    (node_known s) (link_known s) (resource_known s) (<[i:=1]> (service_known s)) (tick s).

Definition set_available (s : FabricState) (i : nat) (v : Z) : FabricState :=
  mkState (node_operational s) (link_operational s) (resource_restored s)
    (<[i:=v]> (resource_available s)) (service_reachable s) (action_occurrences s)
    (node_known s) (link_known s) (<[i:=1]> (resource_known s)) (service_known s) (tick s).

Definition set_restored (s : FabricState) (i : nat) (v : Z) : FabricState :=
  mkState (node_operational s) (link_operational s) (<[i:=v]> (resource_restored s))
    (resource_available s) (service_reachable s) (action_occurrences s) (node_known s)
    (link_known s) (<[i:=1]> (resource_known s)) (service_known s) (tick s).

Definition empty_state (d : FabricDefinition) : FabricState :=
  mkState (replicate (length (nodes d)) 0) (replicate (length (links d)) 0)
    (replicate (length (resources d)) 0) (map capacity (resources d))
    (replicate (length (services d)) 0) (replicate (length (actions d)) 0)
    (replicate (length (nodes d)) 0) (replicate (length (links d)) 0)
    (replicate (length (resources d)) 0) (replicate (length (services d)) 0) 0.

Definition flag (v : Z) : Z := if negb (v =? 0) then 1 else 0.

(** The loop body of [materialise_state]. *)
Definition place (ix : Indexer) (s : FabricState) (r : SubjectResolution) : FabricState :=
  if negb (bool_decide (res_state r = SubjectState.RESOLVED)) then s
  else match subject_index ix (res_subject r) with
       | None => s
       | Some i =>
           match res_kind r with
           | EvidenceKind.LINK_OPERATIONAL => set_link s i (flag (res_value r))
           | EvidenceKind.NODE_OPERATIONAL => set_node s i (flag (res_value r))
           | EvidenceKind.SERVICE_REACHABLE_ENDPOINTS => set_service s i (u32 (res_value r))
           | EvidenceKind.RESOURCE_AVAILABLE_UNITS => set_available s i (u32 (res_value r))
           | EvidenceKind.RESOURCE_RESTORED => set_restored s i (flag (res_value r))
           | EvidenceKind.COUNT => s
           end
       end.

Definition materialise_state (d : FabricDefinition) (ix : Indexer) (t : ResolutionTable)
  : FabricState := fold_left (place ix) (map snd t) (empty_state d).

(** ** [derive_initial_state] *)

Record DerivedState := mkDerived {
  der_state : FabricState;
  der_generation_index : list (Subject * Generation);
  der_unresolved : list Subject;
  der_explanations : list Explanation
}.

Definition unresolved_explanation (r : SubjectResolution) : Explanation :=
  mkExplanation (reason_for (res_state r)) (res_subject r) 0 0
    (SubjectState.to_string (res_state r) +:+ " evidence for " +:+ describe (res_subject r)).

Definition is_resolved (r : SubjectResolution) : bool :=
  bool_decide (res_state r = SubjectState.RESOLVED).

Definition derive_initial_state (d : FabricDefinition) (e : EvidenceBundle)
  (auth : AuthorityVector) (limits : ModelLimits) : DerivedState :=
  let ix := indexer_build d in
  let t := reconcile d ix auth limits (ev_facts e) in
  let resolutions := map snd t in
  let resolved := filter (fun r => is_resolved r = true) resolutions in
  let pending := filter (fun r => is_resolved r = false) resolutions in
  mkDerived (materialise_state d ix t)
    (unique_adj (sort_by (lt_on (fun p : Subject * Generation => subject_key p.1 ++ [p.2]))
                   (map (fun r => (res_subject r, res_generation r)) resolved)))
    (unique_adj (sort_by subject_lt (map res_subject pending)))
    (map unresolved_explanation pending).

Fixpoint generation_of_loop (index : list (Subject * Generation)) (s : Subject)
  : option Generation :=
  match index with
  | [] => None
  | (subject, generation) :: rest =>
      if decide (subject = s) then Some generation else generation_of_loop rest s
  end.

Definition generation_of (der : DerivedState) (s : Subject) : option Generation :=
  generation_of_loop (der_generation_index der) s.

(** ** Invariants of a state *)

(** One entry per declared subject in every vector. *)
Record state_shape (d : FabricDefinition) (s : FabricState) : Prop := {
  ssh_node : length (node_operational s) = length (nodes d);
  ssh_link : length (link_operational s) = length (links d);
  ssh_restored : length (resource_restored s) = length (resources d);
  ssh_available : length (resource_available s) = length (resources d);
  ssh_service : length (service_reachable s) = length (services d);
  ssh_occurrences : length (action_occurrences s) = length (actions d);
  ssh_node_known : length (node_known s) = length (nodes d);
  ssh_link_known : length (link_known s) = length (links d);
  ssh_resource_known : length (resource_known s) = length (resources d);
  ssh_service_known : length (service_known s) = length (services d)
}.

(** Every entry fits the type of its vector. *)
Record state_typed (s : FabricState) : Prop := {
  sty_node : Forall in_u8 (node_operational s);
  sty_link : Forall in_u8 (link_operational s);
  sty_restored : Forall in_u8 (resource_restored s);
  sty_available : Forall in_u32 (resource_available s);
  sty_service : Forall in_u32 (service_reachable s);
  sty_occurrences : Forall in_u32 (action_occurrences s);
  sty_node_known : Forall in_u8 (node_known s);
  sty_link_known : Forall in_u8 (link_known s);
  sty_resource_known : Forall in_u8 (resource_known s);
  sty_service_known : Forall in_u8 (service_known s);
  sty_tick : in_u64 (tick s)
}.

(** Services stay within their declared maximum. *)
Definition services_bounded (d : FabricDefinition) (s : FabricState) : Prop :=
  forall i, (i < length (services d))%nat ->
    service_reachable s !!! i <= max_reachable (services d !!! i).

(** Resources stay within their capacity. *)
Definition resources_bounded (d : FabricDefinition) (s : FabricState) : Prop :=
  forall i, (i < length (resources d))%nat ->
    resource_available s !!! i <= capacity (resources d !!! i).

(** ** Lemmas: resolutions *)

Lemma evidence_key_key_inj k k' : evidence_key_key k = evidence_key_key k' -> k = k'.
Proof.
  destruct k as [e [sk si]], k' as [e' [sk' si']]. unfold evidence_key_key, subject_key; simpl.
  intros [= Hs -> He]. rewrite (SubjectKind_to_u8_inj _ _ Hs).
  assert (e = e') as -> by (by destruct e, e'). done.
Qed.

Lemma elem_of_om_set {K V} (key : K -> list Z) k (v : V) m x :
  x ∈ om_set key k v m -> x = (k, v) \/ x ∈ m.
Proof.
  induction m as [|[k1 v1] m IH]; simpl.
  - rewrite list_elem_of_singleton. auto.
  - destruct (lex_lt _ _); [|destruct (lex_lt _ _)]; rewrite !elem_of_cons; tauto.
Qed.

Section ReconcilerLemmas.
Context (d : FabricDefinition) (ix : Indexer) (auth : AuthorityVector) (limits : ModelLimits).

Abbreviation reconcile := (reconcile d ix auth limits).
Abbreviation ingest_resolution := (ingest_resolution d ix auth limits).

(** A fact the reconciler lets decide a value. *)
Definition admissible (f : EvidenceFact) : Prop := fact_defect d ix auth limits f = None.

#[global] Instance admissible_dec f : Decision (admissible f).
Proof. unfold admissible. apply _. Defined.

(** The facts that reach the entry of [k], in ingestion order. *)
Definition key_facts (k : EvidenceKey) (facts : list EvidenceFact) : list EvidenceFact :=
  filter (fun f => EvidenceKind.is_valid (fact_kind f) = true /\ fact_table_key f = k) facts.

Lemma key_facts_snoc k facts f :
  key_facts k (facts ++ [f]) =
  key_facts k facts ++
  (if EvidenceKind.is_valid (fact_kind f) && bool_decide (fact_table_key f = k)
   then [f] else []).
Proof.
  unfold key_facts. rewrite filter_app, filter_cons, filter_nil. f_equal.
  case_decide as Hd.
  - destruct Hd as [-> Hk]. by rewrite bool_decide_eq_true_2.
  - destruct (EvidenceKind.is_valid _); simpl; [|done].
    rewrite bool_decide_eq_false_2; [done|]. tauto.
Qed.

(** The table is a family of independent folds, one per key. *)
Lemma reconcile_find k facts :
  table_find k (reconcile facts) =
  match key_facts k facts with
  | [] => None
  | fs => Some (fold_left ingest_resolution fs (fresh_resolution (ek_kind k) (ek_subject k)))
  end.
Proof.
  unfold reconcile. induction facts as [|f facts IH] using rev_ind; [done|].
  rewrite fold_left_app, key_facts_snoc. simpl. unfold ingest at 1.
  destruct (EvidenceKind.is_valid (fact_kind f)) eqn:Hv; simpl.
  2:{ by rewrite app_nil_r. }
  unfold table_find in *. case_bool_decide as Hk.
  - subst k. rewrite om_find_set_eq, IH.
    destruct (key_facts _ facts) as [|g gs]; simpl; [done|].
    by rewrite fold_left_app.
  - rewrite om_find_set_ne by (intros He; by apply evidence_key_key_inj in He).
    by rewrite app_nil_r.
Qed.

Lemma downgrade_resolved r s :
  s <> SubjectState.RESOLVED ->
  res_state (downgrade r s) = SubjectState.RESOLVED <-> res_state r = SubjectState.RESOLVED.
Proof.
  intros Hs. unfold downgrade. case_bool_decide; [done|].
  destruct (_ <? _); simpl; [|done]. split; [done|]. intros; congruence.
Qed.

Lemma downgrade_id r s : res_state r = SubjectState.RESOLVED -> downgrade r s = r.
Proof. intros H. unfold downgrade. by rewrite bool_decide_eq_true_2. Qed.

Lemma fact_defect_not_resolved f s :
  fact_defect d ix auth limits f = Some s -> s <> SubjectState.RESOLVED.
Proof.
  unfold fact_defect. destruct (_ || _)%bool; [by intros [= <-]|].
  case_bool_decide; [by intros [= <-]|].
  destruct (authority_find _ _) as [b|]; [|by intros [= <-]].
  destruct (_ <? _); [by intros [= <-]|]. by destruct (_ <? _); [intros [= <-]|].
Qed.

(** A resolution carries the observation of one admissible fact. *)
Definition carries (r : SubjectResolution) (f : EvidenceFact) : Prop :=
  res_value r = fact_value f /\ res_generation r = fact_generation f /\
  res_sequence r = fact_sequence f.

Lemma carries_resolve r f : carries (resolve_with r f) f.
Proof. done. Qed.

(** What [ingest] does to an entry that is already resolved, and to one that is not. *)
Lemma ingest_resolution_cases r f :
  let r' := ingest_resolution r f in
  (admissible f /\ res_state r' = SubjectState.RESOLVED /\ carries r' f /\
   (res_state r = SubjectState.RESOLVED -> res_sequence r < fact_sequence f)) \/
  (res_state r' = SubjectState.RESOLVED /\ res_state r = SubjectState.RESOLVED /\
   res_value r' = res_value r /\ res_generation r' = res_generation r /\
   res_sequence r' = res_sequence r /\ (admissible f -> fact_sequence f <= res_sequence r)) \/
  res_state r' <> SubjectState.RESOLVED.
Proof.
  cbv zeta. unfold ingest_resolution, Reconcile.ingest_resolution, admissible.
  destruct (fact_defect d ix auth limits f) as [s|] eqn:Hd.
  - destruct (decide (res_state r = SubjectState.RESOLVED)) as [Hr|Hr].
    + right; left. rewrite downgrade_id by done. split_and!; done.
    + right; right. rewrite downgrade_resolved; [done|].
      by eapply fact_defect_not_resolved.
  - unfold observe. case_bool_decide as Hr; [|left; done].
    destruct (Z.ltb_spec (res_sequence r) (fact_sequence f)); [left; done|].
    destruct (Z.eqb_spec (fact_sequence f) (res_sequence r)).
    + destruct (Z.eqb_spec (fact_value f) (res_value r)); simpl.
      * right; left. split_and!; simpl; done || lia.
      * right; right. done.
    + right; left. split_and!; done || lia.
Qed.

Lemma fold_resolved_sound fs r0 :
  res_state r0 <> SubjectState.RESOLVED ->
  res_state (fold_left ingest_resolution fs r0) = SubjectState.RESOLVED ->
  exists f, f ∈ fs /\ admissible f /\ carries (fold_left ingest_resolution fs r0) f.
Proof.
  intros H0. induction fs as [|f fs IH] using rev_ind; [done|].
  rewrite fold_left_app; simpl. intros Hres.
  destruct (ingest_resolution_cases (fold_left ingest_resolution fs r0) f)
    as [(Ha & _ & Hc & _)|[(_ & Hr & Hv & Hg & Hs & _)|Hn]]; [| |done].
  - exists f. split_and!; [set_solver|done|done].
  - destruct (IH Hr) as (g & Hg1 & Hg2 & Hc). exists g.
    split_and!; [set_solver|done|]. unfold carries in *. by rewrite Hv, Hg, Hs.
Qed.

(** No two admissible observations of the entry disagree at one sequence number. *)
Definition agreeing (fs : list EvidenceFact) : Prop :=
  forall f g, f ∈ fs -> g ∈ fs -> admissible f -> admissible g ->
              fact_sequence f = fact_sequence g -> fact_value f = fact_value g.

Definition newest (fs : list EvidenceFact) (f : EvidenceFact) : Prop :=
  f ∈ fs /\ admissible f /\ forall g, g ∈ fs -> admissible g -> fact_sequence g <= fact_sequence f.

Lemma observe_agreeing r f g :
  res_state r = SubjectState.RESOLVED -> carries r g ->
  (fact_sequence f = fact_sequence g -> fact_value f = fact_value g) ->
  res_state (observe r f) = SubjectState.RESOLVED.
Proof.
  intros Hr (Hv & _ & Hs) Hag. unfold observe. rewrite bool_decide_eq_true_2 by done.
  destruct (_ <? _); [done|]. destruct (Z.eqb_spec (fact_sequence f) (res_sequence r)); [|done].
  rewrite Hag, Hv, Z.eqb_refl by congruence. done.
Qed.

Lemma fold_agreeing fs r0 :
  res_state r0 <> SubjectState.RESOLVED -> agreeing fs ->
  let r := fold_left ingest_resolution fs r0 in
  ((forall f, f ∈ fs -> ~ admissible f) /\ res_state r <> SubjectState.RESOLVED) \/
  (res_state r = SubjectState.RESOLVED /\ exists f, newest fs f /\ carries r f).
Proof.
  intros H0. induction fs as [|f fs IH] using rev_ind; intros Hag; simpl.
  { left. split; [set_solver|done]. }
  rewrite fold_left_app; simpl.
  assert (Hag' : agreeing fs) by (intros x y ? ?; apply Hag; set_solver).
  set (r := fold_left ingest_resolution fs r0) in *.
  destruct (IH Hag') as [[Hnone Hr]|(Hr & g & (Hg & Hga & Hmax) & Hc)]; clear IH.
  - unfold ingest_resolution, Reconcile.ingest_resolution.
    destruct (fact_defect d ix auth limits f) as [s|] eqn:Hd.
    + left. split; [intros x; rewrite elem_of_app, list_elem_of_singleton|].
      * intros [Hx| ->]; [by apply Hnone|]. unfold admissible. by rewrite Hd.
      * rewrite downgrade_resolved; [done|]. by eapply fact_defect_not_resolved.
    + right. unfold observe. rewrite bool_decide_eq_false_2 by done. split; [done|].
      exists f. split; [|apply carries_resolve]. split_and!; [set_solver|done|].
      intros x. rewrite elem_of_app, list_elem_of_singleton. intros [Hx| ->] Hxa; [|lia].
      by destruct (Hnone x Hx).
  - right.
    assert (Hres : res_state (ingest_resolution r f) = SubjectState.RESOLVED).
    { unfold ingest_resolution, Reconcile.ingest_resolution.
      destruct (fact_defect d ix auth limits f) as [s|] eqn:Hd; [by rewrite downgrade_id|].
      apply (observe_agreeing r f g); [done|done|]. intros He.
      apply (Hag f g); set_solver. }
    split; [done|].
    destruct (ingest_resolution_cases r f)
      as [(Ha & _ & Hcf & Hlt)|[(_ & _ & Hv & Hgn & Hs & Hle)|Hn]]; [| |done].
    + exists f. split; [|done]. split_and!; [set_solver|done|].
      intros x. rewrite elem_of_app, list_elem_of_singleton. intros [Hx| ->] Hxa; [|lia].
      specialize (Hmax x Hx Hxa). specialize (Hlt Hr).
      destruct Hc as (_ & _ & Hcs). lia.
    + exists g. unfold carries in *. destruct Hc as (Hc1 & Hc2 & Hc3).
      split_and!; [|congruence..]. split_and!; [set_solver|done|].
      intros x. rewrite elem_of_app, list_elem_of_singleton. intros [Hx| ->] Hxa; [auto|].
      specialize (Hle Hxa). lia.
Qed.

(** What the table holds about [k] after the facts have been ingested. *)
Definition entry_ok (facts : list EvidenceFact) (k : EvidenceKey) (r : SubjectResolution) : Prop :=
  res_kind r = ek_kind k /\ res_subject r = ek_subject k /\
  (res_state r = SubjectState.RESOLVED ->
   exists f, f ∈ facts /\ fact_table_key f = k /\ admissible f /\ carries r f).

Lemma ingest_resolution_frame r f :
  res_kind (ingest_resolution r f) = res_kind r /\
  res_subject (ingest_resolution r f) = res_subject r.
Proof.
  unfold ingest_resolution, Reconcile.ingest_resolution, downgrade, observe.
  destruct (fact_defect _ _ _ _ _).
  - case_bool_decide; [done|]. by destruct (_ <? _).
  - case_bool_decide; [|done]. destruct (_ <? _); [done|].
    destruct (_ =? _); [|done]. by destruct (negb _).
Qed.

Lemma entry_ok_ingest facts k r f :
  entry_ok facts k r -> fact_table_key f = k -> entry_ok (facts ++ [f]) k (ingest_resolution r f).
Proof.
  intros (Hk & Hs & Hr) Hf. destruct (ingest_resolution_frame r f) as [Hfk Hfs].
  split_and!; [congruence|congruence|]. intros Hres.
  destruct (ingest_resolution_cases r f)
    as [(Ha & _ & Hc & _)|[(_ & Hrr & Hv & Hg & Hq & _)|Hn]]; [| |done].
  - exists f. split_and!; try done. set_solver.
  - destruct (Hr Hrr) as (g & ? & ? & ? & Hc). exists g. unfold carries in *.
    rewrite Hv, Hg, Hq. split_and!; try done || apply Hc. set_solver.
Qed.

Lemma reconcile_entries facts k r : (k, r) ∈ reconcile facts -> entry_ok facts k r.
Proof.
  unfold reconcile. revert k r; induction facts as [|f facts IH] using rev_ind; intros k r.
  { simpl. set_solver. }
  assert (Hmono : forall k r, entry_ok facts k r -> entry_ok (facts ++ [f]) k r).
  { intros k' r' (? & ? & H). split_and!; [done|done|]. intros Hr.
    destruct (H Hr) as (g & ? & ?). exists g. split; [set_solver|done]. }
  rewrite fold_left_app. simpl. unfold ingest at 1.
  destruct (EvidenceKind.is_valid _); simpl; [|intros Hin; by apply Hmono, IH].
  intros [[= -> ->]|Hin]%elem_of_om_set; [|by apply Hmono, IH].
  apply entry_ok_ingest; [|done]. unfold table_find.
  destruct (om_find _ _ _) as [r0|] eqn:Hf; simpl.
  - apply om_find_elem in Hf as (k' & Hk & Hin). apply evidence_key_key_inj in Hk. subst k'.
    by apply IH.
  - split_and!; done.
Qed.

(** ** Lemmas: the initial state *)

(** [i] is the position of the subject of an admissible fact of this kind. *)
Definition established (facts : list EvidenceFact) (kind : EvidenceKind.t) (i : nat) (v : Z)
  : Prop :=
  exists f, f ∈ facts /\ fact_kind f = kind /\ admissible f /\
            subject_index ix (fact_subject f) = Some i /\ fact_value f = v.
End ReconcilerLemmas.

(** The length of the vector a subject kind is indexed into. *)
Definition kind_count (d : FabricDefinition) (k : SubjectKind.t) : nat :=
  match k with
  | SubjectKind.NODE => length (nodes d)
  | SubjectKind.LINK => length (links d)
  | SubjectKind.SERVICE => length (services d)
  | SubjectKind.RESOURCE => length (resources d)
  | SubjectKind.ACTION => length (actions d)
  | SubjectKind.NONE | SubjectKind.FABRIC => 0
  end.

Lemma index_of_bound {A} (f : A -> Z) id l i : index_of id (map f l) = Some i -> (i < length l)%nat.
Proof. intros H%index_of_Some%lookup_lt_Some. by rewrite length_map in H. Qed.

Lemma subject_index_bound d s i :
  subject_index (indexer_build d) s = Some i -> (i < kind_count d (subject_kind s))%nat.
Proof.
  unfold subject_index. destruct (subject_kind s); simpl; try done; apply index_of_bound.
Qed.

Section InitialState.
Context (d : FabricDefinition) (auth : AuthorityVector) (limits : ModelLimits)
  (facts : list EvidenceFact).
Let ix := indexer_build d.

Abbreviation established := (established d ix auth limits facts).

(** A value marked known was observed by an admissible fact. The two values of a
    resource share one mask: it is set by a fact about either of them, and the one
    that no fact is about keeps what it was declared with. *)
Record state_established (s : FabricState) : Prop := {
  est_node i : (i < length (nodes d))%nat -> node_known s !!! i <> 0 -> exists v,
    established EvidenceKind.NODE_OPERATIONAL i v /\ node_operational s !!! i = flag v;
  est_link i : (i < length (links d))%nat -> link_known s !!! i <> 0 -> exists v,
    established EvidenceKind.LINK_OPERATIONAL i v /\ link_operational s !!! i = flag v;
  est_service i : (i < length (services d))%nat -> service_known s !!! i <> 0 -> exists v,
    established EvidenceKind.SERVICE_REACHABLE_ENDPOINTS i v /\
    service_reachable s !!! i = u32 v;
  est_resource i : (i < length (resources d))%nat -> resource_known s !!! i <> 0 ->
    exists v, established EvidenceKind.RESOURCE_AVAILABLE_UNITS i v \/
              established EvidenceKind.RESOURCE_RESTORED i v;
  est_available i : (i < length (resources d))%nat ->
    resource_available s !!! i = capacity (resources d !!! i) \/
    exists v, established EvidenceKind.RESOURCE_AVAILABLE_UNITS i v /\
      resource_available s !!! i = u32 v /\ resource_known s !!! i <> 0;
  est_restored i : (i < length (resources d))%nat ->
    resource_restored s !!! i = 0 \/
    exists v, established EvidenceKind.RESOURCE_RESTORED i v /\
      resource_restored s !!! i = flag v /\ resource_known s !!! i <> 0
}.

Record initial_ok (s : FabricState) : Prop := {
  ini_shape : state_shape d s;
  ini_typed : state_typed s;
  ini_services : services_bounded d s;
  ini_resources : resources_bounded d s;
  ini_established : state_established s
}.

Context (Hd : definition_typed d) (Hfacts : Forall (fun f => in_u64 (fact_value f)) facts).

Lemma flag_u8 v : in_u8 (flag v).
Proof. unfold flag, in_u8. destruct (negb _); lia. Qed.

Lemma replicate_total (n i : nat) (x : Z) : (i < n)%nat -> replicate n x !!! i = x.
Proof. apply lookup_total_replicate_2. Qed.

Lemma capacity_typed : Forall in_u32 (map capacity (resources d)).
Proof.
  apply Forall_map. eapply Forall_impl; [apply (dty_resources d Hd)|]. simpl. tauto.
Qed.

Lemma empty_state_ok : initial_ok (empty_state d).
Proof.
  assert (Hz : forall n, Forall in_u8 (replicate n 0))
    by (intros; apply Forall_replicate; unfold in_u8; lia).
  assert (Hz4 : forall n, Forall in_u32 (replicate n 0))
    by (intros; apply Forall_replicate; unfold in_u32; lia).
  split.
  - split; simpl; by rewrite ?length_replicate, ?length_map.
  - split; simpl; try done. apply capacity_typed.
  - intros i Hi. simpl. rewrite replicate_total by done.
    pose proof (Forall_lookup_total _ _ _ (dty_services d Hd) Hi) as (_ & _ & _ & Hm).
    apply Hm.
  - intros i Hi. simpl. rewrite lookup_total_map by done. lia.
  - split; simpl; intros i Hi; rewrite ?replicate_total by done; try done; left;
      [by rewrite lookup_total_map by done|done].
Qed.

(** Reading a vector after one update. *)
Lemma lookup_insert_cases (l : list Z) i j v :
  (j < length l)%nat -> <[i:=v]> l !!! j = if decide (i = j) then v else l !!! j.
Proof.
  intros Hj. destruct (decide (i = j)) as [->|Hne].
  - by apply lookup_total_insert_eq.
  - by apply lookup_total_insert_ne.
Qed.

(** An admissible fact's value lies in the domain of its subject. *)
Lemma admissible_bounds f i :
  admissible d ix auth limits f -> f ∈ facts -> subject_index ix (fact_subject f) = Some i ->
  subject_kind (fact_subject f) = evidence_expected_subject (fact_kind f) /\
  (fact_kind f = EvidenceKind.SERVICE_REACHABLE_ENDPOINTS ->
     u32 (fact_value f) <= max_reachable (services d !!! i)) /\
  (fact_kind f = EvidenceKind.RESOURCE_AVAILABLE_UNITS ->
     u32 (fact_value f) <= capacity (resources d !!! i)).
Proof.
  unfold admissible, fact_defect. intros Ha Hf Hi.
  destruct (_ || _)%bool eqn:Hb in Ha; [done|]. clear Ha. bool_cases. split; [done|].
  rewrite Forall_forall in Hfacts. specialize (Hfacts f Hf).
  unfold in_u64 in Hfacts. unfold value_in_domain, subject_index in *.
  split; intros Hk; rewrite Hk in *; simpl in *;
    match goal with He : subject_kind _ = _ |- _ => rewrite He in Hi end;
    rewrite Hi in *; bool_cases; pose proof (index_of_bound _ _ _ _ Hi) as Hlt.
  - pose proof (Forall_lookup_total _ _ _ (dty_services d Hd) Hlt) as (_ & _ & _ & Hm).
    rewrite u32_small; [done|]. unfold in_u32 in *. lia.
  - pose proof (Forall_lookup_total _ _ _ (dty_resources d Hd) Hlt) as (_ & Hm & _).
    rewrite u32_small; [done|]. unfold in_u32 in *. lia.
Qed.

(** Rewrites a read of an updated vector and splits on the position. *)
Ltac split_update :=
  rewrite lookup_insert_cases by (simpl in *; congruence || lia);
  case_decide; [subst|].

(** One observation updates a value and its mask together. *)
Lemma mask_update (E : nat -> Z -> Prop) (g : Z -> Z) known vals i j v0 :
  (j < length known)%nat -> (j < length vals)%nat -> E i v0 ->
  (known !!! j <> 0 -> exists v, E j v /\ vals !!! j = g v) ->
  <[i:=1]> known !!! j <> 0 -> exists v, E j v /\ <[i:=g v0]> vals !!! j = g v.
Proof.
  intros Hk Hv HE Hold. rewrite !lookup_insert_cases by done.
  case_decide; [subst; eauto|done].
Qed.

(** One of the two values of a resource observed, or the other one. *)
Lemma value_update (E : nat -> Z -> Prop) (g : Z -> Z) known vals i j v0 x :
  (j < length known)%nat -> (j < length vals)%nat -> E i v0 ->
  (vals !!! j = x \/ exists v, E j v /\ vals !!! j = g v /\ known !!! j <> 0) ->
  <[i:=g v0]> vals !!! j = x \/
  exists v, E j v /\ <[i:=g v0]> vals !!! j = g v /\ <[i:=1]> known !!! j <> 0.
Proof.
  intros Hk Hv HE Hold. rewrite !lookup_insert_cases by done.
  case_decide; [subst; right; by exists v0|done].
Qed.

Lemma place_ok s k r :
  entry_ok d ix auth limits facts k r -> initial_ok s -> initial_ok (place ix s r).
Proof.
  intros (Hk & Hs & Hr) Hini. unfold place.
  case_bool_decide as Hres; simpl; [|done].
  destruct (Hr Hres) as (f & Hf & Hkey & Ha & Hv & _). clear Hr.
  assert (Hfk : fact_kind f = res_kind r) by (rewrite Hk, <- Hkey; done).
  assert (Hfs : fact_subject f = res_subject r) by (rewrite Hs, <- Hkey; done).
  destruct (subject_index ix (res_subject r)) as [i|] eqn:Hi; [|done].
  rewrite <- Hfs in Hi. rewrite Hv, <- Hfk. clear k r Hk Hs Hkey Hfk Hfs Hv Hres.
  pose proof (admissible_bounds f i Ha Hf Hi) as (Hsub & Hb1 & Hb2).
  pose proof (subject_index_bound d _ _ Hi) as Hlt. rewrite Hsub in Hlt.
  assert (Hest : established (fact_kind f) i (fact_value f)) by (exists f; done).
  destruct Hini as [[] [] Hsb Hrb [En El Es Er Eav Ere]].
  pose proof (flag_u8 (fact_value f)). pose proof (u32_range (fact_value f)).
  assert (in_u8 1) by (unfold in_u8; lia).
  destruct (fact_kind f) eqn:Hkind; simpl in Hlt; try done;
    (split; [split; simpl; rewrite ?length_insert; done
            |split; simpl; auto with nrp
            | | | ]); try done.
  all: try (intros j Hj; simpl; split_update; [by auto|]; by apply Hsb || by apply Hrb).
  - split; simpl; try assumption. intros j Hj.
    apply (mask_update (established EvidenceKind.LINK_OPERATIONAL) flag); auto; congruence.
  - split; simpl; try assumption. intros j Hj.
    apply (mask_update (established EvidenceKind.NODE_OPERATIONAL) flag); auto; congruence.
  - split; simpl; try assumption. intros j Hj.
    apply (mask_update (established EvidenceKind.SERVICE_REACHABLE_ENDPOINTS) u32);
      auto; congruence.
  - split; simpl; try assumption; intros j Hj.
    + split_update; [|by apply Er]. intros _. exists (fact_value f). by left.
    + apply (value_update (established EvidenceKind.RESOURCE_AVAILABLE_UNITS) u32); auto; congruence.
    + destruct (Ere j Hj) as [|(v & Hv & Hval & Hkn)]; [by left|right]. exists v.
      split_and!; [done..|]. split_update; done.
  - split; simpl; try assumption; intros j Hj.
    + split_update; [|by apply Er]. intros _. exists (fact_value f). by right.
    + destruct (Eav j Hj) as [|(v & Hv & Hval & Hkn)]; [by left|right]. exists v.
      split_and!; [done..|]. split_update; done.
    + apply (value_update (established EvidenceKind.RESOURCE_RESTORED) flag); auto; congruence.
Qed.

Lemma materialise_ok : initial_ok (materialise_state d ix (reconcile d ix auth limits facts)).
Proof.
  unfold materialise_state.
  assert (H : forall k r, (k, r) ∈ reconcile d ix auth limits facts ->
                          entry_ok d ix auth limits facts k r)
    by (intros; by apply reconcile_entries).
  revert H. generalize (reconcile d ix auth limits facts) as t.
  generalize empty_state_ok. generalize (empty_state d) as s.
  intros s Hs t; revert s Hs. induction t as [|[k r] t IH]; intros s Hs Ht; simpl; [done|].
  apply IH.
  - eapply place_ok; [|done]. apply Ht. left.
  - intros k' r' Hin. apply Ht. by right.
Qed.
End InitialState.

(** ** Properties *)

(** C35: the initial state of a request is sound: every vector has one
    entry per declared subject within its machine type, services and resources
    lie within their declared maxima, and a link, a node or a service is marked
    known only when an admissible fact (right subject, domain, label, value range
    and exactly the granted generation) observed that very subject; the value is
    the fact's. A resource is marked known only by an admissible fact about its
    availability or its restoration, which share one mark: of its two values, each
    is that of an admissible fact, or the declared one (full capacity, not
    restored). *)
Theorem materialise_state_sound d auth limits facts :
  definition_typed d -> Forall (fun f => in_u64 (fact_value f)) facts ->
  let ix := indexer_build d in
  let s := materialise_state d ix (reconcile d ix auth limits facts) in
  state_shape d s /\ state_typed s /\ services_bounded d s /\ resources_bounded d s /\
  state_established d auth limits facts s.
Proof. intros Hd Hf. cbv zeta. by destruct (materialise_ok d auth limits facts Hd Hf). Qed.

Lemma materialise_state_sound_witness :
  exists v, established example_definition (indexer_build example_definition) example_authority
              default_model_limits example_facts EvidenceKind.SERVICE_REACHABLE_ENDPOINTS 0 v /\
            u32 v = 1.
Proof.
  destruct (materialise_state_sound example_definition example_authority default_model_limits
              example_facts example_typed example_facts_typed) as (_ & _ & _ & _ & H).
  destruct (est_service _ _ _ _ _ H 0%nat) as (v & Hv & He).
  - simpl. lia.
  - vm_compute. discriminate.
  - exists v. split; [exact Hv|]. rewrite <- He. vm_compute. reflexivity.
Defined.

(** C36: reconciliation of an evidence key: when no two admissible facts
    of the key disagree at one sequence number, the entry is resolved exactly
    when there is an admissible fact, and then carries the value, generation
    and sequence of the newest admissible one, whatever order the facts come in
    and however many inadmissible facts surround them. *)
Theorem reconcile_newest d ix auth limits facts k r :
  agreeing d ix auth limits (key_facts k facts) ->
  table_find k (reconcile d ix auth limits facts) = Some r ->
  (res_state r = SubjectState.RESOLVED <->
   exists f, f ∈ key_facts k facts /\ admissible d ix auth limits f) /\
  (res_state r = SubjectState.RESOLVED ->
   exists f, newest d ix auth limits (key_facts k facts) f /\ carries r f).
Proof.
  intros Hag Hr. rewrite reconcile_find in Hr.
  pose proof (fold_agreeing d ix auth limits (key_facts k facts)
                (fresh_resolution (ek_kind k) (ek_subject k))) as H.
  destruct (key_facts k facts) as [|g gs]; [done|]. cbv zeta in H.
  replace (fold_left _ _ _) with r in H by congruence. clear Hr.
  destruct (H ltac:(done) Hag) as [[Hn Hs]|[Hs Hnew]].
  - split; [|done]. split; [done|]. intros (f & Hf & Ha). by destruct (Hn f Hf).
  - split; [|done]. split; [|done]. intros _. destruct Hnew as (f & (? & ? & _) & _). by exists f.
Qed.

Definition link1_key : EvidenceKey :=
  mkEvidenceKey EvidenceKind.LINK_OPERATIONAL (subject_of_link 1).

(** Two sources report link 1; the later observation wins although it comes first. *)
Definition superseded_facts : list EvidenceFact :=
  [fabric_fact 1 EvidenceKind.LINK_OPERATIONAL (subject_of_link 1) 1 9;
   fabric_fact 2 EvidenceKind.LINK_OPERATIONAL (subject_of_link 1) 0 7].

Lemma reconcile_newest_witness :
  exists r, table_find link1_key
              (reconcile example_definition (indexer_build example_definition) example_authority
                 default_model_limits superseded_facts) = Some r /\
            res_state r = SubjectState.RESOLVED /\
            exists f, f ∈ key_facts link1_key superseded_facts /\ carries r f.
Proof.
  eexists. split; [vm_compute; reflexivity|]. split; [reflexivity|].
  edestruct (reconcile_newest example_definition (indexer_build example_definition)
               example_authority default_model_limits superseded_facts link1_key)
    as [_ H].
  - change (key_facts link1_key superseded_facts) with superseded_facts.
    intros f g Hf Hg _ _. apply elem_of_cons in Hf, Hg.
    rewrite list_elem_of_singleton in Hf, Hg.
    destruct Hf as [-> | ->], Hg as [-> | ->]; simpl; intros; congruence || lia.
  - vm_compute. reflexivity.
  - destruct (H ltac:(reflexivity)) as (f & (Hf & _) & Hc). exists f. split; assumption.
Defined.

(** A conflict does not persist. Two admissible facts that disagree
    at the same sequence number put the entry into CONFLICT, but any further
    admissible fact of the key resolves it again with its own value, also one
    that both conflicting observations supersede. *)
Theorem conflict_forgotten d ix auth limits r f1 f2 f3 :
  res_state r <> SubjectState.RESOLVED ->
  admissible d ix auth limits f1 -> admissible d ix auth limits f2 ->
  admissible d ix auth limits f3 ->
  fact_sequence f1 = fact_sequence f2 -> fact_value f1 <> fact_value f2 ->
  let r2 := fold_left (ingest_resolution d ix auth limits) [f1; f2] r in
  let r3 := ingest_resolution d ix auth limits r2 f3 in
  res_state r2 = SubjectState.CONFLICT /\
  res_state r3 = SubjectState.RESOLVED /\ res_value r3 = fact_value f3.
Proof.
  intros Hr H1 H2 H3 Hs Hv. simpl. unfold ingest_resolution, admissible in *.
  rewrite H1, H2, H3.
  assert (Ho : observe r f1 = resolve_with r f1)
    by (unfold observe; by rewrite (bool_decide_eq_false_2 _ Hr)).
  assert (Hne : (fact_value f2 =? fact_value f1) = false) by (apply Z.eqb_neq; congruence).
  rewrite Ho. unfold observe, resolve_with. simpl.
  rewrite <- Hs, Z.ltb_irrefl, Z.eqb_refl, Hne. simpl. done.
Qed.

Lemma conflict_forgotten_witness :
  let ix := indexer_build example_definition in
  let ingest := ingest_resolution example_definition ix example_authority default_model_limits in
  let fact := fabric_fact 1 EvidenceKind.LINK_OPERATIONAL (subject_of_link 1) in
  res_value (fold_left ingest [fact 0 9; fact 1 9; fact 1 2]
               (fresh_resolution EvidenceKind.LINK_OPERATIONAL (subject_of_link 1))) = 1.
Proof.
  pose (fact := fabric_fact 1 EvidenceKind.LINK_OPERATIONAL (subject_of_link 1)).
  destruct (conflict_forgotten example_definition (indexer_build example_definition)
              example_authority default_model_limits
              (fresh_resolution EvidenceKind.LINK_OPERATIONAL (subject_of_link 1))
              (fact 0 9) (fact 1 9) (fact 1 2)) as (_ & _ & H);
    [discriminate|vm_compute; reflexivity..|discriminate|].
  exact H.
Defined.

Definition restored_only : list EvidenceFact :=
  [lease_fact 1 EvidenceKind.RESOURCE_RESTORED (subject_of_resource 1) 0 7].

(** Evidence about restoration also counts as evidence about
    availability. With a single RESOURCE_RESTORED fact and no availability
    fact at all, the resource's shared mask is set and its full capacity is
    taken as affirmatively available. *)
Theorem restored_fact_makes_availability_known :
  let ix := indexer_build example_definition in
  let s := materialise_state example_definition ix
             (reconcile example_definition ix example_authority default_model_limits
                restored_only) in
  resource_known s = [1; 0] /\ resource_available s = [2; 1] /\
  resource_restored s = [0; 0].
Proof. vm_compute. done. Qed.
