(* ===== verification/Transition.v ===== *)
(** * One step of the planner's search

    Models the compiled view of a definition, the state dependent objective
    components, the goal and precondition tests, [Search::apply] and
    [Search::key_of] of [src/planner.cpp] (lines 252-269, 326-436, 649-659 and
    671-971). An index vector entry equal to [kNpos] is [None]. *)
From S2P Require Import Prelude Ids Canonical Model Objective Domain DefinitionCheck Plan Fixture.
From S2P Require Import Reconcile.

(** ** [Compiled] *)

Record Compiled := mkCompiled {
  action_dependency_indices : list (list (option nat));
  action_group_indices : list (list nat);
  action_resource_indices : list (list (option nat));
  group_members : list (list nat);
  absolute_step_bound : Z;
  occurrence_bound_overflows : bool
}.

(** The accumulation of [absolute_step_bound]. *)
Definition add_step_bound (acc : Z * bool) (a : ActionSpec) : Z * bool :=
  match add_overflow acc.1 (max_occurrences a) with
  | None => (acc.1, true)
  | Some sum => (sum, acc.2)
  end.

Definition group_indices_of (d : FabricDefinition) (a : ActionSpec) : list nat :=
  omap (fun group => find_index (fun g => group_id g =? group) (groups d)) (exclusion_groups a).

(** The members of a group in the order in which [Compiled::build] meets them. *)
Definition members_of (d : FabricDefinition) (group : nat) : list nat :=
  concat (map (fun index => map (fun _ => index)
                 (filter (fun g => g = group) (group_indices_of d (actions d !!! index))))
            (seq 0 (length (actions d)))).

Definition compiled_build (d : FabricDefinition) (ix : Indexer) : Compiled :=
  let '(bound, overflows) := fold_left add_step_bound (actions d) (0, false) in
  mkCompiled
    (map (fun a => map (fun dep => index_of (dep_predecessor dep) (action_ids ix))
                     (dependencies a)) (actions d))
    (map (group_indices_of d) (actions d))
    (map (fun a => map (fun use => index_of (use_resource use) (resource_ids ix))
                     (resource_uses a)) (actions d))
    (map (members_of d) (seq 0 (length (groups d))))
    bound overflows.

(** ** State dependent objective components *)

(** What one service contributes to [incompleteness] ([level] is its target)
    and to [floor_gap] ([level] is its floor). *)
Definition shortfall (level : Z) (known reachable : Z) : Z :=
  if level =? 0 then 0
  else if known =? 0 then level
  else if reachable <? level then u32 (level - reachable)
  else 0.

Definition sum_shortfall (level : ServiceSpec -> Z) (d : FabricDefinition) (s : FabricState) : Z :=
  fold_left (fun total index =>
    u64 (total + shortfall (level (services d !!! index)) (service_known s !!! index)
                   (service_reachable s !!! index)))
    (seq 0 (length (services d))) 0.

Definition incompleteness : FabricDefinition -> FabricState -> Z := sum_shortfall target_reachable.
Definition floor_gap : FabricDefinition -> FabricState -> Z := sum_shortfall required_reachable.

(** ** Transition and search nodes *)

Abbreviation HoldProfile := (list ResourceHold) (only parsing).

Record Transition := mkTransition {
  tr_state : FabricState;
  tr_holds : HoldProfile;
  tr_delta : ObjectiveVector;
  tr_bindings : list EvidenceBinding;
  tr_occurrence : Z;
  tr_start_tick : Z;
  tr_end_tick : Z
}.

(** An inadmissible [Transition]: which counter it belongs to, and why. *)
Record Rejection := mkRejection {
  blocked_by_unknown : bool;
  blocked_by_policy : bool;
  blocked_by_safety : bool;
  rej_reason : ReasonCode.t;
  blocking_subject : Subject
}.

Definition rejected (reason : ReasonCode.t) : Rejection :=
  mkRejection false false false reason default_subject.
Definition unknown (reason : ReasonCode.t) (s : Subject) : Rejection :=
  mkRejection true false false reason s.
Definition unsafe : Rejection :=
  mkRejection false false true ReasonCode.VALIDATION_SAFETY_VIOLATION default_subject.
Definition restricted : Rejection :=
  mkRejection false true false ReasonCode.REQUEST_POLICY_RESTRICTED_ACTION default_subject.

Abbreviation Step := (result Rejection) (only parsing).

Record Node := mkSearchNode {
  nd_state : FabricState;
  nd_holds : HoldProfile;
  nd_parent : option nat;
  nd_action_index : nat;
  nd_depth : Z;
  nd_incompleteness : Z;
  nd_objective : ObjectiveVector
}.

Section Search.
Context (d : FabricDefinition) (ix : Indexer) (c : Compiled) (policy : PlanPolicy)
  (table : list (EvidenceKey * SubjectResolution)).

(** ** Goals and preconditions *)

Definition goal_satisfied (s : FabricState) (g : GoalSpec) : bool :=
  match subject_index ix (goal_subject g) with
  | None => false
  | Some i =>
      match goal_kind g with
      | GoalKind.LINK_OPERATIONAL =>
          negb ((link_known s !!! i =? 0) || (link_operational s !!! i =? 0))
      | GoalKind.NODE_OPERATIONAL =>
          negb ((node_known s !!! i =? 0) || (node_operational s !!! i =? 0))
      | GoalKind.RESOURCE_RESTORED =>
          negb ((resource_known s !!! i =? 0) || (resource_restored s !!! i =? 0))
      | GoalKind.SERVICE_REACHABLE_AT_LEAST =>
          negb ((service_known s !!! i =? 0) || (service_reachable s !!! i <? goal_value g))
      | GoalKind.COUNT => false
      end
  end.

Definition goals_satisfied (s : FabricState) : bool := forallb (goal_satisfied s) (goals d).

(** [precondition_holds]: ([known], [holds]). *)
Definition precondition_holds (s : FabricState) (p : Precondition) : bool * bool :=
  match subject_index ix (pre_subject p) with
  | None => (false, false)
  | Some i =>
      let guarded (known : bool) (test : bool) := (known, known && test) in
      match pre_kind p with
      | PreconditionKind.LINK_OPERATIONAL =>
          guarded (negb (link_known s !!! i =? 0)) (negb (link_operational s !!! i =? 0))
      | PreconditionKind.LINK_NOT_OPERATIONAL =>
          guarded (negb (link_known s !!! i =? 0)) (link_operational s !!! i =? 0)
      | PreconditionKind.NODE_OPERATIONAL =>
          guarded (negb (node_known s !!! i =? 0)) (negb (node_operational s !!! i =? 0))
      | PreconditionKind.NODE_NOT_OPERATIONAL =>
          guarded (negb (node_known s !!! i =? 0)) (node_operational s !!! i =? 0)
      | PreconditionKind.SERVICE_REACHABLE_AT_LEAST =>
          guarded (negb (service_known s !!! i =? 0)) (pre_value p <=? service_reachable s !!! i)
      | PreconditionKind.SERVICE_REACHABLE_AT_MOST =>
          guarded (negb (service_known s !!! i =? 0)) (service_reachable s !!! i <=? pre_value p)
      | PreconditionKind.RESOURCE_AVAILABLE_AT_LEAST =>
          guarded (negb (resource_known s !!! i =? 0)) (pre_value p <=? resource_available s !!! i)
      | PreconditionKind.ACTION_EXECUTED_AT_LEAST =>
          (true, pre_value p <=? action_occurrences s !!! i)
      | PreconditionKind.COUNT => (false, false)
      end
  end.

Definition evidence_kind_for_precondition (kind : PreconditionKind.t) : EvidenceKind.t :=
  match kind with
  | PreconditionKind.LINK_OPERATIONAL | PreconditionKind.LINK_NOT_OPERATIONAL =>
      EvidenceKind.LINK_OPERATIONAL
  | PreconditionKind.NODE_OPERATIONAL | PreconditionKind.NODE_NOT_OPERATIONAL =>
      EvidenceKind.NODE_OPERATIONAL
  | PreconditionKind.SERVICE_REACHABLE_AT_LEAST | PreconditionKind.SERVICE_REACHABLE_AT_MOST =>
      EvidenceKind.SERVICE_REACHABLE_ENDPOINTS
  | PreconditionKind.RESOURCE_AVAILABLE_AT_LEAST => EvidenceKind.RESOURCE_AVAILABLE_UNITS
  | PreconditionKind.ACTION_EXECUTED_AT_LEAST | PreconditionKind.COUNT => EvidenceKind.COUNT
  end.

Definition resolution_for (p : Precondition) : option SubjectResolution :=
  let kind := evidence_kind_for_precondition (pre_kind p) in
  if decide (kind = EvidenceKind.COUNT) then None
  else table_find (mkEvidenceKey kind (pre_subject p)) table.

(** ** [Search::apply], part by part *)

(** The dependency loop. *)
Definition check_dependency (s : FabricState) (x : option nat * ActionDependency)
  : Step unit :=
  require match x.1 with
          | None => false
          | Some predecessor =>
              (Z.of_nat predecessor <? sizez (actions d)) &&
              negb (action_occurrences s !!! predecessor <? dep_min_occurrences x.2)
          end (rejected ReasonCode.VALIDATION_ORDERING_VIOLATION).

Definition selected_in (s : FabricState) (group : nat) : Z :=
  sizez (filter (fun member => 0 < action_occurrences s !!! member) (group_members c !!! group)).

(** The exclusion loop, run only before an action's first occurrence. *)
Definition check_exclusion (s : FabricState) (group : nat) : Step unit :=
  require (selected_in s group <? max_selected (groups d !!! group))
    (rejected ReasonCode.VALIDATION_EXCLUSION_VIOLATION).

(** The precondition loop; it collects the evidence bindings. *)
Definition check_precondition (s : FabricState) (bindings : list EvidenceBinding)
  (p : Precondition) : Step (list EvidenceBinding) :=
  let '(known, holds) := precondition_holds s p in
  if negb known then Err (unknown ReasonCode.EVIDENCE_SUBJECT_MISSING (pre_subject p))
  else if negb holds then Err (rejected ReasonCode.VALIDATION_PRECONDITION_UNMET)
  else if decide (pre_kind p = PreconditionKind.ACTION_EXECUTED_AT_LEAST) then Ok bindings
  else match resolution_for p with
       | Some r =>
           if decide (res_state r = SubjectState.RESOLVED)
           then Ok (bindings ++ [mkEvidenceBinding (res_kind r) (res_subject r) (res_generation r)])
           else Ok bindings
       | None => Ok bindings
       end.

Definition held_units (holds : HoldProfile) (i : nat) : Z :=
  fold_left (fun held h => if hold_resource_index h =? Z.of_nat i then u64 (held + hold_units h)
                           else held) holds 0.

(** The resource loop. An index that names no resource is read from the
    definition's vector out of range; validated definitions have none. *)
Definition check_use (s : FabricState) (holds : HoldProfile) (x : option nat * ResourceUse)
  : Step unit :=
  let i := default 0%nat x.1 in
  let use := x.2 in
  let resource := resources d !!! i in
  if decide (resource_kind resource = ResourceKind.CONSUMABLE) then
    if resource_known s !!! i =? 0
    then Err (unknown ReasonCode.NONE (subject_of_resource (resource_id resource)))
    else require (negb (resource_available s !!! i <? use_units use))
           (rejected ReasonCode.VALIDATION_RESOURCE_VIOLATION)
  else require (negb (capacity resource <? u64 (held_units holds i + use_units use)))
         (rejected ReasonCode.VALIDATION_RESOURCE_VIOLATION).

(** Keeps the mask of a service whose reachability moves by a delta. *)
Definition set_reachable (s : FabricState) (i : nat) (v : Z) : FabricState :=
  mkState (node_operational s) (link_operational s) (resource_restored s)
    (resource_available s) (<[i:=v]> (service_reachable s)) (action_occurrences s)
    (node_known s) (link_known s) (resource_known s) (service_known s) (tick s).

Definition apply_effect (s : FabricState) (e : Effect) : Step FabricState :=
  match subject_index ix (eff_subject e) with
  | None => Err (rejected ReasonCode.REQUEST_UNSUPPORTED_PROBLEM)
  | Some i =>
      match eff_kind e with
      | EffectKind.SET_LINK_OPERATIONAL => Ok (set_link s i (flag (eff_value e)))
      | EffectKind.SET_NODE_OPERATIONAL => Ok (set_node s i (flag (eff_value e)))
      | EffectKind.SET_SERVICE_REACHABLE =>
          if max_reachable (services d !!! i) <? u64 (eff_value e) then Err unsafe
          else Ok (set_service s i (u32 (eff_value e)))
      | EffectKind.SERVICE_REACHABLE_DELTA =>
          if service_known s !!! i =? 0 then
            if 0 <? required_reachable (services d !!! i)
            then Err (unknown ReasonCode.NONE (eff_subject e))
            else Ok s
          else
            let updated := i64 (service_reachable s !!! i + eff_value e) in
            if (updated <? 0) || (max_reachable (services d !!! i) <? u64 updated) then Err unsafe
            else Ok (set_reachable s i (u32 updated))
      | EffectKind.MARK_RESOURCE_RESTORED => Ok (set_restored s i 1)
      | EffectKind.SET_RESOURCE_AVAILABLE =>
          if capacity (resources d !!! i) <? u64 (eff_value e)
          then Err (rejected ReasonCode.VALIDATION_RESOURCE_VIOLATION)
          else Ok (set_available s i (u32 (eff_value e)))
      | EffectKind.COUNT => Err (rejected ReasonCode.REQUEST_UNSUPPORTED_PROBLEM)
      end
  end.

(** [next.resource_available[i] -= units] on unsigned 32-bit integers. *)
Definition consume (s : FabricState) (x : option nat * ResourceUse) : FabricState :=
  let i := default 0%nat x.1 in
  if decide (resource_kind (resources d !!! i) = ResourceKind.CONSUMABLE) then
    mkState (node_operational s) (link_operational s) (resource_restored s)
      (<[i:=u32 (resource_available s !!! i - use_units x.2)]> (resource_available s))
      (service_reachable s) (action_occurrences s) (node_known s) (link_known s)
      (resource_known s) (service_known s) (tick s)
  else s.

Definition decay (holds : HoldProfile) : HoldProfile :=
  map (fun h => mkHold (hold_resource_index h) (hold_units h) (hold_remaining_steps h - 1))
    (filter (fun h => 1 < hold_remaining_steps h) holds).

Definition new_hold (x : option nat * ResourceUse) : option ResourceHold :=
  let i := default 0%nat x.1 in
  let resource := resources d !!! i in
  if decide (resource_kind resource = ResourceKind.REUSABLE) then
    if hold_steps resource <=? 1 then None
    else Some (mkHold (Z.of_nat i) (use_units x.2) (hold_steps resource - 1))
  else None.

Definition next_holds (holds : HoldProfile) (uses : list (option nat * ResourceUse))
  : HoldProfile := sort_by (lt_on hold_key) (decay holds ++ omap new_hold uses).

Definition finish (s : FabricState) (action_index : nat) (executed tick : Z) : FabricState :=
  mkState (node_operational s) (link_operational s) (resource_restored s)
    (resource_available s) (service_reachable s)
    (<[action_index:=u32 (executed + 1)]> (action_occurrences s))
    (node_known s) (link_known s) (resource_known s) (service_known s) tick.

Definition delta_of (a : ActionSpec) (before after : Z) : ObjectiveVector :=
  mkObjective [0; 0; if before <? after then after - before else 0; blast_radius a; 1;
               disruption a; cost_units a; duration_ticks a].

(** [Search::apply] on the state, holds and cached incompleteness of a node. *)
Definition apply (s : FabricState) (holds : HoldProfile) (incompleteness_before : Z)
  (action_index : nat) : Step Transition :=
  let a := actions d !!! action_index in
  let uses := zip (action_resource_indices c !!! action_index) (resource_uses a) in
  let executed := action_occurrences s !!! action_index in
  let* _ := require (executed <? max_occurrences a)
              (rejected ReasonCode.VALIDATION_OCCURRENCE_EXCEEDED) in
  let* _ := checkM (check_dependency s)
              (zip (action_dependency_indices c !!! action_index) (dependencies a)) in
  let* _ := if executed =? 0
            then checkM (check_exclusion s) (action_group_indices c !!! action_index)
            else Ok tt in
  let* bindings := foldM (check_precondition s) [] (preconditions a) in
  let* _ := checkM (check_use s holds) uses in
  let* affected := foldM apply_effect s (effects a) in
  let consumed := fold_left consume uses affected in
  let* _ := require (floor_gap d consumed <=? floor_gap d s) unsafe in
  let* _ := require (negb (bool_decide (reversibility a = Reversibility.IRREVERSIBLE) &&
                           negb (allow_irreversible_actions policy))) restricted in
  match add_overflow (tick consumed) (duration_ticks a) with
  | None => Err (rejected ReasonCode.REQUEST_UNSUPPORTED_PROBLEM)
  | Some end_tick =>
      let next := finish consumed action_index executed end_tick in
      Ok (mkTransition next (next_holds holds uses)
            (delta_of a incompleteness_before (incompleteness d next))
            (unique_adj (sort_by evidence_binding_lt bindings))
            (u32 (executed + 1)) (tick s) end_tick)
  end.
End Search.

(** ** Keys *)

Definition encode_hold (h : ResourceHold) : list Z :=
  w_u32 (hold_resource_index h) ++ w_u32 (hold_units h) ++ w_u32 (hold_remaining_steps h).

(** [Search::key_of] *)
Definition key_of (s : FabricState) (holds : HoldProfile) : list Z :=
  encode_state s ++ w_list encode_hold holds.

(** ** Executions

    The specification side of the search: running a sequence of action indices
    from a state, with the objective accumulated in unbounded integers. *)
Record Run := mkRun { run_state : FabricState; run_holds : HoldProfile; run_cost : list Z }.

Section Exec.
Context (d : FabricDefinition) (ix : Indexer) (c : Compiled) (policy : PlanPolicy)
  (table : list (EvidenceKey * SubjectResolution)).

Definition exec_step (r : Run) (k : nat) : Step Run :=
  if decide (k < length (actions d))%nat then
    let* t := apply d ix c policy table (run_state r) (run_holds r)
                (incompleteness d (run_state r)) k in
    Ok (mkRun (tr_state t) (tr_holds t)
          (zip_with Z.add (run_cost r) (component (tr_delta t))))
  else Err (rejected ReasonCode.REQUEST_UNSUPPORTED_PROBLEM).

Definition exec (root : FabricState) (path : list nat) : Step Run :=
  foldM exec_step (mkRun root [] (replicate 8 0)) path.
End Exec.

(** ** Invariants *)

Record state_ok (d : FabricDefinition) (s : FabricState) : Prop := {
  sok_shape : state_shape d s;
  sok_typed : state_typed s;
  sok_services : services_bounded d s
}.

Record hold_typed (h : ResourceHold) : Prop := {
  hty_index : in_u32 (hold_resource_index h);
  hty_units : in_u32 (hold_units h);
  hty_steps : in_u32 (hold_remaining_steps h)
}.

Definition occurrence_sum (s : FabricState) : Z := foldr Z.add 0 (action_occurrences s).

(** Values only ever become known. *)
Record known_grows (s s' : FabricState) : Prop := {
  kg_node i : node_known s !!! i <> 0 -> node_known s' !!! i <> 0;
  kg_link i : link_known s !!! i <> 0 -> link_known s' !!! i <> 0;
  kg_resource i : resource_known s !!! i <> 0 -> resource_known s' !!! i <> 0;
  kg_service i : service_known s !!! i <> 0 -> service_known s' !!! i <> 0
}.

(** ** Lemmas *)

Section Frame.
Context (d : FabricDefinition).
Let ix := indexer_build d.

Ltac effect_cases H :=
  unfold apply_effect in H;
  destruct (subject_index _ _) as [i|] eqn:Hi; [|discriminate];
  destruct (eff_kind _) eqn:Hk;
  repeat match type of H with
  | context [if ?b then _ else _] => destruct b eqn:?; try discriminate
  end;
  try discriminate; injection H as <-.

(** Truncating to 32 bits never exceeds truncating to 64. *)
Lemma u32_le_u64 z : u32 z <= u64 z.
Proof.
  rewrite u64_mod. unfold u32.
  assert (He : z mod 2 ^ 32 = (z mod 2 ^ 64) mod 2 ^ 32).
  { rewrite (Z.mod_eq z (2 ^ 64)) by lia.
    replace (z - 2 ^ 64 * (z / 2 ^ 64)) with (z + (- (2 ^ 32) * (z / 2 ^ 64)) * 2 ^ 32) by ring.
    by rewrite Z.mod_add by lia. }
  rewrite He. apply Z.mod_le; [|lia]. apply Z.mod_pos_bound. lia.
Qed.

(** What no effect touches. *)
Lemma apply_effect_frame s e s' :
  apply_effect d ix s e = Ok s' -> action_occurrences s' = action_occurrences s /\ tick s' = tick s.
Proof. intros H. effect_cases H; done. Qed.

Lemma apply_effect_ok s e s' :
  state_ok d s -> apply_effect d ix s e = Ok s' -> state_ok d s'.
Proof.
  intros [[] [] Hsb] H.
  pose proof (fun v => flag_u8 v) as Hflag.
  assert (in_u8 1) by (unfold in_u8; lia).
  effect_cases H;
    (split; [split; simpl; rewrite ?length_insert; done
            |split; simpl; auto with nrp|]); try done.
  all: intros j Hj; simpl; try (by apply Hsb).
  all: bool_cases; rewrite lookup_insert_cases by congruence; case_decide; [subst|by apply Hsb].
  - etransitivity; [|eassumption]. apply u32_le_u64.
  - etransitivity; [|eassumption]. apply u32_le_u64.
Qed.

Lemma consume_frame s x :
  action_occurrences (consume d s x) = action_occurrences s /\ tick (consume d s x) = tick s /\
  service_known (consume d s x) = service_known s /\
  service_reachable (consume d s x) = service_reachable s.
Proof. unfold consume. by case_decide. Qed.

Lemma consume_ok s x : state_ok d s -> state_ok d (consume d s x).
Proof.
  intros [[] [] Hsb]. unfold consume. case_decide; [|done].
  split; [split; simpl; rewrite ?length_insert; done|split; simpl; auto with nrp|done].
Qed.

Lemma fold_consume_frame xs s :
  let s' := fold_left (consume d) xs s in
  action_occurrences s' = action_occurrences s /\ tick s' = tick s /\
  service_known s' = service_known s /\ service_reachable s' = service_reachable s.
Proof.
  revert s; induction xs as [|x xs IH]; intros s; simpl; [done|].
  destruct (IH (consume d s x)) as (-> & -> & -> & ->). apply consume_frame.
Qed.

Lemma fold_consume_ok xs s : state_ok d s -> state_ok d (fold_left (consume d) xs s).
Proof. revert s; induction xs; intros s Hs; simpl; auto using consume_ok. Qed.

Lemma finish_ok s k executed t :
  state_ok d s -> in_u64 t -> state_ok d (finish s k executed t).
Proof.
  intros [[] [] Hsb] Ht. unfold finish.
  split; [split; simpl; rewrite ?length_insert; done|split; simpl; auto with nrp|done].
Qed.

Lemma foldM_effects_frame es s s' :
  foldM (apply_effect d ix) s es = Ok s' ->
  action_occurrences s' = action_occurrences s /\ tick s' = tick s.
Proof.
  apply (foldM_rel (fun s s' => action_occurrences s' = action_occurrences s /\ tick s' = tick s)).
  - done.
  - intros t u v [? ?] [? ?]. split; congruence.
  - intros t x t' _. apply apply_effect_frame.
Qed.

Lemma foldM_effects_ok es s s' :
  state_ok d s -> foldM (apply_effect d ix) s es = Ok s' -> state_ok d s'.
Proof.
  intros Hs. apply (foldM_ind (state_ok d)); [|done].
  intros t x t' _ Ht Hx. by eapply apply_effect_ok.
Qed.
End Frame.

(** ** The step as a whole *)

Section Apply.
Context (d : FabricDefinition) (policy : PlanPolicy)
  (table : list (EvidenceKey * SubjectResolution)).
Let ix := indexer_build d.
Let c := compiled_build d ix.

Abbreviation apply := (apply d ix c policy table).

(** Everything a successful step has checked, and what it returns. *)
Record step_facts (s : FabricState) (holds : list ResourceHold) (inc : Z) (k : nat)
  (t : Transition) : Prop := {
  sf_action := actions d !!! k;
  sf_uses := zip (action_resource_indices c !!! k) (resource_uses (actions d !!! k));
  sf_occurrence : action_occurrences s !!! k < max_occurrences sf_action;
  sf_dependencies : Forall (fun x => check_dependency d s x = Ok tt)
    (zip (action_dependency_indices c !!! k) (dependencies sf_action));
  sf_exclusion : action_occurrences s !!! k = 0 ->
    Forall (fun g => check_exclusion d c s g = Ok tt) (action_group_indices c !!! k);
  sf_preconditions : exists bindings,
    foldM (check_precondition ix table s) [] (preconditions sf_action) = Ok bindings /\
    tr_bindings t = unique_adj (sort_by evidence_binding_lt bindings);
  sf_resources : Forall (fun x => check_use d s holds x = Ok tt) sf_uses;
  sf_effects : exists affected, foldM (apply_effect d ix) s (effects sf_action) = Ok affected /\
    tr_state t = finish (fold_left (consume d) sf_uses affected) k (action_occurrences s !!! k)
                   (tr_end_tick t) /\
    floor_gap d (fold_left (consume d) sf_uses affected) <= floor_gap d s /\
    add_overflow (tick s) (duration_ticks sf_action) = Some (tr_end_tick t);
  sf_policy : reversibility sf_action = Reversibility.IRREVERSIBLE ->
    allow_irreversible_actions policy = true;
  sf_holds : tr_holds t = next_holds d holds sf_uses;
  sf_delta : tr_delta t = delta_of sf_action inc (incompleteness d (tr_state t));
  sf_number : tr_occurrence t = u32 (action_occurrences s !!! k + 1);
  sf_start : tr_start_tick t = tick s
}.

Lemma apply_inv s holds inc k t : apply s holds inc k = Ok t -> step_facts s holds inc k t.
Proof.
  unfold apply, Transition.apply. cbv zeta. intros H. invert_ok.
  destruct (add_overflow _ _) as [end_tick|] eqn:Hadd; [|discriminate].
  injection H as <-. bool_cases.
  match goal with He : foldM (apply_effect _ _) _ _ = Ok _ |- _ =>
    pose proof (foldM_effects_frame d _ _ _ He) as [_ Htick] end.
  edestruct (fold_consume_frame d) as (_ & Htick' & _). rewrite Htick', Htick in Hadd.
  split; simpl; try done.
  - by apply checkM_ok.
  - intros H0. rewrite H0 in *. simpl in *. by apply checkM_ok.
  - by eexists.
  - by apply checkM_ok.
  - eexists. split_and!; try done.
  - intros Hr. rewrite bool_decide_eq_true_2 in * by done. simpl in *. bool_cases. done.
Qed.

Context (Hd : definition_typed d).

Lemma action_typed_at k : (k < length (actions d))%nat -> action_typed (actions d !!! k).
Proof. intros Hk. apply Forall_lookup_total; [apply Hd|done]. Qed.

Lemma apply_state_ok s holds inc k t :
  state_ok d s -> (k < length (actions d))%nat -> apply s holds inc k = Ok t ->
  state_ok d (tr_state t) /\ tr_end_tick t = tick s + duration_ticks (actions d !!! k).
Proof.
  intros Hs Hk H%apply_inv. destruct H. destruct sf_effects0 as (affected & He & Hst & _ & Hadd).
  apply add_overflow_Some in Hadd as [Hend Hadd];
    [|apply Hs|apply (aty_duration _ (action_typed_at k Hk))].
  split; [|done]. rewrite Hst. apply finish_ok; [|exact Hadd]. apply fold_consume_ok.
  by eapply foldM_effects_ok.
Qed.

(** Exactly one occurrence is counted, exactly. *)
Lemma apply_occurrences s holds inc k t :
  state_ok d s -> (k < length (actions d))%nat -> apply s holds inc k = Ok t ->
  action_occurrences (tr_state t) =
    <[k := action_occurrences s !!! k + 1]> (action_occurrences s) /\
  tr_occurrence t = action_occurrences s !!! k + 1.
Proof.
  intros Hs Hk H%apply_inv. destruct H. destruct sf_effects0 as (affected & He & Hst & _).
  assert (Hu : u32 (action_occurrences s !!! k + 1) = action_occurrences s !!! k + 1).
  { apply u32_small. unfold in_u32.
    pose proof (aty_occurrences _ (action_typed_at k Hk)) as Hm. unfold in_u32 in Hm.
    destruct Hs as [[] [] _].
    assert (in_u32 (action_occurrences s !!! k)) as Ho
      by (apply Forall_lookup_total; [done|congruence]).
    unfold in_u32 in Ho. subst sf_action0. lia. }
  rewrite sf_number0, Hu. split; [|done]. rewrite Hst.
  destruct (fold_consume_frame d sf_uses0 affected) as (Ho & _).
  apply foldM_effects_frame in He as [He _].
  unfold finish. simpl. by rewrite Hu, Ho, He.
Qed.

Lemma insert_sum (l : list Z) k v :
  (k < length l)%nat -> foldr Z.add 0 (<[k:=v]> l) = foldr Z.add 0 l - l !!! k + v.
Proof.
  revert k; induction l as [|x l IH]; intros [|k] Hk; simpl in *; try lia.
  rewrite IH by lia. lia.
Qed.

Lemma apply_occurrence_sum s holds inc k t :
  state_ok d s -> (k < length (actions d))%nat -> apply s holds inc k = Ok t ->
  occurrence_sum (tr_state t) = occurrence_sum s + 1.
Proof.
  intros Hs Hk H. unfold occurrence_sum.
  destruct (apply_occurrences s holds inc k t) as [-> _]; try done.
  rewrite insert_sum; [lia|]. by rewrite (ssh_occurrences d s (sok_shape d s Hs)).
Qed.

Lemma floor_gap_congr s s' :
  service_known s = service_known s' -> service_reachable s = service_reachable s' ->
  forall level, sum_shortfall level d s = sum_shortfall level d s'.
Proof. intros Hk Hr level. unfold sum_shortfall. by rewrite Hk, Hr. Qed.

(** The protected floors never get worse. *)
Lemma apply_floor_gap s holds inc k t :
  apply s holds inc k = Ok t -> floor_gap d (tr_state t) <= floor_gap d s.
Proof.
  intros H%apply_inv. destruct H. destruct sf_effects0 as (affected & _ & Hst & Hle & _).
  rewrite Hst. etransitivity; [|exact Hle]. apply Z.eq_le_incl. by apply floor_gap_congr.
Qed.

Lemma sum_shortfall_range level s : in_u64 (sum_shortfall level d s).
Proof.
  unfold sum_shortfall. generalize (seq 0 (length (services d))) as l. intros l.
  assert (H : in_u64 0) by (unfold in_u64; lia). revert H. generalize 0.
  induction l as [|x l IH]; intros z Hz; simpl; [done|]. apply IH, u64_range.
Qed.

(** The cost of a step: safe, one action, eight components that fit. *)
Lemma apply_delta s holds inc k t :
  in_u64 inc -> (k < length (actions d))%nat -> apply s holds inc k = Ok t ->
  objective_wf (tr_delta t) /\ component (tr_delta t) !!! 4%nat = 1 /\
  is_safety_clean (tr_delta t) = true.
Proof.
  intros Hinc Hk H%apply_inv. destruct H. rewrite sf_delta0. simpl.
  destruct (action_typed_at k Hk).
  pose proof (sum_shortfall_range target_reachable (tr_state t)) as Hr.
  split; [|split; done]. split; [done|]. unfold delta_of. simpl.
  assert (forall z, in_u32 z -> in_u64 z) by (unfold in_u32, in_u64; lia).
  assert (in_u64 (if inc <? incompleteness d (tr_state t)
                  then incompleteness d (tr_state t) - inc else 0)).
  { unfold incompleteness. unfold in_u64 in *. destruct (Z.ltb_spec inc (sum_shortfall target_reachable d (tr_state t))); lia. }
  repeat (apply Forall_cons; split); auto; unfold in_u64; lia.
Qed.

Lemma known_grows_refl s : known_grows s s.
Proof. by split. Qed.

Lemma compiled_resource_index k :
  (k < length (actions d))%nat ->
  action_resource_indices c !!! k =
    map (fun use => index_of (use_resource use) (resource_ids ix)) (resource_uses (actions d !!! k)).
Proof.
  intros Hk. unfold c, compiled_build. destruct (fold_left _ _ _). cbn [action_resource_indices].
  by rewrite lookup_total_map.
Qed.

Lemma new_hold_typed x h :
  sizez (resources d) < 2 ^ 32 -> in_u32 (use_units x.2) ->
  (forall i, x.1 = Some i -> (i < length (resources d))%nat) ->
  new_hold d x = Some h -> hold_typed h.
Proof.
  intros Hsz Hu Hi. unfold new_hold. cbv zeta.
  destruct (decide (resource_kind _ = _)) as [Hk|]; [|done].
  destruct (Z.leb_spec (hold_steps (resources d !!! default 0%nat x.1)) 1) as [|Hs]; [done|].
  intros [= <-].
  assert (Hlt : (default 0%nat x.1 < length (resources d))%nat).
  { destruct x.1 as [i|]; simpl in *; [by apply Hi|].
    destruct (resources d); [done|]. simpl. lia. }
  pose proof (Forall_lookup_total _ _ _ (dty_resources d Hd) Hlt) as (_ & _ & Hst).
  unfold sizez in Hsz. split; simpl; [unfold in_u32; lia|done|].
  unfold in_u32 in *. lia.
Qed.

Lemma apply_holds_typed s holds inc k t :
  sizez (resources d) < 2 ^ 32 -> (k < length (actions d))%nat ->
  Forall hold_typed holds -> apply s holds inc k = Ok t -> Forall hold_typed (tr_holds t).
Proof.
  intros Hsz Hk Hh H%apply_inv. destruct H. rewrite sf_holds0. unfold next_holds.
  rewrite (sort_by_perm (lt_on hold_key)). apply Forall_app. split.
  - unfold decay. apply Forall_map. apply Forall_forall. intros h. rewrite list_elem_of_filter.
    rewrite Forall_forall in Hh. intros [Hr Hin]. destruct (Hh h Hin) as [? ? Hs].
    split; simpl; try done. unfold in_u32 in *. lia.
  - apply Forall_forall. intros h (x & Hx & Hnew)%list_elem_of_omap. subst sf_uses0.
    rewrite compiled_resource_index in Hx by done. apply zip_map_elem in Hx as [Hx Hu].
    pose proof (aty_uses _ (action_typed_at k Hk)) as Huses. rewrite Forall_forall in Huses.
    destruct (Huses _ Hu) as [_ Hunits]. apply (new_hold_typed x h Hsz); [done| |done].
    intros i Hi. rewrite Hx in Hi. exact (index_of_bound _ _ _ _ Hi).
Qed.
End Apply.

(** ** Keys *)

Lemma encode_hold_inj h h' :
  hold_typed h -> hold_typed h' -> encode_hold h = encode_hold h' -> h = h'.
Proof.
  intros [? ? ?] [? ? ?] He. unfold encode_hold in He.
  apply app_inj_1 in He as [H1 He]; [|done]. apply app_inj_1 in He as [H2 H3]; [|done].
  destruct h, h'. simpl in *. f_equal; by apply w_u32_inj.
Qed.

(** A step of the chain of fields of a state key. *)
Ltac next_field w n inj H :=
  apply (w_list_app_inj w n _ (fun _ => eq_refl) ltac:(done) inj) in H as [? H];
  [|done|done|congruence].

Lemma key_of_inj d s s' h h' :
  state_ok d s -> state_ok d s' -> Forall hold_typed h -> Forall hold_typed h' ->
  key_of s h = key_of s' h' -> s = s' /\ h = h'.
Proof.
  intros [[] [] _] [[] [] _] Hh Hh' He. unfold key_of, encode_state in He.
  rewrite <- !app_assoc in He.
  do 3 next_field w_u8 1%nat w_u8_inj He. do 3 next_field w_u32 4%nat w_u32_inj He.
  do 4 next_field w_u8 1%nat w_u8_inj He.
  apply app_inj_1 in He as [Ht He]; [|done]. apply w_u64_inj in Ht; [|done|done].
  apply (w_list_inj encode_hold 12%nat hold_typed) in He; auto using encode_hold_inj.
  split; [|done]. destruct s, s'. simpl in *. by subst.
Qed.

(** ** Resource accounting *)

(** The uses of an action name distinct resources and no effect of the action
    sets the availability of a resource it uses. *)
Definition uses_separate (a : ActionSpec) : Prop :=
  NoDup (map use_resource (resource_uses a)) /\
  forall e, e ∈ effects a -> eff_kind e = EffectKind.SET_RESOURCE_AVAILABLE ->
            subject_id (eff_subject e) ∉ map use_resource (resource_uses a).

(** A step that does not touch resource [i], or sets it within its capacity. *)
Definition availability_frame (d : FabricDefinition) (i : nat) (s s' : FabricState) : Prop :=
  length (resource_available s') = length (resource_available s) /\
  resource_available s' !!! i = resource_available s !!! i.

Section Resources.
Context (d : FabricDefinition).
Let ix := indexer_build d.

Lemma apply_effect_available s e s' i id :
  apply_effect d ix s e = Ok s' -> resource_ids ix !! i = Some id ->
  subject_kind (eff_subject e) = effect_expected_subject (eff_kind e) ->
  (eff_kind e = EffectKind.SET_RESOURCE_AVAILABLE -> subject_id (eff_subject e) <> id) ->
  availability_frame d i s s'.
Proof.
  intros H Hid Hkind Hne. unfold apply_effect in H.
  destruct (subject_index _ _) as [j|] eqn:Hj; [|discriminate].
  destruct (eff_kind e) eqn:Hk;
    repeat match type of H with context [if ?b then _ else _] => destruct b eqn:? end;
    try discriminate; injection H as <-; try (split; done).
  split; simpl; [by rewrite length_insert|]. apply lookup_total_insert_ne. intros ->.
  unfold subject_index in Hj. rewrite Hkind in Hj. simpl in Hj.
  apply index_of_Some in Hj. apply Hne; [done|].
  assert (Some id = Some (subject_id (eff_subject e))) as [= ->]; [|done].
  rewrite <- Hid. exact Hj.
Qed.

Lemma effects_available es s s' i id :
  foldM (apply_effect d ix) s es = Ok s' -> resource_ids ix !! i = Some id ->
  Forall (fun e => subject_kind (eff_subject e) = effect_expected_subject (eff_kind e)) es ->
  (forall e, e ∈ es -> eff_kind e = EffectKind.SET_RESOURCE_AVAILABLE ->
             subject_id (eff_subject e) <> id) ->
  availability_frame d i s s'.
Proof.
  intros H Hid Hk Hne. revert H. apply (foldM_rel (availability_frame d i)).
  - done.
  - intros t u v [? ?] [? ?]. split; congruence.
  - intros t e t' He Ht. eapply apply_effect_available; eauto.
    rewrite Forall_forall in Hk. auto.
Qed.

(** Effects keep every availability within the capacity. *)
Lemma apply_effect_bounded s e s' :
  state_shape d s -> resources_bounded d s -> apply_effect d ix s e = Ok s' ->
  resources_bounded d s'.
Proof.
  intros Hsh Hb H. unfold apply_effect in H.
  destruct (subject_index _ _) as [j|] eqn:Hj; [|discriminate].
  destruct (eff_kind e) eqn:Hk;
    repeat match type of H with context [if ?b then _ else _] => destruct b eqn:? end;
    try discriminate; injection H as <-; try exact Hb.
  intros i Hi. simpl. rewrite lookup_insert_cases by (by rewrite (ssh_available d s Hsh)).
  case_decide; [subst|by apply Hb]. bool_cases. etransitivity; [apply u32_le_u64|done].
Qed.

Lemma consume_available s i u j :
  (j < length (resource_available s))%nat ->
  resource_available (consume d s (Some i, u)) !!! j =
    if decide (i = j /\ resource_kind (resources d !!! i) = ResourceKind.CONSUMABLE)
    then u32 (resource_available s !!! j - use_units u) else resource_available s !!! j.
Proof.
  intros Hj. unfold consume. simpl. destruct (decide (resource_kind _ = _)) as [Hk|Hk].
  - simpl. rewrite lookup_insert_cases by done.
    destruct (decide (i = j)) as [->|Hne]; [by rewrite decide_True|].
    rewrite decide_False by (by intros [? _]). done.
  - rewrite decide_False by (by intros [_ ?]). done.
Qed.

Lemma consume_length s x :
  length (resource_available (consume d s x)) = length (resource_available s).
Proof. unfold consume. case_decide; [apply length_insert|done]. Qed.

Lemma fold_consume_other xs s j :
  (forall x, x ∈ xs -> is_Some x.1) ->
  (forall x, x ∈ xs -> x.1 = Some j ->
             resource_kind (resources d !!! j) <> ResourceKind.CONSUMABLE) ->
  (j < length (resource_available s))%nat ->
  resource_available (fold_left (consume d) xs s) !!! j = resource_available s !!! j.
Proof.
  revert s; induction xs as [|[o u] xs IH]; intros s Hs Hxs Hj; simpl; [done|].
  destruct (Hs (o, u)) as [i Hi]; [by left|]. simpl in *. subst o.
  rewrite IH; [| | |by rewrite consume_length].
  - rewrite consume_available by done. rewrite decide_False; [done|]. intros [-> Hk].
    apply (Hxs (Some j, u)); [by left|done|done].
  - intros x Hx. apply Hs. by right.
  - intros x Hx. apply Hxs. by right.
Qed.

Lemma fold_consume_at xs s j u :
  NoDup (map fst xs) -> (forall x, x ∈ xs -> is_Some x.1) -> (Some j, u) ∈ xs ->
  (j < length (resource_available s))%nat ->
  resource_available (fold_left (consume d) xs s) !!! j =
    if decide (resource_kind (resources d !!! j) = ResourceKind.CONSUMABLE)
    then u32 (resource_available s !!! j - use_units u) else resource_available s !!! j.
Proof.
  revert s; induction xs as [|[o v] xs IH]; intros s Hnd Hs Hin Hj; [set_solver|].
  simpl. simpl in Hnd. apply NoDup_cons in Hnd as [Hno Hnd].
  assert (Htl : forall x, x ∈ xs -> is_Some x.1) by (intros; apply Hs; by right).
  destruct (Hs (o, v)) as [i Hi]; [by left|]. simpl in Hi. subst o.
  apply elem_of_cons in Hin as [[= -> ->]|Hin].
  - rewrite fold_consume_other; [|done| |by rewrite consume_length].
    + rewrite consume_available by done.
      destruct (decide (resource_kind _ = _)); [by rewrite decide_True|].
      rewrite decide_False by (by intros [_ ?]). done.
    + intros x Hx He. destruct Hno. rewrite <- He. by apply list_elem_of_fmap_2.
  - rewrite IH; [|done|done|done|by rewrite consume_length].
    rewrite consume_available by done.
    rewrite (decide_False (P := i = j /\ _)); [done|]. intros [-> _]. apply Hno.
    apply (list_elem_of_fmap_2 fst) in Hin. exact Hin.
Qed.
End Resources.

(** ** Properties *)

(** A validated definition in canonical order: what the search runs on. *)
Record search_ready (d : FabricDefinition) (l : ModelLimits) : Prop := {
  rdy_typed : definition_typed d;
  rdy_wf : definition_wf l d;
  rdy_ids : canonical_ids d
}.

Lemma example_ready : search_ready example_definition default_model_limits.
Proof.
  split; [apply example_typed|apply example_wf|].
  split; simpl; repeat constructor; done.
Qed.

Lemma declared_use_index d l k u :
  search_ready d l -> (k < length (actions d))%nat -> u ∈ resource_uses (actions d !!! k) ->
  exists i, index_of (use_resource u) (resource_ids (indexer_build d)) = Some i.
Proof.
  intros Hr Hk Hu.
  pose proof (Forall_lookup_total _ _ _ (dwf_action l d (rdy_wf d l Hr)) Hk) as Ha.
  pose proof (awf_uses _ _ _ Ha) as Huses. rewrite Forall_forall in Huses.
  destruct (Huses u Hu) as (r & Hf & _). apply index_of_elem; [apply (rdy_ids d l Hr)|].
  unfold find_resource in Hf.
  apply (find_index_id_is_Some resource_id). unfold resource_index in Hf.
  destruct (find_index _ _); [eauto|done].
Qed.

Lemma uses_zip_indices d l k :
  search_ready d l -> (k < length (actions d))%nat ->
  let uses := zip (action_resource_indices (compiled_build d (indexer_build d)) !!! k)
                (resource_uses (actions d !!! k)) in
  (forall x, x ∈ uses -> is_Some x.1) /\
  (forall u i, u ∈ resource_uses (actions d !!! k) ->
     index_of (use_resource u) (resource_ids (indexer_build d)) = Some i -> (Some i, u) ∈ uses) /\
  (NoDup (map use_resource (resource_uses (actions d !!! k))) -> NoDup (map fst uses)).
Proof.
  intros Hr Hk. cbv zeta. rewrite compiled_resource_index by done.
  assert (Hix : forall u, u ∈ resource_uses (actions d !!! k) -> exists i,
            index_of (use_resource u) (resource_ids (indexer_build d)) = Some i)
    by (intros; by eapply declared_use_index).
  revert Hix. generalize (resource_ids (indexer_build d)) as ids.
  generalize (resource_uses (actions d !!! k)) as us. clear.
  induction us as [|u us IH]; intros ids Hix; simpl.
  { split_and!; [set_solver|set_solver|constructor]. }
  destruct (IH ids) as (IH1 & IH2 & IH3); [intros; apply Hix; by right|].
  split_and!.
  - intros x [->|Hx]%elem_of_cons; [|by apply IH1]. simpl.
    destruct (Hix u) as [i Hi]; [by left|]. rewrite Hi. by exists i.
  - intros v i [->|Hv]%elem_of_cons Hi; [rewrite Hi; by left|]. right. by apply IH2.
  - intros [Hu Hnd]%NoDup_cons. apply NoDup_cons. split; [|by apply IH3].
    intros ([o v] & Hfst & Hin)%list_elem_of_fmap. simpl in Hfst. subst o.
    apply zip_map_elem in Hin as [[= Heq] Hv]. simpl in *.
    destruct (Hix u) as [i Hi]; [by left|]. rewrite Hi in Heq. symmetry in Heq.
    apply index_of_Some in Hi, Heq. apply Hu. rewrite Hi in Heq. injection Heq as ->.
    by apply list_elem_of_fmap_2.
Qed.

Section Consumption.
Context (d : FabricDefinition) (l : ModelLimits) (policy : PlanPolicy)
  (table : list (EvidenceKey * SubjectResolution)) (s : FabricState)
  (holds : list ResourceHold) (inc : Z) (k : nat) (t : Transition).
Abbreviation ix := (indexer_build d).
Abbreviation a := (actions d !!! k).
Context (Hr : search_ready d l) (Hs : state_ok d s) (Hb : resources_bounded d s)
  (Hk : (k < length (actions d))%nat) (Hsep : uses_separate a)
  (Ht : apply d ix (compiled_build d ix) policy table s holds inc k = Ok t).

Lemma consumption_affected :
  exists affected, foldM (apply_effect d ix) s (effects a) = Ok affected /\
    state_ok d affected /\ resources_bounded d affected /\
    resource_available (tr_state t) =
      resource_available (fold_left (consume d)
        (zip (action_resource_indices (compiled_build d ix) !!! k) (resource_uses a)) affected).
Proof.
  destruct (apply_inv _ _ _ _ _ _ _ _ Ht). destruct sf_effects0 as (affected & He & Hst & _).
  exists affected. split; [done|]. split; [by eapply foldM_effects_ok|]. split; [|by rewrite Hst].
  pose proof (foldM_ind (fun s => state_ok d s /\ resources_bounded d s) _ s _ affected
    (fun t x t' _ Ht Hx => conj (apply_effect_ok d t x t' (proj1 Ht) Hx)
       (apply_effect_bounded d t x t' (sok_shape _ _ (proj1 Ht)) (proj2 Ht) Hx))
    (conj Hs Hb) He) as [_ H]. exact H.
Qed.

Lemma use_typed u : u ∈ resource_uses a -> in_u32 (use_units u).
Proof.
  pose proof (aty_uses _ (action_typed_at d (rdy_typed d l Hr) k Hk)) as Hut.
  rewrite Forall_forall in Hut. intros Hu. by destruct (Hut u Hu).
Qed.

Lemma consumption_used u i :
  u ∈ resource_uses a -> index_of (use_resource u) (resource_ids ix) = Some i ->
  resource_kind (resources d !!! i) = ResourceKind.CONSUMABLE ->
  resource_known s !!! i <> 0 /\ use_units u <= resource_available s !!! i /\
  resource_available (tr_state t) !!! i = resource_available s !!! i - use_units u.
Proof.
  intros Hu Hi Hkind. pose proof (index_of_bound _ _ _ _ Hi) as Hlt.
  destruct (uses_zip_indices d l k Hr Hk) as (Hsome & Hin & Hzip).
  destruct Hsep as [Hnd Hset]. specialize (Hzip Hnd). pose proof (Hin u i Hu Hi) as Hx.
  pose proof (sf_resources _ _ _ _ _ _ _ _ (apply_inv _ _ _ _ _ _ _ _ Ht)) as Huse.
  rewrite Forall_forall in Huse. specialize (Huse _ Hx).
  unfold check_use in Huse. simpl in Huse. rewrite decide_True in Huse by done.
  destruct (resource_known s !!! i =? 0) eqn:Hkn; [done|]. invert_ok. bool_cases.
  split; [done|]. split; [done|].
  destruct consumption_affected as (affected & He & Haff & _ & ->).
  rewrite (fold_consume_at d _ affected i u Hzip Hsome Hx)
    by (rewrite (ssh_available d _ (sok_shape d _ Haff)); done).
  rewrite decide_True by done.
  destruct (effects_available d _ s affected i (use_resource u) He) as [_ ->].
  - by apply index_of_Some in Hi.
  - pose proof (Forall_lookup_total _ _ _ (dwf_action l d (rdy_wf d l Hr)) Hk) as Ha.
    eapply Forall_impl; [apply (awf_effects _ _ _ Ha)|]. by intros e (_ & ? & _).
  - intros e Hein Hek Heq. apply (Hset e Hein Hek). rewrite Heq. by apply list_elem_of_fmap_2.
  - apply u32_small. pose proof (use_typed u Hu).
    assert (in_u32 (resource_available s !!! i)) as Hty.
    { apply Forall_lookup_total; [apply Hs|]. by rewrite (ssh_available d s (sok_shape d s Hs)). }
    unfold in_u32 in *. lia.
Qed.

Lemma consumption_bounded : resources_bounded d (tr_state t).
Proof.
  intros j Hj.
  destruct (decide (Exists (fun u => index_of (use_resource u) (resource_ids ix) = Some j /\
    resource_kind (resources d !!! j) = ResourceKind.CONSUMABLE) (resource_uses a)))
    as [(u & Hu & Hi & Hkind)%Exists_exists|Hno].
  - destruct (consumption_used u j Hu Hi Hkind) as (_ & _ & ->).
    pose proof (use_typed u Hu). specialize (Hb j Hj). unfold in_u32 in *. lia.
  - destruct consumption_affected as (affected & _ & Haff & Hbaff & ->).
    destruct (uses_zip_indices d l k Hr Hk) as (Hsome & _ & _).
    rewrite fold_consume_other; [by apply Hbaff|done| |].
    + intros [o u] Hx Ho Hkind. simpl in Ho. subst o. apply Hno, Exists_exists. exists u.
      rewrite compiled_resource_index in Hx by done.
      apply zip_map_elem in Hx as [[= Heq] Hu]. simpl in *. by rewrite <- Heq.
    + by rewrite (ssh_available d _ (sok_shape d _ Haff)).
Qed.
End Consumption.

(** Consumption is exact. When the uses of an action name distinct
    resources and no effect of it sets a resource it uses, an admitted step
    subtracts exactly the declared units of every consumable, which were
    available and known, without wrapping, and keeps every availability within
    its capacity. *)
Theorem apply_consumes_exactly d l policy table s holds inc k t :
  search_ready d l -> state_ok d s -> resources_bounded d s -> (k < length (actions d))%nat ->
  uses_separate (actions d !!! k) ->
  apply d (indexer_build d) (compiled_build d (indexer_build d)) policy table s holds inc k
    = Ok t ->
  resources_bounded d (tr_state t) /\
  forall u i, u ∈ resource_uses (actions d !!! k) ->
    index_of (use_resource u) (resource_ids (indexer_build d)) = Some i ->
    resource_kind (resources d !!! i) = ResourceKind.CONSUMABLE ->
    resource_known s !!! i <> 0 /\ use_units u <= resource_available s !!! i /\
    resource_available (tr_state t) !!! i = resource_available s !!! i - use_units u.
Proof.
  intros Hr Hs Hb Hk Hsep Ht. split.
  - by eapply consumption_bounded.
  - intros u i Hu Hi Hkind. by eapply consumption_used.
Qed.

(** ** Invariants of executions *)

Section Exclusion.
Context (d : FabricDefinition).
Abbreviation ix := (indexer_build d).
Abbreviation c := (compiled_build d ix).

Lemma compiled_groups k :
  (k < length (actions d))%nat -> action_group_indices c !!! k = group_indices_of d (actions d !!! k).
Proof.
  intros Hk. unfold compiled_build. destruct (fold_left _ _ _).
  cbn [action_group_indices]. by rewrite lookup_total_map.
Qed.

Lemma compiled_members g :
  (g < length (groups d))%nat -> group_members c !!! g = members_of d g.
Proof.
  intros Hg. unfold compiled_build. destruct (fold_left _ _ _).
  cbn [group_members]. rewrite lookup_total_map by (by rewrite length_seq).
  f_equal. apply list_lookup_total_correct. by rewrite lookup_seq_lt.
Qed.

Lemma members_of_elem k g :
  k ∈ members_of d g -> (k < length (actions d))%nat /\ g ∈ group_indices_of d (actions d !!! k).
Proof.
  unfold members_of. intros Hk. apply list_elem_of_In, in_concat in Hk as (l & Hl & Hk).
  apply in_map_iff in Hl as (i & <- & Hi%in_seq). apply in_map_iff in Hk as (g' & -> & Hg').
  apply list_elem_of_In, list_elem_of_filter in Hg' as [-> Hg']. split; [lia|done].
Qed.

(** An action is a member of a group at most once. *)
Lemma members_of_NoDup g :
  (forall k, (k < length (actions d))%nat -> NoDup (group_indices_of d (actions d !!! k))) ->
  NoDup (members_of d g).
Proof.
  unfold members_of. intros Hnd. generalize (NoDup_seq 0 (length (actions d))).
  assert (Hlt : forall i, i ∈ seq 0 (length (actions d)) -> (i < length (actions d))%nat)
    by (intros i; rewrite elem_of_seq; lia).
  revert Hlt. generalize (seq 0 (length (actions d))) as l.
  induction l as [|i l IH]; intros Hlt Hl; simpl; [constructor|].
  apply NoDup_cons in Hl as [Hi Hl]. apply NoDup_app. split_and!.
  - assert (Hf : NoDup (filter (fun g' => g' = g) (group_indices_of d (actions d !!! i))))
      by (apply NoDup_filter, Hnd, Hlt; by left).
    assert (He : Forall (fun g' => g' = g)
                   (filter (fun g' => g' = g) (group_indices_of d (actions d !!! i)))).
    { apply Forall_forall. by intros x [? _]%list_elem_of_filter. }
    destruct (filter _ _) as [|x [|y xs]]; simpl; [constructor|apply NoDup_singleton|].
    apply Forall_cons in He as [-> He]. apply Forall_cons in He as [-> _].
    apply NoDup_cons in Hf as [[] _]. by left.
  - intros x Hx Hin. apply Hi. apply list_elem_of_fmap in Hx as (_ & -> & _).
    apply list_elem_of_In, in_concat in Hin as (xs & Hxs & Hin).
    apply in_map_iff in Hxs as (j & <- & Hj%list_elem_of_In).
    apply in_map_iff in Hin as (_ & -> & _). done.
  - apply IH; [|done]. intros j Hj. apply Hlt. by right.
Qed.

(** Counting the selected members after one more occurrence of action [k]. *)
Lemma selected_after (occ : list Z) members k :
  NoDup members -> (k < length occ)%nat -> Forall (fun z => 0 <= z) occ ->
  let count occ := sizez (filter (fun m => 0 < occ !!! m) members) in
  count (<[k := occ !!! k + 1]> occ) <= count occ + 1 /\
  (occ !!! k <> 0 \/ k ∉ members -> count (<[k := occ !!! k + 1]> occ) = count occ).
Proof.
  intros Hnd Hk Hpos. cbv zeta. unfold sizez.
  assert (H0 : 0 <= occ !!! k) by (by apply (Forall_lookup_total _ occ k Hpos)).
  induction members as [|m ms IH]; [simpl; lia|].
  apply NoDup_cons in Hnd as [Hm Hnd]. destruct (IH Hnd) as [IH1 IH2]. clear IH.
  rewrite !filter_cons. destruct (decide (m = k)) as [->|Hne].
  - rewrite lookup_total_insert_eq by done. rewrite decide_True by lia.
    pose proof (IH2 (or_intror Hm)). case_decide; simpl in *; split; intros; try lia.
    exfalso. match goal with H : _ \/ _ |- _ => destruct H as [?|Hno] end; [lia|].
    apply Hno. by left.
  - rewrite lookup_total_insert_ne by done.
    case_decide; simpl in *; (split; [lia|]); intros Hor;
      (assert (Hor' : occ !!! k <> 0 \/ k ∉ ms)
        by (destruct Hor as [|Hno]; [by left|right; intros ?; apply Hno; by right]));
      specialize (IH2 Hor'); lia.
Qed.
End Exclusion.

(** What holds of every state an execution reaches from [s0]. *)
Record run_ok (d : FabricDefinition) (s0 : FabricState) (r : Run) : Prop := {
  ro_state : state_ok d (run_state r);
  ro_holds : Forall hold_typed (run_holds r);
  ro_floor : floor_gap d (run_state r) <= floor_gap d s0;
  ro_occurrences k : (k < length (actions d))%nat ->
    action_occurrences (run_state r) !!! k <= max_occurrences (actions d !!! k);
  ro_exclusion g : (g < length (groups d))%nat ->
    selected_in (compiled_build d (indexer_build d)) (run_state r) g <= max_selected (groups d !!! g);
  ro_order k : (k < length (actions d))%nat -> 0 < action_occurrences (run_state r) !!! k ->
    Forall (fun x => check_dependency d (run_state r) x = Ok tt)
      (zip (action_dependency_indices (compiled_build d (indexer_build d)) !!! k)
         (dependencies (actions d !!! k)));
  ro_cost : length (run_cost r) = 8%nat /\ Forall (fun z => 0 <= z) (run_cost r);
  ro_clean : run_cost r !!! 0%nat = 0 /\ run_cost r !!! 1%nat = 0
}.

Section Executions.
Context (d : FabricDefinition) (l : ModelLimits) (policy : PlanPolicy)
  (table : list (EvidenceKey * SubjectResolution)).
Context (Hr : search_ready d l) (Hsz : sizez (resources d) < 2 ^ 32).
Abbreviation ix := (indexer_build d).
Abbreviation c := (compiled_build d ix).
Abbreviation exec_step := (exec_step d ix c policy table).
Abbreviation exec := (exec d ix c policy table).

Lemma exec_step_inv r k r' :
  exec_step r k = Ok r' -> (k < length (actions d))%nat /\ exists t,
    apply d ix c policy table (run_state r) (run_holds r) (incompleteness d (run_state r)) k = Ok t /\
    r' = mkRun (tr_state t) (tr_holds t) (zip_with Z.add (run_cost r) (component (tr_delta t))).
Proof.
  unfold Transition.exec_step. case_decide; [|done]. intros H'. split; [done|].
  apply rbind_ok in H' as (t & Ht & [= <-]). by exists t.
Qed.

(** A satisfied dependency stays satisfied while occurrences grow. *)
Lemma check_dependency_mono s s' x :
  (forall i, action_occurrences s !!! i <= action_occurrences s' !!! i) ->
  check_dependency d s x = Ok tt -> check_dependency d s' x = Ok tt.
Proof.
  intros Hle. unfold check_dependency. rewrite !require_ok.
  destruct x.1 as [p|]; [|done]. intros H. bool_cases.
  apply andb_true_iff. split; [by apply Z.ltb_lt|].
  apply negb_true_iff, Z.ltb_ge. specialize (Hle p). lia.
Qed.

Lemma occurrences_grow s s' k i :
  (k < length (action_occurrences s))%nat ->
  action_occurrences s' = <[k := action_occurrences s !!! k + 1]> (action_occurrences s) ->
  action_occurrences s !!! i <= action_occurrences s' !!! i.
Proof.
  intros Hk ->. destruct (decide (i = k)) as [->|Hne].
  - rewrite lookup_total_insert_eq by done. lia.
  - by rewrite lookup_total_insert_ne.
Qed.

Lemma group_indices_NoDup k :
  (k < length (actions d))%nat -> NoDup (group_indices_of d (actions d !!! k)).
Proof.
  intros Hk.
  pose proof (Forall_lookup_total _ _ _ (dwf_action l d (rdy_wf d l Hr)) Hk) as Ha.
  destruct (awf_groups _ _ _ Ha) as [_ Hnd]. rewrite map_id in Hnd. unfold group_indices_of.
  induction Hnd as [|g gs Hg Hnd IH]; simpl; [constructor|].
  destruct (find_index _ (groups d)) as [i|] eqn:Hi; [|done]. simpl. constructor; [|done].
  intros (g' & Hg' & Hi')%list_elem_of_omap.
  apply find_index_Some in Hi as (_ & Hi & _), Hi' as (_ & Hi' & _). bool_cases. congruence.
Qed.

Lemma run_exclusion r k t g :
  state_ok d (run_state r) -> (k < length (actions d))%nat ->
  apply d ix c policy table (run_state r) (run_holds r) (incompleteness d (run_state r)) k = Ok t ->
  (g < length (groups d))%nat ->
  selected_in c (run_state r) g <= max_selected (groups d !!! g) ->
  selected_in c (tr_state t) g <= max_selected (groups d !!! g).
Proof.
  intros Hs Hk Ht Hg Hsel.
  destruct (apply_occurrences d policy table (rdy_typed d l Hr) _ _ _ _ _ Hs Hk Ht) as [Hocc _].
  unfold selected_in in *. rewrite Hocc.
  rewrite compiled_members in * by done.
  destruct (selected_after (action_occurrences (run_state r)) (members_of d g) k) as [H1 H2].
  - apply members_of_NoDup, group_indices_NoDup.
  - by rewrite (ssh_occurrences _ _ (sok_shape _ _ Hs)).
  - eapply Forall_impl; [apply (sty_occurrences _ (sok_typed _ _ Hs))|].
    intros z [? _]. done.
  - destruct (decide (action_occurrences (run_state r) !!! k = 0)) as [H0|H0];
      [|rewrite H2 by (by left); done].
    destruct (decide (k ∈ members_of d g)) as [Hin|Hin]; [|rewrite H2 by (by right); done].
    apply members_of_elem in Hin as [_ Hin]. apply apply_inv in Ht. destruct Ht.
    specialize (sf_exclusion0 H0). rewrite compiled_groups in sf_exclusion0 by done.
    rewrite Forall_forall in sf_exclusion0. specialize (sf_exclusion0 g Hin).
    unfold check_exclusion in sf_exclusion0. apply require_ok in sf_exclusion0. bool_cases.
    unfold selected_in in sf_exclusion0. rewrite compiled_members in sf_exclusion0 by done. lia.
Qed.

Lemma run_order r k t :
  state_ok d (run_state r) -> (k < length (actions d))%nat ->
  apply d ix c policy table (run_state r) (run_holds r) (incompleteness d (run_state r)) k = Ok t ->
  (forall j, (j < length (actions d))%nat -> 0 < action_occurrences (run_state r) !!! j ->
     Forall (fun x => check_dependency d (run_state r) x = Ok tt)
       (zip (action_dependency_indices c !!! j) (dependencies (actions d !!! j)))) ->
  forall j, (j < length (actions d))%nat -> 0 < action_occurrences (tr_state t) !!! j ->
    Forall (fun x => check_dependency d (tr_state t) x = Ok tt)
      (zip (action_dependency_indices c !!! j) (dependencies (actions d !!! j))).
Proof.
  intros Hs Hk Ht Hold j Hj Hpos.
  destruct (apply_occurrences d policy table (rdy_typed d l Hr) _ _ _ _ _ Hs Hk Ht) as [Hocc _].
  assert (Hk' : (k < length (action_occurrences (run_state r)))%nat)
    by (by rewrite (ssh_occurrences _ _ (sok_shape _ _ Hs))).
  assert (Hdeps : Forall (fun x => check_dependency d (run_state r) x = Ok tt)
                    (zip (action_dependency_indices c !!! j) (dependencies (actions d !!! j)))).
  { destruct (decide (j = k)) as [->|Hne].
    - apply apply_inv in Ht. apply (sf_dependencies _ _ _ _ _ _ _ _ Ht).
    - apply Hold; [done|]. by rewrite Hocc, lookup_total_insert_ne in Hpos. }
  eapply Forall_impl; [exact Hdeps|]. intros x. apply check_dependency_mono.
  intros i. by eapply occurrences_grow.
Qed.

Lemma run_cost_step r t :
  length (run_cost r) = 8%nat -> Forall (fun z => 0 <= z) (run_cost r) ->
  run_cost r !!! 0%nat = 0 -> run_cost r !!! 1%nat = 0 ->
  objective_wf (tr_delta t) -> is_safety_clean (tr_delta t) = true ->
  let cost := zip_with Z.add (run_cost r) (component (tr_delta t)) in
  length cost = 8%nat /\ Forall (fun z => 0 <= z) cost /\
  cost !!! 0%nat = 0 /\ cost !!! 1%nat = 0.
Proof.
  intros Hlen Hpos H0 H1 [Hd8 Hty] Hclean. cbv zeta. unfold is_safety_clean in Hclean. bool_cases.
  assert (Hz : Forall (fun z => 0 <= z) (component (tr_delta t)))
    by (eapply Forall_impl; [exact Hty|]; by intros z [? _]).
  unfold kObjectiveComponents in Hd8.
  destruct (component (tr_delta t)) as [|y0 [|y1 ys]]; simpl in Hd8; try lia.
  destruct (run_cost r) as [|x0 [|x1 xs]]; simpl in Hlen; try lia.
  simpl in *. split; [rewrite length_zip_with; lia|].
  apply Forall_cons in Hpos as [? Hpos], Hz as [? Hz].
  apply Forall_cons in Hpos as [? Hpos], Hz as [? Hz].
  split; [|lia]. repeat (constructor; [lia|]).
  clear -Hpos Hz. revert xs Hpos. induction Hz as [|y ys Hy Hys IH]; intros [|x xs] Hx; simpl;
    try constructor; apply Forall_cons in Hx as [? ?]; [lia|by apply IH].
Qed.

Lemma run_ok_step s0 r k r' : run_ok d s0 r -> exec_step r k = Ok r' -> run_ok d s0 r'.
Proof.
  intros [] (Hk & t & Ht & ->)%exec_step_inv.
  destruct (apply_state_ok d policy table (rdy_typed d l Hr) _ _ _ _ _ ro_state0 Hk Ht) as [Hst _].
  destruct (apply_occurrences d policy table (rdy_typed d l Hr) _ _ _ _ _ ro_state0 Hk Ht)
    as [Hocc _].
  assert (Hinc : in_u64 (incompleteness d (run_state r))) by apply sum_shortfall_range.
  destruct (apply_delta d policy table (rdy_typed d l Hr) _ _ _ _ _ Hinc Hk Ht)
    as (Hwf & _ & Hclean).
  destruct ro_cost0 as [Hlen Hpos], ro_clean0 as [H0 H1].
  destruct (run_cost_step r t) as (? & ? & ? & ?); try done.
  split; simpl; try done.
  - by eapply (apply_holds_typed d policy table (rdy_typed d l Hr)).
  - etransitivity; [by eapply apply_floor_gap|done].
  - intros j Hj. rewrite Hocc. destruct (decide (j = k)) as [->|Hne].
    + rewrite lookup_total_insert_eq by (by rewrite (ssh_occurrences _ _ (sok_shape _ _ ro_state0))).
      apply apply_inv in Ht.
      assert (action_occurrences (run_state r) !!! k < max_occurrences (actions d !!! k))
        by exact (sf_occurrence _ _ _ _ _ _ _ _ Ht). lia.
    + rewrite lookup_total_insert_ne by done. by apply ro_occurrences0.
  - intros g Hg. eapply run_exclusion; eauto.
  - by apply (run_order r k t).
Qed.

(** A state in which nothing has been executed. *)
Definition pristine (s : FabricState) : Prop :=
  action_occurrences s = replicate (length (actions d)) 0.

Lemma run_ok_root s0 : state_ok d s0 -> pristine s0 -> run_ok d s0 (mkRun s0 [] (replicate 8 0)).
Proof.
  intros Hs Hp.
  assert (H0 : forall k, (k < length (actions d))%nat -> action_occurrences s0 !!! k = 0).
  { intros k Hk. rewrite Hp. by apply lookup_total_replicate_2. }
  split; simpl; try done.
  - intros k Hk. rewrite H0 by done.
    pose proof (aty_occurrences _ (action_typed_at d (rdy_typed d l Hr) k Hk)) as [? _]. done.
  - intros g Hg. unfold selected_in.
    pose proof (Forall_lookup_total _ _ _ (dty_groups d (rdy_typed d l Hr)) Hg) as (_ & Hm & _).
    rewrite compiled_members by done. unfold sizez.
    assert (He : filter (fun m => 0 < action_occurrences s0 !!! m) (members_of d g) = []).
    { apply elem_of_nil_inv. intros m [Hm' Hin]%list_elem_of_filter.
      apply members_of_elem in Hin as [Hlt _]. rewrite H0 in Hm' by done. lia. }
    rewrite He. done.
  - intros k Hk Hpos. rewrite H0 in Hpos by done. lia.
  - split; [done|]. repeat (apply Forall_cons; split; [lia|]). constructor.
Qed.

Lemma exec_run_ok s0 path r :
  state_ok d s0 -> pristine s0 -> exec s0 path = Ok r -> run_ok d s0 r.
Proof.
  intros Hs Hp. apply (foldM_ind (run_ok d s0)); [|by apply run_ok_root].
  intros t k t' _ Ht Hk. by eapply run_ok_step.
Qed.
End Executions.

(** The example fabric, as the planner sees it. *)
Definition example_ix : Indexer := indexer_build example_definition.
Definition example_table : list (EvidenceKey * SubjectResolution) :=
  reconcile example_definition example_ix example_authority default_model_limits example_facts.
Definition example_initial : FabricState :=
  materialise_state example_definition example_ix example_table.

Lemma example_initial_ok : state_ok example_definition example_initial.
Proof.
  destruct (materialise_ok example_definition example_authority default_model_limits
              example_facts example_typed example_facts_typed). by split.
Qed.

(** C27: every execution of admitted steps from a pristine state is safe: all
    values stay within their machine types and service maxima, the protected
    service floors are never deeper below than at the start, no action exceeds
    its occurrence bound, no exclusion group its selection bound, every
    executed action has its dependencies satisfied, the accumulated objective
    has zero safety and preservation components. *)
Theorem exec_safe d l policy table s0 path r :
  search_ready d l -> sizez (resources d) < 2 ^ 32 -> state_ok d s0 -> pristine d s0 ->
  exec d (indexer_build d) (compiled_build d (indexer_build d)) policy table s0 path = Ok r ->
  run_ok d s0 r.
Proof. intros. by eapply exec_run_ok. Qed.

Lemma exec_safe_witness :
  exists r, exec example_definition example_ix (compiled_build example_definition example_ix)
              example_policy example_table example_initial [0; 1]%nat = Ok r /\
            run_ok example_definition example_initial r.
Proof.
  eexists. split; [vm_compute; reflexivity|].
  apply (exec_safe example_definition default_model_limits example_policy example_table
           example_initial [0; 1]%nat).
  - exact example_ready.
  - reflexivity.
  - exact example_initial_ok.
  - vm_compute. reflexivity.
  - vm_compute. reflexivity.
Defined.

(** The entity at some position of a list of declarations is the subject of the
    precondition, its value is known, and it is as [value] says. *)
Definition fact_observed {A} (id : A -> Z) (declared : list A) (known : list Z) (p : Precondition)
  (value : nat -> Prop) : Prop :=
  exists i x, declared !! i = Some x /\ id x = subject_id (pre_subject p) /\
    known !!! i <> 0 /\ value i.

(** What a precondition requires of a state, by its kind. *)
Definition precondition_met (d : FabricDefinition) (s : FabricState) (p : Precondition) : Prop :=
  match pre_kind p with
  | PreconditionKind.LINK_OPERATIONAL =>
      fact_observed link_id (links d) (link_known s) p (fun i => link_operational s !!! i <> 0)
  | PreconditionKind.LINK_NOT_OPERATIONAL =>
      fact_observed link_id (links d) (link_known s) p (fun i => link_operational s !!! i = 0)
  | PreconditionKind.NODE_OPERATIONAL =>
      fact_observed node_id (nodes d) (node_known s) p (fun i => node_operational s !!! i <> 0)
  | PreconditionKind.NODE_NOT_OPERATIONAL =>
      fact_observed node_id (nodes d) (node_known s) p (fun i => node_operational s !!! i = 0)
  | PreconditionKind.SERVICE_REACHABLE_AT_LEAST =>
      fact_observed service_id (services d) (service_known s) p
        (fun i => pre_value p <= service_reachable s !!! i)
  | PreconditionKind.SERVICE_REACHABLE_AT_MOST =>
      fact_observed service_id (services d) (service_known s) p
        (fun i => service_reachable s !!! i <= pre_value p)
  | PreconditionKind.RESOURCE_AVAILABLE_AT_LEAST =>
      fact_observed resource_id (resources d) (resource_known s) p
        (fun i => pre_value p <= resource_available s !!! i)
  | PreconditionKind.ACTION_EXECUTED_AT_LEAST =>
      exists i a, actions d !! i = Some a /\ action_id a = subject_id (pre_subject p) /\
        pre_value p <= action_occurrences s !!! i
  | PreconditionKind.COUNT => False
  end.

Lemma index_of_declared {A} (id : A -> Z) v l i :
  index_of v (map id l) = Some i -> exists x, l !! i = Some x /\ id x = v.
Proof.
  intros H%index_of_Some. rewrite list_lookup_fmap in H.
  destruct (l !! i) as [x|]; [|done]. injection H as H. by exists x.
Qed.

Lemma precondition_holds_met d s p :
  precondition_wf d p -> precondition_holds (indexer_build d) s p = (true, true) ->
  precondition_met d s p.
Proof.
  intros (_ & Hk & _). unfold precondition_holds, subject_index, precondition_met. rewrite Hk.
  destruct (pre_kind p); simpl; try done.
  all: destruct (index_of _ _) as [i|] eqn:Hi; [|done]; intros H%(f_equal snd); cbn [snd] in H;
    apply index_of_declared in Hi as (x & Hx & Hid); exists i, x; split_and!; try done;
    bool_cases; done.
Qed.

(** C34: the search fails closed. An admitted action of a validated definition
    has only preconditions whose subject is declared, whose value is known in the
    current state, and whose value is the required one; whatever the stored
    value, an action with a precondition on something unknown is not admitted. *)
Theorem apply_fails_closed d l policy table s holds inc k t :
  search_ready d l -> (k < length (actions d))%nat ->
  apply d (indexer_build d) (compiled_build d (indexer_build d)) policy table s holds inc k = Ok t ->
  Forall (precondition_met d s) (preconditions (actions d !!! k)).
Proof.
  intros Hr Hk Ht%apply_inv.
  pose proof (Forall_lookup_total _ _ _ (dwf_action l d (rdy_wf d l Hr)) Hk) as Ha.
  destruct (sf_preconditions _ _ _ _ _ _ _ _ Ht) as (bs & Hf & _). revert Hf.
  generalize (@nil EvidenceBinding) as acc. change (sf_action _ _ _ _ _ _ _ _ Ht) with (actions d !!! k).
  generalize (awf_preconditions _ _ _ Ha).
  induction 1 as [|q qs Hq _ IH]; intros acc Hf; [constructor|].
  simpl in Hf. apply rbind_ok in Hf as (acc' & Hc & Hf). constructor; [|by eapply IH].
  unfold check_precondition in Hc. apply precondition_holds_met; [done|].
  destruct (precondition_holds _ s q) as [[] []]; simpl in Hc; by repeat case_match.
Qed.

(** The repair of the example needs the link to be known as down. *)
Lemma apply_fails_closed_witness :
  exists t, apply example_definition example_ix (compiled_build example_definition example_ix)
      example_policy example_table example_initial [] 3 0 = Ok t /\
    precondition_met example_definition example_initial
      (mkPrecondition PreconditionKind.LINK_NOT_OPERATIONAL (subject_of_link 1) 1).
Proof.
  destruct (apply example_definition example_ix (compiled_build example_definition example_ix)
              example_policy example_table example_initial [] 3 0) as [t|] eqn:Ht;
    [|vm_compute in Ht; discriminate].
  exists t. split; [reflexivity|].
  pose proof (apply_fails_closed example_definition default_model_limits example_policy example_table
                example_initial [] 3 0 t example_ready ltac:(simpl; lia) Ht) as H.
  rewrite Forall_forall in H. apply H. left.
Defined.

Lemma apply_consumes_exactly_witness :
  exists t, apply example_definition example_ix (compiled_build example_definition example_ix)
              example_policy example_table example_initial [] 2 0 = Ok t /\
            resource_available (tr_state t) !!! 0%nat = 1.
Proof.
  destruct (apply example_definition example_ix (compiled_build example_definition example_ix)
              example_policy example_table example_initial [] 2 0) as [t|] eqn:Ht;
    [|vm_compute in Ht; discriminate].
  exists t. split; [reflexivity|].
  destruct (apply_consumes_exactly example_definition default_model_limits example_policy
              example_table example_initial [] 2 0%nat t example_ready example_initial_ok)
    as [_ H]; [| | |exact Ht|].
  - exact (ini_resources _ _ _ _ _
             (materialise_ok example_definition example_authority default_model_limits
                example_facts example_typed example_facts_typed)).
  - simpl. lia.
  - split; [|set_solver]. apply NoDup_cons. split; [|apply NoDup_singleton].
    rewrite list_elem_of_singleton. discriminate.
  - destruct (H (mkUse 1 1) 0%nat) as (_ & _ & He); [left|reflexivity|reflexivity|exact He].
Defined.

(** An action that names its only spare twice. *)
Definition greedy_action : ActionSpec :=
  mkAction 10 "twice" ActionKind.REPLACE Reversibility.IRREVERSIBLE 0 0 0 0 1 1
    AuthorityDomain.RECOVERY_ADMISSION AuthorityLevel.RECOMMENDATION [] [] [mkUse 1 1; mkUse 1 1]
    [] [].
Definition greedy_definition : FabricDefinition :=
  mkDefinition [] [] [] [mkResource 1 ResourceKind.CONSUMABLE 1 0] [greedy_action] [] [].
Definition greedy_facts : list EvidenceFact :=
  [lease_fact 1 EvidenceKind.RESOURCE_AVAILABLE_UNITS (subject_of_resource 1) 1 7].

(** Without that condition consumption is not exact. Validation accepts an
    action that uses one consumable twice; each use is checked alone against the
    single available unit, the step is admitted, and the 32-bit availability
    wraps around to 4294967295. *)
Theorem duplicate_use_wraps :
  let ix := indexer_build greedy_definition in
  let table := reconcile greedy_definition ix example_authority default_model_limits greedy_facts in
  let s := materialise_state greedy_definition ix table in
  check_definition greedy_definition default_model_limits = Ok tt /\
  resource_available s = [1] /\
  exists t, apply greedy_definition ix (compiled_build greedy_definition ix)
              (mkPolicy true true 8 100 100 100 1) table s [] 0 0 = Ok t /\
            resource_available (tr_state t) = [UINT32_MAX].
Proof.
  split; [vm_compute; done|]. split; [vm_compute; done|].
  eexists. split; vm_compute; reflexivity.
Qed.

(** The duplicate-detection key of the search is injective: two search
    nodes of one definition with the same key have the same state and the same
    resource holds, so merging them loses nothing. *)
Theorem key_of_injective d s s' h h' :
  state_ok d s -> state_ok d s' -> Forall hold_typed h -> Forall hold_typed h' ->
  key_of s h = key_of s' h' <-> s = s' /\ h = h'.
Proof. intros. split; [by apply (key_of_inj d)|by intros [-> ->]]. Qed.

Lemma key_of_injective_witness :
  key_of example_initial [] <> key_of (finish example_initial 0 0 5) [].
Proof.
  intros H. apply (key_of_injective example_definition) in H as [He _].
  - revert He. vm_compute. discriminate.
  - exact example_initial_ok.
  - apply finish_ok; [exact example_initial_ok|]. split; [discriminate|reflexivity].
  - constructor.
  - constructor.
Defined.
