(* ===== verification/Search.v ===== *)
(** * The planner's search

    Models the class [Search] of [src/planner.cpp] (lines 438-694 and 973-995):
    best-first search over an arena of nodes, a map from state keys to the best
    known node, and a frontier ordered by objective and encoding. A node index
    is a position in the arena; [kNoParent] is [None]. The work counters are
    exact integers: they are bounded by the policy's generation bound times the
    number of actions. *)
From S2P Require Import Prelude Ids Canonical Model Objective Domain DefinitionCheck Plan Fixture.
From S2P Require Import Reconcile Transition.

(** ** [SearchOutcome] and its updates *)

Record SearchOutcome := mkOutcome {
  so_found : bool;
  so_budget_exhausted : bool;
  so_frontier_emptied : bool;
  so_accounting_overflow : bool;
  so_limit_reason : ReasonCode.t;
  so_plan_node : nat;
  so_nodes_expanded : Z;
  so_nodes_generated : Z;
  so_nodes_pruned_by_policy : Z;
  so_nodes_pruned_by_safety : Z;
  so_nodes_pruned_by_unknown : Z;
  so_states_revisited : Z;
  so_frontier_high_water : Z;
  so_reachable_states : Z;
  so_effective_step_bound : Z;
  so_step_bound_binding : bool
}.

(** [found = true; plan_node = current_index] *)
Definition stop_found (n : nat) (o : SearchOutcome) : SearchOutcome :=
  mkOutcome true (so_budget_exhausted o) (so_frontier_emptied o) (so_accounting_overflow o)
    (so_limit_reason o) n (so_nodes_expanded o) (so_nodes_generated o)
    (so_nodes_pruned_by_policy o) (so_nodes_pruned_by_safety o) (so_nodes_pruned_by_unknown o)
    (so_states_revisited o) (so_frontier_high_water o) (so_reachable_states o)
    (so_effective_step_bound o) (so_step_bound_binding o).

(** [budget_exhausted = true], with [accounting_overflow] where the source sets it *)
Definition stop_exhausted (overflow : bool) (o : SearchOutcome) : SearchOutcome :=
  mkOutcome (so_found o) true (so_frontier_emptied o) (so_accounting_overflow o || overflow)
    ReasonCode.SEARCH_BUDGET_EXHAUSTED (so_plan_node o) (so_nodes_expanded o)
    (so_nodes_generated o) (so_nodes_pruned_by_policy o) (so_nodes_pruned_by_safety o)
    (so_nodes_pruned_by_unknown o) (so_states_revisited o) (so_frontier_high_water o)
    (so_reachable_states o) (so_effective_step_bound o) (so_step_bound_binding o).

Definition stop_emptied (o : SearchOutcome) : SearchOutcome :=
  mkOutcome (so_found o) (so_budget_exhausted o) true (so_accounting_overflow o)
    (so_limit_reason o) (so_plan_node o) (so_nodes_expanded o) (so_nodes_generated o)
    (so_nodes_pruned_by_policy o) (so_nodes_pruned_by_safety o) (so_nodes_pruned_by_unknown o)
    (so_states_revisited o) (so_frontier_high_water o) (so_reachable_states o)
    (so_effective_step_bound o) (so_step_bound_binding o).

Definition count_expanded (o : SearchOutcome) : SearchOutcome :=
  mkOutcome (so_found o) (so_budget_exhausted o) (so_frontier_emptied o)
    (so_accounting_overflow o) (so_limit_reason o) (so_plan_node o) (so_nodes_expanded o + 1)
    (so_nodes_generated o) (so_nodes_pruned_by_policy o) (so_nodes_pruned_by_safety o)
    (so_nodes_pruned_by_unknown o) (so_states_revisited o) (so_frontier_high_water o)
    (so_reachable_states o) (so_effective_step_bound o) (so_step_bound_binding o).

Definition count_generated (o : SearchOutcome) : SearchOutcome :=
  mkOutcome (so_found o) (so_budget_exhausted o) (so_frontier_emptied o)
    (so_accounting_overflow o) (so_limit_reason o) (so_plan_node o) (so_nodes_expanded o)
    (so_nodes_generated o + 1) (so_nodes_pruned_by_policy o) (so_nodes_pruned_by_safety o)
    (so_nodes_pruned_by_unknown o) (so_states_revisited o) (so_frontier_high_water o)
    (so_reachable_states o) (so_effective_step_bound o) (so_step_bound_binding o).

Definition count_policy (o : SearchOutcome) : SearchOutcome :=
  mkOutcome (so_found o) (so_budget_exhausted o) (so_frontier_emptied o)
    (so_accounting_overflow o) (so_limit_reason o) (so_plan_node o) (so_nodes_expanded o)
    (so_nodes_generated o) (so_nodes_pruned_by_policy o + 1) (so_nodes_pruned_by_safety o)
    (so_nodes_pruned_by_unknown o) (so_states_revisited o) (so_frontier_high_water o)
    (so_reachable_states o) (so_effective_step_bound o) (so_step_bound_binding o).

Definition count_safety (o : SearchOutcome) : SearchOutcome :=
  mkOutcome (so_found o) (so_budget_exhausted o) (so_frontier_emptied o)
    (so_accounting_overflow o) (so_limit_reason o) (so_plan_node o) (so_nodes_expanded o)
    (so_nodes_generated o) (so_nodes_pruned_by_policy o) (so_nodes_pruned_by_safety o + 1)
    (so_nodes_pruned_by_unknown o) (so_states_revisited o) (so_frontier_high_water o)
    (so_reachable_states o) (so_effective_step_bound o) (so_step_bound_binding o).

Definition count_unknown (o : SearchOutcome) : SearchOutcome :=
  mkOutcome (so_found o) (so_budget_exhausted o) (so_frontier_emptied o)
    (so_accounting_overflow o) (so_limit_reason o) (so_plan_node o) (so_nodes_expanded o)
    (so_nodes_generated o) (so_nodes_pruned_by_policy o) (so_nodes_pruned_by_safety o)
    (so_nodes_pruned_by_unknown o + 1) (so_states_revisited o) (so_frontier_high_water o)
    (so_reachable_states o) (so_effective_step_bound o) (so_step_bound_binding o).

Definition count_revisited (o : SearchOutcome) : SearchOutcome :=
  mkOutcome (so_found o) (so_budget_exhausted o) (so_frontier_emptied o)
    (so_accounting_overflow o) (so_limit_reason o) (so_plan_node o) (so_nodes_expanded o)
    (so_nodes_generated o) (so_nodes_pruned_by_policy o) (so_nodes_pruned_by_safety o)
    (so_nodes_pruned_by_unknown o) (so_states_revisited o + 1) (so_frontier_high_water o)
    (so_reachable_states o) (so_effective_step_bound o) (so_step_bound_binding o).

Definition note_high_water (size : Z) (o : SearchOutcome) : SearchOutcome :=
  mkOutcome (so_found o) (so_budget_exhausted o) (so_frontier_emptied o)
    (so_accounting_overflow o) (so_limit_reason o) (so_plan_node o) (so_nodes_expanded o)
    (so_nodes_generated o) (so_nodes_pruned_by_policy o) (so_nodes_pruned_by_safety o)
    (so_nodes_pruned_by_unknown o) (so_states_revisited o)
    (if so_frontier_high_water o <? size then size else so_frontier_high_water o)
    (so_reachable_states o) (so_effective_step_bound o) (so_step_bound_binding o).

Definition note_reachable (size : Z) (o : SearchOutcome) : SearchOutcome :=
  mkOutcome (so_found o) (so_budget_exhausted o) (so_frontier_emptied o)
    (so_accounting_overflow o) (so_limit_reason o) (so_plan_node o) (so_nodes_expanded o)
    (so_nodes_generated o) (so_nodes_pruned_by_policy o) (so_nodes_pruned_by_safety o)
    (so_nodes_pruned_by_unknown o) (so_states_revisited o) (so_frontier_high_water o) size
    (so_effective_step_bound o) (so_step_bound_binding o).

(** ** Search state *)

Record SearchState := mkSearch {
  arena : list Node;
  visited : list (list Z * nat);
  frontier : list nat;
  outcome : SearchOutcome
}.

#[global] Instance Node_inhabited : Inhabited Node :=
  populate (mkSearchNode (mkState [] [] [] [] [] [] [] [] [] [] 0) [] None 0 0 0 zero_objective).

Definition with_outcome (f : SearchOutcome -> SearchOutcome) (st : SearchState) : SearchState :=
  mkSearch (arena st) (visited st) (frontier st) (f (outcome st)).

Definition with_frontier (f : list nat) (st : SearchState) : SearchState :=
  mkSearch (arena st) (visited st) f (outcome st).

(** The walk along the parent links; parents precede their children. *)
Fixpoint walk {A} (f : Node -> A) (ar : list Node) (fuel : nat) (i : nat) : list A :=
  match fuel with
  | O => []
  | S fuel' =>
      match nd_parent (ar !!! i) with
      | None => []
      | Some p => walk f ar fuel' p ++ [f (ar !!! i)]
      end
  end.

Definition node_key (n : Node) : list Z := key_of (nd_state n) (nd_holds n).

Section Search.
Context (d : FabricDefinition) (ix : Indexer) (c : Compiled) (policy : PlanPolicy)
  (table : list (EvidenceKey * SubjectResolution)).

Definition action_at (k : nat) : ActionId := action_id (actions d !!! k).

(** [Search::encoding_of] *)
Definition encoding_of (ar : list Node) (i : nat) : list ActionId :=
  walk (fun n => action_at (nd_action_index n)) ar (S i) i.

(** [FrontierLess] *)
Definition frontier_less (ar : list Node) (a b : nat) : bool :=
  scored_plan_less (nd_objective (ar !!! a)) (encoding_of ar a)
    (nd_objective (ar !!! b)) (encoding_of ar b).

(** [frontier_.insert]: a [std::set] drops an equivalent element. *)
Fixpoint frontier_insert (ar : list Node) (i : nat) (l : list nat) : list nat :=
  match l with
  | [] => [i]
  | j :: l' =>
      if frontier_less ar j i then j :: frontier_insert ar i l'
      else if frontier_less ar i j then i :: l
      else l
  end.

Definition visited_find (key : list Z) (st : SearchState) : option nat :=
  om_find (fun k => k) key (visited st).

Definition count_rejection (r : Rejection) : SearchOutcome -> SearchOutcome :=
  if blocked_by_unknown r then count_unknown
  else if blocked_by_policy r then count_policy
  else if blocked_by_safety r then count_safety
  else fun o => o.

(** Whether the child replaces the incumbent of its key. *)
Definition child_better (st : SearchState) (current : nat) (k : nat) (child : Node) : bool :=
  match visited_find (node_key child) st with
  | None => true
  | Some best =>
      let order := compare_objective (nd_objective child) (nd_objective (arena st !!! best)) in
      if order =? 0
      then compare_encoding (encoding_of (arena st) current ++ [action_at k])
             (encoding_of (arena st) best) <? 0
      else order <? 0
  end.

Definition push_child (st : SearchState) (child : Node) : SearchState :=
  let i := length (arena st) in
  let ar := arena st ++ [child] in
  let fr := frontier_insert ar i (frontier st) in
  mkSearch ar (om_set (fun k => k) (node_key child) i (visited st)) fr
    (note_high_water (sizez fr) (outcome st)).

Definition child_of (current : nat) (n : Node) (k : nat) (t : Transition) (o : ObjectiveVector)
  : Node :=
  mkSearchNode (tr_state t) (tr_holds t) (Some current) k (u32 (nd_depth n + 1))
    (incompleteness d (tr_state t)) o.

(** The body of the expansion loop for one action; [Err] is [return finalise()]. *)
Definition expand_one (current : nat) (st : SearchState) (k : nat)
  : result SearchState SearchState :=
  let n := arena st !!! current in
  match apply d ix c policy table (nd_state n) (nd_holds n) (nd_incompleteness n) k with
  | Err r => Ok (with_outcome (count_rejection r) st)
  | Ok t =>
      if max_generated_states policy <=? so_nodes_generated (outcome st)
      then Err (with_outcome (stop_exhausted false) st)
      else
        let st := with_outcome count_generated st in
        match objective_add (nd_objective n) (tr_delta t) with
        | None => Err (with_outcome (stop_exhausted true) st)
        | Some summed =>
            let child := child_of current n k t summed in
            if negb (child_better st current k child)
            then Ok (with_outcome count_revisited st)
            else
              let st := push_child st child in
              if max_frontier_entries policy <? sizez (frontier st)
              then Err (with_outcome (stop_exhausted false) st)
              else Ok st
        end
  end.

(** One iteration of the main loop on a popped node. *)
Definition visit (st : SearchState) (current : nat) : result SearchState SearchState :=
  let n := arena st !!! current in
  if match visited_find (node_key n) st with
     | Some best => negb (Nat.eqb best current)
     | None => false
     end
  then Ok (with_outcome count_revisited st)
  else if goals_satisfied d ix (nd_state n) then Err (with_outcome (stop_found current) st)
  else if max_nodes_expanded policy <=? so_nodes_expanded (outcome st)
  then Err (with_outcome (stop_exhausted false) st)
  else
    let st := with_outcome count_expanded st in
    if so_effective_step_bound (outcome st) <=? nd_depth n
    then Ok (with_outcome count_policy st)
    else foldM (expand_one current) st (seq 0 (length (actions d))).

Fixpoint search_loop (fuel : nat) (st : SearchState) : option SearchState :=
  match fuel with
  | O => None
  | S fuel' =>
      match frontier st with
      | [] => Some (with_outcome stop_emptied st)
      | current :: rest =>
          match visit (with_frontier rest st) current with
          | Err final => Some final
          | Ok st' => search_loop fuel' st'
          end
      end
  end.

Definition step_bound : Z :=
  if occurrence_bound_overflows c then UINT64_MAX else absolute_step_bound c.

Definition initial_outcome : SearchOutcome :=
  mkOutcome false false false false ReasonCode.NONE 0 0 0 0 0 0 0 0 0
    (Z.min (max_plan_steps policy) step_bound) (max_plan_steps policy <? step_bound).

Definition root_node (root : FabricState) : Node :=
  mkSearchNode root [] None 0 0 (incompleteness d root) zero_objective.

Definition initial_search (root : FabricState) : SearchState :=
  mkSearch [root_node root] [(node_key (root_node root), 0%nat)] [0%nat] initial_outcome.

Definition finalise (st : SearchState) : SearchState :=
  with_outcome (note_reachable (sizez (visited st))) st.

(** Every iteration pops a node, and at most [max_generated_states] are pushed. *)
Definition search_fuel : nat := Z.to_nat (max_generated_states policy) + 2.

(** [Search::run] *)
Definition search_run (root : FabricState) : option SearchState :=
  finalise <$> search_loop search_fuel (initial_search root).

(** [Search::plan_encoding] *)
Definition plan_encoding (st : SearchState) : list ActionId :=
  encoding_of (arena st) (so_plan_node (outcome st)).

(** ** Replay *)

Record Replay := mkReplay {
  rp_state : FabricState;
  rp_holds : list ResourceHold;
  rp_steps : list PlanStep;
  rp_objective : ObjectiveVector
}.

Definition plan_step (position : nat) (id : ActionId) (a : ActionSpec) (t : Transition) : PlanStep :=
  mkStep (u32 (Z.of_nat position)) id (tr_occurrence t) (tr_start_tick t) (tr_end_tick t)
    (required_domain a) (required_level a) 0 AuthorityLevel.RECOMMENDATION (tr_bindings t)
    (bool_decide (reversibility a = Reversibility.IRREVERSIBLE)) (compensation a).

Definition replay_step (r : Replay) (id : ActionId) : result Status Replay :=
  match index_of id (action_ids ix) with
  | None => Err (mkStatus StatusCode.STATE_MISMATCH "replay encountered an unknown action")
  | Some k =>
      match apply d ix c policy table (rp_state r) (rp_holds r)
              (incompleteness d (rp_state r)) k with
      | Err _ =>
          Err (mkStatus StatusCode.STATE_MISMATCH "replay rejected a step the search accepted")
      | Ok t =>
          let step := plan_step (length (rp_steps r)) id (actions d !!! k) t in
          match objective_add (rp_objective r) (tr_delta t) with
          | None => Err (mkStatus StatusCode.OUT_OF_RANGE "objective overflow during replay")
          | Some summed =>
              Ok (mkReplay (tr_state t) (tr_holds t) (rp_steps r ++ [step]) summed)
          end
      end
  end.

(** [Search::replay] *)
Definition replay (root : FabricState) (ids : list ActionId)
  : result Status (list PlanStep * ObjectiveVector) :=
  let* r := foldM replay_step (mkReplay root [] [] zero_objective) ids in
  Ok (rp_steps r, rp_objective r).
End Search.
