(* ===== verification/SearchCorrect.v ===== *)
(** * Correctness of the planner's search

    The search of [Search.v] against executions of [Transition.v]: it stops
    within its fuel, a plan it finds is an execution that reaches the goals with
    the least score among all executions within the step bound, and when it
    empties its frontier no such execution exists. *)
From S2P Require Import Prelude Ids Canonical Model Objective Domain DefinitionCheck Plan Fixture.
From S2P Require Import Reconcile Transition Search.

(** ** The arena *)

(** Parents precede their children. *)
Definition parents_ok (ar : list Node) : Prop :=
  forall i p, (i < length ar)%nat -> nd_parent (ar !!! i) = Some p -> (p < i)%nat.

Definition path_of (ar : list Node) (i : nat) : list nat := walk nd_action_index ar (S i) i.

Lemma walk_map {A B} (f : Node -> A) (g : A -> B) ar fuel i :
  map g (walk f ar fuel i) = walk (fun n => g (f n)) ar fuel i.
Proof.
  revert i; induction fuel as [|fuel IH]; intros i; simpl; [done|].
  destruct (nd_parent _) as [p|]; [|done]. by rewrite map_app, IH.
Qed.

Lemma encoding_path d ar i : encoding_of d ar i = map (action_at d) (path_of ar i).
Proof. unfold encoding_of, path_of. by rewrite walk_map. Qed.

Lemma walk_fuel {A} (f : Node -> A) ar fuel i :
  parents_ok ar -> (i < length ar)%nat -> (i < fuel)%nat ->
  walk f ar fuel i = walk f ar (S i) i.
Proof.
  intros Hp. revert fuel; induction (lt_wf i) as [i _ IH]; intros [|fuel] Hi Hf; [lia|].
  simpl. destruct (nd_parent (ar !!! i)) as [p|] eqn:He; [|done].
  assert (p < i)%nat by (by eapply Hp). f_equal.
  rewrite (IH p) by lia. symmetry. apply IH; lia.
Qed.

Lemma walk_app {A} (f : Node -> A) ar x fuel i :
  parents_ok ar -> (i < length ar)%nat -> walk f (ar ++ [x]) fuel i = walk f ar fuel i.
Proof.
  intros Hp. revert i; induction fuel as [|fuel IH]; intros i Hi; simpl; [done|].
  rewrite lookup_total_app_l by done.
  destruct (nd_parent (ar !!! i)) as [p|] eqn:He; [|done].
  assert (p < i)%nat by (by eapply Hp). by rewrite IH by lia.
Qed.

Lemma path_of_app ar x i :
  parents_ok ar -> (i < length ar)%nat -> path_of (ar ++ [x]) i = path_of ar i.
Proof. apply walk_app. Qed.

Lemma path_of_child ar x p :
  parents_ok ar -> nd_parent x = Some p -> (p < length ar)%nat ->
  path_of (ar ++ [x]) (length ar) = path_of ar p ++ [nd_action_index x].
Proof.
  intros Hp Hx Hlt. unfold path_of at 1.
  remember (length ar) as n eqn:Hn. simpl. rewrite Hn.
  rewrite list_lookup_total_middle by done. rewrite Hx.
  subst n. f_equal. rewrite walk_app by done. by apply walk_fuel.
Qed.

Lemma path_of_parent ar i p :
  parents_ok ar -> (i < length ar)%nat -> nd_parent (ar !!! i) = Some p ->
  path_of ar i = path_of ar p ++ [nd_action_index (ar !!! i)].
Proof.
  intros Hp Hi He. unfold path_of at 1. simpl. rewrite He. f_equal.
  assert (p < i)%nat by (by eapply Hp). apply walk_fuel; [done|lia|lia].
Qed.

Lemma parents_ok_app ar x p :
  parents_ok ar -> nd_parent x = Some p -> (p < length ar)%nat -> parents_ok (ar ++ [x]).
Proof.
  intros Hp Hx Hlt i q Hi. rewrite length_app in Hi. simpl in Hi.
  destruct (decide (i = length ar)) as [->|Hne].
  - rewrite list_lookup_total_middle by done. congruence.
  - rewrite lookup_total_app_l by lia. apply Hp. lia.
Qed.

Section SearchCorrect.
Context (d : FabricDefinition) (l : ModelLimits) (policy : PlanPolicy)
  (table : list (EvidenceKey * SubjectResolution)) (root : FabricState).
Context (Hr : search_ready d l) (Hsz : sizez (resources d) < 2 ^ 32)
  (Hroot : state_ok d root) (Hprist : pristine d root).
Abbreviation ix := (indexer_build d).
Abbreviation c := (compiled_build d ix).
Abbreviation exec := (exec d ix c policy table root).
Abbreviation apply := (apply d ix c policy table).
Abbreviation action_at := (action_at d).
Abbreviation encoding_of := (encoding_of d).
Abbreviation visited_find := (om_find (fun k : list Z => k)).

Definition bound : Z := Z.min (max_plan_steps policy) (step_bound c).
Context (Hbound : 0 <= bound < 2 ^ 32).

(** The score of a node of the arena, and of an execution. *)
Definition score (ar : list Node) (i : nat) : list Z :=
  component (nd_objective (ar !!! i)) ++ encoding_of ar i.
Definition run_score (path : list nat) (r : Run) : list Z := run_cost r ++ map action_at path.

Definition run_key (r : Run) : list Z := key_of (run_state r) (run_holds r).

(** A node stands for the execution of its path. *)
Record node_ok (ar : list Node) (i : nat) : Prop := {
  nok_exec : exec (path_of ar i) =
    Ok (mkRun (nd_state (ar !!! i)) (nd_holds (ar !!! i)) (component (nd_objective (ar !!! i))));
  nok_incompleteness : nd_incompleteness (ar !!! i) = incompleteness d (nd_state (ar !!! i));
  nok_depth : nd_depth (ar !!! i) = sizez (path_of ar i);
  nok_bound : sizez (path_of ar i) <= bound;
  nok_objective : objective_wf (nd_objective (ar !!! i))
}.

(** Some visited node has this key and a score no worse than [s]. *)
Definition covered (ar : list Node) (vis : list (list Z * nat)) (key s : list Z) : Prop :=
  exists m, visited_find key vis = Some m /\ score_le (score ar m) s.

(** The successors of node [n] by the actions that satisfy [P] are covered. *)
Definition covers_successors (ar : list Node) (vis : list (list Z * nat)) (n : nat)
  (P : nat -> Prop) : Prop :=
  forall k t, P k -> (k < length (actions d))%nat ->
    apply (nd_state (ar !!! n)) (nd_holds (ar !!! n)) (nd_incompleteness (ar !!! n)) k = Ok t ->
    covered ar vis (key_of (tr_state t) (tr_holds t))
      (zip_with Z.add (component (nd_objective (ar !!! n))) (component (tr_delta t)) ++
       (encoding_of ar n ++ [action_at k])).

(** An expanded node: not a goal, and every successor is covered. *)
Definition closed (ar : list Node) (vis : list (list Z * nat)) (n : nat) : Prop :=
  goals_satisfied d ix (nd_state (ar !!! n)) = false /\
  (bound <= nd_depth (ar !!! n) \/ covers_successors ar vis n (fun _ => True)).

(** Node [n] is being expanded and the actions below [k] are done. *)
Definition open_at (ar : list Node) (vis : list (list Z * nat)) (X : option (nat * nat))
  (n : nat) : Prop :=
  exists k, X = Some (n, k) /\ goals_satisfied d ix (nd_state (ar !!! n)) = false /\
            covers_successors ar vis n (fun j => (j < k)%nat).

Definition scores_lt (ar : list Node) (i j : nat) : Prop :=
  lex_lt (score ar i) (score ar j) = true.

(** The invariant; [X] names the node under expansion and its next action. *)
Record search_inv (ar : list Node) (vis : list (list Z * nat)) (fr : list nat)
  (X : option (nat * nat)) : Prop := {
  inv_parents : parents_ok ar;
  inv_nodes i : (i < length ar)%nat -> node_ok ar i;
  inv_visited key n : visited_find key vis = Some n ->
    (n < length ar)%nat /\ node_key (ar !!! n) = key;
  inv_root : covered ar vis (key_of root []) (replicate 8 0);
  inv_frontier i : i ∈ fr -> (i < length ar)%nat;
  inv_sorted : StronglySorted (scores_lt ar) fr;
  inv_unique i j : (i < length ar)%nat -> (j < length ar)%nat ->
    path_of ar i = path_of ar j -> i = j;
  inv_children i p : (i < length ar)%nat -> nd_parent (ar !!! i) = Some p -> p ∉ fr;
  inv_current n k : X = Some (n, k) ->
    (n < length ar)%nat /\ n ∉ fr /\ nd_depth (ar !!! n) < bound /\
    forall i, (i < length ar)%nat -> nd_parent (ar !!! i) = Some n ->
              (nd_action_index (ar !!! i) < k)%nat;
  inv_closed key n : visited_find key vis = Some n ->
    n ∈ fr \/ closed ar vis n \/ open_at ar vis X n
}.

(** ** Executions *)

Lemma exec_snoc path k r :
  exec (path ++ [k]) = Ok r <->
  exists r0, exec path = Ok r0 /\ exec_step d ix c policy table r0 k = Ok r.
Proof.
  unfold Transition.exec. rewrite foldM_app, rbind_ok. simpl.
  split; intros (r0 & H0 & H); exists r0; (split; [done|]).
  - apply rbind_ok in H as (r1 & H1 & [= ->]). done.
  - by rewrite H.
Qed.

Lemma exec_ok path r : exec path = Ok r -> run_ok d root r.
Proof. by apply (exec_run_ok d l policy table Hr Hsz). Qed.

Lemma replicate_sum n : foldr Z.add 0 (replicate n 0) = 0.
Proof. induction n; simpl; lia. Qed.

(** The length of an execution is part of the state it reaches. *)
Lemma exec_length path r : exec path = Ok r -> occurrence_sum (run_state r) = sizez path.
Proof.
  revert r; induction path as [|k path IH] using rev_ind; intros r H.
  - injection H as <-. unfold occurrence_sum. simpl. rewrite Hprist. apply replicate_sum.
  - apply exec_snoc in H as (r0 & H0 & (Hk & t & Ht & ->)%exec_step_inv). simpl.
    rewrite (apply_occurrence_sum d policy table (rdy_typed d l Hr) _ _ _ _ _
               (ro_state _ _ _ (exec_ok _ _ H0)) Hk Ht).
    rewrite (IH _ H0). unfold sizez. rewrite length_app. simpl. lia.
Qed.

(** The cost of one more step. *)
Lemma step_delta r k t :
  apply (run_state r) (run_holds r) (incompleteness d (run_state r)) k = Ok t ->
  (k < length (actions d))%nat ->
  length (component (tr_delta t)) = 8%nat /\
  Forall (fun z => 0 <= z) (component (tr_delta t)) /\ objective_wf (tr_delta t).
Proof.
  intros Ht Hk.
  destruct (apply_delta d policy table (rdy_typed d l Hr) _ _ _ _ _
              (sum_shortfall_range d target_reachable (run_state r)) Hk Ht) as [Hwf _].
  destruct Hwf as [Hl Hf]. split_and!; [done| |done].
  eapply Forall_impl; [exact Hf|]. by intros z [? _].
Qed.

Lemma run_score_grows path k r r0 :
  exec path = Ok r0 -> exec_step d ix c policy table r0 k = Ok r ->
  score_le (run_score path r0) (run_score (path ++ [k]) r).
Proof.
  intros H0 (Hk & t & Ht & ->)%exec_step_inv. unfold run_score. simpl. rewrite map_app.
  destruct (step_delta _ _ _ Ht Hk) as (Hlen & Hpos & _).
  apply score_grows; [|done]. destruct (ro_cost _ _ _ (exec_ok _ _ H0)). congruence.
Qed.

(** Two executions with one key reach one state, in equally many steps. *)
Lemma run_key_inj path path' r r' :
  exec path = Ok r -> exec path' = Ok r' -> run_key r = run_key r' ->
  run_state r = run_state r' /\ run_holds r = run_holds r' /\ sizez path = sizez path'.
Proof.
  intros H H' Hk. pose proof (exec_ok _ _ H) as Ho. pose proof (exec_ok _ _ H') as Ho'.
  destruct (key_of_inj d _ _ _ _ (ro_state _ _ _ Ho) (ro_state _ _ _ Ho')
              (ro_holds _ _ _ Ho) (ro_holds _ _ _ Ho') Hk) as [Hs Hh].
  split_and!; [done|done|]. rewrite <- (exec_length _ _ H), <- (exec_length _ _ H'). by rewrite Hs.
Qed.

(** ** What the invariant says about executions *)

Section Coverage.
Context (ar : list Node) (vis : list (list Z * nat)) (fr : list nat)
  (Hinv : search_inv ar vis fr None).

Definition reaches_frontier (path : list nat) (r : Run) : Prop :=
  exists f, f ∈ fr /\ score_le (score ar f) (run_score path r).

Definition reaches_closed (path : list nat) (r : Run) : Prop :=
  exists n, visited_find (run_key r) vis = Some n /\ closed ar vis n /\
            score_le (score ar n) (run_score path r).

Lemma covered_cases path r :
  covered ar vis (run_key r) (run_score path r) ->
  reaches_closed path r \/ reaches_frontier path r.
Proof.
  intros (n & Hn & Hle). destruct (inv_closed _ _ _ _ Hinv _ _ Hn) as [Hf|[Hc|(k & [=] & _)]].
  - right. by exists n.
  - left. by exists n.
Qed.

(** The node that stands for a closed execution has the execution's state. *)
Lemma closed_state path r n :
  exec path = Ok r -> visited_find (run_key r) vis = Some n ->
  nd_state (ar !!! n) = run_state r /\ nd_holds (ar !!! n) = run_holds r /\
  nd_depth (ar !!! n) = sizez path /\ length (encoding_of ar n) = length path.
Proof.
  intros H Hn. destruct (inv_visited _ _ _ _ Hinv _ _ Hn) as [Hlt Hkey].
  destruct (inv_nodes _ _ _ _ Hinv n Hlt).
  destruct (run_key_inj _ _ _ _ nok_exec0 H Hkey) as (Hs & Hh & Hlen). simpl in *.
  split_and!; [done|done|congruence|].
  rewrite encoding_path, length_map. unfold sizez in Hlen. lia.
Qed.

(** Every execution within the bound passes through the frontier without a
    better score there, or ends in a closed node. *)
Lemma frontier_or_closed path r :
  exec path = Ok r -> sizez path <= bound -> reaches_closed path r \/ reaches_frontier path r.
Proof.
  revert r; induction path as [|k path IH] using rev_ind; intros r H Hlen.
  - injection H as <-. apply covered_cases. apply (inv_root _ _ _ _ Hinv).
  - apply exec_snoc in H as (r0 & H0 & Hstep).
    assert (sizez (path ++ [k]) = sizez path + 1) as Hsz1
      by (unfold sizez; rewrite length_app; simpl; lia).
    pose proof (run_score_grows _ _ _ _ H0 Hstep) as Hgrow.
    destruct (IH r0 H0 ltac:(lia)) as [(n & Hn & [Hgoal Hsucc] & Hle)|(f & Hf & Hle)].
    2:{ right. exists f. split; [done|]. by eapply score_le_trans. }
    destruct (closed_state _ _ _ H0 Hn) as (Hs & Hh & Hdep & Henc).
    destruct Hsucc as [Hdeep|Hsucc]; [lia|].
    apply exec_step_inv in Hstep as (Hk & t & Ht & ->).
    destruct (inv_visited _ _ _ _ Hinv _ _ Hn) as [Hlt _].
    destruct (inv_nodes _ _ _ _ Hinv n Hlt).
    destruct (step_delta _ _ _ Ht Hk) as (Hd8 & Hpos & _).
    destruct (Hsucc k t I Hk) as (m & Hm & Hms).
    { by rewrite nok_incompleteness0, Hs, Hh. }
    apply covered_cases. exists m. split; [done|]. eapply score_le_trans; [exact Hms|].
    unfold run_score. simpl. rewrite map_app. apply score_extend; [| | |exact Hle].
    + destruct nok_objective0 as [Ho _]. unfold kObjectiveComponents in Ho. congruence.
    + destruct (ro_cost _ _ _ (exec_ok _ _ H0)). congruence.
    + by rewrite length_map.
Qed.
End Coverage.

(** ** The frontier *)

Lemma score_length ar i : node_ok ar i -> length (component (nd_objective (ar !!! i))) = 8%nat.
Proof. intros H. apply (nok_objective _ _ H). Qed.

Lemma frontier_less_score ar i j :
  node_ok ar i -> node_ok ar j -> frontier_less d ar i j = lex_lt (score ar i) (score ar j).
Proof.
  intros Hi Hj. unfold frontier_less, score. apply scored_plan_less_lex.
  by rewrite !score_length.
Qed.

(** Equal scores are equal encodings, hence (unique identities) equal paths. *)
Lemma action_at_inj k k' :
  (k < length (actions d))%nat -> (k' < length (actions d))%nat ->
  action_at k = action_at k' -> k = k'.
Proof.
  intros Hk Hk' He.
  destruct (dwf_actions l d (rdy_wf d l Hr)) as [_ Hnd].
  pose proof (find_index_id action_id _ k Hnd Hk) as H1.
  pose proof (find_index_id action_id _ k' Hnd Hk') as H2.
  unfold Search.action_at in He. rewrite He in H1. congruence.
Qed.

Lemma exec_range path r : exec path = Ok r -> Forall (fun k => (k < length (actions d))%nat) path.
Proof.
  revert r; induction path as [|k path IH] using rev_ind; intros r H; [constructor|].
  apply exec_snoc in H as (r0 & H0 & (Hk & _)%exec_step_inv).
  apply Forall_app. split; [by eapply IH|]. by constructor.
Qed.

Lemma score_inj ar i j : node_ok ar i -> node_ok ar j ->
  score ar i = score ar j -> path_of ar i = path_of ar j.
Proof.
  intros Hi Hj He. unfold score in He.
  apply app_inj_1 in He as [_ He]; [|by rewrite !score_length].
  rewrite !encoding_path in He.
  pose proof (exec_range _ _ (nok_exec _ _ Hi)) as H1.
  pose proof (exec_range _ _ (nok_exec _ _ Hj)) as H2.
  revert He H1 H2. generalize (path_of ar j). generalize (path_of ar i).
  induction l0 as [|x xs IH]; intros [|y ys] He H1 H2; simpl in *; try done.
  injection He as Hx He. apply Forall_cons in H1 as [? ?], H2 as [? ?].
  f_equal; [by apply action_at_inj|by apply IH].
Qed.

Lemma frontier_insert_spec ar i fr :
  node_ok ar i -> Forall (node_ok ar) fr -> StronglySorted (scores_lt ar) fr ->
  Forall (fun j => score ar j <> score ar i) fr ->
  frontier_insert d ar i fr ≡ₚ i :: fr /\
  StronglySorted (scores_lt ar) (frontier_insert d ar i fr).
Proof.
  intros Hi Hok Hs. induction Hs as [|j fr Hs IH Hj]; intros Hne; simpl.
  { split; [done|]. by repeat constructor. }
  apply Forall_cons in Hok as [Hokj Hok], Hne as [Hnej Hne].
  destruct (IH Hok Hne) as [Hp Hss]. rewrite !frontier_less_score by done.
  destruct (lex_lt (score ar j) (score ar i)) eqn:H1.
  - split; [rewrite Hp; constructor|]. constructor; [done|]. rewrite Hp. by constructor.
  - destruct (lex_lt (score ar i) (score ar j)) eqn:H2.
    + split; [done|]. constructor; [by constructor|]. constructor; [done|].
      eapply Forall_impl; [exact Hj|]. intros m Hm. unfold scores_lt in *.
      by eapply lex_lt_trans.
    + destruct Hnej. by apply lex_lt_total.
Qed.

(** ** Growing the arena *)

Section Push.
Context (ar : list Node) (x : Node) (p : nat)
  (Hp : parents_ok ar) (Hx : nd_parent x = Some p) (Hlt : (p < length ar)%nat).

Lemma score_app i : (i < length ar)%nat -> score (ar ++ [x]) i = score ar i.
Proof.
  intros Hi. unfold score. rewrite !encoding_path, path_of_app by done.
  by rewrite lookup_total_app_l.
Qed.

Lemma node_ok_app i : (i < length ar)%nat -> node_ok ar i -> node_ok (ar ++ [x]) i.
Proof.
  intros Hi []. split; rewrite ?path_of_app, ?lookup_total_app_l by done; done.
Qed.

Lemma score_child :
  score (ar ++ [x]) (length ar) =
    component (nd_objective x) ++ (encoding_of ar p ++ [action_at (nd_action_index x)]).
Proof.
  unfold score. rewrite list_lookup_total_middle by done.
  rewrite !encoding_path, (path_of_child _ _ p) by done. by rewrite map_app.
Qed.

(** The visited map only ever improves. *)
Definition improves (vis vis' : list (list Z * nat)) : Prop :=
  forall key m, visited_find key vis = Some m ->
    exists m', visited_find key vis' = Some m' /\
               score_le (score (ar ++ [x]) m') (score ar m).

Lemma covered_improves vis vis' key s :
  improves vis vis' -> covered ar vis key s -> covered (ar ++ [x]) vis' key s.
Proof.
  intros Him (m & Hm & Hle). destruct (Him key m Hm) as (m' & Hm' & Hle').
  exists m'. split; [done|]. by eapply score_le_trans.
Qed.

Lemma covers_improves vis vis' n P :
  improves vis vis' -> (n < length ar)%nat ->
  covers_successors ar vis n P -> covers_successors (ar ++ [x]) vis' n P.
Proof.
  intros Him Hn Hc k t Hk Hkl. rewrite !lookup_total_app_l by done. intros Ht.
  rewrite encoding_path, path_of_app, <- encoding_path by done.
  apply (covered_improves vis); [done|]. by apply Hc.
Qed.

Lemma closed_improves vis vis' n :
  improves vis vis' -> (n < length ar)%nat -> closed ar vis n -> closed (ar ++ [x]) vis' n.
Proof.
  intros Him Hn [Hg Hc]. unfold closed. rewrite lookup_total_app_l by done.
  split; [done|]. destruct Hc as [|Hc]; [by left|right]. by eapply covers_improves.
Qed.
End Push.

(** ** Expanding a node *)

Section Expand.
Context (ar : list Node) (vis : list (list Z * nat)) (fr : list nat) (cur k : nat) (t : Transition)
  (summed : ObjectiveVector).
Abbreviation n := (ar !!! cur).
Abbreviation x := (child_of d cur n k t summed).
Abbreviation ar' := (ar ++ [x]).
Abbreviation vis' := (om_set (fun k : list Z => k) (node_key x) (length ar) vis).
Abbreviation fr' := (frontier_insert d ar' (length ar) fr).
Context (Hinv : search_inv ar vis fr (Some (cur, k))) (Hk : (k < length (actions d))%nat)
  (Ht : apply (nd_state n) (nd_holds n) (nd_incompleteness n) k = Ok t).

Lemma cur_lt : (cur < length ar)%nat.
Proof. by destruct (inv_current _ _ _ _ Hinv cur k eq_refl). Qed.

Lemma cur_ok : node_ok ar cur.
Proof. apply (inv_nodes _ _ _ _ Hinv), cur_lt. Qed.

Lemma cur_exec_step :
  exec_step d ix c policy table
    (mkRun (nd_state n) (nd_holds n) (component (nd_objective n))) k =
  Ok (mkRun (tr_state t) (tr_holds t)
        (zip_with Z.add (component (nd_objective n)) (component (tr_delta t)))).
Proof.
  unfold exec_step. simpl. rewrite decide_True by done.
  rewrite <- (nok_incompleteness _ _ cur_ok), Ht. done.
Qed.

Lemma cur_delta :
  length (component (tr_delta t)) = 8%nat /\
  Forall (fun z => 0 <= z) (component (tr_delta t)) /\ objective_wf (tr_delta t).
Proof.
  apply (step_delta (mkRun (nd_state n) (nd_holds n) []) k); [|done]. simpl.
  by rewrite <- (nok_incompleteness _ _ cur_ok).
Qed.

(** A successor that is already covered needs no node. *)
Lemma skip_inv :
  covered ar vis (key_of (tr_state t) (tr_holds t))
    (zip_with Z.add (component (nd_objective n)) (component (tr_delta t)) ++
     (encoding_of ar cur ++ [action_at k])) ->
  search_inv ar vis fr (Some (cur, S k)).
Proof.
  intros Hcov. destruct Hinv. split; try done.
  - intros m j [= <- <-]. destruct (inv_current0 cur k eq_refl) as (? & ? & ? & Hch).
    split_and!; try done. intros i Hi Hpar. specialize (Hch i Hi Hpar). lia.
  - intros key m Hm. destruct (inv_closed0 key m Hm) as [?|[?|(j & [= <- <-] & Hg & Hc)]];
      [by left|right; by left|]. right; right. exists (S k). split_and!; try done.
    intros j t' Hj Hjl Ht'. destruct (decide (j = k)) as [->|Hne]; [|apply Hc; [lia|done|done]].
    by assert (t' = t) as -> by congruence.
Qed.

Context (Hsum : objective_add (nd_objective n) (tr_delta t) = Some summed).

Lemma summed_spec :
  component summed = zip_with Z.add (component (nd_objective n)) (component (tr_delta t)) /\
  objective_wf summed.
Proof.
  apply objective_add_Some; [apply (nok_objective _ _ cur_ok)| |done].
  by destruct cur_delta as (_ & _ & ?).
Qed.

Lemma child_path : path_of ar' (length ar) = path_of ar cur ++ [k].
Proof. apply path_of_child; [apply (inv_parents _ _ _ _ Hinv)|done|apply cur_lt]. Qed.

Lemma child_ok : node_ok ar' (length ar).
Proof.
  destruct (inv_current _ _ _ _ Hinv cur k eq_refl) as (_ & _ & Hdeep & _).
  destruct cur_ok. destruct summed_spec as [Hcomp Hwf].
  assert (Hlen : sizez (path_of ar cur ++ [k]) = sizez (path_of ar cur) + 1)
    by (unfold sizez; rewrite length_app; simpl; lia).
  assert (0 <= sizez (path_of ar cur)) by (unfold sizez; lia).
  split; rewrite ?child_path, ?list_lookup_total_middle by done; simpl.
  - apply exec_snoc. eexists. split; [exact nok_exec0|]. rewrite Hcomp. apply cur_exec_step.
  - done.
  - rewrite Hlen, nok_depth0. apply u32_small. unfold in_u32. lia.
  - lia.
  - done.
Qed.

Lemma child_score :
  score ar' (length ar) =
    zip_with Z.add (component (nd_objective n)) (component (tr_delta t)) ++
    (encoding_of ar cur ++ [action_at k]).
Proof.
  rewrite (score_child ar x cur (inv_parents _ _ _ _ Hinv) eq_refl cur_lt). simpl.
  by destruct summed_spec as [-> _].
Qed.

(** No earlier node has the path of the child. *)
Lemma child_unique i : (i < length ar)%nat -> path_of ar i <> path_of ar cur ++ [k].
Proof.
  intros Hi He. pose proof (inv_parents _ _ _ _ Hinv) as Hp.
  destruct (nd_parent (ar !!! i)) as [q|] eqn:Hq.
  - pose proof (Hp i q Hi Hq) as Hlt.
    rewrite (path_of_parent ar i q Hp Hi Hq) in He.
    apply app_inj_tail in He as [Hpath Hidx].
    assert (q = cur) as -> by (apply (inv_unique _ _ _ _ Hinv); [lia|apply cur_lt|done]).
    destruct (inv_current _ _ _ _ Hinv cur k eq_refl) as (_ & _ & _ & Hch).
    specialize (Hch i Hi Hq). lia.
  - unfold path_of at 1 in He. simpl in He. rewrite Hq in He. by destruct (path_of ar cur).
Qed.

Context (Hbetter : forall m, visited_find (node_key x) vis = Some m ->
  score_le (score ar' (length ar)) (score ar m)).

Lemma push_improves : improves ar x vis vis'.
Proof.
  intros key m Hm. destruct (decide (key = node_key x)) as [->|Hne].
  - exists (length ar). rewrite om_find_set_eq. split; [done|]. by apply Hbetter.
  - exists m. rewrite om_find_set_ne by done. split; [done|].
    destruct (inv_visited _ _ _ _ Hinv key m Hm) as [Hlt _].
    rewrite (score_app ar x (inv_parents _ _ _ _ Hinv)) by done. apply score_le_refl.
Qed.

Lemma nodes_ok' i : (i < length ar')%nat -> node_ok ar' i.
Proof.
  rewrite length_app. simpl. intros Hi. destruct (decide (i = length ar)) as [->|].
  - apply child_ok.
  - apply (node_ok_app ar x (inv_parents _ _ _ _ Hinv)); [lia|].
    apply (inv_nodes _ _ _ _ Hinv). lia.
Qed.

Lemma unique' i j : (i < length ar')%nat -> (j < length ar')%nat ->
  path_of ar' i = path_of ar' j -> i = j.
Proof.
  rewrite length_app. simpl. pose proof (inv_parents _ _ _ _ Hinv) as Hp. intros Hi Hj.
  destruct (decide (i = length ar)) as [->|], (decide (j = length ar)) as [->|]; try done;
    rewrite ?child_path, ?path_of_app by (done || lia).
  - intros He. destruct (child_unique j); [lia|done].
  - intros He. destruct (child_unique i); [lia|done].
  - apply (inv_unique _ _ _ _ Hinv); lia.
Qed.

Lemma frontier' : fr' ≡ₚ length ar :: fr /\ StronglySorted (scores_lt ar') fr'.
Proof.
  pose proof (inv_frontier _ _ _ _ Hinv) as Hf. pose proof (inv_parents _ _ _ _ Hinv) as Hp.
  apply frontier_insert_spec.
  - apply child_ok.
  - apply Forall_forall. intros i Hi. apply nodes_ok'. rewrite length_app. specialize (Hf i Hi). lia.
  - pose proof (inv_sorted _ _ _ _ Hinv) as Hs. revert Hs Hf. generalize fr.
    induction 1 as [|i l' Hs IH Hi]; intros Hf; constructor.
    + apply IH. intros j Hj. apply Hf. by right.
    + apply Forall_forall. intros j Hj. rewrite Forall_forall in Hi. specialize (Hi j Hj).
      unfold scores_lt in *. rewrite !score_app; [done|done| |done|].
      * apply Hf. by right.
      * apply Hf. by left.
  - apply Forall_forall. intros i Hi He. specialize (Hf i Hi).
    assert (i = length ar); [|lia]. apply unique'; [rewrite length_app; lia|rewrite length_app; simpl; lia|].
    apply score_inj; [apply nodes_ok'; rewrite length_app; lia|apply child_ok|done].
Qed.

Lemma closed' key m :
  visited_find key vis' = Some m ->
  m ∈ fr' \/ closed ar' vis' m \/ open_at ar' vis' (Some (cur, S k)) m.
Proof.
  pose proof (inv_parents _ _ _ _ Hinv) as Hp. destruct frontier' as [Hfr _].
  destruct (decide (key = node_key x)) as [->|Hne].
  { rewrite om_find_set_eq. intros [= <-]. left. rewrite Hfr. by left. }
  rewrite om_find_set_ne by done. intros Hm.
  destruct (inv_visited _ _ _ _ Hinv key m Hm) as [Hlt _].
  destruct (inv_closed _ _ _ _ Hinv key m Hm) as [Hf|[Hc|(j & [= <- <-] & Hg & Hc)]].
  - left. rewrite Hfr. by right.
  - right; left. apply (closed_improves ar x Hp vis); [|done|done]. apply push_improves.
  - right; right. exists (S k). split; [done|].
    rewrite lookup_total_app_l by done. split; [done|].
    pose proof (covers_improves ar x Hp vis vis' cur _ push_improves Hlt Hc) as Hold.
    intros i t' Hi Hil Ht'. destruct (decide (i = k)) as [->|]; [|apply Hold; [lia|done|done]].
    rewrite lookup_total_app_l in Ht' |- * by done.
    assert (t' = t) as -> by congruence.
    exists (length ar). split; [by apply (om_find_set_eq (fun k : list Z => k))|].
    rewrite child_score, !encoding_path, path_of_app by done. apply score_le_refl.
Qed.

Lemma push_inv : search_inv ar' vis' fr' (Some (cur, S k)).
Proof.
  pose proof (inv_parents _ _ _ _ Hinv) as Hp. pose proof cur_lt as Hlt.
  destruct frontier' as [Hfr Hs].
  destruct (inv_current _ _ _ _ Hinv cur k eq_refl) as (_ & Hcf & Hdeep & Hch).
  split.
  - by apply (parents_ok_app ar x cur).
  - apply nodes_ok'.
  - intros key m. rewrite length_app. simpl. destruct (decide (key = node_key x)) as [->|Hne].
    + rewrite om_find_set_eq. intros [= <-]. split; [lia|]. by rewrite list_lookup_total_middle.
    + rewrite om_find_set_ne by done. intros Hm.
      destruct (inv_visited _ _ _ _ Hinv key m Hm) as [Hml Hmk].
      split; [lia|]. by rewrite lookup_total_app_l.
  - apply (covered_improves ar x vis); [apply push_improves|apply (inv_root _ _ _ _ Hinv)].
  - intros i. rewrite Hfr, length_app, elem_of_cons. simpl. intros [->|Hi]; [lia|].
    pose proof (inv_frontier _ _ _ _ Hinv i Hi). lia.
  - done.
  - apply unique'.
  - intros i q. rewrite length_app, Hfr, elem_of_cons. simpl. intros Hi.
    destruct (decide (i = length ar)) as [->|Hne].
    + rewrite list_lookup_total_middle by done. simpl. intros [= <-] [->|?]; [lia|done].
    + rewrite lookup_total_app_l by lia. intros Hq [->|Hin].
      * pose proof (Hp i (length ar) ltac:(lia) Hq). lia.
      * apply (inv_children _ _ _ _ Hinv i q); [lia|done|done].
  - intros m j [= <- <-]. rewrite length_app, Hfr, elem_of_cons. simpl.
    rewrite lookup_total_app_l by done. split; [lia|]. split; [intros [->|?]; [lia|done]|].
    split; [done|]. intros i Hi. destruct (decide (i = length ar)) as [->|Hne].
    + rewrite list_lookup_total_middle by done. simpl. lia.
    + rewrite lookup_total_app_l by lia. intros Hq. specialize (Hch i ltac:(lia) Hq). lia.
  - apply closed'.
Qed.
End Expand.

(** ** Popping and finishing a node *)

Lemma initial_inv :
  search_inv [root_node d root] [(node_key (root_node d root), 0%nat)] [0%nat] None.
Proof.
  assert (Hone : forall i, (i < 1)%nat -> i = 0%nat) by lia.
  assert (Hf : forall key n, visited_find key [(node_key (root_node d root), 0%nat)] = Some n ->
               n = 0%nat /\ key = node_key (root_node d root)).
  { intros key n. simpl. case_decide; [by intros [= <-]|done]. }
  split; simpl.
  - intros i p Hi%Hone. by subst i.
  - intros i ->%Hone. split; simpl; try done.
    + apply Hbound.
    + split; [done|]. repeat (constructor; [unfold in_u64; lia|]). constructor.
  - intros key n [-> ->]%Hf. split; [lia|done].
  - exists 0%nat. simpl. rewrite decide_True by done. split; [done|]. apply score_le_refl.
  - intros i ->%list_elem_of_singleton. lia.
  - repeat constructor.
  - intros i j ->%Hone ->%Hone. done.
  - intros i p ->%Hone. done.
  - done.
  - intros key n [-> _]%Hf. left. by left.
Qed.

Section Pop.
Context (ar : list Node) (vis : list (list Z * nat)) (cur : nat) (fr : list nat)
  (Hinv : search_inv ar vis (cur :: fr) None).

Lemma popped_not_in : cur ∉ fr.
Proof.
  pose proof (inv_sorted _ _ _ _ Hinv) as Hs. inversion Hs as [|? ? _ Hall]; subst.
  intros Hin. rewrite Forall_forall in Hall. specialize (Hall cur Hin).
  unfold scores_lt in Hall. by rewrite lex_lt_irrefl in Hall.
Qed.

(** Dropping the popped node keeps the invariant if the node is accounted for. *)
Lemma pop_inv X :
  (visited_find (node_key (ar !!! cur)) vis = Some cur ->
   closed ar vis cur \/ open_at ar vis X cur) ->
  (forall n k, X = Some (n, k) -> n = cur /\ nd_depth (ar !!! cur) < bound) ->
  search_inv ar vis fr X.
Proof.
  intros Hcl HX. pose proof popped_not_in as Hnin. destruct Hinv. split; try done.
  - intros i Hi. apply inv_frontier0. by right.
  - by inversion inv_sorted0.
  - intros i p Hi Hq Hin. apply (inv_children0 i p); [done|done|by right].
  - intros n k HXe. destruct (HX n k HXe) as [-> Hdeep]. split_and!; try done.
    + apply inv_frontier0. by left.
    + intros i Hi Hq. destruct (inv_children0 i cur Hi Hq). by left.
  - intros key n Hn. destruct (inv_closed0 key n Hn) as [Hin|[Hc|(j & [=] & _)]].
    + apply elem_of_cons in Hin as [->|Hin]; [|by left]. right.
      destruct (inv_visited0 key cur Hn) as [_ Hkey]. apply Hcl. by rewrite Hkey.
    + right; by left.
Qed.
End Pop.

Lemma finish_inv ar vis fr cur :
  search_inv ar vis fr (Some (cur, length (actions d))) -> search_inv ar vis fr None.
Proof.
  intros []. split; try done. intros key n Hn.
  destruct (inv_closed0 key n Hn) as [?|[?|(j & [= <- <-] & Hg & Hc)]]; [by left|by right; left|].
  right; left. split; [done|]. right. intros k t _ Hk. by apply Hc.
Qed.

(** ** The loops *)

Definition running (o : SearchOutcome) : Prop :=
  so_found o = false /\ so_budget_exhausted o = false /\ so_frontier_emptied o = false /\
  so_effective_step_bound o = bound.

Definition exhausted (st : SearchState) : Prop :=
  so_found (outcome st) = false /\ so_budget_exhausted (outcome st) = true /\
  so_frontier_emptied (outcome st) = false.

Definition st_inv (st : SearchState) (X : option (nat * nat)) : Prop :=
  search_inv (arena st) (visited st) (frontier st) X /\ running (outcome st).

Lemma running_rejection r o : running o -> running (count_rejection r o).
Proof.
  unfold count_rejection. destruct (blocked_by_unknown r), (blocked_by_policy r),
    (blocked_by_safety r); done.
Qed.

(** [child_better] decides whether the child's score beats the incumbent's. *)
Lemma child_better_spec st cur k child m :
  node_ok (arena st) m -> length (component (nd_objective child)) = 8%nat ->
  visited_find (node_key child) (visited st) = Some m ->
  child_better d st cur k child =
    lex_lt (component (nd_objective child) ++ (encoding_of (arena st) cur ++ [action_at k]))
      (score (arena st) m).
Proof.
  intros Hm Hlen Hv. unfold child_better, Search.visited_find, score, compare_objective.
  rewrite Hv, lex_lt_app, compare_components_lex, compare_encoding_lex by (by rewrite score_length).
  destruct (lex_lt (component (nd_objective child)) _); [done|].
  destruct (lex_lt _ (component (nd_objective child))); [done|]. simpl.
  destruct (lex_lt (encoding_of (arena st) cur ++ [action_at k]) _); [done|].
  by destruct (lex_lt _ _).
Qed.

Lemma expand_one_inv st cur k st' :
  st_inv st (Some (cur, k)) -> (k < length (actions d))%nat ->
  expand_one d ix c policy table cur st k = Ok st' -> st_inv st' (Some (cur, S k)).
Proof.
  intros [Hinv Hrun] Hk H. unfold expand_one in H.
  destruct (Transition.apply _ _ _ _ _ _ _ _ _) as [t|r] eqn:Ht.
  2:{ injection H as <-. split; [|by apply running_rejection]. simpl.
      destruct Hinv. split; try done.
      - intros m j [= <- <-]. destruct (inv_current0 cur k eq_refl) as (? & ? & ? & Hch).
        split_and!; try done. intros i Hi Hq. specialize (Hch i Hi Hq). lia.
      - intros key m Hm. destruct (inv_closed0 key m Hm) as [?|[?|(j & [= <- <-] & Hg & Hc)]];
          [by left|by right; left|]. right; right. exists (S k). split_and!; try done.
        intros i t' Hi Hil Ht'. apply Hc; [|done|done].
        assert (i <> k) by (intros ->; rewrite Ht in Ht'; done). lia. }
  destruct (_ <=? _); [done|]. destruct (objective_add _ _) as [summed|] eqn:Hsum; [|done].
  pose proof (cur_delta _ _ _ _ _ _ Hinv Hk Ht) as (Hd8 & _ & Hdwf).
  pose proof (cur_ok _ _ _ _ _ Hinv) as Hcok.
  destruct (objective_add_Some _ _ _ (nok_objective _ _ Hcok) Hdwf Hsum) as [Hcomp Hwf].
  destruct Hwf as [Hs8 _].
  assert (Hvok : forall m key, visited_find key (visited st) = Some m -> node_ok (arena st) m).
  { intros m key Hm. apply (inv_nodes _ _ _ _ Hinv). by destruct (inv_visited _ _ _ _ Hinv _ _ Hm). }
  set (st1 := with_outcome count_generated st) in *.
  set (child := child_of d cur (arena st !!! cur) k t summed) in *.
  assert (Hspec : forall m, visited_find (node_key child) (visited st) = Some m ->
    child_better d st1 cur k child = lex_lt (component summed ++
      (encoding_of (arena st) cur ++ [action_at k])) (score (arena st) m)).
  { intros m Hm. apply (child_better_spec st1); [by eapply Hvok|done|done]. }
  destruct (child_better _ _ _ _ _) eqn:Hb; simpl in H.
  - destruct (_ <? _); [done|]. injection H as <-. split; [|done]. simpl.
    apply push_inv; try done. intros m Hm.
    rewrite (child_score _ _ _ _ _ _ _ Hinv Hk Ht Hsum), <- Hcomp.
    apply lex_lt_score_le. by rewrite <- Hspec.
  - injection H as <-. split; [|done]. simpl. eapply skip_inv; [done|done|exact Ht|].
    destruct (visited_find (node_key child) (visited st)) as [m|] eqn:Hm.
    + exists m. split; [exact Hm|]. rewrite <- Hcomp. unfold score_le. by rewrite <- Hspec.
    + unfold child_better, Search.visited_find in Hb. simpl in Hb. fold child in Hb.
      by rewrite Hm in Hb.
Qed.

Lemma expand_one_err st cur k final :
  running (outcome st) -> expand_one d ix c policy table cur st k = Err final -> exhausted final.
Proof.
  intros (Hf & _ & He & _) H. unfold expand_one in H.
  destruct (Transition.apply _ _ _ _ _ _ _ _ _) as [t|]; [|done].
  destruct (_ <=? _); [injection H as <-; done|].
  destruct (objective_add _ _); [|injection H as <-; done].
  destruct (negb _); [done|]. destruct (_ <? _); [injection H as <-; done|done].
Qed.

Lemma expand_all st cur k m :
  st_inv st (Some (cur, k)) -> (k + m <= length (actions d))%nat ->
  match foldM (expand_one d ix c policy table cur) st (seq k m) with
  | Ok st' => st_inv st' (Some (cur, (k + m)%nat))
  | Err final => exhausted final
  end.
Proof.
  revert st k; induction m as [|m IH]; intros st k Hinv Hle; simpl.
  { by rewrite Nat.add_0_r. }
  destruct (expand_one d ix c policy table cur st k) as [st'|final] eqn:He; simpl.
  - rewrite <- Nat.add_succ_comm. apply IH; [|lia]. eapply expand_one_inv; [done|lia|done].
  - eapply expand_one_err; [|done]. apply Hinv.
Qed.

(** The node a search returns: an execution that reaches the goals, no worse
    than any other within the bound. *)
Definition optimal (st : SearchState) (i : nat) : Prop :=
  exists path r, exec path = Ok r /\ sizez path <= bound /\
    goals_satisfied d ix (run_state r) = true /\
    encoding_of (arena st) i = map action_at path /\
    component (nd_objective (arena st !!! i)) = run_cost r /\ Forall in_u64 (run_cost r) /\
    forall path' r', exec path' = Ok r' -> sizez path' <= bound ->
      goals_satisfied d ix (run_state r') = true ->
      score_le (run_score path r) (run_score path' r').

Definition found (st : SearchState) : Prop :=
  so_found (outcome st) = true /\ so_budget_exhausted (outcome st) = false /\
  so_frontier_emptied (outcome st) = false /\ optimal st (so_plan_node (outcome st)).

Lemma closed_not_goal ar vis fr path r :
  search_inv ar vis fr None -> exec path = Ok r -> goals_satisfied d ix (run_state r) = true ->
  ~ reaches_closed ar vis path r.
Proof.
  intros Hinv H Hg (n & Hn & [Hng _] & _).
  destruct (closed_state _ _ _ Hinv path r n H Hn) as (Hs & _). congruence.
Qed.

Lemma popped_optimal st cur rest :
  search_inv (arena st) (visited st) (cur :: rest) None ->
  goals_satisfied d ix (nd_state (arena st !!! cur)) = true -> optimal st cur.
Proof.
  intros Hinv Hg.
  assert (Hlt : (cur < length (arena st))%nat) by (apply (inv_frontier _ _ _ _ Hinv); by left).
  pose proof (inv_nodes _ _ _ _ Hinv cur Hlt) as Hok. pose proof Hok as Hok'. destruct Hok'.
  exists (path_of (arena st) cur). eexists. split; [exact nok_exec0|].
  split_and!; [done|done|apply encoding_path|done|apply nok_objective0|].
  intros path r H Hlen Hgoal.
  destruct (frontier_or_closed _ _ _ Hinv path r H Hlen) as [Hc|(f & Hf & Hle)].
  { by destruct (closed_not_goal _ _ _ _ _ Hinv H Hgoal). }
  eapply score_le_trans; [|exact Hle]. unfold run_score. simpl. rewrite <- encoding_path.
  apply elem_of_cons in Hf as [->|Hf]; [apply score_le_refl|].
  pose proof (inv_sorted _ _ _ _ Hinv) as Hs. inversion Hs as [|? ? _ Hall]; subst.
  rewrite Forall_forall in Hall. by apply lex_lt_score_le, Hall.
Qed.

Lemma visit_inv st cur rest :
  search_inv (arena st) (visited st) (cur :: rest) None -> running (outcome st) ->
  match visit d ix c policy table (with_frontier rest st) cur with
  | Ok st' => st_inv st' None
  | Err final => found final \/ exhausted final
  end.
Proof.
  intros Hinv Hrun. unfold visit, Search.visited_find. simpl.
  destruct (match visited_find _ _ with Some _ => _ | None => _ end) eqn:Hrev.
  { split; [|done]. simpl. apply (pop_inv _ _ cur); [done| |done].
    intros Hv. rewrite Hv, Nat.eqb_refl in Hrev. done. }
  destruct (goals_satisfied _ _ _) eqn:Hg.
  { left. destruct Hrun as (_ & Hb & He & _). split_and!; try done.
    by apply (popped_optimal st cur rest). }
  destruct (_ <=? so_nodes_expanded _).
  { right. destruct Hrun as (Hf & _ & He & _). by split_and!. }
  destruct Hrun as (Hf & Hb & He & Hbnd). rewrite Hbnd.
  destruct (Z.leb_spec bound (nd_depth (arena st !!! cur))) as [Hdeep|Hshallow].
  { split; [|done]. simpl. apply (pop_inv _ _ cur); [done| |done].
    intros _. left. split; [done|]. by left. }
  set (st1 := with_outcome count_expanded (with_frontier rest st)).
  assert (Hst1 : st_inv st1 (Some (cur, 0%nat))).
  { split; [|done]. simpl. apply (pop_inv _ _ cur); [done| |].
    - intros _. right. exists 0%nat. split_and!; [done|done|]. intros j t Hj. lia.
    - intros n k [= <- <-]. done. }
  pose proof (expand_all st1 cur 0 (length (actions d)) Hst1 ltac:(lia)) as Hall.
  destruct (foldM _ _ _) as [st'|final]; [|by right].
  destruct Hall as [Hall Hrun']. split; [|done]. by eapply finish_inv.
Qed.

(** Every way the search can end. *)
Definition nothing_found (st : SearchState) : Prop :=
  so_found (outcome st) = false /\ so_budget_exhausted (outcome st) = false /\
  so_frontier_emptied (outcome st) = true /\
  forall path r, exec path = Ok r -> sizez path <= bound ->
    goals_satisfied d ix (run_state r) = false.

Lemma search_loop_spec fuel st final :
  st_inv st None -> search_loop d ix c policy table fuel st = Some final ->
  found final \/ exhausted final \/ nothing_found final.
Proof.
  revert st; induction fuel as [|fuel IH]; intros st Hst H; [done|]. simpl in H.
  destruct Hst as [Hinv Hrun]. destruct (frontier st) as [|cur rest] eqn:Hfr.
  - injection H as <-. right; right. destruct Hrun as (Hf & Hb & _). split_and!; try done.
    intros path r Hexec Hlen. destruct (goals_satisfied _ _ _) eqn:Hg; [|done].
    destruct (frontier_or_closed _ _ _ Hinv path r Hexec Hlen) as [Hc|(f & Hf' & _)].
    + by destruct (closed_not_goal _ _ _ _ _ Hinv Hexec Hg).
    + set_solver.
  - pose proof (visit_inv st cur rest Hinv Hrun) as Hv.
    destruct (visit _ _ _ _ _ _ _) as [st'|f]; [by eapply IH|].
    injection H as <-. destruct Hv; auto.
Qed.

(** ** Termination *)

Definition measure (st : SearchState) : nat :=
  length (frontier st) + Z.to_nat (max_generated_states policy - so_nodes_generated (outcome st)).

Lemma frontier_insert_length ar i fr :
  (length (frontier_insert d ar i fr) <= S (length fr))%nat.
Proof.
  induction fr as [|j fr IH]; simpl; [lia|].
  destruct (frontier_less _ _ _ _); simpl; [lia|]. destruct (frontier_less _ _ _ _); simpl; lia.
Qed.

Lemma expand_one_measure st cur k st' :
  expand_one d ix c policy table cur st k = Ok st' -> (measure st' <= measure st)%nat.
Proof.
  unfold expand_one, measure. destruct (Transition.apply _ _ _ _ _ _ _ _ _) as [t|r].
  - destruct (Z.leb_spec (max_generated_states policy) (so_nodes_generated (outcome st)));
      [done|]. destruct (objective_add _ _); [|done]. destruct (negb _).
    + intros [= <-]. simpl. lia.
    + destruct (_ <? _); [done|]. intros [= <-]. simpl.
      pose proof (frontier_insert_length
        (arena st ++ [child_of d cur (arena st !!! cur) k t o]) (length (arena st)) (frontier st)).
      lia.
  - intros [= <-]. unfold count_rejection. simpl.
    destruct (blocked_by_unknown r), (blocked_by_policy r), (blocked_by_safety r); simpl; lia.
Qed.

Lemma visit_measure st cur rest st' :
  frontier st = cur :: rest -> visit d ix c policy table (with_frontier rest st) cur = Ok st' ->
  (measure st' < measure st)%nat.
Proof.
  intros Hfr. assert (Hlt : (measure (with_frontier rest st) < measure st)%nat)
    by (unfold measure; simpl; rewrite Hfr; simpl; lia).
  unfold visit. destruct (match Search.visited_find _ _ with Some _ => _ | None => _ end).
  { intros [= <-]. exact Hlt. }
  destruct (goals_satisfied _ _ _); [done|]. destruct (_ <=? _); [done|]. destruct (_ <=? _).
  { intros [= <-]. exact Hlt. }
  intros H. eapply Nat.le_lt_trans; [|exact Hlt]. revert H.
  apply (foldM_ind (fun s => (measure s <= measure (with_frontier rest st))%nat)); [|done].
  intros t k t' _ Ht He%expand_one_measure. lia.
Qed.

Lemma search_loop_total fuel st :
  (measure st < fuel)%nat -> is_Some (search_loop d ix c policy table fuel st).
Proof.
  revert st; induction fuel as [|fuel IH]; intros st Hm; [lia|]. simpl.
  destruct (frontier st) as [|cur rest] eqn:Hfr; [by eexists|].
  destruct (visit _ _ _ _ _ _ _) as [st'|final] eqn:Hv; [|by eexists].
  apply IH. pose proof (visit_measure st cur rest st' Hfr Hv). lia.
Qed.

Lemma search_run_cases final :
  search_run d ix c policy table root = Some final ->
  found final \/ exhausted final \/ nothing_found final.
Proof.
  unfold search_run. destruct (search_loop _ _ _ _ _ _ _) as [st|] eqn:H; [|done].
  intros [= <-]. apply search_loop_spec in H; [exact H|].
  split; [apply initial_inv|]. done.
Qed.

(** ** Replay *)

(** Steps whose ticks follow one another from [t0] to [t1]. *)
Fixpoint chained (t0 : Z) (steps : list PlanStep) (t1 : Z) : Prop :=
  match steps with
  | [] => t0 = t1
  | s :: rest => step_start_tick s = t0 /\ chained (step_end_tick s) rest t1
  end.

Lemma chained_snoc t0 steps s t1 :
  chained t0 steps (step_start_tick s) -> step_end_tick s = t1 -> chained t0 (steps ++ [s]) t1.
Proof.
  revert t0; induction steps as [|s' steps IH]; intros t0; simpl; [by intros <-|].
  intros [? ?] ?. split; [done|]. by apply IH.
Qed.

(** What replay promises about its steps. *)
Record steps_ok (path : list nat) (r : Run) (steps : list PlanStep) : Prop := {
  sto_actions : map step_action steps = map action_at path;
  sto_ticks : chained (tick root) steps (tick (run_state r));
  sto_levels : Forall (fun s => step_issued_level s = AuthorityLevel.RECOMMENDATION) steps
}.

Lemma action_index_of k :
  (k < length (actions d))%nat -> index_of (action_at k) (action_ids ix) = Some k.
Proof.
  intros Hk. apply index_of_complete; [apply (rdy_ids d l Hr)|].
  unfold Search.action_at. simpl. rewrite list_lookup_fmap.
  by rewrite (list_lookup_lookup_total_lt (actions d) k Hk).
Qed.

Lemma cost_prefix r k r' :
  run_ok d root r -> exec_step d ix c policy table r k = Ok r' ->
  Forall in_u64 (run_cost r') -> Forall in_u64 (run_cost r).
Proof.
  intros Ho (Hk & t & Ht & ->)%exec_step_inv. simpl.
  destruct (step_delta _ _ _ Ht Hk) as (Hlen & Hpos & _).
  destruct (ro_cost _ _ _ Ho) as [Hl8 Hc]. rewrite <- Hlen in Hl8. clear Hlen.
  revert Hl8 Hpos. generalize (component (tr_delta t)) as ys.
  induction Hc as [|x xs Hx Hxs IH]; intros [|y ys] Hlen Hpos H; simpl in *; try lia;
    [constructor|].
  apply Forall_cons in Hpos as [? ?], H as [? ?].
  constructor; [unfold in_u64 in *; lia|]. apply (IH ys); [lia|done|done].
Qed.

Lemma replay_exec path r :
  exec path = Ok r -> Forall in_u64 (run_cost r) ->
  exists steps, foldM (replay_step d ix c policy table) (mkReplay root [] [] zero_objective)
      (map action_at path) = Ok (mkReplay (run_state r) (run_holds r) steps (mkObjective (run_cost r)))
    /\ steps_ok path r steps.
Proof.
  revert r; induction path as [|k path IH] using rev_ind; intros r H Hu.
  { injection H as <-. exists []. split; [done|]. by split. }
  apply exec_snoc in H as (r0 & H0 & Hstep).
  pose proof (exec_ok _ _ H0) as Ho.
  pose proof (cost_prefix _ _ _ Ho Hstep Hu) as Hu0.
  destruct (IH r0 H0 Hu0) as (steps & Hf & []). clear IH.
  apply exec_step_inv in Hstep as (Hk & t & Ht & ->). simpl in *.
  destruct (step_delta _ _ _ Ht Hk) as (Hlen & Hpos & Hwf).
  pose proof (apply_inv _ _ _ _ _ _ _ _ Ht) as Hsf.
  exists (steps ++ [plan_step (length steps) (action_at k) (actions d !!! k) t]).
  rewrite map_app, foldM_app, Hf. cbn [rbind map foldM]. unfold replay_step.
  rewrite action_index_of by done. cbn [rp_state rp_holds rp_objective rp_steps]. rewrite Ht.
  assert (Hadd : objective_add (mkObjective (run_cost r0)) (tr_delta t) =
                 Some (mkObjective (zip_with Z.add (run_cost r0) (component (tr_delta t))))).
  { apply objective_add_total; [|done|done]. split; [apply (ro_cost _ _ _ Ho)|done]. }
  rewrite Hadd. split; [done|]. split.
  - rewrite !map_app. by rewrite sto_actions0.
  - eapply chained_snoc; simpl; [|].
    + rewrite (sf_start _ _ _ _ _ _ _ _ Hsf). exact sto_ticks0.
    + destruct (sf_effects _ _ _ _ _ _ _ _ Hsf) as (affected & _ & -> & _). done.
  - apply Forall_app. split; [done|]. by repeat constructor.
Qed.
End SearchCorrect.

(** ** Properties *)

(** The search terminates on every input: each iteration pops a node
    and at most [max_generated_states] nodes are ever pushed, so the fuel
    [max_generated_states + 2] of the main loop is never used up. No hypothesis
    is made about the definition, the state or the policy. *)
Theorem search_terminates d policy table root :
  is_Some (search_run d (indexer_build d) (compiled_build d (indexer_build d)) policy table root).
Proof.
  unfold search_run.
  destruct (search_loop_total d policy table (search_fuel policy)
              (initial_search d (compiled_build d (indexer_build d)) policy root))
    as [final Hf].
  - unfold measure, search_fuel. simpl. lia.
  - rewrite Hf. by eexists.
Qed.

(** C1: the search is sound, optimal and complete within its step bound. It
    ends in exactly one of three ways: it found a node whose path is an execution
    of admitted steps from the initial state that satisfies every goal, and no
    execution within the step bound that satisfies the goals has a smaller
    objective, or the same objective and a smaller encoding; or it exhausted a
    budget and claims nothing; or it emptied its frontier, and then no execution
    within the step bound satisfies the goals. *)
Theorem search_correct d l policy table root final :
  search_ready d l -> sizez (resources d) < 2 ^ 32 -> state_ok d root -> pristine d root ->
  0 <= bound d policy < 2 ^ 32 ->
  search_run d (indexer_build d) (compiled_build d (indexer_build d)) policy table root
    = Some final ->
  found d policy table root final \/ exhausted final \/ nothing_found d policy table root final.
Proof. intros Hr Hsz Hroot Hp Hb. by apply (search_run_cases d l). Qed.

Definition example_c : Compiled := compiled_build example_definition example_ix.

Lemma search_correct_witness :
  exists final,
    search_run example_definition example_ix example_c example_policy example_table
      example_initial = Some final /\
    found example_definition example_policy example_table example_initial final.
Proof.
  destruct (search_run example_definition example_ix example_c example_policy example_table
              example_initial) as [final|] eqn:Hf.
  2:{ exfalso. vm_compute in Hf. discriminate. }
  exists final. split; [reflexivity|].
  destruct (search_correct example_definition default_model_limits example_policy example_table
              example_initial final) as [H|[[H _]|[H _]]].
  - exact example_ready.
  - reflexivity.
  - exact example_initial_ok.
  - vm_compute. reflexivity.
  - vm_compute. split; [discriminate|reflexivity].
  - exact Hf.
  - exact H.
  - exfalso. vm_compute in Hf. injection Hf as <-. vm_compute in H. discriminate.
  - exfalso. vm_compute in Hf. injection Hf as <-. vm_compute in H. discriminate.
Defined.

(** A plan the search found always replays: re-running its encoding from
    the pristine initial state is never rejected and never overflows, ends with
    the objective of the node the search chose, and yields one step per action
    in order, whose ticks follow one another from the initial tick, each issued
    as a recommendation only. *)
Theorem found_plan_replays d l policy table root final :
  search_ready d l -> sizez (resources d) < 2 ^ 32 -> state_ok d root -> pristine d root ->
  found d policy table root final ->
  exists steps path r,
    exec d (indexer_build d) (compiled_build d (indexer_build d)) policy table root path = Ok r /\
    goals_satisfied d (indexer_build d) (run_state r) = true /\
    plan_encoding d final = map (action_at d) path /\
    replay d (indexer_build d) (compiled_build d (indexer_build d)) policy table root
      (plan_encoding d final) = Ok (steps, mkObjective (run_cost r)) /\
    component (nd_objective (arena final !!! so_plan_node (outcome final))) = run_cost r /\
    steps_ok d root path r steps.
Proof.
  intros Hr Hsz Hroot Hp (_ & _ & _ & path & r & He & _ & Hg & Henc & Hobj & Hu & _).
  destruct (replay_exec d l policy table root Hr Hsz Hroot Hp path r He Hu) as (steps & Hf & Hs).
  exists steps, path, r. unfold replay, plan_encoding. rewrite Henc, Hf. split_and!; done.
Qed.

Lemma found_plan_replays_witness :
  exists final steps r,
    search_run example_definition example_ix example_c example_policy example_table
      example_initial = Some final /\
    plan_encoding example_definition final = [10; 11] /\
    replay example_definition example_ix example_c example_policy example_table example_initial
      (plan_encoding example_definition final) = Ok (steps, mkObjective (run_cost r)).
Proof.
  destruct search_correct_witness as (final & Hf & Hfound).
  destruct (found_plan_replays example_definition default_model_limits example_policy
              example_table example_initial final) as (steps & path & r & _ & _ & _ & H & _).
  - exact example_ready.
  - reflexivity.
  - exact example_initial_ok.
  - vm_compute. reflexivity.
  - exact Hfound.
  - exists final, steps, r. split; [exact Hf|]. split; [|exact H].
    vm_compute in Hf. injection Hf as <-. vm_compute. reflexivity.
Defined.
