(* ===== verification/StaticProofs.v ===== *)
(** * Static proofs of infeasibility

    Models [find_dependency_cycle] and [goal_upper_bound] of [src/planner.cpp]
    (lines 1002-1139). The depth-first search keeps its stacks as lists whose
    head is the back of the source's vector; a colour is 0, 1 or 2. *)
From S2P Require Import Prelude Ids Canonical Model Objective Domain DefinitionCheck Plan Fixture.
From S2P Require Import Reconcile Transition.

(** ** Dependency cycles *)

Record Dfs := mkDfs {
  colour : list Z;
  frames : list (nat * nat);
  dfs_path : list nat
}.

(** [successors[p]]: one entry per dependency on [p], in action order. *)
Definition successors_of (d : FabricDefinition) (ix : Indexer) (p : nat) : list nat :=
  concat (map (fun index =>
      map (fun _ => index)
        (filter (fun dep => index_of (dep_predecessor dep) (action_ids ix) = Some p)
           (dependencies (actions d !!! index))))
    (seq 0 (length (actions d)))).

Definition successors (d : FabricDefinition) (ix : Indexer) : list (list nat) :=
  map (successors_of d ix) (seq 0 (length (actions d))).

(** The cycle reported when the edge to [next] closes it: the path from [next]
    on, followed by [next] again. *)
Definition cycle_from (path : list nat) (next : nat) : list nat :=
  let it := default (length path) (find_index (fun n => Nat.eqb n next) (rev path)) in
  drop it (rev path) ++ [next].

(** One iteration of the inner loop; [Err] carries the cycle of [return true]. *)
Definition dfs_step (succ : list (list nat)) (st : Dfs) : result (list nat) Dfs :=
  match frames st with
  | [] => Ok st
  | (node, next) :: rest =>
      if Nat.ltb next (length (succ !!! node)) then
        let s := (succ !!! node) !!! next in
        let advanced := (node, S next) :: rest in
        if colour st !!! s =? 1 then Err (cycle_from (dfs_path st) s)
        else if colour st !!! s =? 0
        then Ok (mkDfs (<[s:=1]> (colour st)) ((s, 0%nat) :: advanced) (s :: dfs_path st))
        else Ok (mkDfs (colour st) advanced (dfs_path st))
      else Ok (mkDfs (<[node:=2]> (colour st)) rest (tail (dfs_path st)))
  end.

(** [while (!frames.empty())] *)
Fixpoint dfs_loop (succ : list (list nat)) (fuel : nat) (st : Dfs)
  : option (result (list nat) Dfs) :=
  match frames st with
  | [] => Some (Ok st)
  | _ =>
      match fuel with
      | O => None
      | S fuel' =>
          match dfs_step succ st with
          | Err cycle => Some (Err cycle)
          | Ok st' => dfs_loop succ fuel' st'
          end
      end
  end.

(** Every iteration advances a frame or pops one, and a node is pushed once. *)
Definition dfs_fuel (succ : list (list nat)) : nat := sum_list_with (fun l => S (length l)) succ.

(** The outer loop over the start nodes. *)
Fixpoint dfs_starts (succ : list (list nat)) (starts : list nat) (st : Dfs)
  : option (result (list nat) Dfs) :=
  match starts with
  | [] => Some (Ok st)
  | start :: rest =>
      if negb ((colour st !!! start) =? 0) then dfs_starts succ rest st
      else
        match dfs_loop succ (dfs_fuel succ)
                (mkDfs (<[start:=1]> (colour st)) ((start, 0%nat) :: frames st)
                   (start :: dfs_path st)) with
        | Some (Ok st') => dfs_starts succ rest st'
        | other => other
        end
  end.

Definition dfs_run (succ : list (list nat)) : option (result (list nat) Dfs) :=
  dfs_starts succ (seq 0 (length succ)) (mkDfs (replicate (length succ) 0) [] []).

(** [find_dependency_cycle]: [Some None] is [false], [Some (Some cycle)] is [true]
    with the identities of the cycle. *)
Definition find_dependency_cycle (d : FabricDefinition) (ix : Indexer)
  : option (option (list ActionId)) :=
  match dfs_run (successors d ix) with
  | None => None
  | Some (Ok _) => Some None
  | Some (Err cycle) => Some (Some (map (fun k => action_id (actions d !!! k)) cycle))
  end.

(** ** Goal upper bounds *)

(** Whether the effect can make a goal of this kind true. *)
Definition raises (kind : GoalKind.t) (e : Effect) : bool :=
  match kind with
  | GoalKind.LINK_OPERATIONAL =>
      bool_decide (eff_kind e = EffectKind.SET_LINK_OPERATIONAL) && (eff_value e =? 1)
  | GoalKind.NODE_OPERATIONAL =>
      bool_decide (eff_kind e = EffectKind.SET_NODE_OPERATIONAL) && (eff_value e =? 1)
  | GoalKind.RESOURCE_RESTORED => bool_decide (eff_kind e = EffectKind.MARK_RESOURCE_RESTORED)
  | _ => false
  end.

Definition has_writer (d : FabricDefinition) (goal : GoalSpec) : bool :=
  existsb (fun a => existsb (fun e => bool_decide (eff_subject e = goal_subject goal) &&
                                      raises (goal_kind goal) e) (effects a)) (actions d).

(** The effect loop of a service goal: ([best], [action_positive]). *)
Definition bound_effect (subject : Subject) (acc : Z * Z) (e : Effect)
  : result unit (Z * Z) :=
  let '(best, positive) := acc in
  if negb (bool_decide (eff_subject e = subject)) then Ok acc
  else match eff_kind e with
       | EffectKind.SET_SERVICE_REACHABLE =>
           if (0 <=? eff_value e) && (best <? u64 (eff_value e))
           then Ok (u64 (eff_value e), positive) else Ok acc
       | EffectKind.SERVICE_REACHABLE_DELTA =>
           if 0 <? eff_value e then
             match add_overflow positive (u64 (eff_value e)) with
             | None => Err tt
             | Some sum => Ok (best, sum)
             end
           else Ok acc
       | _ => Ok acc
       end.

(** The action loop of a service goal: ([best], [delta_total]). *)
Definition bound_action (subject : Subject) (acc : Z * Z) (a : ActionSpec)
  : result unit (Z * Z) :=
  let* r := foldM (bound_effect subject) (acc.1, 0) (effects a) in
  match mul_overflow r.2 (max_occurrences a) with
  | None => Err tt
  | Some contribution =>
      match add_overflow acc.2 contribution with
      | None => Err tt
      | Some sum => Ok (r.1, sum)
      end
  end.

Definition service_bound (d : FabricDefinition) (initial : FabricState) (goal : GoalSpec)
  (subject : nat) : option Z :=
  let service := services d !!! subject in
  let best := if negb (service_known initial !!! subject =? 0)
              then service_reachable initial !!! subject else max_reachable service in
  match foldM (bound_action (goal_subject goal)) (best, 0) (actions d) with
  | Err _ => None
  | Ok (best, delta_total) =>
      match add_overflow best delta_total with
      | None => None
      | Some reachable =>
          Some (if max_reachable service <? reachable then max_reachable service else reachable)
      end
  end.

(** The bound of a fact no action raises: its current value, when known. *)
Definition fact_bound (d : FabricDefinition) (goal : GoalSpec) (known value : Z) : option Z :=
  if has_writer d goal then None else if known =? 0 then None else Some value.

(** [goal_upper_bound]; [None] is [false]. *)
Definition goal_upper_bound (d : FabricDefinition) (ix : Indexer) (initial : FabricState)
  (goal : GoalSpec) : option Z :=
  match subject_index ix (goal_subject goal) with
  | None => None
  | Some i =>
      match goal_kind goal with
      | GoalKind.LINK_OPERATIONAL =>
          fact_bound d goal (link_known initial !!! i) (link_operational initial !!! i)
      | GoalKind.NODE_OPERATIONAL =>
          fact_bound d goal (node_known initial !!! i) (node_operational initial !!! i)
      | GoalKind.RESOURCE_RESTORED =>
          fact_bound d goal (resource_known initial !!! i) (resource_restored initial !!! i)
      | GoalKind.SERVICE_REACHABLE_AT_LEAST => service_bound d initial goal i
      | GoalKind.COUNT => None
      end
  end.

(** ** Specification of a cycle *)

(** [y] depends on [x]. *)
Definition depends_on (d : FabricDefinition) (y x : ActionId) : Prop :=
  exists a, a ∈ actions d /\ action_id a = y /\
            exists dep, dep ∈ dependencies a /\ dep_predecessor dep = x.

(** A closed walk along the dependency relation. *)
Definition dependency_cycle (d : FabricDefinition) (ids : list ActionId) : Prop :=
  (2 <= length ids)%nat /\ head ids = last ids /\
  forall i x y, ids !! i = Some x -> ids !! S i = Some y -> depends_on d y x.

(** ** Lemmas: the depth-first search *)

Section Dfs.
Context (succ : list (list nat)).
Abbreviation count := (length succ).
Context (Hsucc : forall n s, s ∈ succ !!! n -> (s < count)%nat).

(** A walk along the successors. *)
Definition walk_along (l : list nat) : Prop :=
  forall i x y, l !! i = Some x -> l !! S i = Some y -> y ∈ succ !!! x.

Definition closed_walk (l : list nat) : Prop :=
  (2 <= length l)%nat /\ head l = last l /\ walk_along l.

(** Finished nodes, oldest first: every successor of a node comes before it. *)
Inductive finished : list nat -> Prop :=
| finished_nil : finished []
| finished_snoc l n :
    finished l -> n ∉ l -> (forall s, s ∈ succ !!! n -> s ∈ l) -> finished (l ++ [n]).

(** The stack of frames: what has been scanned is finished, or on top. *)
Fixpoint frames_ok (fin : list nat) (above : option nat) (fr : list (nat * nat)) : Prop :=
  match fr with
  | [] => True
  | (n, k) :: rest =>
      (forall j s, (j < k)%nat -> (succ !!! n) !! j = Some s -> s ∈ fin \/ above = Some s) /\
      (forall s, above = Some s -> s ∈ succ !!! n) /\
      frames_ok fin (Some n) rest
  end.

Record dfs_inv (fin : list nat) (st : Dfs) : Prop := {
  dfi_length : length (colour st) = count;
  dfi_colour n : (n < count)%nat ->
    (colour st !!! n = 1 <-> n ∈ dfs_path st) /\ (colour st !!! n = 2 <-> n ∈ fin) /\
    (colour st !!! n = 0 \/ colour st !!! n = 1 \/ colour st !!! n = 2);
  dfi_path : dfs_path st = map fst (frames st);
  dfi_nodup : NoDup (dfs_path st);
  dfi_range n : n ∈ dfs_path st \/ n ∈ fin -> (n < count)%nat;
  dfi_frames : frames_ok fin None (frames st);
  dfi_finished : finished fin
}.

Lemma walk_snoc l x y :
  walk_along (l ++ [x]) -> y ∈ succ !!! x -> walk_along (l ++ [x; y]).
Proof.
  intros H Hy i a b Ha Hb. change [x; y] with ([x] ++ [y]) in Ha, Hb.
  rewrite app_assoc in Ha, Hb.
  apply lookup_app_Some in Hb as [Hb|[Hlen Hb]].
  - apply lookup_app_Some in Ha as [Ha|[Hlen' _]]; [by eapply H|].
    apply lookup_lt_Some in Hb. lia.
  - rewrite length_app in Hlen, Hb. simpl in Hlen, Hb.
    destruct (S i - (length l + 1))%nat eqn:Hi in Hb; [|done]. injection Hb as <-.
    rewrite lookup_app_l in Ha by (rewrite length_app; simpl; lia).
    rewrite lookup_app_r in Ha by lia. replace (i - length l)%nat with 0%nat in Ha by lia.
    by injection Ha as <-.
Qed.

(** The path is a walk from the start to the top of the stack. *)
Lemma frames_walk fin above fr :
  frames_ok fin above fr -> walk_along (rev (map fst fr) ++ option_list above).
Proof.
  revert above; induction fr as [|[n k] rest IH]; intros above; simpl.
  { intros _ i x y Hx Hy. destruct above; simpl in *; [|done]. by destruct i. }
  intros (_ & Habove & Hrest). specialize (IH (Some n) Hrest).
  destruct above as [s|]; simpl in *; [|by rewrite app_nil_r].
  rewrite <- app_assoc. simpl. apply walk_snoc; auto.
Qed.

Lemma walk_drop l i : walk_along l -> walk_along (drop i l).
Proof.
  intros H j x y. rewrite !lookup_drop. replace (i + S j)%nat with (S (i + j)) by lia.
  apply H.
Qed.

(** The reported sequence is a closed walk. *)
Lemma cycle_from_closed fin fr s n k rest :
  fr = (n, k) :: rest -> frames_ok fin None fr -> s ∈ map fst fr -> s ∈ succ !!! n ->
  closed_walk (cycle_from (map fst fr) s).
Proof.
  intros Hfr Hok Hs Hedge. unfold cycle_from.
  destruct (find_index _ (rev (map fst fr))) as [it|] eqn:Hit.
  2:{ apply find_index_None in Hit. rewrite Forall_forall in Hit.
      specialize (Hit s). rewrite Nat.eqb_refl in Hit. discriminate Hit.
      by rewrite list_elem_of_In, <- in_rev, <- list_elem_of_In. }
  apply find_index_Some in Hit as (Hlt & Hx%Nat.eqb_eq & _). simpl.
  assert (Hd : exists tl, drop it (rev (map fst fr)) = s :: tl).
  { exists (drop (S it) (rev (map fst fr))). apply drop_S.
    rewrite <- Hx. by apply list_lookup_lookup_total_lt. }
  destruct Hd as (tl & Hd). split_and!.
  - rewrite Hd, length_app. simpl. lia.
  - rewrite last_snoc, Hd. done.
  - assert (Hw : walk_along (rev (map fst fr) ++ [s])).
    { subst fr. simpl in *. rewrite <- app_assoc. simpl. apply walk_snoc; [|done].
      destruct Hok as (_ & _ & Hok). exact (frames_walk fin (Some n) rest Hok). }
    apply (walk_drop _ it) in Hw. by rewrite drop_app_le in Hw by lia.
Qed.

Lemma colour_at (cs : list Z) n s v :
  (s < length cs)%nat -> <[n:=v]> cs !!! s = if decide (n = s) then v else cs !!! s.
Proof. apply lookup_insert_cases. Qed.

Lemma frames_ok_weaken (fin fin' : list nat) above fr :
  (forall n, n ∈ fin -> n ∈ fin') -> frames_ok fin above fr -> frames_ok fin' above fr.
Proof.
  intros Hf. revert above; induction fr as [|[n k] rest IH]; intros above; simpl; [done|].
  intros (Hs & Ha & Hr). split_and!; [|done|by apply IH].
  intros j s Hj Hl. destruct (Hs j s Hj Hl); auto.
Qed.

(** Scanning one more successor that is finished or about to be on top. *)
Lemma scanned_succ (fin : list nat) (above above' : option nat) n k s :
  (forall j t, (j < k)%nat -> (succ !!! n) !! j = Some t -> t ∈ fin \/ above = Some t) ->
  above = None -> (succ !!! n) !! k = Some s -> s ∈ fin \/ above' = Some s ->
  forall j t, (j < S k)%nat -> (succ !!! n) !! j = Some t -> t ∈ fin \/ above' = Some t.
Proof.
  intros Hold -> Hk Hs j t Hj Ht. destruct (decide (j = k)) as [->|].
  - rewrite Hk in Ht. by injection Ht as <-.
  - destruct (Hold j t ltac:(lia) Ht); [by left|done].
Qed.

(** An undiscovered successor goes on top of the path. *)
Lemma dfs_push_inv fin st n k rest s :
  dfs_inv fin st -> frames st = (n, k) :: rest -> (succ !!! n) !! k = Some s -> (s < count)%nat ->
  colour st !!! s = 0 ->
  dfs_inv fin (mkDfs (<[s:=1]> (colour st)) ((s, 0%nat) :: (n, S k) :: rest) (s :: dfs_path st)).
Proof.
  intros [Hlen Hcol Hpath Hnd Hrange Hfr Hfin] Hst Hs Hlt Hc0. rewrite Hst in Hpath, Hfr.
  destruct Hfr as (Hscan & _ & Hrest). destruct (Hcol s Hlt) as (H1 & H2 & _).
  assert (Hsp : s ∉ dfs_path st) by (intros Hx%H1; lia).
  assert (Hsf : s ∉ fin) by (intros Hx%H2; lia).
  assert (Hsn : s ∈ succ !!! n) by (by eapply list_elem_of_lookup_2). split; simpl.
  - by rewrite length_insert.
  - intros m Hm. rewrite colour_at by congruence. rewrite elem_of_cons.
    destruct (Hcol m Hm) as (? & ? & ?). case_decide; [subst m|].
    + split_and!; [split; auto|split; [done|tauto]|auto].
    + split_and!; [|done|done]. rewrite H. split; [tauto|]. intros [->|]; done.
  - by rewrite Hpath.
  - apply NoDup_cons. by split.
  - intros m. rewrite elem_of_cons. intros [[->|]|]; auto.
  - split_and!; [intros j t Hj; lia|done| |by intros ? [= <-]|done].
    eapply scanned_succ; eauto.
  - done.
Qed.

(** An action whose successors are all scanned is finished and leaves the path. *)
Lemma dfs_pop_inv fin st n k rest :
  dfs_inv fin st -> frames st = (n, k) :: rest -> (length (succ !!! n) <= k)%nat ->
  dfs_inv (fin ++ [n]) (mkDfs (<[n:=2]> (colour st)) rest (map fst rest)).
Proof.
  intros [Hlen Hcol Hpath Hnd Hrange Hfr Hfin] Hst Hk. rewrite Hst in Hpath, Hfr. simpl in Hpath.
  destruct Hfr as (Hscan & _ & Hrest).
  assert (Hn : (n < count)%nat) by (apply Hrange; rewrite Hpath; left; left).
  assert (Hnp : n ∈ dfs_path st) by (rewrite Hpath; left).
  assert (Hnf : n ∉ fin).
  { intros Hin. destruct (Hcol n Hn) as (H1 & H2 & _). apply H1 in Hnp. apply H2 in Hin. lia. }
  rewrite Hpath in Hnd. apply NoDup_cons in Hnd as [Hnr Hnd]. split; simpl.
  - by rewrite length_insert.
  - intros m Hm. rewrite colour_at by congruence. rewrite elem_of_app, list_elem_of_singleton.
    destruct (Hcol m Hm) as (Hm1 & Hm2 & Hm3). rewrite Hpath, elem_of_cons in Hm1.
    case_decide; [subst m|].
    + split_and!; [split; done|split; auto|auto].
    + split_and!; [|rewrite Hm2; split; [auto|by intros [| ->]]|done].
      rewrite Hm1. split; [by intros [->|]|auto].
  - done.
  - done.
  - intros m. rewrite elem_of_app, list_elem_of_singleton. intros [Hm|[Hm| ->]]; auto.
    apply Hrange. left. rewrite Hpath. by right.
  - destruct rest as [|[p q] rest']; [done|]. simpl in *.
    destruct Hrest as (Hs & Ha & Hr). split_and!; [|done|].
    + intros j t Hj Ht. rewrite elem_of_app, list_elem_of_singleton.
      destruct (Hs j t Hj Ht) as [|[= ->]]; auto.
    + eapply frames_ok_weaken; [|exact Hr]. set_solver.
  - apply finished_snoc; [done|done|]. intros s (j & Hj)%list_elem_of_lookup_1.
    destruct (Hscan j s) as [|[=]]; [|done|done].
    apply lookup_lt_Some in Hj. lia.
Qed.

Lemma dfs_step_inv fin st :
  dfs_inv fin st -> frames st <> [] ->
  match dfs_step succ st with
  | Err cycle => closed_walk cycle
  | Ok st' => exists fin', dfs_inv fin' st' /\ (forall n, n ∈ fin -> n ∈ fin') /\
                (forall n, n ∈ dfs_path st -> n ∈ dfs_path st' \/ n ∈ fin')
  end.
Proof.
  intros Hi Hne. pose proof Hi as [Hlen Hcol Hpath Hnd Hrange Hfr Hfin]. unfold dfs_step.
  destruct (frames st) as [|[n k] rest] eqn:Hst; [done|]. simpl in Hpath.
  destruct (Nat.ltb_spec k (length (succ !!! n))) as [Hk|Hk].
  - set (s := (succ !!! n) !!! k).
    assert (Hs : (succ !!! n) !! k = Some s) by (by apply list_lookup_lookup_total_lt).
    assert (Hsn : s ∈ succ !!! n) by (by eapply list_elem_of_lookup_2).
    pose proof (Hsucc n s Hsn) as Hlt. destruct (Hcol s Hlt) as (H1 & H2 & H012).
    destruct (Z.eqb_spec (colour st !!! s) 1) as [Hc1|Hc1].
    { rewrite Hpath. change (n :: map fst rest) with (map fst ((n, k) :: rest)).
      eapply (cycle_from_closed fin _ s n k rest eq_refl); [done|simpl; rewrite <- Hpath; tauto|done]. }
    destruct (Z.eqb_spec (colour st !!! s) 0) as [Hc0|Hc0].
    + exists fin. split; [by apply dfs_push_inv|]. split; [done|]. intros m Hm. left. by right.
    + assert (s ∈ fin) by (apply H2; lia). destruct Hfr as (Hscan & _ & Hrest).
      exists fin. split_and!; [|done|by left]. split; simpl; try done.
      split_and!; [|done|done]. eapply scanned_succ; eauto.
  - exists (fin ++ [n]). rewrite Hpath. simpl. split; [by apply (dfs_pop_inv fin st n k rest)|].
    split; [set_solver|]. intros m. rewrite elem_of_cons, elem_of_app, list_elem_of_singleton. tauto.
Qed.

(** ** Lemmas: termination of the search *)

Fixpoint white_weight (cs : list Z) (ss : list (list nat)) : nat :=
  match cs, ss with
  | c :: cs', l :: ss' => (if c =? 0 then S (length l) else 0) + white_weight cs' ss'
  | _, _ => 0
  end.

Definition frame_weight (f : nat * nat) : nat := S (length (succ !!! f.1) - f.2).

Definition dfs_measure (st : Dfs) : nat :=
  (white_weight (colour st) succ + sum_list_with frame_weight (frames st))%nat.

Lemma white_insert (cs : list Z) (ss : list (list nat)) (n : nat) (v : Z) :
  (n < length cs)%nat -> length cs = length ss -> v <> 0 ->
  (white_weight (<[n:=v]> cs) ss +
   (if (cs !!! n =? 0)%Z then S (length (ss !!! n)) else 0))%nat = white_weight cs ss.
Proof.
  revert ss n; induction cs as [|c cs IH]; intros [|l ss] [|n] Hn Hl Hv; simpl in *; try lia.
  - destruct (Z.eqb_spec v 0), (c =? 0); lia.
  - specialize (IH ss n ltac:(lia) ltac:(lia) Hv). lia.
Qed.

Lemma dfs_step_measure fin st st' :
  dfs_inv fin st -> frames st <> [] -> dfs_step succ st = Ok st' ->
  (dfs_measure st' < dfs_measure st)%nat.
Proof.
  intros [Hlen _ Hpath _ Hrange _ _] Hne. unfold dfs_step, dfs_measure.
  destruct (frames st) as [|[n k] rest] eqn:Hst; [done|]. simpl in Hpath.
  assert (Hn : (n < count)%nat) by (apply Hrange; rewrite Hpath; left; left).
  destruct (Nat.ltb_spec k (length (succ !!! n))) as [Hk|Hk].
  - assert (Hlt : ((succ !!! n) !!! k < count)%nat)
      by (apply (Hsucc n); by apply list_elem_of_lookup_total_2).
    pose proof (white_insert (colour st) succ ((succ !!! n) !!! k) 1 ltac:(lia) Hlen
                  ltac:(done)) as Hw.
    destruct (_ =? 1); [done|]. destruct (_ =? 0); intros [= <-]; simpl;
      unfold frame_weight; simpl; lia.
  - pose proof (white_insert (colour st) succ n 2 ltac:(lia) Hlen ltac:(done)) as Hw.
    intros [= <-]. simpl. unfold frame_weight. simpl. destruct (_ =? 0); lia.
Qed.

(** ** Lemmas: the loops *)

Lemma dfs_loop_spec fuel fin st :
  dfs_inv fin st -> (dfs_measure st <= fuel)%nat ->
  match dfs_loop succ fuel st with
  | None => False
  | Some (Err cycle) => closed_walk cycle
  | Some (Ok st') => frames st' = [] /\ (dfs_measure st' <= dfs_measure st)%nat /\
      exists fin', dfs_inv fin' st' /\ forall n, n ∈ dfs_path st \/ n ∈ fin -> n ∈ fin'
  end.
Proof.
  revert fin st; induction fuel as [|fuel IH]; intros fin st Hinv Hm; simpl.
  - destruct (frames st) as [|f rest] eqn:Hfr.
    + split_and!; [done|done|]. exists fin. split; [done|].
      intros n. rewrite (dfi_path _ _ Hinv), Hfr. set_solver.
    + unfold dfs_measure in Hm. rewrite Hfr in Hm. simpl in Hm. lia.
  - destruct (frames st) as [|f rest] eqn:Hfr.
    + split_and!; [done|done|]. exists fin. split; [done|].
      intros n. rewrite (dfi_path _ _ Hinv), Hfr. set_solver.
    + assert (Hne : frames st <> []) by (by rewrite Hfr).
      pose proof (dfs_step_inv fin st Hinv Hne) as Hstep.
      pose proof (dfs_step_measure fin st) as Hdec.
      destruct (dfs_step succ st) as [st1|cycle]; [|done].
      specialize (Hdec st1 Hinv Hne eq_refl).
      destruct Hstep as (fin1 & Hinv1 & Hf1 & Hp1).
      specialize (IH fin1 st1 Hinv1 ltac:(lia)).
      destruct (dfs_loop succ fuel st1) as [[st2|cycle]|]; [|done|done].
      destruct IH as (He & Hm2 & fin2 & Hinv2 & Hf2). split_and!; [done|lia|].
      exists fin2. split; [done|]. intros n [Hn|Hn]; apply Hf2; [|auto].
      by apply Hp1.
Qed.

Lemma dfs_start_inv fin st start :
  dfs_inv fin st -> frames st = [] -> (start < count)%nat -> colour st !!! start = 0 ->
  dfs_inv fin (mkDfs (<[start:=1]> (colour st)) ((start, 0%nat) :: frames st)
                 (start :: dfs_path st)).
Proof.
  intros [Hlen Hcol Hpath Hnd Hrange Hfr Hfin] He Hlt Hc. rewrite He in *. simpl in Hpath.
  rewrite Hpath in *. destruct (Hcol start Hlt) as (_ & H2 & _).
  split; simpl; try done.
  - by rewrite length_insert.
  - intros m Hm. rewrite colour_at by congruence. rewrite list_elem_of_singleton.
    destruct (Hcol m Hm) as (Hm1 & Hm2 & Hm3). case_decide; [subst m|].
    + split_and!; [done|split; [done|]|auto]. intros Hin%Hm2. lia.
    + split_and!; [|done|done]. rewrite Hm1. split; [by intros ?%elem_of_nil|by intros ->].
  - apply NoDup_singleton.
  - intros m. rewrite list_elem_of_singleton. intros [->|]; auto.
  - split_and!; [intros j s Hj; lia|done|done].
Qed.

Lemma dfs_starts_spec starts fin st :
  dfs_inv fin st -> frames st = [] -> (dfs_measure st <= dfs_fuel succ)%nat ->
  (forall n, n ∈ starts -> (n < count)%nat) ->
  match dfs_starts succ starts st with
  | None => False
  | Some (Err cycle) => closed_walk cycle
  | Some (Ok st') => exists fin', dfs_inv fin' st' /\
      (forall n, n ∈ fin -> n ∈ fin') /\ (forall n, n ∈ starts -> n ∈ fin')
  end.
Proof.
  revert fin st; induction starts as [|start rest IH]; intros fin st Hinv He Hm Hst; simpl.
  { exists fin. split_and!; [done|done|set_solver]. }
  assert (Hlt : (start < count)%nat) by (apply Hst; left).
  destruct (Z.eqb_spec (colour st !!! start) 0) as [Hc|Hc]; simpl.
  - set (st1 := mkDfs _ _ _).
    pose proof (dfs_start_inv fin st start Hinv He Hlt Hc) as Hinv1. fold st1 in Hinv1.
    assert (Hm1 : (dfs_measure st1 <= dfs_measure st)%nat).
    { unfold dfs_measure, st1. rewrite He. simpl.
      pose proof (white_insert (colour st) succ start 1) as Hw.
      rewrite (dfi_length _ _ Hinv) in Hw. specialize (Hw Hlt eq_refl ltac:(done)).
      rewrite Hc in Hw. simpl in Hw. unfold frame_weight. simpl. lia. }
    pose proof (dfs_loop_spec (dfs_fuel succ) fin st1 Hinv1 ltac:(lia)) as Hloop.
    destruct (dfs_loop _ _ st1) as [[st2|cycle]|]; [|done|done].
    destruct Hloop as (He2 & Hm2 & fin2 & Hinv2 & Hf2).
    specialize (IH fin2 st2 Hinv2 He2 ltac:(lia) ltac:(set_solver)).
    destruct (dfs_starts succ rest st2) as [[st3|cycle]|]; [|done|done].
    destruct IH as (fin3 & Hinv3 & Hf3 & Hs3). exists fin3. split_and!; [done|auto|].
    intros n [->|Hn]%elem_of_cons; [|auto]. apply Hf3, Hf2. left. left.
  - specialize (IH fin st Hinv He Hm ltac:(set_solver)).
    destruct (dfs_starts succ rest st) as [[st3|cycle]|]; [|done|done].
    destruct IH as (fin3 & Hinv3 & Hf3 & Hs3). exists fin3. split_and!; [done|auto|].
    intros n [->|Hn]%elem_of_cons; [|auto]. apply Hf3.
    destruct (dfi_colour _ _ Hinv start Hlt) as (H1 & H2 & [H|[H|H]]); [done| |by apply H2].
    apply H1 in H. rewrite (dfi_path _ _ Hinv), He in H. by apply elem_of_nil in H.
Qed.

Lemma white_initial (ss : list (list nat)) :
  white_weight (replicate (length ss) 0) ss = dfs_fuel ss.
Proof. unfold dfs_fuel. induction ss as [|l ss IH]; simpl; [done|]. by rewrite IH. Qed.

Lemma dfs_initial_inv : dfs_inv [] (mkDfs (replicate count 0) [] []).
Proof.
  split; simpl; [by rewrite length_replicate| |done|constructor| |done|constructor].
  - intros n Hn. rewrite lookup_total_replicate_2 by done. set_solver.
  - intros n [?%elem_of_nil|?%elem_of_nil]; done.
Qed.

Lemma dfs_run_spec :
  match dfs_run succ with
  | None => False
  | Some (Err cycle) => closed_walk cycle
  | Some (Ok _) => exists fin, finished fin /\ forall n, (n < count)%nat -> n ∈ fin
  end.
Proof.
  unfold dfs_run.
  pose proof (dfs_starts_spec (seq 0 count) _ _ dfs_initial_inv eq_refl) as H.
  assert (Hm : (dfs_measure (mkDfs (replicate count 0%Z) [] []) <= dfs_fuel succ)%nat)
    by (unfold dfs_measure; simpl; rewrite white_initial; lia).
  specialize (H Hm). assert (Hs : forall n, n ∈ seq 0 count -> (n < count)%nat)
    by (intros n; rewrite elem_of_seq; lia).
  specialize (H Hs). destruct (dfs_starts _ _ _) as [[st|cycle]|]; [|done|done].
  destruct H as (fin & Hinv & _ & Hall). exists fin. split; [apply (dfi_finished _ _ Hinv)|].
  intros n Hn. apply Hall. apply elem_of_seq. lia.
Qed.
End Dfs.

(** ** Lemmas: no closed walk along a finished order *)

Lemma finished_rank succ l :
  finished succ l -> exists (f : nat -> nat) b, (forall n, n ∈ l -> (f n < b)%nat) /\
    forall n s, n ∈ l -> s ∈ succ !!! n -> s ∈ l /\ (f s < f n)%nat.
Proof.
  induction 1 as [|l n _ (f & b & Hb & Hf) Hn Hs].
  { exists (fun _ => 0%nat), 0%nat. split; [by intros ? ?%elem_of_nil|].
    by intros ? ? ?%elem_of_nil. }
  exists (fun x => if decide (x = n) then b else f x), (S b). split.
  - intros x. rewrite elem_of_app, list_elem_of_singleton. intros [Hx| ->]; case_decide; try lia.
    specialize (Hb x Hx). lia.
  - intros x s. rewrite !elem_of_app, !list_elem_of_singleton. intros Hx Hsx.
    destruct (decide (x = n)) as [->|Hne].
    + specialize (Hs s Hsx). split; [by left|].
      rewrite decide_False by (intros ->; done). by apply Hb.
    + destruct Hx as [Hx|]; [|done]. destruct (Hf x s Hx Hsx) as [Hl Hlt]. split; [by left|].
      rewrite decide_False by (intros ->; done). done.
Qed.

Lemma walk_rank succ (f : nat -> nat) (w : list nat) :
  (forall n s, n ∈ w -> s ∈ succ !!! n -> (f s < f n)%nat) -> walk_along succ w ->
  forall i x y, w !! 0%nat = Some x -> w !! i = Some y -> (f y + i <= f x)%nat.
Proof.
  intros Hf Hw i. induction i as [|i IH]; intros x y Hx Hy.
  - rewrite Hx in Hy. injection Hy as ->. lia.
  - destruct (lookup_lt_is_Some_2 w i) as [z Hz]; [apply lookup_lt_Some in Hy; lia|].
    specialize (IH x z Hx Hz). specialize (Hf z y). 
    assert (Hzw : z ∈ w) by (by eapply list_elem_of_lookup_2).
    specialize (Hf Hzw (Hw i z y Hz Hy)). lia.
Qed.

Lemma finished_no_walk succ l w :
  finished succ l -> (forall n, n ∈ w -> n ∈ l) -> ~ closed_walk succ w.
Proof.
  intros (f & b & _ & Hf)%finished_rank Hl (Hlen & Hhl & Hw).
  assert (Hf' : forall n s, n ∈ w -> s ∈ succ !!! n -> (f s < f n)%nat)
    by (intros n s Hn Hs; by destruct (Hf n s (Hl n Hn) Hs)).
  destruct w as [|x w]; [simpl in Hlen; lia|].
  destruct (last (x :: w)) as [y|] eqn:Hy; [|done].
  simpl in Hhl. injection Hhl as <-. rewrite last_lookup in Hy.
  pose proof (walk_rank succ f (x :: w) Hf' Hw _ x x eq_refl Hy). simpl in *. lia.
Qed.

(** ** Lemmas: cycles of a definition *)

Section DefinitionCycles.
Context (d : FabricDefinition).
Abbreviation ix := (indexer_build d).

Lemma successors_elem p s :
  s ∈ successors d ix !!! p <->
  (p < length (actions d))%nat /\ (s < length (actions d))%nat /\
  exists dep, dep ∈ dependencies (actions d !!! s) /\
              index_of (dep_predecessor dep) (action_ids ix) = Some p.
Proof.
  unfold successors. destruct (decide (p < length (actions d))%nat) as [Hp|Hp].
  - rewrite lookup_total_map by (by rewrite length_seq).
    rewrite lookup_total_seq_lt by done. simpl. unfold successors_of.
    rewrite list_elem_of_In, in_concat. split.
    + intros (l & (k & <- & Hk%in_seq)%in_map_iff & (dep & -> & Hd)%in_map_iff).
      apply list_elem_of_In, list_elem_of_filter in Hd as [Hd Hin].
      split_and!; [done|lia|]. by exists dep.
    + intros (_ & Hs & dep & Hin & Hd). eexists. split.
      * apply in_map_iff. exists s. split; [reflexivity|]. apply in_seq. lia.
      * apply in_map_iff. exists dep. split; [done|].
        apply list_elem_of_In, list_elem_of_filter. done.
  - rewrite (list_lookup_total_alt _ p), lookup_ge_None_2.
    + simpl. split; [by intros ?%elem_of_nil|tauto].
    + rewrite length_map, length_seq. lia.
Qed.

Lemma length_successors : length (successors d ix) = length (actions d).
Proof. unfold successors. by rewrite length_map, length_seq. Qed.

Lemma successors_range p s : s ∈ successors d ix !!! p -> (s < length (successors d ix))%nat.
Proof. rewrite length_successors. rewrite successors_elem. tauto. Qed.

Abbreviation id_of := (fun k => action_id (actions d !!! k)).

Lemma successor_depends p s : s ∈ successors d ix !!! p -> depends_on d (id_of s) (id_of p).
Proof.
  intros (Hp & Hs & dep & Hdep & Hi)%successors_elem. exists (actions d !!! s).
  split_and!; [by apply list_elem_of_lookup_total_2|done|]. exists dep. split; [done|].
  apply index_of_Some in Hi. simpl in Hi. rewrite list_lookup_fmap in Hi.
  rewrite (list_lookup_lookup_total_lt (actions d) p Hp) in Hi. by injection Hi.
Qed.

Lemma closed_walk_cycle w : closed_walk (successors d ix) w -> dependency_cycle d (map id_of w).
Proof.
  intros (Hlen & Hhl & Hw). split_and!; [by rewrite length_map| |].
  - rewrite head_lookup, last_lookup in Hhl.
    rewrite head_lookup, last_lookup, length_map, !list_lookup_fmap. by rewrite Hhl.
  - intros i x y. rewrite !list_lookup_fmap.
    intros (n & Hn & ->)%fmap_Some (m & Hm & ->)%fmap_Some.
    by eapply successor_depends, Hw.
Qed.

Context (Hc : canonical_ids d).

Lemma action_position a : a ∈ actions d -> exists k, (k < length (actions d))%nat /\
  actions d !!! k = a /\ index_of (action_id a) (action_ids ix) = Some k.
Proof.
  intros [k Hk]%list_elem_of_lookup_1. exists k. pose proof (lookup_lt_Some _ _ _ Hk).
  split_and!; [done|by apply list_lookup_total_correct|].
  apply index_of_complete; [apply Hc|]. simpl. by rewrite list_lookup_fmap, Hk.
Qed.

Lemma action_index_at k :
  (k < length (actions d))%nat -> index_of (action_id (actions d !!! k)) (action_ids ix) = Some k.
Proof.
  intros Hk. apply index_of_complete; [apply Hc|]. simpl. rewrite list_lookup_fmap.
  by rewrite (list_lookup_lookup_total_lt (actions d) k Hk).
Qed.

Lemma action_id_at x k :
  index_of x (action_ids ix) = Some k -> action_id (actions d !!! k) = x.
Proof.
  intros Hi. pose proof (index_of_bound _ _ _ _ Hi) as Hk. apply index_of_Some in Hi.
  simpl in Hi. rewrite list_lookup_fmap, (list_lookup_lookup_total_lt (actions d) k Hk) in Hi.
  by injection Hi.
Qed.

(** The position of a dependent action and of what it depends on. *)
Lemma depends_successor y x p s :
  depends_on d y x -> index_of x (action_ids ix) = Some p -> index_of y (action_ids ix) = Some s ->
  s ∈ successors d ix !!! p.
Proof.
  intros (a & Ha & <- & dep & Hdep & <-) Hp Hs. apply successors_elem.
  destruct (action_position a Ha) as (k & Hk & Hka & Hi). rewrite Hs in Hi. injection Hi as ->.
  split_and!; [exact (index_of_bound _ _ _ _ Hp)|done|]. rewrite Hka. by exists dep.
Qed.

Lemma depends_declared y x : depends_on d y x -> is_Some (index_of y (action_ids ix)).
Proof.
  intros (a & Ha & <- & _). destruct (action_position a Ha) as (k & _ & _ & Hi). by exists k.
Qed.

Lemma cycle_declared ids x : dependency_cycle d ids -> x ∈ ids -> is_Some (index_of x (action_ids ix)).
Proof.
  intros (Hlen & Hhl & Hw) [i Hi]%list_elem_of_lookup_1.
  assert (Hpos : forall j z, ids !! S j = Some z -> is_Some (index_of z (action_ids ix))).
  { intros j z Hz. destruct (lookup_lt_is_Some_2 ids j) as [u Hu].
    { apply lookup_lt_Some in Hz. lia. }
    eapply depends_declared. by eapply Hw. }
  destruct i as [|i]; [|by eapply Hpos].
  rewrite head_lookup, last_lookup, Hi in Hhl. symmetry in Hhl.
  destruct (Nat.pred (length ids)) as [|j] eqn:Hj; [lia|by eapply Hpos].
Qed.

Lemma cycle_closed_walk ids : dependency_cycle d ids -> exists w, closed_walk (successors d ix) w.
Proof.
  intros Hcy. pose proof Hcy as (Hlen & Hhl & Hw).
  assert (Hm : exists w, mapM (fun x => index_of x (action_ids ix)) ids = Some w).
  { apply mapM_is_Some_2. apply Forall_forall. intros x Hx. by eapply cycle_declared. }
  destruct Hm as [w Hm]. exists w. apply mapM_Some in Hm.
  pose proof (Forall2_length _ _ _ Hm) as Hl.
  assert (Hnth : forall i x, ids !! i = Some x ->
            exists k, w !! i = Some k /\ index_of x (action_ids ix) = Some k)
    by (intros i x Hi; destruct (Forall2_lookup_l _ _ _ _ _ Hm Hi) as (k & ? & ?); by exists k).
  split_and!; [lia| |].
  - rewrite head_lookup, last_lookup in Hhl. rewrite head_lookup, last_lookup, <- Hl.
    destruct (lookup_lt_is_Some_2 ids 0) as [x Hx]; [lia|].
    rewrite Hx in Hhl. symmetry in Hhl.
    destruct (Hnth _ _ Hx) as (k & -> & Hk). destruct (Hnth _ _ Hhl) as (k' & -> & Hk').
    congruence.
  - intros i p s Hp Hs.
    destruct (lookup_lt_is_Some_2 ids i) as [x Hx]; [apply lookup_lt_Some in Hp; lia|].
    destruct (lookup_lt_is_Some_2 ids (S i)) as [y Hy]; [apply lookup_lt_Some in Hs; lia|].
    destruct (Hnth _ _ Hx) as (k & Hk & Hik). destruct (Hnth _ _ Hy) as (m & Hmm & Him).
    eapply (depends_successor y x); [by eapply Hw| |]; congruence.
Qed.
End DefinitionCycles.

(** ** Lemmas: actions on a cycle *)

Lemma cycle_predecessor d ids y :
  dependency_cycle d ids -> y ∈ ids -> exists x, x ∈ ids /\ depends_on d y x.
Proof.
  intros (Hlen & Hhl & Hw) [i Hi]%list_elem_of_lookup_1.
  assert (Hpos : forall j z, ids !! S j = Some z -> exists x, x ∈ ids /\ depends_on d z x).
  { intros j z Hz. destruct (lookup_lt_is_Some_2 ids j) as [u Hu].
    { apply lookup_lt_Some in Hz. lia. }
    exists u. split; [by eapply list_elem_of_lookup_2|by eapply Hw]. }
  destruct i as [|i]; [|by eapply Hpos].
  rewrite head_lookup, last_lookup, Hi in Hhl. symmetry in Hhl.
  destruct (Nat.pred (length ids)) as [|j] eqn:Hj; [lia|by eapply Hpos].
Qed.

Section Executions.
Context (d : FabricDefinition) (l : ModelLimits) (policy : PlanPolicy)
  (table : list (EvidenceKey * SubjectResolution)).
Context (Hr : search_ready d l).
Abbreviation ix := (indexer_build d).
Abbreviation c := (compiled_build d ix).
Abbreviation exec := (exec d ix c policy table).

Lemma compiled_dependency_index k :
  (k < length (actions d))%nat ->
  action_dependency_indices c !!! k =
    map (fun dep => index_of (dep_predecessor dep) (action_ids ix)) (dependencies (actions d !!! k)).
Proof.
  intros Hk. unfold compiled_build. destruct (fold_left _ _ _). cbn [action_dependency_indices].
  by rewrite lookup_total_map.
Qed.

Lemma zip_map_in {A B} (f : A -> B) (xs : list A) x : x ∈ xs -> (f x, x) ∈ zip (map f xs) xs.
Proof.
  induction xs as [|y xs IH]; simpl; [by intros ?%elem_of_nil|].
  rewrite !elem_of_cons. intros [->|H]; [by left|right; auto].
Qed.

Lemma wf_action_at k : (k < length (actions d))%nat -> action_wf d l (actions d !!! k).
Proof. intros Hk. apply Forall_lookup_total; [apply (dwf_action _ _ (rdy_wf _ _ Hr))|done]. Qed.

(** A step needs every declared predecessor to have been executed. *)
Lemma step_needs s holds inc k t p dep :
  apply d ix c policy table s holds inc k = Ok t -> (k < length (actions d))%nat ->
  dep ∈ dependencies (actions d !!! k) ->
  index_of (dep_predecessor dep) (action_ids ix) = Some p ->
  0 < action_occurrences s !!! p.
Proof.
  intros Ht%apply_inv Hk Hdep Hp.
  pose proof (sf_dependencies _ _ _ _ _ _ _ _ Ht) as Hd.
  change (sf_action _ _ _ _ _ _ _ _ Ht) with (actions d !!! k) in Hd.
  rewrite compiled_dependency_index in Hd by done. rewrite Forall_forall in Hd.
  specialize (Hd _ (zip_map_in _ _ _ Hdep)). unfold check_dependency in Hd. simpl fst in Hd.
  simpl in Hd. simpl in Hp. rewrite Hp in Hd. apply require_ok in Hd. bool_cases.
  pose proof (awf_dependencies _ _ _ (wf_action_at k Hk)) as Hw. rewrite Forall_forall in Hw.
  destruct (Hw dep Hdep) as (_ & q & _ & Hne & _).
  pose proof (aty_dependencies _ (action_typed_at d (rdy_typed _ _ Hr) k Hk)) as Hty.
  rewrite Forall_forall in Hty. destruct (Hty dep Hdep) as (_ & Hm).
  unfold in_u32 in Hm. simpl in *. lia.
Qed.

Definition cycle_idle (ids : list ActionId) (r : Run) : Prop :=
  state_ok d (run_state r) /\
  forall k, (k < length (actions d))%nat -> action_id (actions d !!! k) ∈ ids ->
    action_occurrences (run_state r) !!! k = 0.

Lemma cycle_idle_step ids r k r' :
  dependency_cycle d ids -> cycle_idle ids r -> exec_step d ix c policy table r k = Ok r' ->
  cycle_idle ids r'.
Proof.
  intros Hcy [Hok Hidle] (Hk & t & Ht & ->)%exec_step_inv.
  destruct (apply_state_ok d policy table (rdy_typed _ _ Hr) _ _ _ _ _ Hok Hk Ht) as [Hok' _].
  split; [done|]. intros j Hj Hin. simpl.
  destruct (apply_occurrences d policy table (rdy_typed _ _ Hr) _ _ _ _ _ Hok Hk Ht) as [-> _].
  destruct (decide (k = j)) as [->|Hne]; [|rewrite lookup_total_insert_ne by done; by apply Hidle].
  exfalso. destruct (cycle_predecessor d ids _ Hcy Hin) as (x & Hx & a & Ha & Hid & dep & Hdep & Hp).
  destruct (action_position d (rdy_ids _ _ Hr) a Ha) as (k & Hk' & Hka & Hi).
  rewrite Hid, (action_index_at d (rdy_ids _ _ Hr) j Hj) in Hi. injection Hi as <-. subst a.
  destruct (cycle_declared d (rdy_ids _ _ Hr) ids x Hcy Hx) as [p Hip]. rewrite <- Hp in Hip.
  pose proof (step_needs _ _ _ _ _ _ _ Ht Hk Hdep Hip) as Hpos.
  rewrite (Hidle p) in Hpos; [lia|exact (index_of_bound _ _ _ _ Hip)|].
  by rewrite (action_id_at d _ _ Hip), Hp.
Qed.

Lemma cycle_idle_exec ids s0 path r :
  dependency_cycle d ids -> state_ok d s0 -> pristine d s0 -> exec s0 path = Ok r ->
  cycle_idle ids r.
Proof.
  intros Hcy Hs Hp. apply (foldM_ind (cycle_idle ids)).
  - intros t k t' _ Ht Hk. by eapply cycle_idle_step.
  - split; [done|]. intros k Hk _. simpl. rewrite Hp. by apply lookup_total_replicate_2.
Qed.

(** ** Lemmas: values no action raises *)

(** A property of states that effects, consumption and the bookkeeping of a step
    preserve holds along every execution. *)
Lemma exec_state_ind (P : FabricState -> Prop) s0 path r :
  (forall a e s s', a ∈ actions d -> e ∈ effects a -> apply_effect d ix s e = Ok s' -> P s -> P s') ->
  (forall s x, P s -> P (consume d s x)) ->
  (forall s k executed t, P s -> P (finish s k executed t)) ->
  P s0 -> exec s0 path = Ok r -> P (run_state r).
Proof.
  intros He Hc Hf H0. apply (foldM_ind (fun r => P (run_state r))); [|done].
  intros t k t' _ Ht (Hk & tr & Htr & ->)%exec_step_inv. simpl.
  apply apply_inv in Htr. destruct (sf_effects _ _ _ _ _ _ _ _ Htr) as (aff & Haff & -> & _).
  apply Hf. assert (Ha : P aff).
  { revert Haff. apply (foldM_ind P); [|done]. intros s e s' Hin Hs Hap.
    eapply (He (actions d !!! k)); eauto. by apply list_elem_of_lookup_total_2. }
  revert Ha. generalize aff as s.
  generalize (sf_uses _ _ _ _ _ _ _ _ Htr) as uses. intros uses.
  induction uses as [|x uses IH]; intros s Hs; simpl; auto.
Qed.

Lemma effect_in_wf a e : a ∈ actions d -> e ∈ effects a -> effect_wf d e.
Proof.
  intros Ha He. pose proof (dwf_action _ _ (rdy_wf _ _ Hr)) as H. rewrite Forall_forall in H.
  pose proof (awf_effects _ _ _ (H a Ha)) as H'. rewrite Forall_forall in H'. by apply H'.
Qed.

Lemma effect_in_typed a e : a ∈ actions d -> e ∈ effects a -> in_i64 (eff_value e).
Proof.
  intros Ha He. pose proof (dty_actions _ (rdy_typed _ _ Hr)) as H. rewrite Forall_forall in H.
  pose proof (aty_effects _ (H a Ha)) as H'. rewrite Forall_forall in H'. by apply H'.
Qed.

(** Two subjects of one kind at one position are the same subject. *)
Lemma subject_index_inj s1 s2 i :
  subject_kind s1 = subject_kind s2 -> subject_index ix s1 = Some i ->
  subject_index ix s2 = Some i -> s1 = s2.
Proof.
  destruct s1 as [k1 i1], s2 as [k2 i2]. simpl. intros <-. unfold subject_index. simpl.
  destruct k1; try done; intros H1%index_of_Some H2%index_of_Some; congruence.
Qed.

(** What a fact goal reads. *)
Definition goal_fact (kind : GoalKind.t) (s : FabricState) (i : nat) : Z :=
  match kind with
  | GoalKind.LINK_OPERATIONAL => link_operational s !!! i
  | GoalKind.NODE_OPERATIONAL => node_operational s !!! i
  | _ => resource_restored s !!! i
  end.

Definition is_fact (kind : GoalKind.t) : Prop :=
  kind = GoalKind.LINK_OPERATIONAL \/ kind = GoalKind.NODE_OPERATIONAL \/
  kind = GoalKind.RESOURCE_RESTORED.

(** An effect that is no writer of the goal leaves a zero fact at zero. *)
Lemma effect_no_writer g i a e s s' :
  is_fact (goal_kind g) -> subject_index ix (goal_subject g) = Some i ->
  subject_kind (goal_subject g) = goal_expected_subject (goal_kind g) ->
  has_writer d g = false -> a ∈ actions d -> e ∈ effects a ->
  apply_effect d ix s e = Ok s' ->
  goal_fact (goal_kind g) s i = 0 -> goal_fact (goal_kind g) s' i = 0.
Proof.
  intros Hfact Hi Hkind Hw Ha He Hap Hz.
  assert (Hnw : eff_subject e = goal_subject g -> raises (goal_kind g) e = false).
  { intros Hs. destruct (raises _ e) eqn:Hra; [|done].
    assert (has_writer d g = true); [|congruence]. unfold has_writer.
    apply existsb_exists. exists a. split; [by apply list_elem_of_In|].
    apply existsb_exists. exists e. split; [by apply list_elem_of_In|].
    rewrite Hra. by rewrite bool_decide_eq_true_2. }
  destruct (effect_in_wf a e Ha He) as (_ & Hek & _ & Hval).
  unfold apply_effect in Hap. destruct (subject_index ix (eff_subject e)) as [j|] eqn:Hj; [|done].
  assert (Hsame : subject_kind (eff_subject e) = subject_kind (goal_subject g) -> j = i ->
                  eff_subject e = goal_subject g)
    by (intros Hk ->; by eapply subject_index_inj).
  unfold effect_value_wf in Hval.
  destruct (eff_kind e) eqn:Hkd; simpl in Hek;
    repeat match type of Hap with context [if ?b then _ else _] => destruct b eqn:?; try done end;
    try discriminate; injection Hap as <-;
    destruct Hfact as [Hg|[Hg|Hg]]; rewrite Hg in *; simpl in *; try done;
    (destruct (decide (j = i)) as [->|Hne]; [|by rewrite lookup_total_insert_ne by done]);
    specialize (Hnw (Hsame ltac:(congruence) eq_refl)); unfold raises in Hnw; rewrite Hkd in Hnw;
    simpl in Hnw; try discriminate; destruct Hval as [Hv|Hv]; rewrite Hv in *; try discriminate.
  - destruct (decide (i < length (link_operational s))%nat) as [Hl|Hl];
      [by rewrite lookup_total_insert_eq|by rewrite list_insert_ge by lia].
  - destruct (decide (i < length (node_operational s))%nat) as [Hl|Hl];
      [by rewrite lookup_total_insert_eq|by rewrite list_insert_ge by lia].
Qed.

Lemma goal_in_wf g : g ∈ goals d -> goal_wf d g.
Proof.
  intros Hg. pose proof (dwf_goals _ _ (rdy_wf _ _ Hr)) as H. rewrite Forall_forall in H. by apply H.
Qed.

Lemma fact_stays_zero g i s0 path r :
  g ∈ goals d -> is_fact (goal_kind g) -> subject_index ix (goal_subject g) = Some i ->
  has_writer d g = false -> goal_fact (goal_kind g) s0 i = 0 -> exec s0 path = Ok r ->
  goal_fact (goal_kind g) (run_state r) i = 0.
Proof.
  intros Hg Hfact Hi Hw H0. destruct (goal_in_wf g Hg) as (_ & Hkind & _).
  apply (exec_state_ind (fun s => goal_fact (goal_kind g) s i = 0)); [|..|done].
  - intros a e s s' Ha He Hap. by eapply effect_no_writer.
  - intros s x. unfold consume. destruct (decide _); [|done].
    destruct (goal_kind g); done.
  - intros s k executed t. by destruct (goal_kind g).
Qed.

(** ** Lemmas: the bound of a service *)

(** The positive reachability deltas of a list of effects on [subject]. *)
Definition positive_of (subject : Subject) (es : list Effect) : Z :=
  foldr (fun e total =>
    if bool_decide (eff_subject e = subject) &&
       bool_decide (eff_kind e = EffectKind.SERVICE_REACHABLE_DELTA) && (0 <? eff_value e)
    then eff_value e + total else total) 0 es.

Definition sets_below (subject : Subject) (best : Z) (e : Effect) : Prop :=
  eff_subject e = subject -> eff_kind e = EffectKind.SET_SERVICE_REACHABLE ->
  0 <= eff_value e -> eff_value e <= best.

Lemma positive_of_nonneg subject es : 0 <= positive_of subject es.
Proof.
  induction es as [|e es IH]; simpl; [done|].
  destruct (bool_decide _), (bool_decide _); simpl; try done.
  destruct (Z.ltb_spec 0 (eff_value e)); lia.
Qed.

Lemma positive_of_cons subject e es :
  positive_of subject (e :: es) =
  (if bool_decide (eff_subject e = subject) &&
      bool_decide (eff_kind e = EffectKind.SERVICE_REACHABLE_DELTA) && (0 <? eff_value e)
   then eff_value e else 0) + positive_of subject es.
Proof. simpl. by destruct (_ && _)%bool. Qed.

Lemma u64_nonneg v : in_i64 v -> 0 <= v -> u64 v = v.
Proof. unfold in_i64. intros. apply u64_small. unfold in_u64. lia. Qed.

Lemma bound_effects_spec subject es b p b' p' :
  Forall (fun e => in_i64 (eff_value e)) es -> in_u64 p ->
  foldM (bound_effect subject) (b, p) es = Ok (b', p') ->
  in_u64 p' /\ p' = p + positive_of subject es /\ b <= b' /\ Forall (sets_below subject b') es.
Proof.
  intros Hes. revert b p. induction Hes as [|e es He Hes IH]; intros b p Hp H; simpl in H.
  { injection H as <- <-. split_and!; [done|simpl; lia|lia|constructor]. }
  apply rbind_ok in H as ([b1 p1] & H1 & H). unfold bound_effect in H1.
  rewrite positive_of_cons.
  assert (Hone : in_u64 p1 /\ b <= b1 /\ sets_below subject b1 e /\
    p1 = p + (if bool_decide (eff_subject e = subject) &&
                 bool_decide (eff_kind e = EffectKind.SERVICE_REACHABLE_DELTA) && (0 <? eff_value e)
              then eff_value e else 0)).
  { unfold sets_below. destruct (bool_decide (eff_subject e = subject)) eqn:Hs; simpl in *.
    2:{ injection H1 as <- <-. bool_cases. split_and!; [done|lia|done|lia]. }
    destruct (eff_kind e) eqn:Hk; simpl; try (injection H1 as <- <-; split_and!; [done|lia|done|lia]).
    - destruct (Z.ltb_spec 0 (eff_value e)) as [H0|H0]; simpl.
      + rewrite u64_nonneg in H1 by (done || lia).
        destruct (add_overflow p (eff_value e)) as [sum|] eqn:Hadd; [|done].
        apply add_overflow_Some in Hadd as [-> Hsum]; [|done|unfold in_u64, in_i64 in *; lia].
        injection H1 as <- <-. split_and!; done || lia.
      + injection H1 as <- <-. split_and!; try done; lia.
    - destruct (Z.leb_spec 0 (eff_value e)) as [H0|H0]; simpl in H1.
      + rewrite u64_nonneg in H1 by done.
        destruct (Z.ltb_spec b (eff_value e)); injection H1 as <- <-; split_and!; try done; lia.
      + injection H1 as <- <-. split_and!; try done; lia. }
  destruct Hone as (Hp1 & Hb1 & Hset & Hp1').
  destruct (IH b1 p1 Hp1 H) as (Hp' & Hsum & Hb' & Hall). split_and!; [done| |lia|].
  - rewrite Hsum, Hp1'. lia.
  - constructor; [|done]. intros ? ? ?. specialize (Hset ltac:(done) ltac:(done) ltac:(done)). lia.
Qed.

(** The most all actions together can add. *)
Definition positive_total (subject : Subject) (l : list ActionSpec) : Z :=
  foldr (fun a total => positive_of subject (effects a) * max_occurrences a + total) 0 l.

Lemma bound_actions_spec subject acts b t b' t' :
  Forall action_typed acts -> in_u64 t ->
  foldM (bound_action subject) (b, t) acts = Ok (b', t') ->
  in_u64 t' /\ t' = t + positive_total subject acts /\ b <= b' /\
  Forall (fun a => Forall (sets_below subject b') (effects a)) acts.
Proof.
  intros Ha. revert b t. induction Ha as [|a acts Ha Hacts IH]; intros b t Ht H; simpl in H.
  { injection H as <- <-. split_and!; [done|simpl; lia|lia|constructor]. }
  apply rbind_ok in H as ([b1 t1] & H1 & H). unfold bound_action in H1. simpl in H1.
  apply rbind_ok in H1 as ([b2 p2] & He & H1). simpl in H1.
  apply bound_effects_spec in He as (Hp & Hsum & Hb & Hall); [| |unfold in_u64; lia].
  2:{ eapply Forall_impl; [apply (aty_effects _ Ha)|]. by intros e [? _]. }
  pose proof (aty_occurrences _ Ha) as Hocc.
  destruct (mul_overflow p2 (max_occurrences a)) as [m|] eqn:Hm; [|done].
  apply mul_overflow_Some in Hm as [-> Hm]; [|done|unfold in_u32, in_u64 in *; lia].
  destruct (add_overflow t _) as [sum|] eqn:Hadd; [|done].
  apply add_overflow_Some in Hadd as [-> Hadd]; [|done|done].
  injection H1 as <- <-. destruct (IH _ _ Hadd H) as (Ht' & Hsum' & Hb' & Hall').
  split_and!; [done| |lia|].
  - simpl. rewrite Hsum', Hsum. lia.
  - constructor; [|done]. eapply Forall_impl; [exact Hall|].
    intros e Hse ? ? ?. specialize (Hse ltac:(done) ltac:(done) ltac:(done)). lia.
Qed.

Lemma i64_add_bound r v : in_u32 r -> in_i64 v -> 0 <= i64 (r + v) -> i64 (r + v) <= r + Z.max 0 v.
Proof.
  intros Hr' Hv Hpos. unfold in_u32, in_i64 in *.
  destruct (Z.ltb_spec (r + v) (2 ^ 63)) as [Hlt|Hge].
  - assert (i64 (r + v) = r + v); [|lia].
    rewrite <- (i64_u64 (r + v)) at 2 by (unfold in_i64; lia).
    unfold i64. by rewrite (u64_small (u64 (r + v))) by apply u64_range.
  - exfalso. unfold i64 in Hpos. rewrite (u64_small (r + v)) in Hpos by (unfold in_u64; lia).
    destruct (Z.ltb_spec (r + v) (2 ^ 63)); lia.
Qed.

Lemma u32_le v : 0 <= v -> u32 v <= v.
Proof. intros. apply Z.mod_le; lia. Qed.

(** One effect moves the reachability of a service by at most its positive part. *)
Lemma effect_reachable a e s s' subject i best B :
  a ∈ actions d -> e ∈ effects a -> state_ok d s -> subject_kind subject = SubjectKind.SERVICE ->
  subject_index ix subject = Some i -> sets_below subject best e -> best <= B ->
  apply_effect d ix s e = Ok s' -> service_reachable s !!! i <= B ->
  service_reachable s' !!! i <= B + positive_of subject [e].
Proof.
  intros Ha He Hs Hk Hi Hset HB Hap Hb.
  pose proof (positive_of_nonneg subject [e]) as Hpos.
  destruct (effect_in_wf a e Ha He) as (_ & Hek & _ & Hval).
  pose proof (effect_in_typed a e Ha He) as Hty.
  unfold apply_effect in Hap. destruct (subject_index ix (eff_subject e)) as [j|] eqn:Hj; [|done].
  assert (Hlen : (i < length (service_reachable s))%nat).
  { rewrite (ssh_service _ _ (sok_shape _ _ Hs)). pose proof (subject_index_bound d _ _ Hi) as H.
    by rewrite Hk in H. }
  assert (Hri : in_u32 (service_reachable s !!! i))
    by (apply Forall_lookup_total; [apply (sty_service _ (sok_typed _ _ Hs))|done]).
  unfold effect_value_wf in Hval.
  destruct (eff_kind e) eqn:Hkd; simpl in Hek;
    repeat match type of Hap with context [if ?b then _ else _] => destruct b eqn:?; try done end;
    try discriminate; injection Hap as <-; simpl in *; try lia;
    (destruct (decide (j = i)) as [->|Hne]; [|rewrite lookup_total_insert_ne by done; lia]);
    rewrite lookup_total_insert_eq by done;
    assert (Hsub : eff_subject e = subject) by (eapply subject_index_inj; eauto; congruence).
  - bool_cases. unfold positive_of. simpl. rewrite Hkd, !bool_decide_eq_true_2 by done. simpl.
    pose proof (i64_add_bound _ _ Hri Hty ltac:(lia)).
    match goal with Hz : 0 <= i64 _ |- _ => pose proof (u32_le _ Hz) end.
    destruct (Z.ltb_spec 0 (eff_value e)); lia.
  - destruct Hval as [Hv _]. specialize (Hset Hsub Hkd Hv). pose proof (u32_le _ Hv). lia.
Qed.

Lemma effects_reachable a es s s' subject i best B :
  a ∈ actions d -> (forall e, e ∈ es -> e ∈ effects a) -> state_ok d s ->
  subject_kind subject = SubjectKind.SERVICE -> subject_index ix subject = Some i ->
  Forall (sets_below subject best) es -> best <= B ->
  foldM (apply_effect d ix) s es = Ok s' -> service_reachable s !!! i <= B ->
  service_reachable s' !!! i <= B + positive_of subject es.
Proof.
  intros Ha Hin Hs Hk Hi Hset HB. revert s B Hs HB.
  induction Hset as [|e es He Hes IH]; intros s B Hs HB H Hb; simpl in H.
  { injection H as <-. simpl. lia. }
  apply rbind_ok in H as (s1 & H1 & H).
  assert (Hone : service_reachable s1 !!! i <= B + positive_of subject [e])
    by (eapply effect_reachable; eauto; apply Hin; left).
  pose proof (positive_of_nonneg subject [e]).
  rewrite positive_of_cons. rewrite positive_of_cons in Hone, H0.
  change (positive_of subject []) with 0 in *.
  assert (Hs1 : state_ok d s1) by (by apply (apply_effect_ok d _ _ _ Hs H1)).
  eapply Z.le_trans; [|apply Z.eq_le_incl; symmetry; apply Z.add_assoc].
  eapply Z.le_trans; [eapply IH; [intros; apply Hin; by right|exact Hs1| |exact H|exact Hone]|]; lia.
Qed.

(** What the executed actions can have added so far. *)
Fixpoint contribution (subject : Subject) (occ : list Z) (acts : list ActionSpec) : Z :=
  match occ, acts with
  | n :: occ', a :: acts' => n * positive_of subject (effects a) + contribution subject occ' acts'
  | _, _ => 0
  end.

Lemma contribution_insert subject occ acts k n :
  (k < length occ)%nat -> length occ = length acts ->
  contribution subject (<[k:=n]> occ) acts =
  contribution subject occ acts + (n - occ !!! k) * positive_of subject (effects (acts !!! k)).
Proof.
  revert acts k; induction occ as [|m occ IH]; intros [|a acts] [|k] Hk Hl; simpl in *; try lia.
  rewrite IH by lia. lia.
Qed.

Lemma contribution_zero subject n acts : contribution subject (replicate n 0) acts = 0.
Proof. revert acts; induction n as [|n IH]; intros [|a acts]; simpl; rewrite ?IH; lia. Qed.

Lemma contribution_nonneg subject occ acts :
  Forall (fun n => 0 <= n) occ -> 0 <= contribution subject occ acts.
Proof.
  intros H. revert acts. induction H as [|n occ Hn Hocc IH]; intros [|a acts]; simpl; try lia.
  pose proof (IH acts). pose proof (positive_of_nonneg subject (effects a)). nia.
Qed.

Lemma contribution_total subject occ acts :
  length occ = length acts ->
  (forall k, (k < length acts)%nat -> occ !!! k <= max_occurrences (acts !!! k)) ->
  contribution subject occ acts <= positive_total subject acts.
Proof.
  revert acts; induction occ as [|n occ IH]; intros [|a acts] Hl Hb; simpl in *; try lia.
  specialize (IH acts ltac:(lia)). assert (Hrest : contribution subject occ acts <= positive_total subject acts).
  { apply IH. intros k Hk. apply (Hb (S k)). lia. }
  pose proof (Hb 0%nat ltac:(lia)). simpl in *. pose proof (positive_of_nonneg subject (effects a)). nia.
Qed.

Lemma service_reachable_bound subject i best s0 path r :
  sizez (resources d) < 2 ^ 32 -> state_ok d s0 -> pristine d s0 ->
  subject_kind subject = SubjectKind.SERVICE -> subject_index ix subject = Some i ->
  Forall (fun a => Forall (sets_below subject best) (effects a)) (actions d) ->
  service_reachable s0 !!! i <= best -> exec s0 path = Ok r ->
  service_reachable (run_state r) !!! i <= best + positive_total subject (actions d).
Proof.
  intros Hsz Hs Hp Hk Hi Hset H0 Hex.
  pose proof (exec_run_ok d l policy table Hr Hsz s0 path r Hs Hp Hex) as Hro.
  assert (Hinv : state_ok d (run_state r) /\ service_reachable (run_state r) !!! i <=
            best + contribution subject (action_occurrences (run_state r)) (actions d)).
  { revert Hex. apply (foldM_ind (fun r => state_ok d (run_state r) /\
      service_reachable (run_state r) !!! i <=
        best + contribution subject (action_occurrences (run_state r)) (actions d))).
    - intros t k t' _ [Hok Hb] (Hkl & tr & Htr & ->)%exec_step_inv. simpl.
      destruct (apply_state_ok d policy table (rdy_typed _ _ Hr) _ _ _ _ _ Hok Hkl Htr) as [Hok' _].
      split; [done|].
      destruct (apply_occurrences d policy table (rdy_typed _ _ Hr) _ _ _ _ _ Hok Hkl Htr) as [-> _].
      rewrite contribution_insert
        by (rewrite (ssh_occurrences _ _ (sok_shape _ _ Hok)); done).
      apply apply_inv in Htr. destruct (sf_effects _ _ _ _ _ _ _ _ Htr) as (aff & Haff & -> & _).
      assert (Ha : actions d !!! k ∈ actions d) by (by apply list_elem_of_lookup_total_2).
      rewrite Forall_forall in Hset. pose proof (Hset _ Ha) as Hsk.
      assert (Hc0 : 0 <= contribution subject (action_occurrences (run_state t)) (actions d)).
      { apply contribution_nonneg. eapply Forall_impl; [apply (sty_occurrences _ (sok_typed _ _ Hok))|].
        by intros z [? _]. }
      assert (Hreach : service_reachable aff !!! i <=
        best + contribution subject (action_occurrences (run_state t)) (actions d) +
        positive_of subject (effects (actions d !!! k))).
      { eapply (effects_reachable (actions d !!! k)); [done|auto|exact Hok|done|done|exact Hsk|lia
          |exact Haff|exact Hb]. }
      simpl. destruct (fold_consume_frame d (sf_uses _ _ _ _ _ _ _ _ Htr) aff) as (_ & _ & _ & ->).
      lia.
    - simpl. split; [done|]. rewrite Hp, contribution_zero. lia. }
  destruct Hinv as [Hok Hb]. pose proof (contribution_total subject
    (action_occurrences (run_state r)) (actions d) (ssh_occurrences _ _ (sok_shape _ _ Hok))
    (ro_occurrences _ _ _ Hro)). lia.
Qed.

Lemma service_goal_bound s0 path r g i b :
  sizez (resources d) < 2 ^ 32 -> state_ok d s0 -> pristine d s0 -> g ∈ goals d ->
  goal_kind g = GoalKind.SERVICE_REACHABLE_AT_LEAST ->
  subject_index ix (goal_subject g) = Some i -> service_bound d s0 g i = Some b ->
  exec s0 path = Ok r -> service_reachable (run_state r) !!! i <= b.
Proof.
  intros Hsz Hs Hp Hg Hk Hi Hb Hex. destruct (goal_in_wf g Hg) as (_ & Hsub & _).
  rewrite Hk in Hsub. simpl in Hsub.
  pose proof (subject_index_bound d _ _ Hi) as Hlt. rewrite Hsub in Hlt. simpl in Hlt.
  pose proof (exec_run_ok d l policy table Hr Hsz s0 path r Hs Hp Hex) as Hro.
  pose proof (sok_services _ _ (ro_state _ _ _ Hro) i Hlt) as Hmax.
  unfold service_bound in Hb. set (best0 := if negb _ then _ else _) in Hb.
  destruct (foldM _ _ (actions d)) as [[best total]|] eqn:Hf; [|done].
  apply bound_actions_spec in Hf as (Ht & Htot & Hbest & Hsets);
    [|apply (rdy_typed _ _ Hr)|unfold in_u64; lia].
  unfold add_overflow in Hb. destruct (_ <? best); [done|]. injection Hb as <-.
  destruct (Z.ltb_spec (max_reachable (services d !!! i)) (best + total)); [done|].
  assert (H0 : service_reachable s0 !!! i <= best0).
  { unfold best0. destruct (negb _); [done|]. by apply (sok_services _ _ Hs). }
  rewrite Htot. eapply (service_reachable_bound _ i best); eauto. lia.
Qed.

Lemma fact_goal_bound s0 path r g i b :
  state_ok d s0 -> g ∈ goals d -> goal_kind g <> GoalKind.SERVICE_REACHABLE_AT_LEAST ->
  subject_index ix (goal_subject g) = Some i ->
  match goal_kind g with
  | GoalKind.LINK_OPERATIONAL => fact_bound d g (link_known s0 !!! i) (link_operational s0 !!! i)
  | GoalKind.NODE_OPERATIONAL => fact_bound d g (node_known s0 !!! i) (node_operational s0 !!! i)
  | GoalKind.RESOURCE_RESTORED => fact_bound d g (resource_known s0 !!! i) (resource_restored s0 !!! i)
  | GoalKind.SERVICE_REACHABLE_AT_LEAST => service_bound d s0 g i
  | GoalKind.COUNT => None
  end = Some b -> b < 1 -> exec s0 path = Ok r ->
  goal_fact (goal_kind g) (run_state r) i = 0.
Proof.
  intros Hs Hg Hk Hi Hb Hb1 Hex. destruct (goal_in_wf g Hg) as (Hnc & Hsub & _).
  pose proof (subject_index_bound d _ _ Hi) as Hlt. rewrite Hsub in Hlt.
  assert (Hfact : is_fact (goal_kind g)) by (unfold is_fact; destruct (goal_kind g); auto; done).
  assert (Hbv : has_writer d g = false /\ b = goal_fact (goal_kind g) s0 i).
  { destruct (goal_kind g); try done; unfold fact_bound in Hb; destruct (has_writer d g); try done;
      destruct (_ =? 0); try done; by injection Hb. }
  destruct Hbv as [Hw ->].
  assert (Hz : goal_fact (goal_kind g) s0 i = 0).
  { assert (in_u8 (goal_fact (goal_kind g) s0 i)); [|unfold in_u8 in *; lia].
    destruct Hs as [[] [] _].
    destruct (goal_kind g); try done; simpl in *; (apply Forall_lookup_total; [assumption|lia]). }
  by eapply fact_stays_zero.
Qed.
Lemma goal_bound_unreachable s0 path r g b :
  sizez (resources d) < 2 ^ 32 -> state_ok d s0 -> pristine d s0 -> g ∈ goals d ->
  goal_upper_bound d ix s0 g = Some b -> b < goal_value g ->
  (goal_kind g = GoalKind.SERVICE_REACHABLE_AT_LEAST \/ goal_value g <= 1) ->
  exec s0 path = Ok r -> goal_satisfied ix (run_state r) g = false.
Proof.
  intros Hsz Hs Hp Hg Hb Hlt Hkind Hex.
  unfold goal_upper_bound in Hb. unfold goal_satisfied.
  destruct (subject_index _ (goal_subject g)) as [i|] eqn:Hi; [|done].
  destruct (decide (goal_kind g = GoalKind.SERVICE_REACHABLE_AT_LEAST)) as [Hk|Hk].
  - rewrite Hk in *.
    pose proof (service_goal_bound s0 path r g i b Hsz Hs Hp Hg Hk Hi Hb Hex).
    destruct (_ =? 0); [done|]. simpl. destruct (Z.ltb_spec (service_reachable (run_state r) !!! i) (goal_value g)); [done|lia].
  - destruct Hkind as [|Hv]; [done|].
    pose proof (fact_goal_bound s0 path r g i b Hs Hg Hk Hi Hb) as Hz.
    specialize (Hz ltac:(lia) Hex).
    destruct (goal_kind g); simpl in Hz; rewrite ?Hz; try done; by rewrite orb_true_r.
Qed.
End Executions.

(** ** Concrete definitions *)

(** Two actions that wait for each other, next to the goal of the example. *)
Definition cyclic_action (id predecessor : ActionId) : ActionSpec :=
  mkAction id "wait" ActionKind.REROUTE Reversibility.IRREVERSIBLE 0 1 1 1 1 1
    AuthorityDomain.RECOVERY_ADMISSION AuthorityLevel.RECOMMENDATION [] [] []
    [mkDependency predecessor 1] [].

Definition cyclic_definition (goals : list GoalSpec) : FabricDefinition :=
  mkDefinition [mkNode 1 true; mkNode 2 false] [mkLink 1 1 2] [] []
    [cyclic_action 20 21; cyclic_action 21 20] goals [].

Lemma cyclic_ready : search_ready (cyclic_definition []) default_model_limits.
Proof.
  split.
  - split; simpl; repeat constructor; unfold in_u64, in_u32, in_i64; simpl; done || lia.
  - apply check_definition_iff. vm_compute. reflexivity.
  - split; simpl; repeat constructor; lia.
Qed.

(** A service that one action raises by one, once. *)
Definition short_goal : GoalSpec :=
  mkGoal GoalKind.SERVICE_REACHABLE_AT_LEAST (subject_of_service 1) 4 1.

Definition short_definition : FabricDefinition :=
  mkDefinition [mkNode 1 true] [] [mkService 1 1 3 4 true] []
    [mkAction 10 "raise" ActionKind.RESTORE Reversibility.IRREVERSIBLE 0 1 1 1 1 1
       AuthorityDomain.RECOVERY_ADMISSION AuthorityLevel.RECOMMENDATION []
       [mkEffect EffectKind.SERVICE_REACHABLE_DELTA (subject_of_service 1) 1] [] [] []]
    [short_goal] [].

Definition short_facts : list EvidenceFact :=
  [fabric_fact 1 EvidenceKind.SERVICE_REACHABLE_ENDPOINTS (subject_of_service 1) 2 7].

Definition short_ix : Indexer := indexer_build short_definition.
Definition short_initial : FabricState :=
  materialise_state short_definition short_ix
    (reconcile short_definition short_ix example_authority default_model_limits short_facts).

Lemma short_typed : definition_typed short_definition.
Proof. split; simpl; repeat constructor; unfold in_u64, in_u32, in_i64; simpl; done || lia. Qed.

Lemma short_ready : search_ready short_definition default_model_limits.
Proof.
  split; [apply short_typed|apply check_definition_iff; vm_compute; reflexivity|].
  split; simpl; repeat constructor; lia.
Qed.

Lemma short_initial_ok : state_ok short_definition short_initial.
Proof.
  assert (Hf : Forall (fun f => in_u64 (fact_value f)) short_facts)
    by (repeat constructor; unfold in_u64; simpl; lia).
  destruct (materialise_ok short_definition example_authority default_model_limits
              short_facts short_typed Hf). by split.
Qed.

(** ** Properties *)

(** C32: the search for dependency cycles terminates and is exact: on a
    definition in canonical order it reports a sequence of actions only when the
    sequence is a closed walk in which every action depends on the one before
    it, and it reports none only when the definition has no such walk. *)
Theorem find_dependency_cycle_exact d :
  canonical_ids d ->
  exists r, find_dependency_cycle d (indexer_build d) = Some r /\
    (forall ids, r = Some ids -> dependency_cycle d ids) /\
    (r = None <-> forall ids, ~ dependency_cycle d ids).
Proof.
  intros Hc. unfold find_dependency_cycle.
  pose proof (dfs_run_spec (successors d (indexer_build d)) (successors_range d)) as H.
  destruct (dfs_run _) as [[st|w]|]; [| |done].
  - exists None. split_and!; [done|done|]. split; [|done]. intros _ ids Hids.
    destruct (cycle_closed_walk d Hc ids Hids) as [w Hw].
    destruct H as (fin & Hfin & Hall). apply (finished_no_walk _ fin w Hfin); [|done].
    intros n [i Hi]%list_elem_of_lookup_1. apply Hall. destruct Hw as (Hlen & Hhl & Hw).
    destruct i as [|i].
    + destruct (lookup_lt_is_Some_2 w 1) as [m Hm]; [lia|].
      pose proof (Hw 0%nat n m Hi Hm) as [Hn _]%successors_elem. by rewrite length_successors.
    + destruct (lookup_lt_is_Some_2 w i) as [m Hm]; [apply lookup_lt_Some in Hi; lia|].
      exact (successors_range d _ _ (Hw i m n Hm Hi)).
  - eexists. split; [done|]. apply closed_walk_cycle in H. split.
    + by intros ids [= <-].
    + split; [done|]. intros Hn. by destruct (Hn _ H).
Qed.

Lemma find_dependency_cycle_exact_witness :
  dependency_cycle (cyclic_definition []) [20; 21; 20].
Proof.
  destruct (find_dependency_cycle_exact (cyclic_definition [])) as (r & Hr & Hc & _).
  - exact (rdy_ids _ _ cyclic_ready).
  - apply Hc. vm_compute in Hr. injection Hr as <-. reflexivity.
Defined.

(** What a dependency cycle proves: no execution of admitted steps ever
    executes an action on the cycle, whatever the evidence and the policy. *)
Theorem cycle_never_executes d l policy table s0 path r ids k :
  search_ready d l -> state_ok d s0 -> pristine d s0 -> dependency_cycle d ids ->
  exec d (indexer_build d) (compiled_build d (indexer_build d)) policy table s0 path = Ok r ->
  (k < length (actions d))%nat -> action_id (actions d !!! k) ∈ ids ->
  action_occurrences (run_state r) !!! k = 0.
Proof.
  intros Hr Hs Hp Hc He.
  destruct (cycle_idle_exec d l policy table Hr ids s0 path r Hc Hs Hp He) as [_ H]. auto.
Qed.

Lemma cyclic_initial_ok : state_ok (cyclic_definition []) (empty_state (cyclic_definition [])).
Proof. by destruct (empty_state_ok (cyclic_definition []) example_authority default_model_limits []
                      (rdy_typed _ _ cyclic_ready)). Qed.

Lemma cycle_never_executes_witness :
  exists r, exec (cyclic_definition []) (indexer_build (cyclic_definition []))
              (compiled_build (cyclic_definition []) (indexer_build (cyclic_definition [])))
              example_policy [] (empty_state (cyclic_definition [])) [] = Ok r /\
            action_occurrences (run_state r) !!! 1%nat = 0.
Proof.
  eexists. split; [reflexivity|].
  apply (cycle_never_executes (cyclic_definition []) default_model_limits example_policy []
           (empty_state (cyclic_definition [])) [] _ [20; 21; 20] 1).
  - exact cyclic_ready.
  - exact cyclic_initial_ok.
  - reflexivity.
  - exact find_dependency_cycle_exact_witness.
  - reflexivity.
  - simpl. lia.
  - right. left.
Defined.

(** C33: the structural upper bound of a goal is sound: when the bound lies
    below the goal's value, no execution of admitted steps from the initial state
    satisfies the goal, for every service goal and for every link, node and
    restoration goal whose value is at most one. *)
Theorem goal_upper_bound_sound d l policy table s0 path r g b :
  search_ready d l -> sizez (resources d) < 2 ^ 32 -> state_ok d s0 -> pristine d s0 ->
  g ∈ goals d -> goal_upper_bound d (indexer_build d) s0 g = Some b -> b < goal_value g ->
  (goal_kind g = GoalKind.SERVICE_REACHABLE_AT_LEAST \/ goal_value g <= 1) ->
  exec d (indexer_build d) (compiled_build d (indexer_build d)) policy table s0 path = Ok r ->
  goal_satisfied (indexer_build d) (run_state r) g = false.
Proof.
  intros Hr Hsz Hs Hp Hg Hb Hlt Hkind Hex.
  by apply (goal_bound_unreachable d l policy table Hr s0 path r g b).
Qed.

Lemma goal_upper_bound_sound_witness :
  exists r, exec short_definition short_ix (compiled_build short_definition short_ix)
              (mkPolicy true true 8 100 100 100 1) [] short_initial [0%nat] = Ok r /\
            service_reachable (run_state r) !!! 0%nat = 3 /\
            goal_satisfied short_ix (run_state r) short_goal = false.
Proof.
  eexists. split; [vm_compute; reflexivity|]. split; [reflexivity|].
  apply (goal_upper_bound_sound short_definition default_model_limits
           (mkPolicy true true 8 100 100 100 1) [] short_initial [0%nat] _ short_goal 3).
  - exact short_ready.
  - reflexivity.
  - exact short_initial_ok.
  - reflexivity.
  - left.
  - vm_compute. reflexivity.
  - reflexivity.
  - left. reflexivity.
  - vm_compute. reflexivity.
Defined.
