(* ===== verification/Planner.v ===== *)
(** * The planner entry point

    Models [Planner::plan] of [src/planner.cpp] (lines 1141-1191 and 1249-1557)
    and the way it composes validation, reconciliation, the static proofs and
    the search. A result is [None] only when a loop of the model ran out of fuel,
    which [plan_total] excludes. *)
From S2P Require Import Prelude Ids Canonical Model Objective Domain DefinitionCheck Plan Fixture.
From S2P Require Import Reconcile Transition Search SearchCorrect StaticProofs.

Definition decision_for_binding (s : BindingState.t) : PlanDecision.t :=
  match s with
  | BindingState.CURRENT => PlanDecision.PLAN_FOUND
  | BindingState.STALE => PlanDecision.REJECTED_STALE_AUTHORITY
  | BindingState.UNKNOWN => PlanDecision.REJECTED_UNKNOWN_AUTHORITY
  | BindingState.CONFLICT => PlanDecision.REJECTED_CONFLICTING_AUTHORITY
  | BindingState.INVALID => PlanDecision.REJECTED_INVALID_REQUEST
  | BindingState.UNSUPPORTED => PlanDecision.REJECTED_UNSUPPORTED_PROBLEM
  | BindingState.COUNT => PlanDecision.REJECTED_INVALID_REQUEST
  end.

Definition reason_for_binding (s : BindingState.t) : ReasonCode.t :=
  match s with
  | BindingState.CURRENT => ReasonCode.NONE
  | BindingState.STALE => ReasonCode.AUTHORITY_BINDING_STALE
  | BindingState.UNKNOWN => ReasonCode.AUTHORITY_BINDING_UNKNOWN
  | BindingState.CONFLICT => ReasonCode.AUTHORITY_BINDING_CONFLICT
  | BindingState.INVALID => ReasonCode.AUTHORITY_BINDING_INVALID
  | BindingState.UNSUPPORTED => ReasonCode.AUTHORITY_BINDING_UNSUPPORTED
  | BindingState.COUNT => ReasonCode.AUTHORITY_BINDING_INVALID
  end.

(** The [add] lambda of [required_domains]. *)
Definition add_domain (domains : list AuthorityDomain.t) (x : AuthorityDomain.t)
  : list AuthorityDomain.t :=
  if decide (x ∈ domains) then domains else domains ++ [x].

Definition lease_evidence (kind : EvidenceKind.t) : bool :=
  bool_decide (kind = EvidenceKind.RESOURCE_AVAILABLE_UNITS) ||
  bool_decide (kind = EvidenceKind.RESOURCE_RESTORED).

Definition required_domains (d : FabricDefinition) (e : EvidenceBundle)
  : list AuthorityDomain.t :=
  let domains := add_domain (add_domain [] AuthorityDomain.FABRIC_STATE) AuthorityDomain.POLICY in
  let domains := if bool_decide (ev_facts e = []) then domains
                 else add_domain domains AuthorityDomain.EVIDENCE_INGEST in
  let domains := fold_left (fun acc f =>
      if lease_evidence (fact_kind f) then add_domain acc AuthorityDomain.RESOURCE_LEASE else acc)
    (ev_facts e) domains in
  let domains := fold_left (fun acc a => add_domain acc (required_domain a)) (actions d) domains in
  sort_by (lt_on (fun x => [AuthorityDomain.to_u8 x])) domains.

(** ** Admission *)

(** The private canonical copy of the request. *)
Definition normalise (r : PlanRequest) : PlanRequest :=
  mkRequest (req_id r) (req_epoch r) (req_boot r) (req_attempt r)
    (canonicalise (req_definition r)) (evidence_canonicalise (req_evidence r))
    (authority_canonicalise (req_authority r)) (req_policy r)
    (sort_by fence_lt (req_fences r)).

(** A rejection: the decision and the explanations logged before it. *)
Abbreviation Admission := (result (PlanDecision.t * ExplanationLog) unit) (only parsing).

Section Admission.
Context (limits : ModelLimits) (n : PlanRequest) (log : ExplanationLog).

Definition reject (decision : PlanDecision.t) (code : ReasonCode.t) (text : string)
  : PlanDecision.t * ExplanationLog := (decision, log_add_text log code text).

Definition check_identity : Admission :=
  require (negb (is_zero (req_id n) || is_zero (req_attempt n)))
    (reject PlanDecision.REJECTED_UNSUPPORTED_PROBLEM ReasonCode.REQUEST_UNSUPPORTED_PROBLEM
       "request identity and attempt identity are mandatory and must be non-zero").

Definition check_policy : Admission :=
  let p := req_policy n in
  let* _ := require (negb ((max_plan_steps p =? 0) || (max_nodes_expanded p =? 0) ||
                           (max_generated_states p =? 0) || (max_frontier_entries p =? 0)))
      (reject PlanDecision.REJECTED_INVALID_REQUEST ReasonCode.REQUEST_INVALID_DEFINITION
         "policy bounds must be at least one") in
  require (negb ((budget_scale p =? 0) || (64 <? budget_scale p)))
    (reject PlanDecision.REJECTED_UNSUPPORTED_PROBLEM ReasonCode.REQUEST_UNSUPPORTED_PROBLEM
       "policy budget_scale is outside the supported range 1..64").

Definition check_valid_definition : Admission :=
  match validate_definition (req_definition n) limits (new_log 32) with
  | (Ok _, _) => Ok tt
  | (Err status, definition_log) =>
      let log1 := log_add_text log ReasonCode.REQUEST_INVALID_DEFINITION
                    (status_to_string status) in
      Err (PlanDecision.REJECTED_INVALID_REQUEST,
           fold_left log_add (log_entries definition_log) log1)
  end.

Definition check_epochs : Admission :=
  let auth := req_authority n in
  let evidence := req_evidence n in
  let* _ := require ((auth_epoch auth =? req_epoch n) && (auth_boot auth =? req_boot n))
      (reject PlanDecision.REJECTED_INVALID_REQUEST ReasonCode.AUTHORITY_BINDING_INVALID
         "authority vector belongs to a different coordinator epoch or boot incarnation") in
  let stale := ev_epoch evidence <? req_epoch n in
  require ((ev_epoch evidence =? req_epoch n) && (ev_boot evidence =? req_boot n))
    (reject (if stale then PlanDecision.REJECTED_STALE_AUTHORITY
             else PlanDecision.REJECTED_INVALID_REQUEST)
       (if stale then ReasonCode.EVIDENCE_SUBJECT_STALE else ReasonCode.EVIDENCE_SUBJECT_INVALID)
       "evidence bundle was not produced under the request coordinator epoch/boot").

Definition check_fence (f : Fence) : Admission :=
  let* _ := require (negb (req_epoch n <? fence_epoch f))
      (reject PlanDecision.REJECTED_FENCED ReasonCode.REQUEST_FENCED_BY_EPOCH
         "a fence from a later coordinator epoch revokes this request") in
  require (negb ((fence_epoch f =? req_epoch n) && negb (fence_boot f =? req_boot n)))
    (reject PlanDecision.REJECTED_FENCED ReasonCode.REQUEST_FENCED_BY_EPOCH
       "a fence from another boot incarnation of the same epoch revokes this request").

Definition check_domain (domain : AuthorityDomain.t) : Admission :=
  let state := evaluate_domain (req_authority n) domain in
  require (bool_decide (state = BindingState.CURRENT))
    (reject (decision_for_binding state) (reason_for_binding state)
       ("authority domain " +:+ AuthorityDomain.to_string domain +:+ " is " +:+
        BindingState.to_string state)).

Definition level_established (a : ActionSpec) : bool :=
  match authority_find (req_authority n) (required_domain a) with
  | None => false
  | Some b => negb (AuthorityLevel.to_u8 (bind_level b) <? AuthorityLevel.to_u8 (required_level a))
  end.

Definition check_level (a : ActionSpec) : Admission :=
  require (level_established a)
    (PlanDecision.REJECTED_UNKNOWN_AUTHORITY,
     log_add_subject log ReasonCode.AUTHORITY_LEVEL_INSUFFICIENT
       (subject_of_action (action_id a)) 0 0
       ("action requires " +:+ AuthorityLevel.to_string (required_level a) +:+ " on " +:+
        AuthorityDomain.to_string (required_domain a) +:+
        " but only a weaker level is established")).

Definition check_authority : Admission :=
  if require_current_authority (req_policy n) then
    let* _ := checkM check_domain (required_domains (req_definition n) (req_evidence n)) in
    checkM check_level (actions (req_definition n))
  else Ok tt.

(** Every check [plan] makes before it looks at the evidence. *)
Definition admission : Admission :=
  let* _ := check_identity in
  let* _ := check_policy in
  let* _ := check_valid_definition in
  let* _ := check_epochs in
  let* _ := checkM check_fence (req_fences n) in
  check_authority.
End Admission.

(** ** Subjects the request depends on *)

(** [std::set<Subject>]: its elements in order. *)
Definition subject_set (l : list Subject) : list Subject := unique_adj (sort_by subject_lt l).

Definition referenced_subjects (d : FabricDefinition) : list Subject :=
  subject_set (concat (map (fun a => map pre_subject (preconditions a)) (actions d)) ++
               map goal_subject (goals d)).

Definition is_established (s : FabricState) (ix : Indexer) (subject : Subject) : bool :=
  match subject_index ix subject with
  | None => true
  | Some i =>
      match subject_kind subject with
      | SubjectKind.LINK => negb (link_known s !!! i =? 0)
      | SubjectKind.NODE => negb (node_known s !!! i =? 0)
      | SubjectKind.SERVICE => negb (service_known s !!! i =? 0)
      | SubjectKind.RESOURCE => negb (resource_known s !!! i =? 0)
      | _ => true
      end
  end.

Definition missing_explanation (subject : Subject) : Explanation :=
  mkExplanation ReasonCode.EVIDENCE_SUBJECT_MISSING subject 0 0
    "no evidence establishes this subject at the granted generation".

(** The two loops that collect [unresolved_referenced], with what they log. *)
Definition unresolved_entries (d : FabricDefinition) (table : ResolutionTable)
  : list SubjectResolution :=
  filter (fun r => is_resolved r = false /\ res_subject r ∈ referenced_subjects d)
    (map snd table).

Definition unestablished (d : FabricDefinition) (ix : Indexer) (initial : FabricState)
  : list Subject :=
  filter (fun s => is_established initial ix s = false) (referenced_subjects d).

Definition unresolved_referenced (d : FabricDefinition) (ix : Indexer) (table : ResolutionTable)
  (initial : FabricState) : list Subject :=
  subject_set (map res_subject (unresolved_entries d table) ++ unestablished d ix initial).

Definition log_unresolved (d : FabricDefinition) (ix : Indexer) (table : ResolutionTable)
  (initial : FabricState) (log : ExplanationLog) : ExplanationLog :=
  fold_left log_add (map missing_explanation (unestablished d ix initial))
    (fold_left log_add (map unresolved_explanation (unresolved_entries d table)) log).

(** ** Results *)

(** The result under construction: identity, unresolved subjects, statistics. *)
Record Draft := mkDraft {
  dr_request : PlanRequest;
  dr_digest : Digest;
  dr_unresolved : list Subject;
  dr_stats : SearchStats;
  dr_log : ExplanationLog
}.

(** [conclude], with the plan and certificate the caller has stored. *)
Definition conclude (dr : Draft) (log : ExplanationLog) (plan : option RecoveryPlan)
  (certificate : option InfeasibilityCertificate) (decision : PlanDecision.t) : PlanningResult :=
  mkResult decision (req_id (dr_request dr)) (req_epoch (dr_request dr))
    (req_boot (dr_request dr)) (req_attempt (dr_request dr)) plan certificate (dr_stats dr)
    (dr_unresolved dr) (log_entries log) (dr_digest dr).

Definition established_assumption : string :=
  "evidence establishes every subject referenced by a precondition or goal".

Definition cycle_explanation : Explanation :=
  mkExplanation ReasonCode.PROOF_DEPENDENCY_CYCLE default_subject 0 0
    "the action dependency relation contains a cycle".

Definition cycle_certificate (dr : Draft) (cycle : list ActionId) : InfeasibilityCertificate :=
  mkCertificate ProofKind.DEPENDENCY_CYCLE (dr_digest dr)
    (policy_digest (req_policy (dr_request dr))) 0 0 0 cycle default_subject 0 0
    ["action dependencies are unconditional";
     "every action executes at most max_occurrences times"; established_assumption]
    [cycle_explanation].

Definition bound_explanation (goal : GoalSpec) (bound : Z) : Explanation :=
  mkExplanation ReasonCode.PROOF_GOAL_UPPER_BOUND (goal_subject goal) bound (goal_value goal)
    "goal value exceeds the structural upper bound of the subject".

Definition bound_certificate (dr : Draft) (goal : GoalSpec) (bound : Z)
  : InfeasibilityCertificate :=
  mkCertificate ProofKind.GOAL_UPPER_BOUND (dr_digest dr)
    (policy_digest (req_policy (dr_request dr))) 0 0 0 [] (goal_subject goal) bound
    (goal_value goal)
    ["no action can raise the subject beyond the derived bound";
     "action effects are exactly as declared in the definition"; established_assumption]
    [bound_explanation goal bound].

Definition exhaustive_explanation (o : SearchOutcome) : Explanation :=
  mkExplanation ReasonCode.PROOF_EXHAUSTIVE_SEARCH default_subject (so_nodes_expanded o)
    (so_reachable_states o) "the reachable plan-prefix space was exhausted without a solution".

Definition exhaustive_certificate (dr : Draft) (o : SearchOutcome) : InfeasibilityCertificate :=
  let policy := req_policy (dr_request dr) in
  mkCertificate ProofKind.EXHAUSTIVE_SEARCH (dr_digest dr) (policy_digest policy)
    (so_nodes_expanded o) (so_nodes_generated o) (so_reachable_states o) [] default_subject 0 0
    (["the plan state space is finite: every action executes at most max_occurrences times";
      established_assumption;
      "policy: irreversible actions " +:+
      (if allow_irreversible_actions policy then "allowed" else "excluded") +:+
      ", plan length bounded by " +:+ pretty (so_effective_step_bound o) +:+ " steps"] ++
     (if so_step_bound_binding o
      then ["policy.max_plan_steps is smaller than the total occurrence bound, so the proof is relative to that bound"]
      else []))
    [exhaustive_explanation o].

Definition search_stats (policy : PlanPolicy) (o : SearchOutcome) : SearchStats :=
  mkStats (so_nodes_expanded o) (so_nodes_generated o) (so_states_revisited o)
    (so_nodes_pruned_by_safety o) (so_nodes_pruned_by_unknown o) (so_nodes_pruned_by_policy o)
    (so_frontier_high_water o) (so_states_revisited o) (max_nodes_expanded policy)
    (so_budget_exhausted o) (so_frontier_emptied o).

(** ** The plan of a successful search *)

Definition bind_step (auth : AuthorityVector) (s : PlanStep) : PlanStep :=
  mkStep (step_index s) (step_action s) (step_occurrence s) (step_start_tick s)
    (step_end_tick s) (step_required_domain s) (step_required_level s)
    (match authority_find auth (step_required_domain s) with
     | Some b => bind_granted b
     | None => 0
     end)
    AuthorityLevel.RECOMMENDATION (step_evidence s) (step_irreversible s) (step_compensation s).

Definition accepted_explanation : Explanation :=
  mkExplanation ReasonCode.PLAN_ACCEPTED default_subject 0 0
    "plan satisfies every goal with zero safety violations".

Definition optimal_explanation (objective : ObjectiveVector) (o : SearchOutcome) : Explanation :=
  mkExplanation ReasonCode.PLAN_OPTIMAL_BY_OBJECTIVE default_subject 0 0
    ("objective " +:+ objective_to_string objective +:+
     " is minimal over the explored plan space (nodes expanded " +:+
     pretty (so_nodes_expanded o) +:+ ")").

Definition build_plan (dr : Draft) (steps : list PlanStep) (objective : ObjectiveVector)
  (o : SearchOutcome) : RecoveryPlan :=
  let n := dr_request dr in
  let p := mkPlan 0 (req_id n) (req_epoch n) (req_boot n) (req_attempt n)
             (map (bind_step (req_authority n)) steps) objective (dr_digest dr)
             (definition_digest (req_definition n)) (evidence_digest (req_evidence n))
             (authority_digest (req_authority n)) (policy_digest (req_policy n)) zero_digest
             [accepted_explanation; optimal_explanation objective o] in
  let digest := compute_digest p in
  set_identity p (if digest_lo digest =? 0 then 1 else digest_lo digest) digest.

(** ** [Planner::plan] after admission *)

(** The first goal whose bound lies below its value. *)
Fixpoint infeasible_goal (d : FabricDefinition) (ix : Indexer) (initial : FabricState)
  (gs : list GoalSpec) : option (GoalSpec * Z) :=
  match gs with
  | [] => None
  | g :: rest =>
      match goal_upper_bound d ix initial g with
      | Some bound =>
          if goal_value g <=? bound then infeasible_goal d ix initial rest else Some (g, bound)
      | None => infeasible_goal d ix initial rest
      end
  end.

(** What [plan] does with the outcome of the search. *)
Definition conclude_search (dr : Draft) (ix : Indexer) (c : Compiled) (table : ResolutionTable)
  (initial : FabricState) (final : SearchState) : PlanningResult :=
  let n := dr_request dr in
  let d := req_definition n in
  let o := outcome final in
  let log := dr_log dr in
  if so_found o then
    match replay d ix c (req_policy n) table initial (plan_encoding d final) with
    | Err status =>
        conclude dr (log_add_text log ReasonCode.REQUEST_INVALID_DEFINITION
                       (status_to_string status)) None None PlanDecision.REJECTED_INVALID_REQUEST
    | Ok (steps, objective) =>
        conclude dr (log_add (log_add log accepted_explanation)
                       (optimal_explanation objective o))
          (Some (build_plan dr steps objective o)) None PlanDecision.PLAN_FOUND
    end
  else if so_budget_exhausted o then
    let log := log_add_text log ReasonCode.SEARCH_BUDGET_EXHAUSTED
      ("search budget reached after " +:+ pretty (so_nodes_expanded o) +:+
       " expansions; no conclusion about feasibility is claimed") in
    let log := if so_accounting_overflow o
               then log_add_text log ReasonCode.SEARCH_BUDGET_EXHAUSTED
                      "objective accounting overflowed 64 bits"
               else log in
    conclude dr log None None PlanDecision.INDETERMINATE_SEARCH_LIMIT
  else if negb (bool_decide (dr_unresolved dr = [])) then
    conclude dr (log_add_text log ReasonCode.EVIDENCE_SUBJECT_MISSING
      "the search space was exhausted but evidence does not establish every subject a step or goal depends on, so infeasibility cannot be claimed")
      None None PlanDecision.INDETERMINATE_INCOMPLETE_EVIDENCE
  else
    conclude dr (log_add log (exhaustive_explanation o)) None
      (Some (exhaustive_certificate dr o)) PlanDecision.PROVEN_INFEASIBLE.

Definition set_stats (dr : Draft) (stats : SearchStats) : Draft :=
  mkDraft (dr_request dr) (dr_digest dr) (dr_unresolved dr) stats (dr_log dr).

(** The planner's view of an admitted request. *)
Definition request_table (limits : ModelLimits) (n : PlanRequest) : ResolutionTable :=
  reconcile (req_definition n) (indexer_build (req_definition n)) (req_authority n) limits
    (ev_facts (req_evidence n)).

Definition request_initial (limits : ModelLimits) (n : PlanRequest) : FabricState :=
  materialise_state (req_definition n) (indexer_build (req_definition n)) (request_table limits n).

Definition plan_admitted (limits : ModelLimits) (n : PlanRequest) (log : ExplanationLog)
  : option PlanningResult :=
  let d := req_definition n in
  let ix := indexer_build d in
  let c := compiled_build d ix in
  let table := request_table limits n in
  let initial := request_initial limits n in
  let dr := mkDraft n (request_digest n) (unresolved_referenced d ix table initial) zero_stats
              (log_unresolved d ix table initial log) in
  match find_dependency_cycle d ix with
  | None => None
  | Some (Some cycle) =>
      Some (conclude dr (log_add (dr_log dr) cycle_explanation) None
              (Some (cycle_certificate dr cycle)) PlanDecision.PROVEN_INFEASIBLE)
  | Some None =>
      match infeasible_goal d ix initial (goals d) with
      | Some (goal, bound) =>
          Some (conclude dr (log_add (dr_log dr) (bound_explanation goal bound)) None
                  (Some (bound_certificate dr goal bound)) PlanDecision.PROVEN_INFEASIBLE)
      | None =>
          match search_run d ix c (req_policy n) table initial with
          | None => None
          | Some final =>
              Some (conclude_search (set_stats dr (search_stats (req_policy n) (outcome final)))
                      ix c table initial final)
          end
      end
  end.

(** [Planner::plan] *)
Definition plan (limits : ModelLimits) (r : PlanRequest) : option PlanningResult :=
  let n := normalise r in
  let log := new_log 96 in
  match admission limits n log with
  | Err (decision, log) =>
      Some (conclude (mkDraft n (request_digest n) [] zero_stats log) log None None decision)
  | Ok _ => plan_admitted limits n log
  end.

(** The example request, planned. *)
Example plan_example :
  option_map (fun r => (pr_decision r, encoding <$> pr_plan r)) (plan default_model_limits example_request)
  = Some (PlanDecision.PLAN_FOUND, Some [10; 11]).
Proof. vm_compute. reflexivity. Qed.

(** ** Lemmas: canonical requests *)

Lemma Forall_sort {A} (ltb : A -> A -> bool) `{!StrictWeakOrder ltb} (P : A -> Prop) l :
  Forall P l -> Forall P (sort_by ltb l).
Proof. by rewrite sort_by_perm. Qed.

Lemma canonicalise_action_typed a : action_typed a -> action_typed (canonicalise_action a).
Proof. intros []. split; simpl; auto; by apply Forall_sort; try apply _. Qed.

Lemma canonicalise_typed d : definition_typed d -> definition_typed (canonicalise d).
Proof.
  intros []. split; simpl; try (apply Forall_sort; [apply _|done]).
  apply Forall_map. apply Forall_sort; [apply _|].
  eapply Forall_impl; [eassumption|]. apply canonicalise_action_typed.
Qed.

Lemma sorted_again {A} (id : A -> Z) l :
  NoDup (map id (sort_by (lt_on (fun x => [id x])) l)) ->
  StronglySorted Z.lt (map id (sort_by (lt_on (fun x => [id x])) l)).
Proof.
  intros H. apply sort_ids_sorted.
  by rewrite (sort_by_perm (lt_on (fun x => [id x])) l) in H.
Qed.

Lemma canonicalise_ids l d : definition_wf l (canonicalise d) -> canonical_ids (canonicalise d).
Proof.
  intros H.
  assert (Hm : map action_id (actions (canonicalise d)) =
               map action_id (sort_by (lt_on (fun a => [action_id a])) (actions d))).
  { simpl. rewrite map_map. by apply map_ext. }
  split.
  - apply sorted_again, (dwf_nodes _ _ H).
  - apply sorted_again, (dwf_links _ _ H).
  - apply sorted_again, (dwf_services _ _ H).
  - apply sorted_again, (dwf_resources _ _ H).
  - rewrite Hm. apply sorted_again. rewrite <- Hm. apply (dwf_actions _ _ H).
Qed.

Lemma normalise_typed r : request_typed r -> request_typed (normalise r).
Proof.
  intros []. split; simpl; [by apply canonicalise_typed|by apply Forall_sort; [apply _|]|done].
Qed.

(** Limits under which no counter of the search can leave 32 bits. *)
Record limits_ok (l : ModelLimits) : Prop := {
  lok_resources : max_resources l < 2 ^ 32;
  lok_steps : max_actions l * max_action_occurrences l < 2 ^ 32
}.

Lemma default_limits_ok : limits_ok default_model_limits.
Proof. split; reflexivity. Qed.

Lemma step_bound_fold M acts b f :
  Forall (fun a => 0 <= max_occurrences a <= M) acts -> 0 <= b ->
  b + sizez acts * M < 2 ^ 32 ->
  exists b', fold_left add_step_bound acts (b, f) = (b', f) /\ 0 <= b' < 2 ^ 32.
Proof.
  intros H. revert b. unfold sizez. induction H as [|a acts Ha Hacts IH]; intros b Hb Hlt; simpl in *.
  - exists b. split; [done|lia].
  - unfold add_step_bound at 2. simpl. unfold add_overflow.
    destruct (Z.ltb_spec (UINT64_MAX - max_occurrences a) b); [unfold UINT64_MAX in *; nia|].
    apply IH; nia.
Qed.

Section Ready.
Context (limits : ModelLimits) (n : PlanRequest).
Abbreviation d := (req_definition n).
Abbreviation policy := (req_policy n).
Context (Hl : limits_ok limits) (Hr : search_ready d limits)
  (Hsteps : in_u64 (max_plan_steps policy)).

Lemma ready_resources : sizez (resources d) < 2 ^ 32.
Proof.
  destruct (dwf_sizes _ _ (rdy_wf _ _ Hr)) as (_ & _ & _ & H & _).
  pose proof (lok_resources _ Hl). lia.
Qed.

Lemma ready_step_bound : 0 <= step_bound (compiled_build d (indexer_build d)) < 2 ^ 32.
Proof.
  destruct (dwf_sizes _ _ (rdy_wf _ _ Hr)) as (_ & _ & _ & _ & Hs & _).
  pose proof (lok_steps _ Hl) as Hlim.
  assert (Hocc : Forall (fun a => 0 <= max_occurrences a <= max_action_occurrences limits) (actions d)).
  { pose proof (dwf_action _ _ (rdy_wf _ _ Hr)) as Hw.
    pose proof (dty_actions _ (rdy_typed _ _ Hr)) as Ht.
    rewrite Forall_forall in *. intros a Ha. destruct (aty_occurrences _ (Ht a Ha)).
    destruct (awf_occurrences _ _ _ (Hw a Ha)). lia. }
  unfold step_bound, compiled_build.
  destruct (step_bound_fold _ (actions d) 0 false Hocc) as (b & Hf & Hb); [lia| |].
  - destruct (actions d) as [|a acts] eqn:Ha; [unfold sizez; simpl; lia|].
    apply Forall_cons in Hocc as [Hocc _]. nia.
  - rewrite Hf. simpl. done.
Qed.

Lemma ready_bound : 0 <= bound d policy < 2 ^ 32.
Proof. unfold bound. pose proof ready_step_bound. unfold in_u64 in Hsteps. lia. Qed.
End Ready.

(** ** Lemmas: the initial state of a request *)

Lemma place_occurrences ix s r :
  action_occurrences (place ix s r) = action_occurrences s /\ tick (place ix s r) = tick s.
Proof.
  unfold place. case_bool_decide; simpl; [|done]. destruct (subject_index _ _); [|done].
  by destruct (res_kind r).
Qed.

Lemma materialise_pristine d ix t : pristine d (materialise_state d ix t) /\ tick (materialise_state d ix t) = 0.
Proof.
  unfold materialise_state, pristine.
  assert (H : forall rs s, action_occurrences (fold_left (place ix) rs s) = action_occurrences s /\
                           tick (fold_left (place ix) rs s) = tick s).
  { induction rs as [|r rs IH]; intros s; simpl; [done|].
    destruct (IH (place ix s r)) as [-> ->]. apply place_occurrences. }
  destruct (H (map snd t) (empty_state d)) as [-> ->]. done.
Qed.

Lemma request_initial_ok limits n :
  request_typed n -> state_ok (req_definition n) (request_initial limits n) /\
                     pristine (req_definition n) (request_initial limits n).
Proof.
  intros [Hd Hf _]. split; [|apply materialise_pristine].
  destruct (materialise_ok (req_definition n) (req_authority n) limits
              (ev_facts (req_evidence n)) Hd Hf). by split.
Qed.

(** ** Admission, as a specification *)

(** The authority domains a request depends on. *)
Definition domain_required (d : FabricDefinition) (e : EvidenceBundle) (x : AuthorityDomain.t)
  : Prop :=
  x = AuthorityDomain.FABRIC_STATE \/ x = AuthorityDomain.POLICY \/
  (x = AuthorityDomain.EVIDENCE_INGEST /\ ev_facts e <> []) \/
  (x = AuthorityDomain.RESOURCE_LEASE /\
   exists f, f ∈ ev_facts e /\ lease_evidence (fact_kind f) = true) \/
  (exists a, a ∈ actions d /\ required_domain a = x).

(** No fence of a later epoch, or of another boot of the same epoch. *)
Definition unfenced (n : PlanRequest) (f : Fence) : Prop :=
  fence_epoch f <= req_epoch n /\ (fence_epoch f = req_epoch n -> fence_boot f = req_boot n).

Definition level_granted (n : PlanRequest) (a : ActionSpec) : Prop :=
  exists b, authority_find (req_authority n) (required_domain a) = Some b /\
            AuthorityLevel.to_u8 (required_level a) <= AuthorityLevel.to_u8 (bind_level b).

Record policy_wf (p : PlanPolicy) : Prop := {
  pwf_bounds : max_plan_steps p <> 0 /\ max_nodes_expanded p <> 0 /\
               max_generated_states p <> 0 /\ max_frontier_entries p <> 0;
  pwf_scale : budget_scale p <> 0 /\ budget_scale p <= 64
}.

Record admissible (limits : ModelLimits) (n : PlanRequest) : Prop := {
  adm_identity : req_id n <> 0 /\ req_attempt n <> 0;
  adm_policy : policy_wf (req_policy n);
  adm_definition : definition_wf limits (req_definition n);
  adm_authority : auth_epoch (req_authority n) = req_epoch n /\
                  auth_boot (req_authority n) = req_boot n;
  adm_evidence : ev_epoch (req_evidence n) = req_epoch n /\ ev_boot (req_evidence n) = req_boot n;
  adm_fences : Forall (unfenced n) (req_fences n);
  adm_domains : require_current_authority (req_policy n) = true ->
    forall x, domain_required (req_definition n) (req_evidence n) x ->
              evaluate_domain (req_authority n) x = BindingState.CURRENT;
  adm_levels : require_current_authority (req_policy n) = true ->
    Forall (level_granted n) (actions (req_definition n))
}.

Lemma add_domain_elem domains x y : y ∈ add_domain domains x <-> y ∈ domains \/ y = x.
Proof.
  unfold add_domain. case_decide as H; [|rewrite elem_of_app, list_elem_of_singleton; tauto].
  split; [auto|]. by intros [| ->].
Qed.

Lemma fold_domains_elem {A} (P : A -> bool) (f : A -> AuthorityDomain.t) l domains y :
  y ∈ fold_left (fun acc a => if P a then add_domain acc (f a) else acc) l domains <->
  y ∈ domains \/ exists a, a ∈ l /\ P a = true /\ f a = y.
Proof.
  revert domains. induction l as [|a l IH]; intros domains; simpl.
  { split; [auto|]. by intros [|(? & ?%elem_of_nil & _)]. }
  rewrite IH. destruct (P a) eqn:Ha; rewrite ?add_domain_elem.
  - split.
    + intros [[H| ->]|(b & ? & ?)]; [by left|right; exists a; split_and!; [left|done|done]|].
      right. exists b. split; [by right|done].
    + intros [H|(b & Hb & HP & Hf)]; [auto|]. apply elem_of_cons in Hb as [->|Hb]; [auto|].
      right. by exists b.
  - split.
    + intros [H|(b & ? & ?)]; [by left|]. right. exists b. split; [by right|done].
    + intros [H|(b & Hb & HP & Hf)]; [auto|]. apply elem_of_cons in Hb as [->|Hb]; [congruence|].
      right. by exists b.
Qed.

Lemma required_domains_elem d e x : x ∈ required_domains d e <-> domain_required d e x.
Proof.
  unfold required_domains, domain_required. rewrite elem_of_sort_by by apply _.
  rewrite (fold_domains_elem (fun _ => true) required_domain).
  rewrite (fold_domains_elem (fun f => lease_evidence (fact_kind f))
             (fun _ => AuthorityDomain.RESOURCE_LEASE)).
  case_bool_decide as Hf; rewrite ?add_domain_elem; rewrite ?elem_of_nil.
  - rewrite Hf. split.
    + intros [[[[[]| ->]| ->]|(f & ?%elem_of_nil & _)]|(a & Ha & _ & He)]; try done; auto.
      do 4 right. by exists a.
    + intros [->|[->|[[_ H]|[[_ (f & ?%elem_of_nil & _)]|(a & Ha & He)]]]]; try done; auto.
      right. by exists a.
  - split.
    + intros [[[[[[]| ->]| ->]| ->]|(f & Hin & Hk & <-)]|(a & Ha & _ & He)]; auto.
      * right; right; right; left. split; [done|]. by exists f.
      * do 4 right. by exists a.
    + intros [->|[->|[[-> H]|[[-> (f & Hin & Hk)]|(a & Ha & He)]]]]; auto 7.
      * left. right. by exists f.
      * right. by exists a.
Qed.

Section AdmissionLemmas.
Context (limits : ModelLimits) (n : PlanRequest) (log : ExplanationLog).

Lemma check_identity_iff :
  check_identity n log = Ok tt <-> req_id n <> 0 /\ req_attempt n <> 0.
Proof.
  unfold check_identity, is_zero. rewrite require_ok.
  destruct (Z.eqb_spec (req_id n) 0), (Z.eqb_spec (req_attempt n) 0); simpl; intuition congruence.
Qed.

Lemma check_policy_iff : check_policy n log = Ok tt <-> policy_wf (req_policy n).
Proof.
  unfold check_policy. cbv zeta. rewrite bind_unit_ok, !require_ok.
  split.
  - intros [H1 H2]. bool_cases. by repeat split.
  - intros [(H1 & H2 & H3 & H4) [H5 H6]].
    rewrite !(proj2 (Z.eqb_neq _ _)) by done. by destruct (Z.ltb_spec 64 (budget_scale (req_policy n))); [lia|].
Qed.

Lemma check_valid_definition_iff :
  check_valid_definition limits n log = Ok tt <-> definition_wf limits (req_definition n).
Proof.
  rewrite <- check_definition_iff. unfold check_valid_definition, validate_definition.
  destruct (check_definition _ _) as [[]|text]; split; done.
Qed.

Lemma check_epochs_iff :
  check_epochs n log = Ok tt <->
  (auth_epoch (req_authority n) = req_epoch n /\ auth_boot (req_authority n) = req_boot n) /\
  (ev_epoch (req_evidence n) = req_epoch n /\ ev_boot (req_evidence n) = req_boot n).
Proof.
  unfold check_epochs. cbv zeta. rewrite bind_unit_ok, !require_ok, !andb_true_iff, !Z.eqb_eq. done.
Qed.

Lemma check_fence_iff f : check_fence n log f = Ok tt <-> unfenced n f.
Proof.
  unfold check_fence, unfenced. rewrite bind_unit_ok, !require_ok, !negb_true_iff, Z.ltb_ge.
  destruct (Z.eqb_spec (fence_epoch f) (req_epoch n)), (Z.eqb_spec (fence_boot f) (req_boot n));
    simpl; intuition congruence.
Qed.

Lemma check_domain_iff x :
  check_domain n log x = Ok tt <-> evaluate_domain (req_authority n) x = BindingState.CURRENT.
Proof. unfold check_domain. cbv zeta. by rewrite require_ok, bool_decide_eq_true. Qed.

Lemma check_level_iff a : check_level n log a = Ok tt <-> level_granted n a.
Proof.
  unfold check_level, level_established, level_granted. rewrite require_ok.
  destruct (authority_find _ _) as [b|].
  - rewrite negb_true_iff, Z.ltb_ge. split; [by exists b|]. by intros (? & [= <-] & ?).
  - split; [done|]. by intros (? & ? & _).
Qed.

Lemma admission_iff : admission limits n log = Ok tt <-> admissible limits n.
Proof.
  unfold admission. rewrite !bind_unit_ok, check_identity_iff, check_policy_iff,
    check_valid_definition_iff, check_epochs_iff, (checkM_iff _ _ _ check_fence_iff).
  assert (Ha : check_authority n log = Ok tt <->
    (require_current_authority (req_policy n) = true ->
     (forall x, domain_required (req_definition n) (req_evidence n) x ->
              evaluate_domain (req_authority n) x = BindingState.CURRENT) /\
     Forall (level_granted n) (actions (req_definition n)))).
  { unfold check_authority. destruct (require_current_authority _); [|split; done].
    rewrite bind_unit_ok, (checkM_iff _ _ _ check_domain_iff), (checkM_iff _ _ _ check_level_iff).
    rewrite Forall_forall. split.
    - intros [H1 H2] _. split; [|done]. intros x Hx. by apply H1, required_domains_elem.
    - intros H. destruct (H eq_refl) as [H1 H2]. split; [|done].
      intros x Hx. by apply H1, required_domains_elem. }
  rewrite Ha. split.
  - intros (H1 & H2 & H3 & [H4 H5] & H6 & H). split; try done; intros Hc; by destruct (H Hc).
  - intros []. do 3 (split; [done|]). split; [by split|]. split; [done|]. intros Hc. split; auto.
Qed.
End AdmissionLemmas.

(** ** Lemmas: outcomes *)

Lemma admissible_ready limits r :
  request_typed r -> admissible limits (normalise r) ->
  search_ready (req_definition (normalise r)) limits.
Proof.
  intros Ht Ha. split.
  - apply (rty_definition _ (normalise_typed _ Ht)).
  - apply (adm_definition _ _ Ha).
  - eapply canonicalise_ids. exact (adm_definition _ _ Ha).
Qed.

Lemma decision_for_binding_rejects s :
  s <> BindingState.CURRENT -> is_rejection (decision_for_binding s) = true.
Proof. by destruct s. Qed.

Lemma require_err {E} (b : bool) (e e' : E) : require b e = Err e' <-> b = false /\ e = e'.
Proof. unfold require. destruct b; split; [done|by intros []|by intros [= ->]|by intros [_ ->]]. Qed.

Lemma checkM_err {E A} (f : A -> result E unit) l e :
  checkM f l = Err e -> exists x, x ∈ l /\ f x = Err e.
Proof.
  induction l as [|x l IH]; simpl; [done|]. intros [H|(u & _ & H)]%rbind_err.
  - exists x. split; [left|done].
  - destruct (IH H) as (y & ? & ?). exists y. split; [by right|done].
Qed.

(** A failed check rejects. *)
Ltac reject_check :=
  repeat match goal with
  | H : rbind _ _ = Err _ |- _ => apply rbind_err in H as [H|(? & _ & H)]
  | H : require _ _ = Err _ |- _ => apply require_err in H as [? H]; injection H as <- <-
  end.

Lemma admission_err limits n log decision log' :
  admission limits n log = Err (decision, log') -> is_rejection decision = true.
Proof.
  unfold admission. intros H. reject_check.
  - unfold check_identity in H. by reject_check.
  - unfold check_policy in H. by reject_check.
  - unfold check_valid_definition in H. destruct (validate_definition _ _ _) as [[[]|st] dl]; [done|].
    by injection H as <- <-.
  - unfold check_epochs in H. reject_check; [done|]. by destruct (_ <? _).
  - apply checkM_err in H as (f & _ & H). unfold check_fence in H. by reject_check.
  - unfold check_authority in H. destruct (require_current_authority _); [|done]. reject_check.
    + apply checkM_err in H as (dom & _ & H). unfold check_domain in H. reject_check.
      apply decision_for_binding_rejects. by bool_cases.
    + apply checkM_err in H as (a & _ & H). unfold check_level in H. by reject_check.
Qed.

Lemma infeasible_goal_spec d ix s gs g b :
  infeasible_goal d ix s gs = Some (g, b) ->
  g ∈ gs /\ goal_upper_bound d ix s g = Some b /\ b < goal_value g.
Proof.
  induction gs as [|g' gs IH]; simpl; [done|].
  destruct (goal_upper_bound d ix s g') as [b'|] eqn:Hb.
  - destruct (Z.leb_spec (goal_value g') b') as [|Hlt].
    + intros (? & ? & ?)%IH. split_and!; [by right|done|done].
    + intros [= <- <-]. split_and!; [left|done|done].
  - intros (? & ? & ?)%IH. split_and!; [by right|done|done].
Qed.

Lemma search_run_total d policy table root :
  exists final, search_run d (indexer_build d) (compiled_build d (indexer_build d)) policy table root
                = Some final.
Proof.
  unfold search_run.
  destruct (search_loop_total d policy table (search_fuel policy)
              (initial_search d (compiled_build d (indexer_build d)) policy root)) as [final ->];
    [|by eexists].
  unfold measure, search_fuel. simpl. lia.
Qed.

Lemma cycle_search_total d : exists r, find_dependency_cycle d (indexer_build d) = Some r.
Proof.
  unfold find_dependency_cycle.
  pose proof (dfs_run_spec (successors d (indexer_build d)) (successors_range d)) as H.
  destruct (dfs_run _) as [[st|w]|]; [by eexists|by eexists|done].
Qed.

Lemma chained_bind auth t0 steps t1 :
  chained t0 steps t1 -> chained t0 (map (bind_step auth) steps) t1.
Proof.
  revert t0; induction steps as [|s steps IH]; intros t0; simpl; [done|].
  intros [? ?]. split; [done|by apply IH].
Qed.

Lemma build_plan_id dr steps objective o : plan_id (build_plan dr steps objective o) <> 0.
Proof.
  unfold build_plan. cbv zeta. cbn [plan_id set_identity].
  match goal with |- context [digest_lo ?x] => destruct (Z.eqb_spec (digest_lo x) 0) end; done.
Qed.

(** ** What a plan promises *)

Section PlanSound.
Context (limits : ModelLimits) (n : PlanRequest).
Abbreviation d := (req_definition n).
Abbreviation ix := (indexer_build d).
Abbreviation run_exec := (exec d ix (compiled_build d ix) (req_policy n) (request_table limits n)
                            (request_initial limits n)).

(** The steps of the plan are those of an execution that costs what the plan says. *)
Definition executes (p : RecoveryPlan) (path : list nat) (r : Run) : Prop :=
  run_exec path = Ok r /\ encoding p = map (action_at d) path /\
  sizez path <= bound d (req_policy n) /\
  plan_objective p = mkObjective (run_cost r) /\ Forall in_u64 (run_cost r) /\
  exists steps,
    replay d ix (compiled_build d ix) (req_policy n) (request_table limits n)
      (request_initial limits n) (encoding p) = Ok (steps, plan_objective p) /\
    plan_steps p = map (bind_step (req_authority n)) steps /\
    chained 0 (plan_steps p) (tick (run_state r)).

(** The plan is an execution of admitted steps that reaches the goals, no worse
    than any other within the step bound. *)
Definition optimal_execution (p : RecoveryPlan) : Prop :=
  exists path r, executes p path r /\ goals_satisfied d ix (run_state r) = true /\
    forall path' r', run_exec path' = Ok r' -> sizez path' <= bound d (req_policy n) ->
      goals_satisfied d ix (run_state r') = true ->
      score_le (run_score d path r) (run_score d path' r').

(** A step recommends, and names the generation its domain was granted. *)
Definition step_bound_to (auth : AuthorityVector) (s : PlanStep) : Prop :=
  step_issued_level s = AuthorityLevel.RECOMMENDATION /\
  forall b, authority_find auth (step_required_domain s) = Some b ->
            step_required_generation s = bind_granted b.

Record plan_sound (p : RecoveryPlan) : Prop := {
  psd_request : plan_request p = req_id n /\ plan_epoch p = req_epoch n /\
                plan_boot p = req_boot n /\ plan_attempt p = req_attempt n;
  psd_digests : plan_request_digest p = request_digest n /\
                plan_definition_digest p = definition_digest d /\
                plan_evidence_digest p = evidence_digest (req_evidence n) /\
                plan_authority_digest p = authority_digest (req_authority n) /\
                plan_policy_digest p = policy_digest (req_policy n);
  psd_digest : plan_digest p = compute_digest p /\ plan_id p <> 0;
  psd_steps : Forall (step_bound_to (req_authority n)) (plan_steps p);
  psd_execution : optimal_execution p
}.

(** No execution within the step bound reaches the goals. *)
Definition unreachable_within (b : Z) : Prop :=
  forall path r, run_exec path = Ok r -> sizez path <= b ->
    goals_satisfied d ix (run_state r) = false.

Context (Hl : limits_ok limits) (Hr : search_ready d limits) (Ht : request_typed n).

Lemma initial_facts : state_ok d (request_initial limits n) /\ pristine d (request_initial limits n).
Proof. by apply request_initial_ok. Qed.

Lemma conclude_search_cases dr final :
  dr_request dr = n -> dr_digest dr = request_digest n ->
  search_run d ix (compiled_build d ix) (req_policy n) (request_table limits n)
    (request_initial limits n) = Some final ->
  let res := conclude_search dr ix (compiled_build d ix) (request_table limits n)
               (request_initial limits n) final in
  pr_unresolved_subjects res = dr_unresolved dr /\
  ((pr_decision res = PlanDecision.PLAN_FOUND /\ pr_certificate res = None /\
    exists p, pr_plan res = Some p /\ plan_sound p) \/
   (is_indeterminate (pr_decision res) = true /\ is_rejection (pr_decision res) = false /\
    pr_plan res = None /\ pr_certificate res = None) \/
   (pr_decision res = PlanDecision.PROVEN_INFEASIBLE /\ pr_plan res = None /\
    pr_certificate res = Some (exhaustive_certificate dr (outcome final)) /\
    dr_unresolved dr = [] /\ unreachable_within (bound d (req_policy n)))).
Proof.
  intros Hdr Hdig Hrun. cbv zeta. destruct initial_facts as [Hs Hp].
  pose proof (ready_resources limits n Hl Hr) as Hsz.
  pose proof (ready_bound limits n Hl Hr (rty_steps _ Ht)) as Hb.
  unfold conclude_search. cbv zeta. rewrite Hdr.
  destruct (search_run_cases d limits (req_policy n) (request_table limits n)
              (request_initial limits n) Hr Hsz Hs Hp Hb final Hrun)
    as [(Hf & _ & _ & path & r & He & Hlen & Hg & Henc & Hobj & Hu & Hopt)
       |[(Hf & Hbud & _)|(Hf & Hbud & _ & Hnone)]]; rewrite Hf.
  - destruct (replay_exec d limits (req_policy n) (request_table limits n)
                (request_initial limits n) Hr Hsz Hs Hp path r He Hu) as (steps & Hrep & Hsteps).
    unfold replay, plan_encoding. rewrite Henc, Hrep. simpl. split; [done|]. left.
    split_and!; [done|done|]. eexists. split; [reflexivity|].
    destruct Hsteps as [Hact Hticks Hlev]. split.
    + simpl. by rewrite Hdr.
    + simpl. by rewrite Hdr, Hdig.
    + split; [done|]. apply build_plan_id.
    + simpl. apply Forall_map, Forall_true. intros s. split; [done|]. simpl.
      rewrite Hdr. by intros b ->.
    + assert (Hen : encoding (build_plan dr steps (mkObjective (run_cost r)) (outcome final)) =
                    map (action_at d) path)
        by (unfold encoding; simpl; rewrite map_map; exact Hact).
      exists path, r. split; [|split; [done|done]].
      split; [done|]. split; [done|]. split; [done|]. split; [done|]. split; [done|].
      exists steps. rewrite Hen. unfold replay. rewrite Hrep. simpl. rewrite Hdr.
      split; [done|]. split; [done|]. apply chained_bind.
      by destruct (materialise_pristine d ix (request_table limits n)) as [_ <-].
  - rewrite Hbud. simpl. split; [done|]. right; left. done.
  - rewrite Hbud. case_bool_decide as Hun; simpl; (split; [done|]).
    + right; right. split_and!; done.
    + right; left. done.
Qed.
End PlanSound.

(** How a result relates to the admission of its request. *)
Inductive plan_outcome (limits : ModelLimits) (n : PlanRequest) (res : PlanningResult) : Prop :=
| outcome_rejected :
    ~ admissible limits n -> is_rejection (pr_decision res) = true ->
    pr_plan res = None -> pr_certificate res = None -> plan_outcome limits n res
| outcome_found p :
    admissible limits n -> pr_decision res = PlanDecision.PLAN_FOUND ->
    pr_plan res = Some p -> pr_certificate res = None -> plan_sound limits n p ->
    plan_outcome limits n res
| outcome_indeterminate :
    admissible limits n -> is_indeterminate (pr_decision res) = true ->
    is_rejection (pr_decision res) = false ->
    pr_plan res = None -> pr_certificate res = None -> plan_outcome limits n res
| outcome_exhausted cert :
    admissible limits n -> pr_decision res = PlanDecision.PROVEN_INFEASIBLE ->
    pr_plan res = None -> pr_certificate res = Some cert ->
    cert_kind cert = ProofKind.EXHAUSTIVE_SEARCH -> pr_unresolved_subjects res = [] ->
    unreachable_within limits n (bound (req_definition n) (req_policy n)) ->
    plan_outcome limits n res
| outcome_cycle cert :
    admissible limits n -> pr_decision res = PlanDecision.PROVEN_INFEASIBLE ->
    pr_plan res = None -> pr_certificate res = Some cert ->
    cert_kind cert = ProofKind.DEPENDENCY_CYCLE ->
    dependency_cycle (req_definition n) (cert_cycle cert) -> plan_outcome limits n res
| outcome_bound cert g :
    admissible limits n -> pr_decision res = PlanDecision.PROVEN_INFEASIBLE ->
    pr_plan res = None -> pr_certificate res = Some cert ->
    cert_kind cert = ProofKind.GOAL_UPPER_BOUND -> g ∈ goals (req_definition n) ->
    goal_upper_bound (req_definition n) (indexer_build (req_definition n))
      (request_initial limits n) g = Some (cert_unreachable_value cert) ->
    cert_unreachable_subject cert = goal_subject g -> cert_required_value cert = goal_value g ->
    cert_unreachable_value cert < goal_value g -> plan_outcome limits n res.

Lemma plan_outcomes limits r res :
  limits_ok limits -> request_typed r -> plan limits r = Some res ->
  plan_outcome limits (normalise r) res.
Proof.
  intros Hl Ht Hres. pose proof (normalise_typed _ Ht) as Hn. unfold plan in Hres. cbv zeta in Hres.
  set (n := normalise r) in *.
  destruct (admission limits n (new_log 96)) as [[]|[decision log]] eqn:Hadm.
  2:{ injection Hres as <-. apply outcome_rejected; simpl; [|by eapply admission_err|done|done].
      intros Ha. apply (admission_iff limits n (new_log 96)) in Ha. congruence. }
  apply admission_iff in Hadm. pose proof (admissible_ready limits r Ht Hadm) as Hr.
  fold n in Hr. unfold plan_admitted in Hres. cbv zeta in Hres.
  pose proof (dfs_run_spec (successors (req_definition n) (indexer_build (req_definition n)))
                (successors_range _)) as Hdfs.
  unfold find_dependency_cycle in Hres.
  destruct (dfs_run _) as [[st|w]|]; [| |done].
  2:{ injection Hres as <-. eapply outcome_cycle; [done|reflexivity..|]. simpl.
      by apply closed_walk_cycle. }
  clear Hdfs st. destruct (infeasible_goal _ _ _ _) as [[g b]|] eqn:Hg.
  { injection Hres as <-. apply infeasible_goal_spec in Hg as (Hin & Hb & Hlt).
    eapply (outcome_bound _ _ _ _ g); [done|reflexivity..|done|exact Hb|done|done|done]. }
  destruct (search_run _ _ _ _ _ _) as [final|] eqn:Hrun; [|done]. injection Hres as <-.
  match goal with |- plan_outcome _ _ (conclude_search ?dr _ _ _ _ _) =>
    destruct (conclude_search_cases limits n Hl Hr Hn dr final eq_refl eq_refl Hrun)
      as [Hun [(Hd & Hc & p & Hp & Hs)|[(Hi & Hrej & Hp & Hc)|(Hd & Hp & Hc & Hu & Hnone)]]] end.
  - by eapply outcome_found.
  - by eapply outcome_indeterminate.
  - eapply outcome_exhausted; [done|done|done|exact Hc|done|exact (eq_trans Hun Hu)|done].
Qed.

(** The machine types and limits of the example. *)
Lemma example_request_typed : request_typed example_request.
Proof. split; [exact example_typed|exact example_facts_typed|]. vm_compute. split; done. Qed.

(** The example under a fence of the next coordinator epoch. *)
Definition fenced_request : PlanRequest :=
  mkRequest 1 3 9 1 example_definition example_evidence example_authority example_policy
    [mkFence 4 9 AuthorityDomain.RECOVERY_ADMISSION 0 1 "handover"].

Example fenced_example :
  option_map pr_decision (plan default_model_limits fenced_request)
  = Some PlanDecision.REJECTED_FENCED.
Proof. vm_compute. reflexivity. Qed.

Lemma fenced_request_typed : request_typed fenced_request.
Proof. split; [exact example_typed|exact example_facts_typed|]. vm_compute. split; done. Qed.

(** No fuel runs out. *)
Lemma plan_answers limits r : is_Some (plan limits r).
Proof.
  unfold plan. cbv zeta. destruct (admission _ _ _) as [u|[dec log]]; [|by eexists].
  unfold plan_admitted. cbv zeta.
  destruct (cycle_search_total (req_definition (normalise r))) as [[cycle|] ->]; [by eexists|].
  destruct (infeasible_goal _ _ _ _) as [[g b]|]; [by eexists|].
  destruct (search_run_total (req_definition (normalise r)) (req_policy (normalise r))
              (request_table limits (normalise r)) (request_initial limits (normalise r)))
    as [final ->]. by eexists.
Qed.

(** ** Properties *)

(** C24: the planner answers every request: neither the cycle search nor the
    plan search can run out of the fuel the model gives them, whatever the
    request, so a result is always returned. *)
Theorem plan_total limits r : is_Some (plan limits r).
Proof. apply plan_answers. Qed.

(** C2: a plan is only ever returned for an admissible request, and it is
    right: it carries the request's identity and the digests of its canonical
    content, its own digest matches its content, every step only recommends and
    names the generation its authority domain was granted, and its actions are an
    execution of admitted steps from the state the evidence establishes that
    satisfies every goal, with the least objective (then the least encoding)
    among all executions within the step bound that do. *)
Theorem plan_found_sound limits r res p :
  limits_ok limits -> request_typed r -> plan limits r = Some res -> pr_plan res = Some p ->
  pr_decision res = PlanDecision.PLAN_FOUND /\ admissible limits (normalise r) /\
  plan_sound limits (normalise r) p.
Proof.
  intros Hl Ht Hres Hp.
  destruct (plan_outcomes limits r res Hl Ht Hres) as [|p' Ha Hd Hp' _ Hs| | | |]; try congruence.
  assert (p' = p) as -> by congruence. done.
Qed.

Lemma plan_found_sound_witness :
  exists res p, plan default_model_limits example_request = Some res /\ pr_plan res = Some p /\
    encoding p = [10; 11] /\ plan_sound default_model_limits (normalise example_request) p.
Proof.
  pose proof plan_example as He.
  destruct (plan default_model_limits example_request) as [res|] eqn:Hres; [|discriminate He].
  simpl in He. injection He as _ He.
  destruct (pr_plan res) as [p|] eqn:Hp; [|discriminate He].
  exists res, p. split; [reflexivity|]. split; [exact Hp|]. simpl in He. injection He as He.
  split; [exact He|].
  apply (plan_found_sound default_model_limits example_request res p default_limits_ok
           example_request_typed Hres Hp).
Defined.

(** C5: what a certificate of infeasibility proves, for each kind: an exhaustive
    search, that every referenced subject is established and that no execution
    within the step bound satisfies the goals; a dependency cycle, that the
    certificate's actions really form a cycle of declared dependencies; an upper
    bound, that the certificate names a goal whose derived bound lies below its
    value, and that no execution of any length satisfies that goal when it is a
    service goal or its value is at most one. *)
Theorem certificate_sound limits r res cert :
  limits_ok limits -> request_typed r -> plan limits r = Some res ->
  pr_certificate res = Some cert ->
  let n := normalise r in
  let d := req_definition n in
  pr_decision res = PlanDecision.PROVEN_INFEASIBLE /\ admissible limits n /\
  match cert_kind cert with
  | ProofKind.EXHAUSTIVE_SEARCH =>
      pr_unresolved_subjects res = [] /\ unreachable_within limits n (bound d (req_policy n))
  | ProofKind.DEPENDENCY_CYCLE => dependency_cycle d (cert_cycle cert)
  | ProofKind.GOAL_UPPER_BOUND => exists g, g ∈ goals d /\
      cert_unreachable_subject cert = goal_subject g /\ cert_required_value cert = goal_value g /\
      cert_unreachable_value cert < goal_value g /\
      (goal_kind g = GoalKind.SERVICE_REACHABLE_AT_LEAST \/ goal_value g <= 1 ->
       forall path run, exec d (indexer_build d) (compiled_build d (indexer_build d))
           (req_policy n) (request_table limits n) (request_initial limits n) path = Ok run ->
         goal_satisfied (indexer_build d) (run_state run) g = false)
  | ProofKind.COUNT => False
  end.
Proof.
  intros Hl Ht Hres Hc. cbv zeta. pose proof (normalise_typed _ Ht) as Hn.
  destruct (plan_outcomes limits r res Hl Ht Hres) as
    [| | |cert' Ha Hd Hp Hc' Hk Hun Hnone|cert' Ha Hd Hp Hc' Hk Hcy
    |cert' g Ha Hd Hp Hc' Hk Hg Hb Hs Hv Hlt]; try congruence;
    assert (cert' = cert) as -> by congruence; rewrite Hk; (split; [done|]); (split; [done|]).
  - done.
  - done.
  - exists g. split_and!; try done. intros Hkind path run He.
    pose proof (admissible_ready limits r Ht Ha) as Hr.
    destruct (request_initial_ok limits _ Hn) as [Hs0 Hp0].
    exact (goal_bound_unreachable _ limits _ _ Hr _ _ _ g _ (ready_resources limits _ Hl Hr)
             Hs0 Hp0 Hg Hb Hlt Hkind He).
Qed.

(** The example of a goal out of reach, as a request. *)
Definition short_request : PlanRequest :=
  mkRequest 1 3 9 1 short_definition (mkEvidence 3 9 short_facts) example_authority example_policy [].

Lemma short_request_typed : request_typed short_request.
Proof.
  split; [exact short_typed| |].
  - repeat constructor; unfold in_u64; simpl; lia.
  - vm_compute. split; done.
Qed.

Example short_request_example :
  option_map (fun res => option_map (fun cert => (cert_kind cert, cert_unreachable_value cert))
                           (pr_certificate res)) (plan default_model_limits short_request)
  = Some (Some (ProofKind.GOAL_UPPER_BOUND, 3)).
Proof. vm_compute. reflexivity. Qed.

Lemma certificate_sound_witness :
  exists res cert, plan default_model_limits short_request = Some res /\
    pr_certificate res = Some cert /\ pr_decision res = PlanDecision.PROVEN_INFEASIBLE.
Proof.
  pose proof short_request_example as He.
  destruct (plan default_model_limits short_request) as [res|] eqn:Hres; [|discriminate He].
  injection He as He. destruct (pr_certificate res) as [cert|] eqn:Hc; [|discriminate He].
  exists res, cert. split; [reflexivity|]. split; [exact Hc|].
  apply (certificate_sound default_model_limits short_request res cert default_limits_ok
           short_request_typed Hres Hc).
Defined.

(** C26: the decision classifies the request exactly: a rejection is returned
    exactly for the requests that are not admissible (identity, policy bounds,
    definition, epochs, fences and, where the policy asks for it, every required
    authority domain and level), a plan exactly with PLAN_FOUND, a certificate
    exactly with PROVEN_INFEASIBLE. *)
Theorem decision_exact limits r res :
  limits_ok limits -> request_typed r -> plan limits r = Some res ->
  (is_rejection (pr_decision res) = true <-> ~ admissible limits (normalise r)) /\
  (pr_decision res = PlanDecision.PLAN_FOUND <-> is_Some (pr_plan res)) /\
  (pr_decision res = PlanDecision.PROVEN_INFEASIBLE <-> is_Some (pr_certificate res)).
Proof.
  intros Hl Ht Hres.
  destruct (plan_outcomes limits r res Hl Ht Hres) as
    [Ha Hd Hp Hc|p Ha Hd Hp Hc _|Ha Hi Hd Hp Hc|c Ha Hd Hp Hc _ _ _|c Ha Hd Hp Hc _ _
    |c g Ha Hd Hp Hc _ _ _ _ _]; rewrite Hp, Hc.
  all: split; [split; [congruence || (intros; destruct (pr_decision res); done)
                      |intros; congruence || done]|].
  all: split; (split; [|by intros [? ?]]); intros He; rewrite ?Hd, ?He in *; done || by eexists.
Qed.

Lemma decision_exact_witness :
  exists res, plan default_model_limits fenced_request = Some res /\
    is_rejection (pr_decision res) = true.
Proof.
  pose proof fenced_example as He.
  destruct (plan default_model_limits fenced_request) as [res|] eqn:Hres; [|discriminate He].
  exists res. split; [reflexivity|].
  apply (proj1 (decision_exact default_model_limits fenced_request res default_limits_ok
                  fenced_request_typed Hres)).
  intros Ha. pose proof (adm_fences _ _ Ha) as Hf. apply Forall_cons in Hf as [[Hf _] _].
  exact (Hf eq_refl).
Defined.

(** ** Order independence *)

(** Facts and fences their order separates. *)
Definition separated {A} (key : A -> list Z) (l : list A) : Prop :=
  forall x y, x ∈ l -> y ∈ l -> key x = key y -> x = y.

(** Two requests that list the same content in another order. *)
Record request_perm (r s : PlanRequest) : Prop := {
  rp_ids : req_id r = req_id s /\ req_epoch r = req_epoch s /\ req_boot r = req_boot s /\
           req_attempt r = req_attempt s /\ req_policy r = req_policy s;
  rp_definition : definition_perm (req_definition r) (req_definition s);
  rp_evidence : ev_epoch (req_evidence r) = ev_epoch (req_evidence s) /\
                ev_boot (req_evidence r) = ev_boot (req_evidence s) /\
                ev_facts (req_evidence r) ≡ₚ ev_facts (req_evidence s);
  rp_authority : auth_epoch (req_authority r) = auth_epoch (req_authority s) /\
                 auth_boot (req_authority r) = auth_boot (req_authority s) /\
                 auth_bindings (req_authority r) ≡ₚ auth_bindings (req_authority s);
  rp_fences : req_fences r ≡ₚ req_fences s
}.

Lemma AuthorityDomain_to_u8_inj x y :
  AuthorityDomain.to_u8 x = AuthorityDomain.to_u8 y -> x = y.
Proof. by destruct x, y. Qed.

Lemma AuthorityLevel_to_u8_inj x y : AuthorityLevel.to_u8 x = AuthorityLevel.to_u8 y -> x = y.
Proof. by destruct x, y. Qed.

Lemma binding_key_inj x y : binding_key x = binding_key y -> x = y.
Proof.
  destruct x, y. unfold binding_key. simpl. intros [= Hd -> -> -> Hl].
  by rewrite (AuthorityDomain_to_u8_inj _ _ Hd), (AuthorityLevel_to_u8_inj _ _ Hl).
Qed.

Lemma sort_separated {A} (key : A -> list Z) l1 l2 :
  separated key l1 -> l1 ≡ₚ l2 -> sort_by (lt_on key) l1 = sort_by (lt_on key) l2.
Proof.
  intros Hs Hp. apply sort_by_permutation; [apply _|done|].
  intros x y Hx Hy H1 H2. apply Hs; [done|done|]. by apply lex_lt_total.
Qed.

(** C40: the whole result, its request digest included, does not depend on the
    order in which the caller built its containers, for requests with unique
    identities whose facts and fences their sort keys separate. *)
Theorem plan_order_independent limits r s :
  request_perm r s -> unique_ids (req_definition r) ->
  separated fact_key (ev_facts (req_evidence r)) -> separated fence_key (req_fences r) ->
  plan limits r = plan limits s.
Proof.
  intros [(H1 & H2 & H3 & H4 & H5) Hd (He1 & He2 & He3) (Ha1 & Ha2 & Ha3) Hf] Hu Hfs Hns.
  assert (Hn : normalise r = normalise s); [|unfold plan; by rewrite Hn].
  unfold normalise. rewrite H1, H2, H3, H4, H5, (canonicalise_permuted _ _ Hu Hd).
  unfold evidence_canonicalise, authority_canonicalise, fact_lt, binding_lt, fence_lt.
  rewrite He1, He2, Ha1, Ha2, (sort_separated fact_key _ _ Hfs He3),
    (sort_separated fence_key _ _ Hns Hf), (sort_key_perm binding_key _ _ binding_key_inj Ha3).
  done.
Qed.

(** The example with its facts and nodes listed backwards. *)
Definition reordered_request : PlanRequest :=
  mkRequest 1 3 9 1
    (mkDefinition [mkNode 2 false; mkNode 1 true] (links example_definition)
       (services example_definition) (resources example_definition) (actions example_definition)
       (goals example_definition) (groups example_definition))
    (mkEvidence 3 9 (rev example_facts)) example_authority example_policy [].

Lemma plan_order_independent_witness :
  plan default_model_limits example_request = plan default_model_limits reordered_request.
Proof.
  apply plan_order_independent.
  - split; try done.
    + split; try done; [simpl; constructor|]. exists (actions example_definition).
      split; [done|]. simpl. repeat constructor.
    + split_and!; [done|done|]. apply Permutation_rev.
  - split; simpl; repeat constructor; set_solver.
  - intros x y Hx Hy. cbn [example_request req_evidence ev_facts example_evidence] in Hx, Hy.
    unfold example_facts in Hx, Hy. rewrite !elem_of_cons, elem_of_nil in Hx, Hy.
    destruct Hx as [->|[->|[->|[->|[]]]]], Hy as [->|[->|[->|[->|[]]]]]; vm_compute; done.
  - intros x y ?%elem_of_nil. done.
Defined.

(** Two fences that differ only in their reason. *)
Definition fence_for (reason : string) : Fence :=
  mkFence 1 1 AuthorityDomain.POLICY 0 1 reason.

(** The canonical order does not separate everything that is encoded. Two
    requests that list the same two fences in opposite order keep different
    canonical forms and different digests, because the order of fences ignores
    the reason that their encoding contains. *)
Theorem fence_order_changes_digest :
  let request fences := mkRequest 1 3 9 1 example_definition example_evidence example_authority
                          example_policy fences in
  request_perm (request [fence_for "a"; fence_for "b"]) (request [fence_for "b"; fence_for "a"]) /\
  request_digest (normalise (request [fence_for "a"; fence_for "b"])) <>
  request_digest (normalise (request [fence_for "b"; fence_for "a"])).
Proof.
  split; [|vm_compute; congruence].
  split; try done; [|apply perm_swap]. split; try done. exists (actions example_definition).
  split; [done|]. simpl. repeat constructor.
Qed.

(** ** Requests whose infeasibility is overclaimed *)

Definition up_goal (value : Z) : GoalSpec :=
  mkGoal GoalKind.LINK_OPERATIONAL (subject_of_link 1) value 1.

Definition link_request (d : FabricDefinition) (facts : list EvidenceFact) : PlanRequest :=
  mkRequest 1 3 9 1 d (mkEvidence 3 9 facts) example_authority example_policy [].

Definition link_up : list EvidenceFact :=
  [fabric_fact 1 EvidenceKind.LINK_OPERATIONAL (subject_of_link 1) 1 7].

(** A dependency cycle is reported as a proof of infeasibility whatever it
    has to do with the goals: here the only goal already holds in the initial
    state, so the empty plan solves the request, and the planner answers
    PROVEN_INFEASIBLE with a cycle certificate. *)
Theorem cycle_certificate_overclaims :
  let r := link_request (cyclic_definition [up_goal 1]) link_up in
  let n := normalise r in
  let ix := indexer_build (req_definition n) in
  goals_satisfied (req_definition n) ix (request_initial default_model_limits n) = true /\
  exists res cert, plan default_model_limits r = Some res /\
    pr_decision res = PlanDecision.PROVEN_INFEASIBLE /\ pr_certificate res = Some cert /\
    cert_kind cert = ProofKind.DEPENDENCY_CYCLE /\ cert_cycle cert = [20; 21; 20].
Proof.
  cbv zeta. split; [vm_compute; reflexivity|]. eexists _, _.
  split; [vm_compute; reflexivity|]. repeat split.
Qed.

(** A definition without actions and the single goal that link 1 is up. *)
Definition link_definition (value : Z) : FabricDefinition :=
  mkDefinition [mkNode 1 true; mkNode 2 false] [mkLink 1 1 2] [] [] [] [up_goal value] [].

(** The value of a link goal is not validated and is ignored by the goal
    test, but the upper bound is compared with it: with value 2 the goal holds
    in the initial state and the planner answers PROVEN_INFEASIBLE, with value 1
    it answers PLAN_FOUND. *)
Theorem bound_certificate_overclaims :
  let r value := link_request (link_definition value) link_up in
  let n := normalise (r 2) in
  goals_satisfied (req_definition n) (indexer_build (req_definition n))
    (request_initial default_model_limits n) = true /\
  option_map pr_decision (plan default_model_limits (r 2)) = Some PlanDecision.PROVEN_INFEASIBLE /\
  option_map pr_decision (plan default_model_limits (r 1)) = Some PlanDecision.PLAN_FOUND.
Proof. vm_compute. done. Qed.

(** Static certificates are issued although evidence is missing: the goal's
    subject has no evidence at all and is listed as unresolved, the certificate
    assumes that evidence establishes every goal subject, and the decision is
    PROVEN_INFEASIBLE rather than an indeterminate one. *)
Theorem static_proof_ignores_unresolved :
  let r := link_request (cyclic_definition [up_goal 1]) [] in
  exists res cert, plan default_model_limits r = Some res /\
    pr_decision res = PlanDecision.PROVEN_INFEASIBLE /\ pr_certificate res = Some cert /\
    pr_unresolved_subjects res = [subject_of_link 1] /\
    established_assumption ∈ cert_assumptions cert.
Proof.
  eexists _, _. split; [vm_compute; reflexivity|]. split; [reflexivity|].
  split; [reflexivity|]. split; [reflexivity|]. right. right. left.
Qed.
