(* ===== verification/Validate.v ===== *)
(** * The independent plan validator

    Models [src/validate.cpp]: the lookup tables, the validator's own state,
    evidence reconciliation and step simulation, [validate_plan] and
    [validate_certificate]. The findings a check adds are the list it returns;
    the report is their concatenation in the order of the source. *)
From S2P Require Import Prelude Ids Canonical Model Objective Domain DefinitionCheck Plan Fixture.
From S2P Require Import Planner.

Definition kPlanLevel : Z := UINT32_MAX.

Record ValidationFinding := mkFinding {
  vf_code : ReasonCode.t;
  vf_step : Z;
  vf_subject : Subject;
  vf_text : string
}.

Record ValidationReport := mkReport {
  vr_valid : bool;
  vr_objective_matches : bool;
  vr_digest_matches : bool;
  vr_recomputed_objective : ObjectiveVector;
  vr_stated_digest : Digest;
  vr_recomputed_digest : Digest;
  vr_findings : list ValidationFinding
}.

(** [if (b) report.add(...)] *)
Definition note (b : bool) (code : ReasonCode.t) (step : Z) (subject : Subject) (text : string)
  : list ValidationFinding := if b then [mkFinding code step subject text] else [].

(** ** [Tables]: [emplace] keeps the first index of an identity *)

Definition group_index (d : FabricDefinition) (id : ExclusionGroupId) : option nat :=
  find_index (fun g => group_id g =? id) (groups d).

Definition tables_subject (d : FabricDefinition) (s : Subject) : option nat :=
  match subject_kind s with
  | SubjectKind.NODE => node_index d (subject_id s)
  | SubjectKind.LINK => link_index d (subject_id s)
  | SubjectKind.SERVICE => service_index d (subject_id s)
  | SubjectKind.RESOURCE => resource_index d (subject_id s)
  | SubjectKind.ACTION => action_index d (subject_id s)
  | SubjectKind.NONE | SubjectKind.FABRIC => None
  end.

(** ** [State] *)

Record VState := mkVState {
  v_node_up : list Z;
  v_link_up : list Z;
  v_restored : list Z;
  v_node_known : list Z;
  v_link_known : list Z;
  v_resource_known : list Z;
  v_service_known : list Z;
  v_available : list Z;
  v_reachable : list Z;
  v_occurrences : list Z;
  v_tick : Z
}.

Definition v_set_link (s : VState) (i : nat) (v : Z) : VState :=
  mkVState (v_node_up s) (<[i:=v]> (v_link_up s)) (v_restored s) (v_node_known s)
    (<[i:=1]> (v_link_known s)) (v_resource_known s) (v_service_known s) (v_available s)
    (v_reachable s) (v_occurrences s) (v_tick s).

Definition v_set_node (s : VState) (i : nat) (v : Z) : VState :=
  mkVState (<[i:=v]> (v_node_up s)) (v_link_up s) (v_restored s) (<[i:=1]> (v_node_known s))
    (v_link_known s) (v_resource_known s) (v_service_known s) (v_available s) (v_reachable s)
    (v_occurrences s) (v_tick s).

Definition v_set_service (s : VState) (i : nat) (v : Z) : VState :=
  mkVState (v_node_up s) (v_link_up s) (v_restored s) (v_node_known s) (v_link_known s)
    (v_resource_known s) (<[i:=1]> (v_service_known s)) (v_available s)
    (<[i:=v]> (v_reachable s)) (v_occurrences s) (v_tick s).

(** [state.reachable[index] = ...] alone, as a delta leaves it. *)
Definition v_move_service (s : VState) (i : nat) (v : Z) : VState :=
  mkVState (v_node_up s) (v_link_up s) (v_restored s) (v_node_known s) (v_link_known s)
    (v_resource_known s) (v_service_known s) (v_available s) (<[i:=v]> (v_reachable s))
    (v_occurrences s) (v_tick s).

Definition v_set_available (s : VState) (i : nat) (v : Z) : VState :=
  mkVState (v_node_up s) (v_link_up s) (v_restored s) (v_node_known s) (v_link_known s)
    (<[i:=1]> (v_resource_known s)) (v_service_known s) (<[i:=v]> (v_available s))
    (v_reachable s) (v_occurrences s) (v_tick s).

(** [state.available[index] = ...] alone, as consumption leaves it. *)
Definition v_draw (s : VState) (i : nat) (v : Z) : VState :=
  mkVState (v_node_up s) (v_link_up s) (v_restored s) (v_node_known s) (v_link_known s)
    (v_resource_known s) (v_service_known s) (<[i:=v]> (v_available s)) (v_reachable s)
    (v_occurrences s) (v_tick s).

Definition v_set_restored (s : VState) (i : nat) (v : Z) : VState :=
  mkVState (v_node_up s) (v_link_up s) (<[i:=v]> (v_restored s)) (v_node_known s)
    (v_link_known s) (<[i:=1]> (v_resource_known s)) (v_service_known s) (v_available s)
    (v_reachable s) (v_occurrences s) (v_tick s).

Definition v_count (s : VState) (i : nat) (tick : Z) : VState :=
  mkVState (v_node_up s) (v_link_up s) (v_restored s) (v_node_known s) (v_link_known s)
    (v_resource_known s) (v_service_known s) (v_available s) (v_reachable s)
    (<[i:=u32 (v_occurrences s !!! i + 1)]> (v_occurrences s)) tick.

(** [shortfall] *)
Definition v_shortfall (d : FabricDefinition) (s : VState) (targets : bool) : Z :=
  fold_left (fun total index =>
    let service := services d !!! index in
    let reference := if targets then target_reachable service else required_reachable service in
    if reference =? 0 then total
    else if v_service_known s !!! index =? 0 then u64 (total + reference)
    else if v_reachable s !!! index <? reference
         then u64 (total + u32 (reference - v_reachable s !!! index))
         else total) (seq 0 (length (services d))) 0.

(** ** Evidence *)

Definition domain_of (kind : EvidenceKind.t) : AuthorityDomain.t :=
  match kind with
  | EvidenceKind.LINK_OPERATIONAL | EvidenceKind.NODE_OPERATIONAL
  | EvidenceKind.SERVICE_REACHABLE_ENDPOINTS => AuthorityDomain.FABRIC_STATE
  | EvidenceKind.RESOURCE_AVAILABLE_UNITS | EvidenceKind.RESOURCE_RESTORED =>
      AuthorityDomain.RESOURCE_LEASE
  | EvidenceKind.COUNT => AuthorityDomain.FABRIC_STATE
  end.

Definition kind_of (kind : PreconditionKind.t) : EvidenceKind.t :=
  match kind with
  | PreconditionKind.LINK_OPERATIONAL | PreconditionKind.LINK_NOT_OPERATIONAL =>
      EvidenceKind.LINK_OPERATIONAL
  | PreconditionKind.NODE_OPERATIONAL | PreconditionKind.NODE_NOT_OPERATIONAL =>
      EvidenceKind.NODE_OPERATIONAL
  | PreconditionKind.SERVICE_REACHABLE_AT_LEAST | PreconditionKind.SERVICE_REACHABLE_AT_MOST =>
      EvidenceKind.SERVICE_REACHABLE_ENDPOINTS
  | PreconditionKind.RESOURCE_AVAILABLE_AT_LEAST => EvidenceKind.RESOURCE_AVAILABLE_UNITS
  | PreconditionKind.ACTION_EXECUTED_AT_LEAST | PreconditionKind.COUNT => EvidenceKind.COUNT
  end.

Definition value_admissible (d : FabricDefinition) (f : EvidenceFact) : bool :=
  let id := subject_id (fact_subject f) in
  match fact_kind f with
  | EvidenceKind.LINK_OPERATIONAL =>
      match link_index d id with Some _ => fact_value f <=? 1 | None => false end
  | EvidenceKind.NODE_OPERATIONAL =>
      match node_index d id with Some _ => fact_value f <=? 1 | None => false end
  | EvidenceKind.SERVICE_REACHABLE_ENDPOINTS =>
      match service_index d id with
      | Some i => fact_value f <=? max_reachable (services d !!! i)
      | None => false
      end
  | EvidenceKind.RESOURCE_AVAILABLE_UNITS =>
      match resource_index d id with
      | Some i => fact_value f <=? capacity (resources d !!! i)
      | None => false
      end
  | EvidenceKind.RESOURCE_RESTORED =>
      match resource_index d id with Some _ => fact_value f <=? 1 | None => false end
  | EvidenceKind.COUNT => false
  end.

(** The variables of the loop over the facts of one key. *)
Record Scan := mkScan {
  sc_usable : bool;
  sc_sequence : Sequence;
  sc_value : Z;
  sc_conflict : bool;
  sc_worst : SubjectState.t
}.

Definition fresh_scan : Scan := mkScan false 0 0 false SubjectState.MISSING.

Definition scan_worst (c : Scan) (w : SubjectState.t) : Scan :=
  mkScan (sc_usable c) (sc_sequence c) (sc_value c) (sc_conflict c) w.

Definition unless_invalid (c : Scan) (w : SubjectState.t) : Scan :=
  if bool_decide (sc_worst c = SubjectState.INVALID) then c else scan_worst c w.

Definition take_fact (c : Scan) (f : EvidenceFact) : Scan :=
  mkScan true (fact_sequence f) (fact_value f) (sc_conflict c) (sc_worst c).

Definition scan_usable (c : Scan) (f : EvidenceFact) : Scan :=
  if negb (sc_usable c) then take_fact c f
  else if sc_sequence c <? fact_sequence f
  then mkScan true (fact_sequence f) (fact_value f) false (sc_worst c)
  else if (fact_sequence f =? sc_sequence c) && negb (fact_value f =? sc_value c)
  then mkScan (sc_usable c) (sc_sequence c) (sc_value c) true (sc_worst c)
  else c.

Section Reconcile.
Context (d : FabricDefinition) (auth : AuthorityVector).

Definition scan_fact (c : Scan) (f : EvidenceFact) : Scan :=
  if negb (bool_decide (subject_kind (fact_subject f) = evidence_expected_subject (fact_kind f)))
  then scan_worst c SubjectState.INVALID
  else if negb (bool_decide (fact_source_domain f = domain_of (fact_kind f))) ||
          negb (value_admissible d f)
  then scan_worst c SubjectState.INVALID
  else match authority_find auth (fact_source_domain f) with
       | None => c
       | Some b =>
           if fact_generation f <? bind_granted b then unless_invalid c SubjectState.STALE
           else if bind_granted b <? fact_generation f then unless_invalid c SubjectState.AHEAD
           else if bool_decide (fact_label f = TrustLabel.UNSUPPORTED)
           then if bool_decide (sc_worst c = SubjectState.MISSING)
                then scan_worst c SubjectState.UNSUPPORTED else c
           else if bool_decide (fact_label f = TrustLabel.UNKNOWN)
           then scan_worst c SubjectState.INVALID
           else scan_usable c f
       end.

(** The [switch] that stores the reconciled value. *)
Definition v_store (s : VState) (kind : EvidenceKind.t) (i : nat) (value : Z) : VState :=
  let bit := if negb (value =? 0) then 1 else 0 in
  match kind with
  | EvidenceKind.LINK_OPERATIONAL => v_set_link s i bit
  | EvidenceKind.NODE_OPERATIONAL => v_set_node s i bit
  | EvidenceKind.SERVICE_REACHABLE_ENDPOINTS => v_set_service s i (u32 value)
  | EvidenceKind.RESOURCE_AVAILABLE_UNITS => v_set_available s i (u32 value)
  | EvidenceKind.RESOURCE_RESTORED => v_set_restored s i bit
  | EvidenceKind.COUNT => s
  end.

(** One entry of the grouped facts: the state, and the diagnostic notes. *)
Definition v_entry (acc : VState * list string) (entry : EvidenceKey * list EvidenceFact)
  : VState * list string :=
  let '(s, notes) := acc in
  let '(key, facts) := entry in
  match tables_subject d (ek_subject key) with
  | None => (s, notes ++ ["evidence references a subject that is not in the definition: " +:+
                          describe (ek_subject key)])
  | Some i =>
      let c := fold_left scan_fact facts fresh_scan in
      if sc_conflict c
      then (s, notes ++ ["conflicting observations for " +:+ describe (ek_subject key)])
      else if negb (sc_usable c)
      then (s, notes ++ [SubjectState.to_string (sc_worst c) +:+ " evidence for " +:+
                         describe (ek_subject key)])
      else (v_store s (ek_kind key) i (sc_value c), notes)
  end.

Definition group_fact (acc : list (EvidenceKey * list EvidenceFact) * list string)
  (f : EvidenceFact) : list (EvidenceKey * list EvidenceFact) * list string :=
  let '(grouped, notes) := acc in
  if negb (EvidenceKind.is_valid (fact_kind f))
  then (grouped, notes ++ ["evidence kind is outside the defined domain"])
  else
    let key := mkEvidenceKey (fact_kind f) (fact_subject f) in
    let old := default [] (om_find evidence_key_key key grouped) in
    (om_set evidence_key_key key (old ++ [f]) grouped, notes).

Definition v_empty : VState :=
  mkVState (replicate (length (nodes d)) 0) (replicate (length (links d)) 0)
    (replicate (length (resources d)) 0) (replicate (length (nodes d)) 0)
    (replicate (length (links d)) 0) (replicate (length (resources d)) 0)
    (replicate (length (services d)) 0) (map capacity (resources d))
    (replicate (length (services d)) 0) (replicate (length (actions d)) 0) 0.

Definition v_reconcile (facts : list EvidenceFact) : VState * list string :=
  let '(grouped, notes) := fold_left group_fact facts ([], []) in
  fold_left v_entry grouped (v_empty, notes).
End Reconcile.

(** [precondition_ok]: ([known], the returned value). *)
Definition precondition_ok (d : FabricDefinition) (s : VState) (p : Precondition) : bool * bool :=
  match tables_subject d (pre_subject p) with
  | None => (false, false)
  | Some i =>
      let judge (known : bool) (test : bool) := (known, known && test) in
      match pre_kind p with
      | PreconditionKind.LINK_OPERATIONAL =>
          judge (negb (v_link_known s !!! i =? 0)) (negb (v_link_up s !!! i =? 0))
      | PreconditionKind.LINK_NOT_OPERATIONAL =>
          judge (negb (v_link_known s !!! i =? 0)) (v_link_up s !!! i =? 0)
      | PreconditionKind.NODE_OPERATIONAL =>
          judge (negb (v_node_known s !!! i =? 0)) (negb (v_node_up s !!! i =? 0))
      | PreconditionKind.NODE_NOT_OPERATIONAL =>
          judge (negb (v_node_known s !!! i =? 0)) (v_node_up s !!! i =? 0)
      | PreconditionKind.SERVICE_REACHABLE_AT_LEAST =>
          judge (negb (v_service_known s !!! i =? 0)) (pre_value p <=? v_reachable s !!! i)
      | PreconditionKind.SERVICE_REACHABLE_AT_MOST =>
          judge (negb (v_service_known s !!! i =? 0)) (v_reachable s !!! i <=? pre_value p)
      | PreconditionKind.RESOURCE_AVAILABLE_AT_LEAST =>
          judge (negb (v_resource_known s !!! i =? 0)) (pre_value p <=? v_available s !!! i)
      | PreconditionKind.ACTION_EXECUTED_AT_LEAST => (true, pre_value p <=? v_occurrences s !!! i)
      | PreconditionKind.COUNT => (false, false)
      end
  end.

(** ** One step of the plan *)

Section Step.
Context (n : PlanRequest).
Abbreviation d := (req_definition n).
Abbreviation auth := (req_authority n).

Definition check_dependency_v (position : Z) (s : VState) (dep : ActionDependency)
  : list ValidationFinding :=
  match action_index d (dep_predecessor dep) with
  | None => [mkFinding ReasonCode.VALIDATION_ORDERING_VIOLATION position
               (subject_of_action (dep_predecessor dep)) "dependency references an unknown action"]
  | Some p =>
      note (v_occurrences s !!! p <? dep_min_occurrences dep)
        ReasonCode.VALIDATION_ORDERING_VIOLATION position
        (subject_of_action (dep_predecessor dep)) "dependency is not satisfied before this step"
  end.

(** The number of executed actions that list the group. *)
Definition selected_v (s : VState) (group : ExclusionGroupId) : Z :=
  u32 (sizez (filter (fun candidate => v_occurrences s !!! candidate <> 0 /\
                                       group ∈ exclusion_groups (actions d !!! candidate))
                (seq 0 (length (actions d))))).

Definition check_exclusion_v (position : Z) (s : VState) (group : ExclusionGroupId)
  : list ValidationFinding :=
  match group_index d group with
  | None => [mkFinding ReasonCode.VALIDATION_EXCLUSION_VIOLATION position default_subject
               "unknown group"]
  | Some g =>
      note (max_selected (groups d !!! g) <=? selected_v s group)
        ReasonCode.VALIDATION_EXCLUSION_VIOLATION position default_subject
        "exclusion group capacity is already consumed"
  end.

(** The checks on the position of a step that names a declared action. *)
Definition check_order_v (position : Z) (s : VState) (step : PlanStep) (k : nat)
  : list ValidationFinding :=
  let a := actions d !!! k in
  note (max_occurrences a <=? v_occurrences s !!! k) ReasonCode.VALIDATION_OCCURRENCE_EXCEEDED
    position (subject_of_action (step_action step))
    "step exceeds the declared occurrence bound of the action" ++
  note (negb (step_occurrence step =? u32 (v_occurrences s !!! k + 1)))
    ReasonCode.VALIDATION_ORDERING_VIOLATION position (subject_of_action (step_action step))
    "step occurrence number is not the next occurrence of the action" ++
  concat (map (check_dependency_v position s) (dependencies a)) ++
  (if v_occurrences s !!! k =? 0
   then concat (map (check_exclusion_v position s) (exclusion_groups a)) else []).

(** Whether the fact may establish the subject of a precondition. *)
Definition binds (kind : EvidenceKind.t) (subject : Subject) (f : EvidenceFact) : bool :=
  bool_decide (fact_kind f = kind) && bool_decide (fact_subject f = subject) &&
  bool_decide (subject_kind (fact_subject f) = evidence_expected_subject (fact_kind f)) &&
  bool_decide (fact_source_domain f = domain_of (fact_kind f)) &&
  (bool_decide (fact_label f = TrustLabel.REAL) ||
   bool_decide (fact_label f = TrustLabel.SYNTHETIC)) &&
  value_admissible d f &&
  match authority_find auth (fact_source_domain f) with
  | None => false
  | Some b => fact_generation f =? bind_granted b
  end.

(** The newest such fact: its sequence and generation. *)
Definition newest_binding (best : option (Sequence * Generation)) (f : EvidenceFact)
  : option (Sequence * Generation) :=
  match best with
  | None => Some (fact_sequence f, fact_generation f)
  | Some (sequence, generation) =>
      if sequence <? fact_sequence f then Some (fact_sequence f, fact_generation f) else best
  end.

Definition expected_binding (kind : EvidenceKind.t) (subject : Subject)
  : option EvidenceBinding :=
  match fold_left newest_binding (filter (fun f => binds kind subject f = true)
                                    (ev_facts (req_evidence n))) None with
  | None => None
  | Some (_, generation) => Some (mkEvidenceBinding kind subject generation)
  end.

(** The body of the precondition loop: findings, and the expected binding. *)
Definition check_precondition_v (position : Z) (s : VState) (p : Precondition)
  : list ValidationFinding * list EvidenceBinding :=
  let '(known, holds) := precondition_ok d s p in
  if negb known then
    ([mkFinding ReasonCode.VALIDATION_PRECONDITION_UNMET position (pre_subject p)
        "precondition subject is UNKNOWN at this point of the plan"], [])
  else
    (note (negb holds) ReasonCode.VALIDATION_PRECONDITION_UNMET position (pre_subject p)
       ("precondition " +:+ PreconditionKind.to_string (pre_kind p) +:+ " is not met"),
     let kind := kind_of (pre_kind p) in
     if bool_decide (kind = EvidenceKind.COUNT) then []
     else option_list (expected_binding kind (pre_subject p))).

Definition binding_set (l : list EvidenceBinding) : list EvidenceBinding :=
  unique_adj (sort_by evidence_binding_lt l).

Definition check_preconditions_v (position : Z) (s : VState) (step : PlanStep) (a : ActionSpec)
  : list ValidationFinding :=
  let checked := map (check_precondition_v position s) (preconditions a) in
  concat (map fst checked) ++
  note (negb (bool_decide (binding_set (step_evidence step) =
                           binding_set (concat (map snd checked)))))
    ReasonCode.VALIDATION_EVIDENCE_BINDING_MISMATCH position default_subject
    "step evidence bindings do not match the independently derived binding set".

Definition check_authority_v (position : Z) (step : PlanStep) (a : ActionSpec)
  : list ValidationFinding :=
  let mismatch b text :=
    note b ReasonCode.VALIDATION_AUTHORITY_MISMATCH position default_subject text in
  (match authority_find auth (step_required_domain step) with
   | Some b =>
       if negb (bool_decide (evaluate_domain auth (step_required_domain step)
                             = BindingState.CURRENT))
       then mismatch true "step requires an authority domain that is not current"
       else
         mismatch (negb (step_required_generation step =? bind_granted b))
           "step binds a generation that is not the granted generation" ++
         mismatch (negb (bool_decide (step_required_level step = required_level a)) ||
                   negb (bool_decide (step_required_domain step = required_domain a)))
           "step authority requirement does not match the action definition" ++
         mismatch (AuthorityLevel.to_u8 (bind_level b) <?
                   AuthorityLevel.to_u8 (step_required_level step))
           "granted authority level is below the level the step requires"
   | None => mismatch true "step requires an authority domain that is not current"
   end) ++
  mismatch (negb (bool_decide (step_issued_level step = AuthorityLevel.RECOMMENDATION)))
    "a planner issued authority above RECOMMENDATION".

Definition check_compensation_v (position : Z) (step : PlanStep) (a : ActionSpec)
  : list ValidationFinding :=
  let missing b text :=
    note b ReasonCode.VALIDATION_COMPENSATION_MISSING position
      (subject_of_action (step_action step)) text in
  (if bool_decide (reversibility a = Reversibility.IRREVERSIBLE) then
     missing (negb (step_irreversible step) || negb (is_zero (step_compensation step)))
       "irreversible action must be marked irreversible with no compensation"
   else
     missing (step_irreversible step) "reversible action is marked irreversible" ++
     missing (negb (step_compensation step =? compensation a) ||
              bool_decide (action_index d (step_compensation step) = None))
       "compensation action is missing or does not match the definition") ++
  note (bool_decide (reversibility a = Reversibility.IRREVERSIBLE) &&
        negb (allow_irreversible_actions (req_policy n)))
    ReasonCode.REQUEST_POLICY_RESTRICTED_ACTION position (subject_of_action (step_action step))
    "policy excludes irreversible actions but the plan contains one".

Abbreviation HoldHistory := (list (list (Z * Z))) (only parsing).

(** The units of a reusable resource the step and the holds still running take. *)
Definition overlapping (position : Z) (resource : ResourceSpec) (holds : list (Z * Z))
  (units : Z) : Z :=
  fold_left (fun total hold =>
    if (u32 (position - hold.1) <? hold_steps resource) ||
       ((hold_steps resource =? 0) && (position =? hold.1))
    then u32 (total + hold.2) else total) holds units.

Definition check_use_v (position : Z) (s : VState) (history : HoldHistory) (use : ResourceUse)
  : list ValidationFinding :=
  let violation b text :=
    note b ReasonCode.VALIDATION_RESOURCE_VIOLATION position
      (subject_of_resource (use_resource use)) text in
  match resource_index d (use_resource use) with
  | None => violation true "step uses a resource that is not in the definition"
  | Some i =>
      let resource := resources d !!! i in
      if bool_decide (resource_kind resource = ResourceKind.CONSUMABLE) then
        if v_resource_known s !!! i =? 0
        then violation true "consumable resource availability is UNKNOWN"
        else violation (v_available s !!! i <? use_units use)
               "step consumes more units than remain available"
      else violation (capacity resource <? overlapping position resource (history !!! i) (use_units use))
             "overlapping holds exceed the capacity of the reusable resource"
  end.

(** One effect: the findings and the state. *)
Definition effect_v (position : Z) (acc : list ValidationFinding * VState) (e : Effect)
  : list ValidationFinding * VState :=
  let '(found, s) := acc in
  let report code text := found ++ [mkFinding code position (eff_subject e) text] in
  match tables_subject d (eff_subject e) with
  | None => (report ReasonCode.REQUEST_INVALID_DEFINITION "effect references an unknown subject", s)
  | Some i =>
      let bit := if negb (eff_value e =? 0) then 1 else 0 in
      match eff_kind e with
      | EffectKind.SET_LINK_OPERATIONAL => (found, v_set_link s i bit)
      | EffectKind.SET_NODE_OPERATIONAL => (found, v_set_node s i bit)
      | EffectKind.SET_SERVICE_REACHABLE =>
          if max_reachable (services d !!! i) <? u64 (eff_value e)
          then (report ReasonCode.VALIDATION_SAFETY_VIOLATION
                  "effect exceeds the structural maximum of the service", s)
          else (found, v_set_service s i (u32 (eff_value e)))
      | EffectKind.SERVICE_REACHABLE_DELTA =>
          if v_service_known s !!! i =? 0 then
            if 0 <? required_reachable (services d !!! i)
            then (report ReasonCode.VALIDATION_SAFETY_VIOLATION
                    "step changes a service whose reachability is UNKNOWN", s)
            else (found, s)
          else
            let updated := i64 (v_reachable s !!! i + eff_value e) in
            if (updated <? 0) || (max_reachable (services d !!! i) <? u64 updated)
            then (report ReasonCode.VALIDATION_SAFETY_VIOLATION
                    "reachability would leave the valid range", s)
            else (found, v_move_service s i (u32 updated))
      | EffectKind.MARK_RESOURCE_RESTORED => (found, v_set_restored s i 1)
      | EffectKind.SET_RESOURCE_AVAILABLE =>
          if capacity (resources d !!! i) <? u64 (eff_value e)
          then (report ReasonCode.VALIDATION_RESOURCE_VIOLATION
                  "availability effect exceeds the capacity of the resource", s)
          else (found, v_set_available s i (u32 (eff_value e)))
      | EffectKind.COUNT =>
          (report ReasonCode.REQUEST_UNSUPPORTED_PROBLEM "effect kind is outside the defined domain", s)
      end
  end.

(** One resource use after the effects: consumption, or a hold from here on. *)
Definition consume_v (position : Z) (acc : list ValidationFinding * VState * HoldHistory)
  (use : ResourceUse) : list ValidationFinding * VState * HoldHistory :=
  let '(found, s, history) := acc in
  match resource_index d (use_resource use) with
  | None => acc
  | Some i =>
      let resource := resources d !!! i in
      let '(found, s) :=
        if bool_decide (resource_kind resource = ResourceKind.CONSUMABLE) &&
           negb (v_resource_known s !!! i =? 0) then
          if v_available s !!! i <? use_units use
          then (found ++ [mkFinding ReasonCode.VALIDATION_RESOURCE_VIOLATION position
                            (subject_of_resource (use_resource use))
                            "consumption underflows the available units"], v_draw s i 0)
          else (found, v_draw s i (u32 (v_available s !!! i - use_units use)))
        else (found, s) in
      (found, s,
       if bool_decide (resource_kind resource = ResourceKind.REUSABLE)
       then <[i := history !!! i ++ [(position, use_units use)]]> history else history)
  end.

(** The loop variables of [validate_plan]. *)
Record Progress := mkProgress {
  pg_findings : list ValidationFinding;
  pg_state : VState;
  pg_objective : list Z;
  pg_completeness : Z;
  pg_floor : Z;
  pg_history : list (list (Z * Z));
  pg_position : Z
}.

(** [if (!add_overflow(a, b, &sum)) a = sum;] *)
Definition add_or_keep (a b : Z) : Z := default a (add_overflow a b).

(** The objective after a step whose shortfalls moved as given. *)
Definition account (o : list Z) (a : ActionSpec) (floor_before floor_after before after : Z)
  : list Z :=
  [if floor_before <? floor_after then u64 (o !!! 0%nat + 1) else o !!! 0%nat;
   if floor_before <? floor_after then u64 (o !!! 1%nat + (floor_after - floor_before))
   else o !!! 1%nat;
   if before <? after then u64 (o !!! 2%nat + (after - before)) else o !!! 2%nat;
   add_or_keep (o !!! 3%nat) (blast_radius a); add_or_keep (o !!! 4%nat) 1;
   add_or_keep (o !!! 5%nat) (disruption a); add_or_keep (o !!! 6%nat) (cost_units a);
   add_or_keep (o !!! 7%nat) (duration_ticks a)].

Definition check_index_v (position : Z) (step : PlanStep) : list ValidationFinding :=
  note (negb (step_index step =? position)) ReasonCode.VALIDATION_ORDERING_VIOLATION position
    default_subject "step index does not match its position in the plan".

(** Every check of a step that names the declared action [k], in source order. *)
Definition check_step_v (position : Z) (s : VState) (history : HoldHistory) (step : PlanStep)
  (k : nat) : list ValidationFinding :=
  let a := actions d !!! k in
  check_index_v position step ++ check_order_v position s step k ++
  check_preconditions_v position s step a ++ check_authority_v position step a ++
  check_compensation_v position step a ++
  note (max_plan_steps (req_policy n) <=? position) ReasonCode.VALIDATION_ORDERING_VIOLATION
    position default_subject "plan length exceeds the policy bound" ++
  concat (map (check_use_v position s history) (resource_uses a)).

Definition validate_step (pg : Progress) (step : PlanStep) : Progress :=
  let position := pg_position pg in
  let s := pg_state pg in
  match action_index d (step_action step) with
  | None =>
      mkProgress (pg_findings pg ++ check_index_v position step ++
          [mkFinding ReasonCode.VALIDATION_ORDERING_VIOLATION position
             (subject_of_action (step_action step))
             "step references an action that is not in the definition"])
        s (pg_objective pg) (pg_completeness pg) (pg_floor pg) (pg_history pg)
        (u32 (position + 1))
  | Some k =>
      let a := actions d !!! k in
      let checks := check_step_v position s (pg_history pg) step k in
      let '(found, s) := fold_left (effect_v position) (effects a) (pg_findings pg ++ checks, s) in
      let '(found, s, history) :=
        fold_left (consume_v position) (resource_uses a) (found, s, pg_history pg) in
      let floor_after := v_shortfall d s false in
      let after := v_shortfall d s true in
      mkProgress
        (found ++ note (pg_floor pg <? floor_after) ReasonCode.VALIDATION_SAFETY_VIOLATION position
                    default_subject
                    "step increases the shortfall of a service below its required floor")
        (v_count s k (add_or_keep (v_tick s) (duration_ticks a)))
        (account (pg_objective pg) a (pg_floor pg) floor_after (pg_completeness pg) after)
        after floor_after history (u32 (position + 1))
  end.

(** ** [validate_plan] *)

Definition plan_note (b : bool) (code : ReasonCode.t) (subject : Subject) (text : string)
  : list ValidationFinding := note b code kPlanLevel subject text.

Definition check_digests_v (p : RecoveryPlan) : list ValidationFinding :=
  let mismatch b text :=
    plan_note b ReasonCode.VALIDATION_DIGEST_MISMATCH default_subject text in
  mismatch (negb (bool_decide (plan_digest p = compute_digest p)))
    "plan digest does not match the canonical encoding of the plan" ++
  mismatch (negb (bool_decide (plan_request_digest p = request_digest n)))
    "plan is bound to a different request digest" ++
  mismatch (negb (bool_decide (plan_definition_digest p = definition_digest d)))
    "plan is bound to a different definition digest" ++
  mismatch (negb (bool_decide (plan_evidence_digest p = evidence_digest (req_evidence n))))
    "plan is bound to a different evidence digest" ++
  mismatch (negb (bool_decide (plan_authority_digest p = authority_digest auth)))
    "plan is bound to a different authority digest" ++
  mismatch (negb (bool_decide (plan_policy_digest p = policy_digest (req_policy n))))
    "plan is bound to a different policy digest" ++
  mismatch (negb ((plan_request p =? req_id n) && (plan_epoch p =? req_epoch n) &&
                  (plan_boot p =? req_boot n) && (plan_attempt p =? req_attempt n)))
    "plan identity does not match the request identity".

Definition check_fence_v (p : RecoveryPlan) (f : Fence) : list ValidationFinding :=
  plan_note ((plan_epoch p <? fence_epoch f) ||
             ((fence_epoch f =? plan_epoch p) && negb (fence_boot f =? plan_boot p)))
    ReasonCode.VALIDATION_FENCED default_subject
    "a fence revokes the authority the plan was issued under".

Definition check_definition_v : list ValidationFinding :=
  match (validate_definition d default_model_limits (new_log 16)).1 with
  | Ok _ => []
  | Err status => [mkFinding ReasonCode.REQUEST_INVALID_DEFINITION kPlanLevel default_subject
                     (status_to_string status)]
  end.

Definition goal_ok (s : VState) (g : GoalSpec) (i : nat) : bool :=
  match goal_kind g with
  | GoalKind.LINK_OPERATIONAL => negb (v_link_known s !!! i =? 0) && negb (v_link_up s !!! i =? 0)
  | GoalKind.NODE_OPERATIONAL => negb (v_node_known s !!! i =? 0) && negb (v_node_up s !!! i =? 0)
  | GoalKind.RESOURCE_RESTORED =>
      negb (v_resource_known s !!! i =? 0) && negb (v_restored s !!! i =? 0)
  | GoalKind.SERVICE_REACHABLE_AT_LEAST =>
      negb (v_service_known s !!! i =? 0) && (goal_value g <=? v_reachable s !!! i)
  | GoalKind.COUNT => false
  end.

Definition check_goal_v (s : VState) (g : GoalSpec) : list ValidationFinding :=
  match tables_subject d (goal_subject g) with
  | None => [mkFinding ReasonCode.VALIDATION_GOAL_UNMET kPlanLevel (goal_subject g)
               "goal references a subject that is not in the definition"]
  | Some i => plan_note (negb (goal_ok s g i)) ReasonCode.VALIDATION_GOAL_UNMET (goal_subject g)
                "goal is not satisfied by the final state"
  end.

Definition initial_v : VState := (v_reconcile d auth (ev_facts (req_evidence n))).1.

Definition initial_progress (p : RecoveryPlan) : Progress :=
  mkProgress (check_digests_v p ++ concat (map (check_fence_v p) (req_fences n)) ++
              check_definition_v)
    initial_v (replicate 8 0) (v_shortfall d initial_v true) (v_shortfall d initial_v false)
    (replicate (length (resources d)) []) 0.

Definition validate_normalised (p : RecoveryPlan) : ValidationReport :=
  let pg := fold_left validate_step (plan_steps p) (initial_progress p) in
  let recomputed := mkObjective (pg_objective pg) in
  let matches := compare_objective recomputed (plan_objective p) =? 0 in
  let found := pg_findings pg ++ concat (map (check_goal_v (pg_state pg)) (goals d)) ++
    plan_note (negb matches) ReasonCode.VALIDATION_OBJECTIVE_MISMATCH default_subject
      ("stated objective " +:+ objective_to_string (plan_objective p) +:+
       " differs from the recomputed " +:+ objective_to_string recomputed) in
  mkReport (bool_decide (found = [])) matches
    (bool_decide (plan_digest p = compute_digest p)) recomputed (plan_digest p)
    (compute_digest p) found.
End Step.

#[global] Instance ValidationFinding_eq_dec : EqDecision ValidationFinding.
Proof. solve_decision. Defined.

Definition validate_plan (r : PlanRequest) (p : RecoveryPlan) : ValidationReport :=
  validate_normalised (normalise r) p.

(** ** [validate_certificate] *)

Section Certificate.
Context (n : PlanRequest) (cert : InfeasibilityCertificate).
Abbreviation d := (req_definition n).

(** Whether [to] declares a dependency on [from]. *)
Definition cycle_edge (from to : ActionId) : bool :=
  match action_index d to with
  | None => false
  | Some k => existsb (fun dep => dep_predecessor dep =? from) (dependencies (actions d !!! k))
  end.

Fixpoint cycle_edges (cycle : list ActionId) : bool :=
  match cycle with
  | from :: (to :: _) as rest => cycle_edge from to && cycle_edges rest
  | _ => true
  end.

Definition check_cycle_v : list ValidationFinding :=
  let cycle := cert_cycle cert in
  if sizez cycle <? 2
  then [mkFinding ReasonCode.PROOF_DEPENDENCY_CYCLE kPlanLevel default_subject
          "cycle certificate carries no cycle"]
  else plan_note (negb (cycle_edges cycle && bool_decide (head cycle = last cycle)))
         ReasonCode.PROOF_DEPENDENCY_CYCLE default_subject
         "declared cycle is not a cycle of the dependency relation".

(** The loop over the goals; the flag is [matched], and an unknown service ends it. *)
Fixpoint bound_matched (gs : list GoalSpec) (matched : bool) : bool :=
  match gs with
  | [] => matched
  | g :: rest =>
      if negb (bool_decide (goal_subject g = cert_unreachable_subject cert)) ||
         negb (goal_value g =? cert_required_value cert)
      then bound_matched rest matched
      else if bool_decide (goal_kind g = GoalKind.SERVICE_REACHABLE_AT_LEAST) then
        match service_index d (subject_id (goal_subject g)) with
        | None => matched
        | Some i =>
            bound_matched rest
              (matched || (cert_unreachable_value cert <=? max_reachable (services d !!! i)))
        end
      else bound_matched rest (matched || (cert_unreachable_value cert <=? 0))
  end.

Definition check_bound_v : list ValidationFinding :=
  plan_note (negb (bound_matched (goals d) false)) ReasonCode.PROOF_GOAL_UPPER_BOUND
    (cert_unreachable_subject cert)
    "declared upper bound is not below the structural maximum of the subject".

Definition established_v (s : VState) (subject : Subject) : bool :=
  match tables_subject d subject with
  | None => true
  | Some i =>
      match subject_kind subject with
      | SubjectKind.LINK => negb (v_link_known s !!! i =? 0)
      | SubjectKind.NODE => negb (v_node_known s !!! i =? 0)
      | SubjectKind.SERVICE => negb (v_service_known s !!! i =? 0)
      | SubjectKind.RESOURCE => negb (v_resource_known s !!! i =? 0)
      | _ => true
      end
  end.

Definition check_exhaustive_v : list ValidationFinding :=
  plan_note (cert_nodes_expanded cert =? 0) ReasonCode.PROOF_EXHAUSTIVE_SEARCH default_subject
    "an exhaustive proof must report the explored node count" ++
  concat (map (fun subject => plan_note (negb (established_v (initial_v n) subject))
      ReasonCode.PROOF_EXHAUSTIVE_SEARCH subject
      "exhaustive proof claimed while a referenced subject is UNKNOWN")
    (referenced_subjects d)).

Definition certificate_findings : list ValidationFinding :=
  plan_note (negb (bool_decide (cert_request_digest cert = request_digest n)))
    ReasonCode.VALIDATION_DIGEST_MISMATCH default_subject
    "certificate is bound to a different request digest" ++
  plan_note (negb (bool_decide (cert_policy_digest cert = policy_digest (req_policy n))))
    ReasonCode.VALIDATION_DIGEST_MISMATCH default_subject
    "certificate is bound to a different policy digest" ++
  plan_note (bool_decide (cert_assumptions cert = [])) ReasonCode.VALIDATION_OBJECTIVE_MISMATCH
    default_subject "a proof of infeasibility must state its assumptions explicitly" ++
  match cert_kind cert with
  | ProofKind.DEPENDENCY_CYCLE => check_cycle_v
  | ProofKind.GOAL_UPPER_BOUND => check_bound_v
  | ProofKind.EXHAUSTIVE_SEARCH => check_exhaustive_v
  | ProofKind.COUNT =>
      [mkFinding ReasonCode.REQUEST_UNSUPPORTED_PROBLEM kPlanLevel default_subject
         "certificate proof kind is outside the defined domain"]
  end.
End Certificate.

(** The report's other fields keep their default values. *)
Definition validate_certificate (r : PlanRequest) (cert : InfeasibilityCertificate)
  : ValidationReport :=
  let found := certificate_findings (normalise r) cert in
  mkReport (bool_decide (found = [])) false false zero_objective zero_digest zero_digest found.

(** The plan of the example request is valid. *)
Example validate_example :
  match plan default_model_limits example_request with
  | Some res => match pr_plan res with
                | Some p => vr_valid (validate_plan example_request p) = true
                | None => False
                end
  | None => False
  end.
Proof. vm_compute. reflexivity. Qed.
