(* ===== verification/ValidateCorrect.v ===== *)
(** * The validator agrees with the planner

    Relates the two independent simulations of [src/planner.cpp] and
    [src/validate.cpp]: equal lookups, equal initial states, and a step-by-step
    simulation between [Search::apply] and the validator's step. *)
From S2P Require Import Prelude Ids Canonical Model Objective Domain DefinitionCheck Plan Fixture.
From S2P Require Import Reconcile Transition Search SearchCorrect StaticProofs Planner Validate.

(** The validator's view of a planner state. *)
Definition view (s : FabricState) : VState :=
  mkVState (node_operational s) (link_operational s) (resource_restored s) (node_known s)
    (link_known s) (resource_known s) (service_known s) (resource_available s)
    (service_reachable s) (action_occurrences s) (tick s).

(** ** Lookups *)

Lemma find_index_sorted {A} `{Inhabited A} (id : A -> Z) v l :
  StronglySorted Z.lt (map id l) -> find_index (fun x => id x =? v) l = index_of v (map id l).
Proof.
  intros Hs. destruct (decide (v ∈ map id l)) as [Hin|Hout].
  - destruct (index_of_elem id v l Hs Hin) as [i Hi]. rewrite Hi.
    pose proof (index_of_bound _ _ _ _ Hi) as Hlt. apply index_of_Some in Hi.
    rewrite list_lookup_fmap, (list_lookup_lookup_total_lt l i Hlt) in Hi. injection Hi as <-.
    apply find_index_id; [|done]. clear -Hs. induction Hs as [|x l' Hl IH Hx]; constructor; [|done].
    intros Hin. rewrite Forall_forall in Hx. specialize (Hx x Hin). lia.
  - assert (Hn : find_index (fun x => id x =? v) l = None).
    { apply find_index_None, Forall_forall. intros x Hx. apply Z.eqb_neq. intros <-.
      apply Hout. by apply list_elem_of_fmap_2. }
    rewrite Hn. destruct (index_of v (map id l)) as [i|] eqn:Hi; [|done].
    apply index_of_Some in Hi. destruct Hout. by eapply list_elem_of_lookup_2.
Qed.

Section Tables.
Context (d : FabricDefinition) (Hc : canonical_ids d).

Lemma action_index_eq id : action_index d id = index_of id (action_ids (indexer_build d)).
Proof. apply find_index_sorted, Hc. Qed.

Lemma resource_index_eq id : resource_index d id = index_of id (resource_ids (indexer_build d)).
Proof. apply find_index_sorted, Hc. Qed.

Lemma tables_subject_eq s : tables_subject d s = subject_index (indexer_build d) s.
Proof.
  unfold tables_subject, subject_index. destruct (subject_kind s); try done;
    apply find_index_sorted, Hc.
Qed.
End Tables.

(** ** Evidence *)

Section Evidence.
Context (d : FabricDefinition) (auth : AuthorityVector) (limits : ModelLimits).
Abbreviation ix := (indexer_build d).
Context (Hr : search_ready d limits).

Abbreviation admissible := (Reconcile.admissible d ix auth limits).

(** The facts the validator lets decide a value are the planner's. *)
Lemma scan_admissible c f :
  (admissible f /\ scan_fact d auth c f = scan_usable c f) \/
  (~ admissible f /\ exists w, scan_fact d auth c f = scan_worst c w).
Proof.
  unfold Reconcile.admissible, fact_defect, scan_fact.
  assert (Hsame : scan_worst c (sc_worst c) = c) by (by destruct c).
  assert (Hui : forall w, exists w', unless_invalid c w = scan_worst c w').
  { intros w. unfold unless_invalid. case_bool_decide; [by exists (sc_worst c)|by eexists]. }
  case_bool_decide as Hk; simpl; [|right; split; [done|by eexists]].
  assert (Hv : value_admissible d f = value_in_domain d ix limits f /\
    (value_in_domain d ix limits f = true -> subject_index ix (fact_subject f) <> None)).
  { unfold value_admissible, value_in_domain, subject_index. rewrite Hk.
    pose proof (rdy_ids _ _ Hr) as Hc.
    unfold link_index, node_index, service_index, resource_index.
    rewrite (find_index_sorted link_id) by apply Hc.
    rewrite (find_index_sorted node_id) by apply Hc.
    rewrite (find_index_sorted service_id) by apply Hc.
    rewrite (find_index_sorted resource_id) by apply Hc.
    destruct (fact_kind f); simpl; try (destruct (index_of _ _); split; done); [|done].
    destruct (index_of _ (map service_id _)) as [i|] eqn:Hi; [|split; done]. split; [|done].
    pose proof (index_of_bound _ _ _ _ Hi) as Hlt.
    pose proof (Forall_lookup_total _ _ _ (dwf_service _ _ (rdy_wf _ _ Hr)) Hlt) as Hs.
    pose proof (swf_max _ _ Hs).
    destruct (Z.leb_spec (fact_value f) (max_reachable (services d !!! i))); simpl; [|done].
    symmetry. apply Z.leb_le. lia. }
  destruct Hv as [Hv Hix]. rewrite Hv.
  replace (domain_of (fact_kind f)) with (domain_for_evidence (fact_kind f))
    by (by destruct (fact_kind f)).
  destruct (bool_decide (fact_source_domain f = domain_for_evidence (fact_kind f))) eqn:Hdom; simpl.
  2:{ rewrite !orb_true_r. right. split; [|by eexists].
      by destruct (bool_decide (subject_index ix (fact_subject f) = None)). }
  destruct (value_in_domain d ix limits f) eqn:Hval; simpl.
  2:{ rewrite !orb_true_r. right. split; [done|by eexists]. }
  rewrite bool_decide_eq_false_2 by (by apply Hix). simpl. rewrite orb_false_r.
  destruct (authority_find auth (fact_source_domain f)) as [b|].
  2:{ right. split; [by repeat case_bool_decide|by exists (sc_worst c)]. }
  destruct (fact_generation f <? bind_granted b).
  { right. split; [by repeat case_bool_decide|apply Hui]. }
  destruct (bind_granted b <? fact_generation f).
  { right. split; [by repeat case_bool_decide|apply Hui]. }
  assert (Hd : bool_decide (fact_source_domain f = domain_for_evidence (fact_kind f)) = true)
    by (by destruct (bool_decide _)).
  rewrite ?Hd. simpl.
  destruct (fact_label f) eqn:Hl; simpl; first [by left|right; split; [done|]].
  - first [by eexists|destruct (bool_decide (sc_worst c = SubjectState.MISSING)); [by eexists|by exists (sc_worst c)]].
  - first [by eexists|destruct (bool_decide (sc_worst c = SubjectState.MISSING)); [by eexists|by exists (sc_worst c)]].
Qed.

Abbreviation newest := (Reconcile.newest d ix auth limits).
Abbreviation agreeing := (Reconcile.agreeing d ix auth limits).

Definition scanned (fs : list EvidenceFact) (c : Scan) : Prop :=
  sc_conflict c = false /\
  ((forall f, f ∈ fs -> ~ admissible f) /\ sc_usable c = false \/
   sc_usable c = true /\
   exists f, newest fs f /\ sc_value c = fact_value f /\ sc_sequence c = fact_sequence f).

Lemma newest_snoc_old fs f g :
  newest fs g -> (admissible f -> fact_sequence f <= fact_sequence g) -> newest (fs ++ [f]) g.
Proof.
  intros (Hg & Ha & Hmax) Hf. split_and!; [set_solver|done|].
  intros x. rewrite elem_of_app, list_elem_of_singleton. intros [Hx| ->] Hxa; auto.
Qed.

Lemma newest_snoc_new fs f :
  admissible f -> (forall g, g ∈ fs -> admissible g -> fact_sequence g <= fact_sequence f) ->
  newest (fs ++ [f]) f.
Proof.
  intros Ha Hf. split_and!; [set_solver|done|].
  intros x. rewrite elem_of_app, list_elem_of_singleton. intros [Hx| ->] Hxa; [auto|lia].
Qed.

Lemma scan_agreeing fs : agreeing fs -> scanned fs (fold_left (scan_fact d auth) fs fresh_scan).
Proof.
  induction fs as [|f fs IH] using rev_ind; intros Hag.
  { split; [done|]. left. split; [by intros ? ?%elem_of_nil|done]. }
  rewrite fold_left_app. simpl.
  destruct IH as [Hc Hcases]; [intros x y ? ?; apply Hag; set_solver|].
  set (c := fold_left _ fs _) in *.
  destruct (scan_admissible c f) as [[Ha ->]|[Ha (w & ->)]].
  - unfold scan_usable, take_fact.
    destruct Hcases as [[Hnone Hu]|(Hu & g & (Hg & Hga & Hmax) & Hv & Hs)]; rewrite Hu; simpl.
    + split; [done|]. right. split; [done|]. exists f. split; [|done].
      apply newest_snoc_new; [done|]. intros g Hg Hga. by destruct (Hnone g Hg).
    + destruct (Z.ltb_spec (sc_sequence c) (fact_sequence f)) as [Hlt|Hge].
      * split; [done|]. right. split; [done|]. exists f. split; [|done].
        apply newest_snoc_new; [done|]. intros x Hx Hxa. specialize (Hmax x Hx Hxa). lia.
      * assert (Hno : (fact_sequence f =? sc_sequence c) && negb (fact_value f =? sc_value c) = false).
        { destruct (Z.eqb_spec (fact_sequence f) (sc_sequence c)) as [He|]; [|done].
          rewrite Hv. simpl. apply negb_false_iff, Z.eqb_eq.
          apply (Hag f g); [set_solver|set_solver|done|done|congruence]. }
        rewrite Hno. split; [done|]. right. split; [done|]. exists g. split; [|done].
        apply newest_snoc_old; [done|]. intros _. lia.
  - split; [done|]. destruct Hcases as [[Hnone Hu]|(Hu & g & Hg & Hv)].
    + left. split; [|done]. intros x. rewrite elem_of_app, list_elem_of_singleton.
      intros [Hx| ->]; auto.
    + right. split; [done|]. exists g. split; [|done]. by apply newest_snoc_old.
Qed.

(** Both reconcilers store the same value for one key. *)
Lemma entry_agrees key fs s notes :
  agreeing fs -> (forall f, f ∈ fs -> fact_table_key f = key) ->
  (v_entry d auth (view s, notes) (key, fs)).1 =
  view (place ix s (fold_left (ingest_resolution d ix auth limits) fs
                      (fresh_resolution (ek_kind key) (ek_subject key)))).
Proof.
  intros Hag Hkey. unfold v_entry. rewrite (tables_subject_eq d (rdy_ids _ _ Hr)).
  destruct (scan_agreeing fs Hag) as [Hconf Hscan].
  pose proof (fold_agreeing d ix auth limits fs (fresh_resolution (ek_kind key) (ek_subject key))
                ltac:(done) Hag) as Hres. cbv zeta in Hres.
  set (r := fold_left (ingest_resolution d ix auth limits) fs _) in *.
  assert (Hframe : res_kind r = ek_kind key /\ res_subject r = ek_subject key).
  { unfold r. clear. induction fs as [|f fs IH] using rev_ind; [done|].
    rewrite fold_left_app. simpl.
    destruct (ingest_resolution_frame d ix auth limits
                (fold_left (ingest_resolution d ix auth limits) fs
                   (fresh_resolution (ek_kind key) (ek_subject key))) f) as [-> ->]. done. }
  destruct Hframe as [Hk Hs]. unfold place. rewrite Hs, Hk.
  destruct Hres as [[Hnone Hns]|(Hrs & f & (Hf & Hfa & Hfmax) & Hfv & _)].
  - rewrite bool_decide_eq_false_2 by done. simpl.
    destruct (subject_index ix (ek_subject key)); [|done]. rewrite Hconf.
    destruct Hscan as [[_ Hu]|(_ & g & (Hg & Hga & _) & _)]; [by rewrite Hu|].
    by destruct (Hnone g Hg).
  - rewrite bool_decide_eq_true_2 by done. simpl.
    destruct Hscan as [[Hnone _]|(Hu & g & (Hg & Hga & Hgmax) & Hgv & _)];
      [by destruct (Hnone f Hf)|].
    assert (Hval : sc_value (fold_left (scan_fact d auth) fs fresh_scan) = res_value r).
    { rewrite Hgv, Hfv. apply (Hag g f Hg Hf Hga Hfa).
      pose proof (Hfmax g Hg Hga). pose proof (Hgmax f Hf Hfa). lia. }
    destruct (subject_index ix (ek_subject key)) as [i|]; [|done].
    rewrite Hconf, Hu. simpl. rewrite Hval. unfold v_store. by destruct (ek_kind key).
Qed.
End Evidence.

(** ** The initial state *)

Section OrderedMapViews.
Context {K V W : Type} (key : K -> list Z) (g : K -> V -> W).
Context (Hinj : forall k k', key k = key k' -> k = k').

Abbreviation image := (map (fun e : K * V => (e.1, g e.1 e.2))).

Lemma om_find_map k m : om_find key k (image m) = g k <$> om_find key k m.
Proof.
  induction m as [|[k1 v1] m IH]; simpl; [done|]. case_decide as H; [|done].
  by rewrite (Hinj _ _ H).
Qed.

Lemma om_set_map k v m : om_set key k (g k v) (image m) = image (om_set key k v m).
Proof.
  induction m as [|[k1 v1] m IH]; simpl; [done|].
  destruct (lex_lt (key k1) (key k)); simpl; [by rewrite IH|].
  by destruct (lex_lt (key k) (key k1)).
Qed.
Definition key_lt {X} (a b : K * X) : Prop := lex_lt (key a.1) (key b.1) = true.

(** A map built by [om_set] is sorted by key. *)
Lemma om_set_sorted {X} k (v : X) m :
  StronglySorted key_lt m -> StronglySorted key_lt (om_set key k v m).
Proof.
  induction 1 as [|[k1 v1] m Hm IH H1]; simpl; [repeat constructor|].
  destruct (lex_lt (key k1) (key k)) eqn:Hlt.
  - constructor; [done|]. apply Forall_forall. intros x [->|Hx]%elem_of_om_set; [done|].
    rewrite Forall_forall in H1. by apply H1.
  - destruct (lex_lt (key k) (key k1)) eqn:Hgt.
    + constructor; [by constructor|]. constructor; [done|].
      eapply Forall_impl; [exact H1|]. intros x Hx. unfold key_lt in *. simpl in *.
      by eapply lex_lt_trans.
    + rewrite (Hinj _ _ (lex_lt_total _ _ Hgt Hlt)). by constructor.
Qed.

Lemma om_find_sorted {X} k (v : X) m :
  StronglySorted key_lt m -> (k, v) ∈ m -> om_find key k m = Some v.
Proof.
  induction 1 as [|[k1 v1] m Hm IH H1]; [by intros ?%elem_of_nil|].
  intros [[= -> ->]|Hin]%elem_of_cons; simpl; [by rewrite decide_True|].
  rewrite Forall_forall in H1. specialize (H1 _ Hin). unfold key_lt in H1. simpl in H1.
  rewrite decide_False; [by apply IH|]. intros He. by rewrite He, lex_lt_irrefl in H1.
Qed.
End OrderedMapViews.

Section InitialState.
Context (d : FabricDefinition) (auth : AuthorityVector) (limits : ModelLimits).
Abbreviation ix := (indexer_build d).
Context (Hr : search_ready d limits).

Definition resolution_of (k : EvidenceKey) (fs : list EvidenceFact) : SubjectResolution :=
  fold_left (ingest_resolution d ix auth limits) fs (fresh_resolution (ek_kind k) (ek_subject k)).

Definition grouped_facts (facts : list EvidenceFact) : list (EvidenceKey * list EvidenceFact) :=
  (fold_left group_fact facts ([], [])).1.

Lemma grouped_snoc facts f :
  grouped_facts (facts ++ [f]) =
  if EvidenceKind.is_valid (fact_kind f)
  then om_set evidence_key_key (fact_table_key f)
         (default [] (om_find evidence_key_key (fact_table_key f) (grouped_facts facts)) ++ [f])
         (grouped_facts facts)
  else grouped_facts facts.
Proof.
  unfold grouped_facts. rewrite fold_left_app. simpl.
  destruct (fold_left group_fact facts ([], [])) as [m notes]. unfold group_fact.
  by destruct (EvidenceKind.is_valid _).
Qed.

Lemma reconcile_grouped facts :
  reconcile d ix auth limits facts =
  map (fun e => (e.1, resolution_of e.1 e.2)) (grouped_facts facts).
Proof.
  induction facts as [|f facts IH] using rev_ind; [done|].
  rewrite grouped_snoc. unfold reconcile in *. rewrite fold_left_app. simpl. rewrite IH.
  unfold ingest. destruct (EvidenceKind.is_valid (fact_kind f)); simpl; [|done].
  unfold table_find. rewrite (om_find_map _ _ evidence_key_key_inj).
  rewrite <- (om_set_map _ resolution_of). f_equal.
  unfold resolution_of at 2. rewrite fold_left_app. simpl. f_equal.
  by destruct (om_find _ _ (grouped_facts facts)).
Qed.

(** The facts grouped under a key are the facts of the key, in order. *)
Lemma grouped_find facts k :
  om_find evidence_key_key k (grouped_facts facts) =
  match key_facts k facts with [] => None | fs => Some fs end.
Proof.
  induction facts as [|f facts IH] using rev_ind; [done|].
  rewrite grouped_snoc, key_facts_snoc.
  destruct (EvidenceKind.is_valid (fact_kind f)); simpl; [|by rewrite app_nil_r].
  case_bool_decide as Hk.
  - subst k. rewrite om_find_set_eq, IH. by destruct (key_facts _ facts).
  - rewrite om_find_set_ne by (intros He; by apply evidence_key_key_inj in He).
    by rewrite app_nil_r.
Qed.

Lemma grouped_sorted facts :
  StronglySorted (key_lt evidence_key_key) (grouped_facts facts).
Proof.
  induction facts as [|f facts IH] using rev_ind; [constructor|]. rewrite grouped_snoc.
  destruct (EvidenceKind.is_valid _); [|done].
  apply om_set_sorted; [exact evidence_key_key_inj|done].
Qed.

Lemma grouped_entry facts k fs : (k, fs) ∈ grouped_facts facts -> fs = key_facts k facts.
Proof.
  intros Hin%(om_find_sorted _ _ _ _ (grouped_sorted facts)). rewrite grouped_find in Hin.
  destruct (key_facts k facts); [done|]. by injection Hin.
Qed.

Lemma key_facts_key k facts f : f ∈ key_facts k facts -> fact_table_key f = k.
Proof. unfold key_facts. rewrite list_elem_of_filter. tauto. Qed.

Context (facts : list EvidenceFact)
  (Hag : forall k, agreeing d ix auth limits (key_facts k facts)).

(** Both simulations start from the same state. *)
Lemma initial_agrees :
  (v_reconcile d auth facts).1 = view (materialise_state d ix (reconcile d ix auth limits facts)).
Proof.
  unfold v_reconcile, materialise_state. rewrite reconcile_grouped, map_map.
  assert (Hall : forall k fs, (k, fs) ∈ grouped_facts facts -> fs = key_facts k facts)
    by (intros; by apply grouped_entry).
  unfold grouped_facts in *. destruct (fold_left group_fact facts ([], [])) as [m notes]. simpl in *.
  change (v_empty d) with (view (empty_state d)). revert notes. generalize (empty_state d) as s.
  induction m as [|[k fs] m IH]; intros s notes; [done|].
  cbn [fold_left map].
  pose proof (Hall k fs ltac:(left)) as Hfs. subst fs.
  pose proof (entry_agrees d auth limits Hr k (key_facts k facts) s notes (Hag k)
                (fun f Hf => key_facts_key k facts f Hf)) as He.
  destruct (v_entry d auth (view s, notes) (k, key_facts k facts)) as [v notes'].
  simpl in He. subst v. apply IH. intros; apply Hall; by right.
Qed.
End InitialState.

(** ** Evidence bindings *)

Section Bindings.
Context (n : PlanRequest) (limits : ModelLimits).
Abbreviation d := (req_definition n).
Abbreviation auth := (req_authority n).
Abbreviation facts := (ev_facts (req_evidence n)).
Abbreviation ix := (indexer_build d).
Abbreviation table := (request_table limits n).
Context (Hr : search_ready d limits)
  (Hag : forall k, agreeing d ix auth limits (key_facts k facts)).

Lemma binds_usable f :
  binds n (fact_kind f) (fact_subject f) f = sc_usable (scan_fact d auth fresh_scan f).
Proof.
  unfold binds, scan_fact. rewrite !(bool_decide_eq_true_2 (_ = _)) by done. simpl.
  destruct (bool_decide (subject_kind _ = _)); simpl; [|done].
  destruct (bool_decide (fact_source_domain f = _)); simpl; [|done].
  destruct (value_admissible d f); simpl; [|by rewrite andb_false_r].
  rewrite andb_true_r.
  destruct (authority_find auth (fact_source_domain f)) as [b|]; [|by rewrite andb_false_r].
  destruct (Z.ltb_spec (fact_generation f) (bind_granted b)).
  { rewrite (proj2 (Z.eqb_neq _ _)) by lia. by rewrite andb_false_r. }
  destruct (Z.ltb_spec (bind_granted b) (fact_generation f)).
  { rewrite (proj2 (Z.eqb_neq _ _)) by lia. by rewrite andb_false_r. }
  rewrite (proj2 (Z.eqb_eq _ _)) by lia. by destruct (fact_label f).
Qed.

Lemma binds_iff kind subject f :
  binds n kind subject f = true <->
  fact_kind f = kind /\ fact_subject f = subject /\ Reconcile.admissible d ix auth limits f.
Proof.
  assert (Ha : sc_usable (scan_fact d auth fresh_scan f) = true <-> Reconcile.admissible d ix auth limits f).
  { destruct (scan_admissible d auth limits Hr fresh_scan f) as [[? ->]|[? (w & ->)]]; done. }
  rewrite <- Ha, <- binds_usable. split.
  - intros H. pose proof H as H'. unfold binds in H. bool_cases. subst. done.
  - intros (<- & <- & H). done.
Qed.

(** An admissible fact carries the granted generation of its kind's domain. *)
Lemma admissible_generation f :
  Reconcile.admissible d ix auth limits f ->
  exists b, authority_find auth (domain_of (fact_kind f)) = Some b /\
            fact_generation f = bind_granted b.
Proof.
  intros Ha. assert (Hb : binds n (fact_kind f) (fact_subject f) f = true) by (by apply binds_iff).
  unfold binds in Hb. bool_cases.
  match goal with H : fact_source_domain f = _ |- _ => rewrite H in * end.
  destruct (authority_find auth (domain_of (fact_kind f))) as [b|]; [|done].
  bool_cases. by exists b.
Qed.

Lemma newest_binding_some fs best :
  (is_Some best \/ fs <> []) -> exists s g, fold_left newest_binding fs best = Some (s, g) /\
    ((exists s0, best = Some (s0, g)) \/ exists f, f ∈ fs /\ fact_generation f = g).
Proof.
  revert best. induction fs as [|f fs IH]; intros best Hb; simpl.
  - destruct Hb as [[[s g] ->]|]; [|done]. exists s, g. split; [done|]. left. by exists s.
  - destruct (IH (newest_binding best f)) as (s & g & -> & Hg).
    { left. destruct best as [[s0 g0]|]; simpl; [|by eexists]. destruct (s0 <? _); by eexists. }
    exists s, g. split; [done|]. destruct Hg as [[s0 H0]|(x & Hx & Hgx)].
    + destruct best as [[s1 g1]|]; simpl in H0.
      * destruct (s1 <? _); [|left; by exists s0]. injection H0 as <- <-. right.
        exists f. split; [left|done].
      * injection H0 as <- <-. right. exists f. split; [left|done].
    + right. exists x. split; [by right|done].
Qed.

(** The binding the validator expects is the one the planner's table yields. *)
Lemma expected_binding_eq kind subject :
  EvidenceKind.is_valid kind = true ->
  expected_binding n kind subject =
  match table_find (mkEvidenceKey kind subject) table with
  | Some r => if decide (res_state r = SubjectState.RESOLVED)
              then Some (mkEvidenceBinding (res_kind r) (res_subject r) (res_generation r))
              else None
  | None => None
  end.
Proof.
  intros Hv. unfold expected_binding. set (fs := filter _ facts).
  assert (Hfs : forall f, f ∈ fs <-> f ∈ key_facts (mkEvidenceKey kind subject) facts /\
                                     Reconcile.admissible d ix auth limits f).
  { intros f. unfold fs, key_facts. rewrite !list_elem_of_filter, binds_iff.
    unfold fact_table_key. split.
    - intros [(<- & <- & Ha) Hin]. split_and!; done.
    - intros [[[_ [= <- <-]] Hin] Ha]. split_and!; done. }
  destruct (table_find _ table) as [r|] eqn:Hrt.
  - pose proof Hrt as Hent. unfold request_table in Hrt. rewrite reconcile_find in Hrt.
    pose proof (fold_agreeing d ix auth limits _
                  (fresh_resolution kind subject) ltac:(done) (Hag (mkEvidenceKey kind subject)))
      as Hres. cbv zeta in Hres. cbn [ek_kind ek_subject] in Hrt.
    assert (Hrf : r = resolution_of d auth limits (mkEvidenceKey kind subject)
                        (key_facts (mkEvidenceKey kind subject) facts)).
    { unfold resolution_of. cbn [ek_kind ek_subject].
      destruct (key_facts (mkEvidenceKey kind subject) facts); [done|]. by injection Hrt. }
    unfold resolution_of in Hrf. cbn [ek_kind ek_subject] in Hrf. rewrite <- Hrf in Hres. clear Hrf.
    destruct Hres as [[Hnone Hs]|(Hs & f & (Hf & Ha & _) & _ & Hg & _)].
    + rewrite decide_False by done.
      assert (Hnil : fs = []); [|by rewrite Hnil].
      apply elem_of_nil_inv. intros f [Hf Ha]%Hfs. by apply (Hnone f).
    + rewrite decide_True by done.
      assert (Hne : fs <> []) by (intros Hn; assert (f ∈ fs) as Hin by (by apply Hfs);
        rewrite Hn in Hin; by apply elem_of_nil in Hin).
      destruct (newest_binding_some fs None (or_intror Hne)) as (s & g & -> & [[s0 [=]]|(x & Hx & Hgx)]).
      apply Hfs in Hx as [Hx Hxa].
      apply om_find_elem in Hent as (k' & Hk' & Hent). apply evidence_key_key_inj in Hk'. subst k'.
      destruct (reconcile_entries _ _ _ _ _ _ _ Hent) as (Hkind & Hsub & _). simpl in *.
      rewrite Hkind, Hsub, Hg. f_equal. f_equal. rewrite <- Hgx.
      unfold key_facts in Hf, Hx. rewrite list_elem_of_filter in Hf, Hx.
      destruct Hf as [[_ Hkf] _], Hx as [[_ Hkx] _]. unfold fact_table_key in *.
      injection Hkf as Hkf _. injection Hkx as Hkx _.
      destruct (admissible_generation f Ha) as (b & Hb & ->).
      destruct (admissible_generation x Hxa) as (b' & Hb' & ->). congruence.
  - unfold request_table in Hrt. rewrite reconcile_find in Hrt.
    assert (Hnil : fs = []); [|by rewrite Hnil].
    apply elem_of_nil_inv. intros f [Hf _]%Hfs.
    destruct (key_facts _ facts); [by apply elem_of_nil in Hf|done].
Qed.
End Bindings.

(** ** Holds

    The planner keeps the remaining steps of every running hold, the validator
    the position at which each hold began. *)

Definition held_at (i : nat) (holds : list ResourceHold) : list ResourceHold :=
  filter (fun h => hold_resource_index h = Z.of_nat i) holds.

Definition sum_units (holds : list ResourceHold) : Z := foldr (fun h t => hold_units h + t) 0 holds.

(** The holds of resource [i] still running at [position]. *)
Definition running_holds (d : FabricDefinition) (i : nat) (position : Z) (hs : list (Z * Z))
  : list ResourceHold :=
  map (fun h : Z * Z => mkHold (Z.of_nat i) h.2 (hold_steps (resources d !!! i) - (position - h.1)))
    (filter (fun h : Z * Z => position - h.1 < hold_steps (resources d !!! i)) hs).

Record holds_agree (d : FabricDefinition) (position : Z) (holds : list ResourceHold)
  (history : list (list (Z * Z))) : Prop := {
  ha_length : length history = length (resources d);
  ha_running i : (i < length (resources d))%nat ->
    held_at i holds ≡ₚ running_holds d i position (history !!! i);
  ha_past i : (i < length (resources d))%nat ->
    Forall (fun h : Z * Z => 0 <= h.1 < position /\ 0 <= h.2) (history !!! i);
  ha_capacity i : (i < length (resources d))%nat ->
    sum_units (held_at i holds) <= capacity (resources d !!! i)
}.

Section Holds.
Context (d : FabricDefinition).

Lemma sum_units_perm l1 l2 : l1 ≡ₚ l2 -> sum_units l1 = sum_units l2.
Proof. induction 1; simpl; lia. Qed.

Lemma sum_units_app l1 l2 : sum_units (l1 ++ l2) = sum_units l1 + sum_units l2.
Proof. induction l1; simpl; lia. Qed.

Lemma held_at_cons i h holds :
  held_at i (h :: holds) =
  (if decide (hold_resource_index h = Z.of_nat i) then [h] else []) ++ held_at i holds.
Proof. unfold held_at. rewrite filter_cons. by case_decide. Qed.

Lemma held_units_fold i holds acc :
  Forall (fun h => 0 <= hold_units h) holds -> 0 <= acc ->
  acc + sum_units (held_at i holds) < 2 ^ 64 ->
  fold_left (fun held h => if hold_resource_index h =? Z.of_nat i then u64 (held + hold_units h)
                           else held) holds acc = acc + sum_units (held_at i holds).
Proof.
  intros Hp. revert acc. induction Hp as [|h holds Hh Hp IH]; intros acc Ha Hlt; [simpl; lia|].
  rewrite held_at_cons in *. rewrite sum_units_app in *. cbn [fold_left].
  assert (H0 : 0 <= sum_units (held_at i holds)).
  { clear -Hp. induction Hp as [|h holds Hh Hp IH]; [done|]. rewrite held_at_cons, sum_units_app.
    case_decide; simpl; lia. }
  case_decide as Hi.
  - rewrite Hi, Z.eqb_refl. simpl in *. rewrite u64_small by (unfold in_u64; lia).
    rewrite IH by lia. lia.
  - rewrite (proj2 (Z.eqb_neq _ _)) by done. simpl in *. rewrite IH by lia. lia.
Qed.

Lemma overlapping_fold i position hs units :
  Forall (fun h : Z * Z => 0 <= h.1 < position /\ 0 <= h.2) hs -> 0 <= units -> position < 2 ^ 32 ->
  units + sum_units (running_holds d i position hs) < 2 ^ 32 ->
  overlapping position (resources d !!! i) hs units =
  units + sum_units (running_holds d i position hs).
Proof.
  intros Hp. unfold overlapping, running_holds. revert units.
  induction Hp as [|[p u] hs [Hh Hu] Hp IH]; intros units Ha Hpos Hlt; [simpl; lia|].
  rewrite filter_cons in *. cbn [fold_left fst snd] in *.
  assert (H0 : 0 <= sum_units (map (fun h : Z * Z => mkHold (Z.of_nat i) h.2
    (hold_steps (resources d !!! i) - (position - h.1)))
    (filter (fun h : Z * Z => position - h.1 < hold_steps (resources d !!! i)) hs))).
  { clear -Hp. induction Hp as [|[p u] hs [Hh Hu] Hp IH]; [done|]. rewrite filter_cons.
    case_decide; simpl in *; lia. }
  rewrite u32_small by (unfold in_u32; lia).
  rewrite (proj2 (Z.eqb_neq position p)) by lia. rewrite andb_false_r, orb_false_r.
  destruct (Z.ltb_spec (position - p) (hold_steps (resources d !!! i))).
  - rewrite decide_True in * by done. simpl in *. rewrite u32_small by (unfold in_u32; lia).
    rewrite IH by lia. lia.
  - rewrite decide_False in * by (simpl; lia). by rewrite IH by lia.
Qed.

Lemma running_app i position hs1 hs2 :
  running_holds d i position (hs1 ++ hs2) =
  running_holds d i position hs1 ++ running_holds d i position hs2.
Proof. unfold running_holds. by rewrite filter_app, map_app. Qed.

(** One position later every running hold has one step less. *)
Lemma running_decay i position hs :
  decay (running_holds d i position hs) = running_holds d i (position + 1) hs.
Proof.
  unfold decay, running_holds. induction hs as [|[p u] hs IH]; [done|].
  rewrite !filter_cons. cbn [fst snd].
  destruct (decide (position - p < _)) as [H1|H1].
  - cbn [map]. rewrite filter_cons. cbn [hold_remaining_steps fst snd].
    destruct (decide (position + 1 - p < _)) as [H2|H2].
    + rewrite decide_True by lia. cbn [map hold_resource_index hold_units hold_remaining_steps fst snd].
      rewrite IH. f_equal. f_equal. lia.
    + rewrite decide_False by lia. done.
  - rewrite decide_False by lia. done.
Qed.

Lemma held_decay i holds : held_at i (decay holds) = decay (held_at i holds).
Proof.
  unfold held_at, decay. induction holds as [|h holds IH]; [done|].
  rewrite !filter_cons. destruct (decide (1 < hold_remaining_steps h)) as [H1|H1].
  - cbn [map]. rewrite filter_cons. cbn [hold_resource_index].
    destruct (decide (hold_resource_index h = Z.of_nat i)).
    + rewrite filter_cons, decide_True by done. cbn [map]. by rewrite IH.
    + done.
  - destruct (decide (hold_resource_index h = Z.of_nat i)); [|done].
    rewrite filter_cons, decide_False by done. done.
Qed.

Lemma decay_perm l1 l2 : l1 ≡ₚ l2 -> decay l1 ≡ₚ decay l2.
Proof. intros H. unfold decay. by rewrite H. Qed.

Lemma sum_decay holds :
  Forall (fun h => 0 <= hold_units h) holds -> sum_units (decay holds) <= sum_units holds.
Proof.
  unfold decay. induction 1 as [|h holds Hh Hp IH]; [done|]. rewrite filter_cons.
  case_decide; simpl in *; lia.
Qed.

(** The holds a list of uses starts on resource [i]. *)
Definition started (position : Z) (i : nat) (uses : list ResourceUse) : list (Z * Z) :=
  map (fun u => (position, use_units u))
    (filter (fun u => resource_index d (use_resource u) = Some i /\
                      resource_kind (resources d !!! i) = ResourceKind.REUSABLE) uses).

Definition push_hold (position : Z) (history : list (list (Z * Z))) (use : ResourceUse)
  : list (list (Z * Z)) :=
  match resource_index d (use_resource use) with
  | None => history
  | Some i =>
      if bool_decide (resource_kind (resources d !!! i) = ResourceKind.REUSABLE)
      then <[i := history !!! i ++ [(position, use_units use)]]> history else history
  end.

Lemma push_holds_at position uses history i :
  (i < length history)%nat ->
  fold_left (push_hold position) uses history !!! i = history !!! i ++ started position i uses.
Proof.
  unfold started. revert history. induction uses as [|u uses IH]; intros history Hi.
  { simpl. by rewrite app_nil_r. }
  cbn [fold_left]. rewrite filter_cons. unfold push_hold at 2.
  destruct (resource_index d (use_resource u)) as [j|] eqn:Hj.
  2:{ rewrite decide_False by (by intros [? _]). by apply IH. }
  case_bool_decide as Hk.
  - rewrite IH by (by rewrite length_insert).
    destruct (decide (j = i)) as [->|Hne].
    + rewrite lookup_total_insert_eq by done. rewrite decide_True by done.
      by rewrite <- app_assoc.
    + rewrite lookup_total_insert_ne by done.
      rewrite decide_False by (intros [[= ->] _]; done). done.
  - rewrite IH by done. rewrite decide_False; [done|]. intros [[= ->] ?]. done.
Qed.

Lemma push_holds_length position uses history :
  length (fold_left (push_hold position) uses history) = length history.
Proof.
  revert history. induction uses as [|u uses IH]; intros history; [done|]. cbn [fold_left].
  rewrite IH. unfold push_hold. destruct (resource_index _ _); [|done].
  case_bool_decide; [apply length_insert|done].
Qed.

Context (Hc : canonical_ids d).

Lemma running_cons i position p u hs :
  running_holds d i position ((p, u) :: hs) =
  (if decide (position - p < hold_steps (resources d !!! i))
   then [mkHold (Z.of_nat i) u (hold_steps (resources d !!! i) - (position - p))] else []) ++
  running_holds d i position hs.
Proof. unfold running_holds. rewrite filter_cons. cbn [fst snd]. by case_decide. Qed.

Lemma started_cons position i u uses :
  started position i (u :: uses) =
  (if decide (resource_index d (use_resource u) = Some i /\
              resource_kind (resources d !!! i) = ResourceKind.REUSABLE)
   then [(position, use_units u)] else []) ++ started position i uses.
Proof. unfold started. rewrite filter_cons. by case_decide. Qed.

(** The planner starts the same holds. *)
Lemma started_holds position i uses :
  (forall u, u ∈ uses -> is_Some (resource_index d (use_resource u))) ->
  held_at i (omap (new_hold d)
    (zip (map (fun u => index_of (use_resource u) (resource_ids (indexer_build d))) uses) uses)) =
  running_holds d i (position + 1) (started position i uses).
Proof.
  intros Hd. induction uses as [|u uses IH]; [done|].
  specialize (IH (fun u Hu => Hd u (list_elem_of_further _ _ _ Hu))).
  destruct (Hd u ltac:(left)) as [j Hj]. rewrite started_cons, running_app, <- IH. clear IH.
  pose proof Hj as Hj'. rewrite (resource_index_eq d Hc) in Hj'.
  cbn [map zip zip_with omap list_omap]. rewrite Hj', Hj. unfold new_hold at 1. cbn [fst snd].
  simpl default.
  destruct (decide (resource_kind (resources d !!! j) = ResourceKind.REUSABLE)) as [Hk|Hk].
  2:{ rewrite (decide_False (P := _ /\ _)); [done|]. by intros [[= ->] ?]. }
  destruct (decide (j = i)) as [->|Hne].
  - rewrite (decide_True (P := _ /\ _)) by done. rewrite running_cons.
    destruct (Z.leb_spec (hold_steps (resources d !!! i)) 1) as [Hs|Hs].
    + rewrite decide_False by lia. done.
    + rewrite decide_True by lia. rewrite held_at_cons. cbn [hold_resource_index].
      rewrite decide_True by done. cbn [running_holds map filter list_filter app].
      f_equal. f_equal. lia.
  - rewrite (decide_False (P := _ /\ _)) by (by intros [[= ->] _]). 
    destruct (hold_steps (resources d !!! j) <=? 1); [done|]. rewrite held_at_cons.
    cbn [hold_resource_index]. rewrite decide_False by lia. done.
Qed.

Lemma started_nonneg position i uses :
  0 <= position -> Forall (fun u => 0 <= use_units u) uses ->
  Forall (fun h : Z * Z => 0 <= h.1 < position + 1 /\ 0 <= h.2) (started position i uses).
Proof.
  intros Hp Hu. unfold started. apply Forall_map, Forall_forall. intros u Hin.
  apply list_elem_of_filter in Hin as [_ Hin]. rewrite Forall_forall in Hu. specialize (Hu u Hin).
  simpl. lia.
Qed.

(** With distinct resources a step starts at most one hold on each. *)
Lemma started_single position i uses :
  NoDup (map use_resource uses) ->
  started position i uses = [] \/
  exists u, u ∈ uses /\ resource_index d (use_resource u) = Some i /\
    resource_kind (resources d !!! i) = ResourceKind.REUSABLE /\
    started position i uses = [(position, use_units u)].
Proof.
  induction uses as [|u uses IH]; [by left|].
  cbn [map]. intros [Hu Hnd]%NoDup_cons. rewrite started_cons.
  destruct (decide (resource_index d (use_resource u) = Some i /\ _)) as [[Hi Hk]|_].
  - right. exists u. split_and!; [left|done|done|].
    assert (Hnil : started position i uses = []); [|by rewrite Hnil].
    unfold started. match goal with |- map _ ?l = [] => assert (Hn : l = []); [|by rewrite Hn] end.
    apply elem_of_nil_inv. intros v [[Hv _] Hin]%list_elem_of_filter. apply Hu.
    rewrite (resource_index_eq d Hc) in Hi, Hv. apply index_of_Some in Hi, Hv.
    rewrite Hi in Hv. injection Hv as ->. by apply list_elem_of_fmap_2.
  - destruct (IH Hnd) as [->|(v & Hv & ? & ? & ->)]; [by left|]. right. exists v.
    split_and!; [by right|done|done|done].
Qed.

Lemma sum_running_nonneg i position hs :
  Forall (fun h : Z * Z => 0 <= h.1 < position /\ 0 <= h.2) hs ->
  0 <= sum_units (running_holds d i position hs).
Proof.
  unfold running_holds. induction 1 as [|[p u] hs [Hh Hu] Hp IH]; [done|]. rewrite filter_cons.
  case_decide; simpl in *; lia.
Qed.

(** The relation after a step whose uses fit next to the running holds. *)
Lemma holds_agree_step position holds history uses :
  0 <= position -> holds_agree d position holds history ->
  NoDup (map use_resource uses) -> Forall (fun u => 0 <= use_units u) uses ->
  (forall u, u ∈ uses -> is_Some (resource_index d (use_resource u))) ->
  (forall u i, u ∈ uses -> resource_index d (use_resource u) = Some i ->
     resource_kind (resources d !!! i) = ResourceKind.REUSABLE ->
     sum_units (held_at i holds) + use_units u <= capacity (resources d !!! i)) ->
  holds_agree d (position + 1)
    (next_holds d holds
       (zip (map (fun u => index_of (use_resource u) (resource_ids (indexer_build d))) uses) uses))
    (fold_left (push_hold position) uses history).
Proof.
  intros Hpos [Hlen Hrun Hpast Hcap] Hnd Hu Hd Hfit.
  assert (Hheld : forall i, (i < length (resources d))%nat ->
    held_at i (next_holds d holds
      (zip (map (fun u => index_of (use_resource u) (resource_ids (indexer_build d))) uses) uses))
    ≡ₚ decay (held_at i holds) ++ running_holds d i (position + 1) (started position i uses)).
  { intros i Hi. rewrite <- held_decay, <- (started_holds position i uses Hd).
    unfold held_at, next_holds. rewrite (sort_by_perm (lt_on hold_key)). by rewrite filter_app. }
  split.
  - by rewrite push_holds_length.
  - intros i Hi. rewrite (Hheld i Hi), push_holds_at by lia. rewrite running_app.
    rewrite <- (running_decay i position (history !!! i)).
    apply Permutation_app_tail, decay_perm, Hrun, Hi.
  - intros i Hi. rewrite push_holds_at by lia. apply Forall_app. split; [|by apply started_nonneg].
    eapply Forall_impl; [apply (Hpast i Hi)|]. simpl. intros h ?. lia.
  - intros i Hi. rewrite (sum_units_perm _ _ (Hheld i Hi)), sum_units_app.
    assert (Hdec : sum_units (decay (held_at i holds)) <= sum_units (held_at i holds)).
    { apply sum_decay. rewrite (Hrun i Hi). unfold running_holds. apply Forall_map, Forall_forall.
      intros h [_ Hin]%list_elem_of_filter. pose proof (Hpast i Hi) as Hp.
      rewrite Forall_forall in Hp. by destruct (Hp h Hin). }
    specialize (Hcap i Hi).
    destruct (started_single position i uses Hnd) as [->|(u & Hin & Hui & Hk & ->)].
    + simpl. lia.
    + specialize (Hfit u i Hin Hui Hk). unfold running_holds. rewrite filter_cons.
      rewrite Forall_forall in Hu. specialize (Hu u Hin).
      case_decide; simpl; lia.
Qed.
End Holds.

(** ** One step *)

Section Simulation.
Context (n : PlanRequest) (limits : ModelLimits).
Abbreviation d := (req_definition n).
Abbreviation ix := (indexer_build d).
Abbreviation c := (compiled_build d ix).
Context (Hr : search_ready d limits).

Lemma precondition_agrees s p : precondition_ok d (view s) p = precondition_holds ix s p.
Proof.
  unfold precondition_ok, precondition_holds. rewrite (tables_subject_eq d (rdy_ids _ _ Hr)).
  done.
Qed.

Lemma goal_agrees s g : check_goal_v n (view s) g = [] <-> goal_satisfied ix s g = true.
Proof.
  unfold check_goal_v, goal_satisfied. rewrite (tables_subject_eq d (rdy_ids _ _ Hr)).
  destruct (subject_index _ _) as [i|]; [|done]. unfold plan_note, note, goal_ok. simpl.
  destruct (goal_kind g); rewrite ?negb_orb, <- ?Z.leb_antisym; try done;
    match goal with |- (if negb ?b then _ else _) = _ <-> _ => by destruct b end.
Qed.

Lemma fold_u64_congr (f g : Z -> nat -> Z) l z :
  in_u64 z -> (forall t i, in_u64 t -> f t i = g t i /\ in_u64 (g t i)) ->
  fold_left f l z = fold_left g l z.
Proof.
  intros Hz Hfg. revert z Hz. induction l as [|i l IH]; intros z Hz; simpl; [done|].
  destruct (Hfg z i Hz) as [-> ?]. by apply IH.
Qed.

Lemma shortfall_agrees s targets :
  v_shortfall d (view s) targets =
  sum_shortfall (if targets then target_reachable else required_reachable) d s.
Proof.
  unfold v_shortfall, sum_shortfall. apply fold_u64_congr; [by split|].
  intros total i Ht. cbv zeta.
  assert (Hsame : u64 (total + 0) = total) by (by rewrite Z.add_0_r, u64_small).
  destruct targets; unfold shortfall; cbn [view v_service_known v_reachable];
    repeat case_match; rewrite ?Hsame; (split; [done|first [apply u64_range|exact Ht]]).
Qed.

(** The effects of an admitted action leave the same state and no finding. *)
Lemma effect_agrees position found s e s' :
  apply_effect d ix s e = Ok s' -> effect_v n position (found, view s) e = (found, view s').
Proof.
  unfold apply_effect, effect_v. rewrite (tables_subject_eq d (rdy_ids _ _ Hr)).
  destruct (subject_index _ _) as [i|]; [|done]. intros H.
  destruct (eff_kind e); cbn [view v_service_known v_reachable];
    repeat match type of H with
    | context [if ?b then _ else _] => destruct b; try discriminate
    end; [by injection H as <-..|discriminate].
Qed.

Lemma effects_agree position es found s s' :
  foldM (apply_effect d ix) s es = Ok s' ->
  fold_left (effect_v n position) es (found, view s) = (found, view s').
Proof.
  revert s. induction es as [|e es IH]; intros s; cbn [foldM fold_left]; [by intros [= <-]|].
  intros (s1 & He & H)%rbind_ok. rewrite (effect_agrees _ _ _ _ _ He). by apply IH.
Qed.

Abbreviation indexed uses :=
  (zip (map (fun u => index_of (use_resource u) (resource_ids ix)) uses) uses).

(** Two different resources have different indices. *)
Lemma resource_index_inj u v i :
  resource_index d u = Some i -> resource_index d v = Some i -> u = v.
Proof.
  rewrite !(resource_index_eq d (rdy_ids _ _ Hr)). intros Hu%index_of_Some Hv%index_of_Some.
  congruence.
Qed.

Definition affordable (s : FabricState) (u : ResourceUse) : Prop :=
  exists i, resource_index d (use_resource u) = Some i /\
    (resource_kind (resources d !!! i) = ResourceKind.CONSUMABLE ->
     resource_known s !!! i <> 0 /\ use_units u <= resource_available s !!! i).

(** Consumption within the available units leaves the same state and no finding. *)
Lemma consumption_agrees position uses found s history :
  length (resource_available s) = length (resources d) -> NoDup (map use_resource uses) ->
  Forall (affordable s) uses ->
  fold_left (consume_v n position) uses (found, view s, history) =
  (found, view (fold_left (consume d) (indexed uses) s),
   fold_left (push_hold d position) uses history).
Proof.
  revert s history. induction uses as [|u uses IH]; intros s history Hlen Hnd Hu; [done|].
  cbn [map] in Hnd. apply NoDup_cons in Hnd as [Hno Hnd]. apply Forall_cons in Hu as [Hu0 Hu].
  destruct Hu0 as (i & Hi & Haff). cbn [map zip zip_with fold_left].
  pose proof Hi as Hi'. rewrite (resource_index_eq d (rdy_ids _ _ Hr)) in Hi'. rewrite Hi'.
  pose proof (index_of_bound _ _ _ _ Hi') as Hlt.
  assert (Hstep : consume_v n position (found, view s, history) u =
    (found, view (consume d s (Some i, u)), push_hold d position history u)).
  { unfold consume_v, push_hold, consume. rewrite Hi. cbn [fst snd]. simpl default.
    destruct (decide (resource_kind (resources d !!! i) = ResourceKind.CONSUMABLE)) as [Hk|Hk].
    - destruct (Haff Hk) as [Hkn Hav]. rewrite Hk. cbn [view v_resource_known v_available].
      rewrite (proj2 (Z.eqb_neq _ _) Hkn), (proj2 (Z.ltb_ge _ _) Hav). done.
    - rewrite bool_decide_eq_false_2 by done. done. }
  rewrite Hstep. apply IH; [|done|].
  - by rewrite consume_length.
  - apply Forall_forall. intros v Hv. rewrite Forall_forall in Hu.
    destruct (Hu v Hv) as (j & Hj & Hvaff). exists j. split; [done|]. intros Hk.
    destruct (Hvaff Hk) as [Hkn Hav]. pose proof Hj as Hj'.
    rewrite (resource_index_eq d (rdy_ids _ _ Hr)) in Hj'.
    pose proof (index_of_bound _ _ _ _ Hj') as Hjlt.
    assert (Hne : i <> j).
    { intros ->. apply Hno. rewrite (resource_index_inj _ _ _ Hi Hj). by apply list_elem_of_fmap_2. }
    split; [unfold consume; by case_decide|].
    rewrite consume_available by (rewrite Hlen; exact Hjlt). by rewrite decide_False by (by intros [? _]).
Qed.

(** ** The checks of an admitted step *)

Lemma note_nil b code step subject text : note b code step subject text = [] <-> b = false.
Proof. by destruct b. Qed.

Lemma concat_nil {A B} (f : A -> list B) l : (forall x, x ∈ l -> f x = []) -> concat (map f l) = [].
Proof.
  induction l as [|x l IH]; intros H; [done|]. simpl. rewrite (H x) by left.
  apply IH. intros y Hy. apply H. by right.
Qed.

Lemma dependency_agrees position s dep :
  check_dependency d s (index_of (dep_predecessor dep) (action_ids ix), dep) = Ok tt ->
  check_dependency_v n position (view s) dep = [].
Proof.
  unfold check_dependency, check_dependency_v. rewrite require_ok.
  rewrite (action_index_eq d (rdy_ids _ _ Hr)). cbn [fst snd].
  destruct (index_of _ _) as [p|]; [|done]. intros H. bool_cases. apply note_nil, Z.ltb_ge. cbn [view v_occurrences]. lia.
Qed.

(** Counting members by index or by listed identity. *)
Lemma selected_agrees s g :
  (g < length (groups d))%nat -> state_ok d s ->
  sizez (actions d) < 2 ^ 32 ->
  selected_v n (view s) (group_id (groups d !!! g)) = selected_in c s g.
Proof.
  intros Hg Hs Hsz. unfold selected_v, selected_in. rewrite compiled_members by done.
  assert (Hlen : forall l : list nat, sublist l (seq 0 (length (actions d))) -> in_u32 (sizez l)).
  { intros l Hl%sublist_length. rewrite length_seq in Hl. unfold sizez, in_u32 in *. lia. }
  rewrite u32_small by (apply Hlen, sublist_filter). unfold sizez. f_equal.
  apply Permutation_length, NoDup_Permutation.
  - apply NoDup_filter, NoDup_seq.
  - apply NoDup_filter, members_of_NoDup. by apply (group_indices_NoDup d limits Hr).
  - intros k. rewrite !list_elem_of_filter, elem_of_seq. cbn [view v_occurrences].
    assert (Hm : k ∈ members_of d g <-> (k < length (actions d))%nat /\
      g ∈ group_indices_of d (actions d !!! k)).
    { split; [apply members_of_elem|]. intros [Hk Hin]. unfold members_of.
      apply list_elem_of_In, in_concat. exists (map (fun _ => k)
        (filter (fun g' => g' = g) (group_indices_of d (actions d !!! k)))). split.
      - apply in_map_iff. exists k. split; [done|]. apply in_seq. lia.
      - apply in_map_iff. exists g. split; [done|]. by apply list_elem_of_In, list_elem_of_filter. }
    rewrite Hm. unfold group_indices_of.
    assert (Hgi : g ∈ omap (fun group => find_index (fun g => group_id g =? group) (groups d))
                        (exclusion_groups (actions d !!! k)) <->
                  group_id (groups d !!! g) ∈ exclusion_groups (actions d !!! k)).
    { rewrite list_elem_of_omap. split.
      - intros (id & Hid & Hf). apply find_index_Some in Hf as (_ & Hf & _). bool_cases. congruence.
      - intros Hin. exists (group_id (groups d !!! g)). split; [done|].
        apply find_index_id; [|done]. by destruct (dwf_groups _ _ (rdy_wf _ _ Hr)). }
    rewrite Hgi. assert (Hpos : 0 <= action_occurrences s !!! k).
    { destruct (decide (k < length (action_occurrences s))%nat) as [Hk|Hk].
      - pose proof (Forall_lookup_total _ _ _ (sty_occurrences _ (sok_typed _ _ Hs)) Hk) as [? _]. done.
      - rewrite list_lookup_total_alt, lookup_ge_None_2 by lia. done. }
    split; [intros ([? ?] & ?); split_and!; [lia|lia|done]|intros (? & ? & ?); split_and!; [lia|done|lia|lia]].
Qed.

Lemma group_index_at g :
  (g < length (groups d))%nat -> group_index d (group_id (groups d !!! g)) = Some g.
Proof. intros Hg. apply find_index_id; [|done]. by destruct (dwf_groups _ _ (rdy_wf _ _ Hr)). Qed.

Lemma exclusion_agrees position s k :
  state_ok d s -> sizez (actions d) < 2 ^ 32 -> (k < length (actions d))%nat ->
  Forall (fun g => check_exclusion d c s g = Ok tt) (action_group_indices c !!! k) ->
  concat (map (check_exclusion_v n position (view s)) (exclusion_groups (actions d !!! k))) = [].
Proof.
  intros Hs Hsz Hk Hex. apply concat_nil. intros id Hid.
  pose proof (Forall_lookup_total _ _ _ (dwf_action _ _ (rdy_wf _ _ Hr)) Hk) as Ha.
  pose proof (awf_groups_declared _ _ _ Ha) as Hdec. rewrite Forall_forall in Hdec.
  pose proof (Hdec _ Hid) as (grp & -> & Hgrp)%list_elem_of_fmap.
  apply list_elem_of_lookup in Hgrp as [g Hg].
  pose proof (lookup_lt_Some _ _ _ Hg) as Hlt. apply list_lookup_total_correct in Hg. subst grp.
  unfold check_exclusion_v. rewrite group_index_at by done. apply note_nil.
  rewrite (selected_agrees s g Hlt Hs Hsz).
  rewrite compiled_groups in Hex by done. rewrite Forall_forall in Hex.
  assert (Hin : g ∈ group_indices_of d (actions d !!! k)).
  { apply list_elem_of_omap. exists (group_id (groups d !!! g)). split; [done|].
    by apply group_index_at. }
  specialize (Hex g Hin). unfold check_exclusion in Hex. apply require_ok in Hex. bool_cases. lia.
Qed.

(** The bindings a successful precondition loop collects. *)
Abbreviation table := (request_table limits n).
Context (Hag : forall k, Reconcile.agreeing d ix (req_authority n) limits
                           (key_facts k (ev_facts (req_evidence n)))).

Lemma precondition_step position s bs p bs' :
  check_precondition ix table s bs p = Ok bs' ->
  exists new, bs' = bs ++ new /\ check_precondition_v n position (view s) p = ([], new).
Proof.
  unfold check_precondition, check_precondition_v. rewrite precondition_agrees.
  destruct (precondition_holds ix s p) as [known holds] eqn:Hph.
  destruct known; [|done]. destruct holds; [|done]. simpl.
  assert (Hnc : pre_kind p <> PreconditionKind.COUNT).
  { intros Hk. unfold precondition_holds in Hph. rewrite Hk in Hph. by destruct (subject_index _ _). }
  case_decide as Hx.
  { rewrite Hx. intros [= <-]. exists []. by rewrite app_nil_r. }
  assert (Hkind : kind_of (pre_kind p) = evidence_kind_for_precondition (pre_kind p))
    by (by destruct (pre_kind p)).
  assert (Hvalid : EvidenceKind.is_valid (kind_of (pre_kind p)) = true /\
                   kind_of (pre_kind p) <> EvidenceKind.COUNT) by (by destruct (pre_kind p)).
  destruct Hvalid as [Hvalid Hne]. unfold resolution_for. cbv zeta. rewrite <- Hkind.
  rewrite decide_False, bool_decide_eq_false_2 by done.
  rewrite (expected_binding_eq n limits Hr Hag _ _ Hvalid).
  destruct (table_find _ _) as [r|]; [case_decide; intros [= <-]; [by eexists|]|intros [= <-]];
    exists []; by rewrite app_nil_r.
Qed.

Lemma preconditions_agree position s ps bs bs' :
  foldM (check_precondition ix table s) bs ps = Ok bs' ->
  concat (map fst (map (check_precondition_v n position (view s)) ps)) = [] /\
  bs' = bs ++ concat (map snd (map (check_precondition_v n position (view s)) ps)).
Proof.
  revert bs. induction ps as [|p ps IH]; intros bs; cbn [foldM map concat].
  { intros [= <-]. by rewrite app_nil_r. }
  intros (bs1 & Hp & H)%rbind_ok. apply (precondition_step position) in Hp as (new & -> & ->).
  apply IH in H as [-> ->]. simpl. by rewrite app_assoc.
Qed.

Lemma check_preconditions_agree position s step a bs :
  foldM (check_precondition ix table s) [] (preconditions a) = Ok bs ->
  step_evidence step = unique_adj (sort_by evidence_binding_lt bs) ->
  check_preconditions_v n position (view s) step a = [].
Proof.
  intros Hf He. apply (preconditions_agree position) in Hf as [Hn Hbs].
  unfold check_preconditions_v. cbv zeta. rewrite Hn. cbn [app] in Hbs |- *. rewrite <- Hbs.
  apply note_nil, negb_false_iff, bool_decide_eq_true. rewrite He. unfold binding_set.
  apply sorted_set_idemp. apply _.
Qed.

Lemma authority_agrees position t len k :
  (k < length (actions d))%nat ->
  evaluate_domain (req_authority n) (required_domain (actions d !!! k)) = BindingState.CURRENT ->
  level_granted n (actions d !!! k) ->
  check_authority_v n position
    (bind_step (req_authority n) (plan_step len (action_at d k) (actions d !!! k) t))
    (actions d !!! k) = [].
Proof.
  intros Hk Hcur (b & Hb & Hlev). unfold check_authority_v.
  cbn [bind_step plan_step step_required_domain step_required_level step_required_generation
       step_issued_level].
  rewrite Hb, Hcur. rewrite !(bool_decide_eq_true_2 (_ = _)) by done. cbn [negb orb].
  rewrite Z.eqb_refl. by rewrite (proj2 (Z.ltb_ge _ _) Hlev).
Qed.

Lemma compensation_agrees position t len k :
  (k < length (actions d))%nat ->
  (reversibility (actions d !!! k) = Reversibility.IRREVERSIBLE ->
   allow_irreversible_actions (req_policy n) = true) ->
  check_compensation_v n position
    (bind_step (req_authority n) (plan_step len (action_at d k) (actions d !!! k) t))
    (actions d !!! k) = [].
Proof.
  intros Hk Hpol.
  pose proof (Forall_lookup_total _ _ _ (dwf_action _ _ (rdy_wf _ _ Hr)) Hk) as Ha.
  destruct (awf_kinds _ _ _ Ha) as (_ & Hrev & _).
  pose proof (awf_compensation _ _ _ Ha) as Hcomp. unfold compensation_wf in Hcomp.
  unfold check_compensation_v.
  cbn [bind_step plan_step step_irreversible step_compensation step_action].
  destruct (reversibility (actions d !!! k)) eqn:Hre; [| |done].
  - rewrite decide_True in Hcomp by done. destruct Hcomp as (_ & _ & Hin).
    apply (find_index_id_is_Some action_id) in Hin. fold (action_index d (compensation (actions d !!! k))) in Hin.
    cbn [bool_decide decide_rel]. rewrite !bool_decide_eq_false_2 by done.
    rewrite Z.eqb_refl. cbn [negb orb note andb app]. unfold note.
    rewrite bool_decide_eq_false_2; [done|]. intros Hn. by rewrite Hn in Hin.
  - rewrite decide_False in Hcomp by done. rewrite Hcomp, Hpol by done. done.
Qed.

Lemma use_agrees position s holds history k u :
  (k < length (actions d))%nat -> u ∈ resource_uses (actions d !!! k) ->
  0 <= position < 2 ^ 32 ->
  holds_agree d position holds history -> Forall hold_typed holds ->
  Forall (fun x => check_use d s holds x = Ok tt) (indexed (resource_uses (actions d !!! k))) ->
  check_use_v n position (view s) history u = [] /\
  exists i, resource_index d (use_resource u) = Some i /\
   (resource_kind (resources d !!! i) = ResourceKind.CONSUMABLE ->
    resource_known s !!! i <> 0 /\ use_units u <= resource_available s !!! i) /\
   (resource_kind (resources d !!! i) = ResourceKind.REUSABLE ->
    sum_units (held_at i holds) + use_units u <= capacity (resources d !!! i)).
Proof.
  intros Hk Hu Hpos Hag' Hty Huse.
  destruct (declared_use_index d limits k u Hr Hk Hu) as [i Hi].
  pose proof (index_of_bound _ _ _ _ Hi) as Hlt.
  assert (Hri : resource_index d (use_resource u) = Some i)
    by (by rewrite (resource_index_eq d (rdy_ids _ _ Hr))).
  assert (Hin : (Some i, u) ∈ indexed (resource_uses (actions d !!! k))).
  { destruct (uses_zip_indices d limits k Hr Hk) as (_ & Hin & _).
    rewrite compiled_resource_index in Hin by done. by apply Hin. }
  rewrite Forall_forall in Huse. specialize (Huse _ Hin). unfold check_use in Huse.
  cbn [fst snd] in Huse. simpl default in Huse.
  unfold check_use_v. rewrite Hri.
  pose proof (aty_uses _ (action_typed_at d (rdy_typed _ _ Hr) k Hk)) as Hut.
  rewrite Forall_forall in Hut. destruct (Hut u Hu) as [_ Hunits].
  pose proof (Forall_lookup_total _ _ _ (dty_resources d (rdy_typed _ _ Hr)) Hlt) as (_ & Hcapt & _).
  destruct (decide (resource_kind (resources d !!! i) = ResourceKind.CONSUMABLE)) as [Hkind|Hkind].
  - rewrite (bool_decide_eq_true_2 _ Hkind). cbn [view v_resource_known v_available].
    destruct (resource_known s !!! i =? 0) eqn:Hkn; [done|]. apply require_ok in Huse. bool_cases.
    split; [apply note_nil, Z.ltb_ge; lia|]. exists i. split; [done|]. split; [done|].
    intros Hk'. congruence.
  - rewrite (bool_decide_eq_false_2 _ Hkind). apply require_ok in Huse. bool_cases.
    pose proof (ha_capacity _ _ _ _ Hag' i Hlt) as Hcap.
    pose proof (ha_past _ _ _ _ Hag' i Hlt) as Hpast.
    pose proof (sum_running_nonneg d i position _ Hpast) as H0.
    pose proof (sum_units_perm _ _ (ha_running _ _ _ _ Hag' i Hlt)) as Hsum.
    assert (Hheld : held_units holds i = sum_units (held_at i holds)).
    { unfold held_units. rewrite held_units_fold; [lia| |lia|unfold in_u32 in *; lia].
      eapply Forall_impl; [exact Hty|]. intros h []. unfold in_u32 in *. lia. }
    rewrite Hheld in Huse. rewrite u64_small in Huse by (unfold in_u64, in_u32 in *; lia).
    split; [|exists i; split; [done|]; split; [done|]; intros; lia].
    apply note_nil, Z.ltb_ge. rewrite overlapping_fold; try done; unfold in_u32 in *; lia.
Qed.

(** ** The simulation *)

Lemma insert_known (l : list Z) j i : l !!! i <> 0 -> <[j:=1]> l !!! i <> 0.
Proof.
  intros H. destruct (decide (j = i)) as [->|Hne]; [|by rewrite lookup_total_insert_ne].
  destruct (decide (i < length l)%nat); [by rewrite lookup_total_insert_eq|].
  by rewrite list_insert_ge by lia.
Qed.

Lemma effects_known es s s' i :
  foldM (apply_effect d ix) s es = Ok s' -> resource_known s !!! i <> 0 ->
  resource_known s' !!! i <> 0.
Proof.
  intros H. revert H. apply (foldM_rel (fun s s' => resource_known s !!! i <> 0 ->
    resource_known s' !!! i <> 0)); [done|auto|]. intros t e t' _ H.
  unfold apply_effect in H. destruct (subject_index _ _) as [j|]; [|done].
  destruct (eff_kind e); repeat match type of H with
    | context [if ?b then _ else _] => destruct b; try discriminate
    end; try discriminate; injection H as <-; simpl; auto using insert_known.
Qed.

(** A step that fits before the effects is affordable after them. *)
Lemma affordable_after k s affected u i :
  (k < length (actions d))%nat -> uses_separate (actions d !!! k) ->
  foldM (apply_effect d ix) s (effects (actions d !!! k)) = Ok affected ->
  u ∈ resource_uses (actions d !!! k) -> resource_index d (use_resource u) = Some i ->
  (resource_kind (resources d !!! i) = ResourceKind.CONSUMABLE ->
    resource_known s !!! i <> 0 /\ use_units u <= resource_available s !!! i) ->
  affordable affected u.
Proof.
  intros Hk [Hnd Hset] He Hu Hi Haff. exists i. split; [done|]. intros Hkind.
  destruct (Haff Hkind) as [Hkn Hav]. split; [by eapply effects_known|].
  destruct (effects_available d _ s affected i (use_resource u) He) as [_ ->]; [| | |done].
  - rewrite (resource_index_eq d (rdy_ids _ _ Hr)) in Hi. by apply index_of_Some in Hi.
  - pose proof (Forall_lookup_total _ _ _ (dwf_action _ _ (rdy_wf _ _ Hr)) Hk) as Ha.
    eapply Forall_impl; [apply (awf_effects _ _ _ Ha)|]. by intros e (_ & ? & _).
  - intros e Hein Hek Heq. apply (Hset e Hein Hek). rewrite Heq. by apply list_elem_of_fmap_2.
Qed.

(** The progress of the validator after the planner's execution [r] of [len]
    steps, with the findings [base] it started from. *)
Record progress_agrees (base : list ValidationFinding) (r : Run) (len : nat) (pg : Progress)
  : Prop := {
  pga_findings : pg_findings pg = base;
  pga_state : pg_state pg = view (run_state r);
  pga_completeness : pg_completeness pg = incompleteness d (run_state r);
  pga_floor : pg_floor pg = floor_gap d (run_state r);
  pga_position : pg_position pg = Z.of_nat len;
  pga_holds : holds_agree d (Z.of_nat len) (run_holds r) (pg_history pg)
}.

Lemma add_or_keep_small a b : in_u64 (a + b) -> in_u64 a -> in_u64 b -> add_or_keep a b = a + b.
Proof.
  intros Hs Ha Hb. unfold add_or_keep. assert (H : add_overflow a b = Some (a + b)).
  { by apply add_overflow_Some. } by rewrite H.
Qed.

(** Both accumulate the same objective. *)
Lemma account_agrees o a fb fa before after :
  length o = 8%nat -> Forall (fun z => 0 <= z) o -> action_typed a -> fa <= fb -> in_u64 before ->
  in_u64 after ->
  let o' := zip_with Z.add o (component (delta_of a before after)) in
  Forall in_u64 o' -> account o a fb fa before after = o'.
Proof.
  intros Hlen Hpos [] Hf Hb Ha o' Ho'. subst o'. unfold account. rewrite (proj2 (Z.ltb_ge _ _) Hf).
  do 8 (destruct o as [|? o]; [discriminate|]). destruct o; [|discriminate]. clear Hlen.
  cbn [component delta_of zip_with] in *.
  repeat match goal with H : Forall _ (_ :: _) |- _ => apply Forall_cons in H as [? H] end.
  assert (forall z, in_u32 z -> in_u64 z) by (unfold in_u32, in_u64; lia).
  cbn [lookup_total list_lookup_total].
  rewrite !add_or_keep_small; auto; unfold in_u64, in_u32 in *; try lia.
  destruct (before <? after); [rewrite u64_small by (unfold in_u64; lia)|]; repeat f_equal; lia.
Qed.


Section Step.
Context (Hl : limits_ok limits)
  (Hsep : Forall uses_separate (actions d)).

(** The authority an action needs is current and granted at its level. *)
Definition authorised (a : ActionSpec) : Prop :=
  evaluate_domain (req_authority n) (required_domain a) = BindingState.CURRENT /\ level_granted n a.

Lemma actions_in_range k : (k < length (actions d))%nat -> sizez (actions d) < 2 ^ 32.
Proof.
  intros Hk. pose proof (Forall_lookup_total _ _ _ (dwf_action _ _ (rdy_wf _ _ Hr)) Hk) as Ha.
  destruct (awf_occurrences _ _ _ Ha) as [H0 H1].
  destruct (aty_occurrences _ (action_typed_at d (rdy_typed _ _ Hr) k Hk)) as [H2 _].
  destruct (dwf_sizes _ _ (rdy_wf _ _ Hr)) as (_ & _ & _ & _ & Hs & _).
  pose proof (lok_steps _ Hl). unfold sizez in *. nia.
Qed.

Abbreviation step_of t len k :=
  (bind_step (req_authority n) (plan_step len (action_at d k) (actions d !!! k%nat) t)).

Lemma action_found k : (k < length (actions d))%nat -> action_index d (action_at d k) = Some k.
Proof.
  intros Hk. rewrite (action_index_eq d (rdy_ids _ _ Hr)). by eapply action_index_of.
Qed.

(** The position checks. *)
Lemma order_agrees s inc holds k t len :
  state_ok d s -> (k < length (actions d))%nat ->
  step_facts d (req_policy n) table s holds inc k t ->
  check_order_v n (Z.of_nat len) (view s) (step_of t len k) k = [].
Proof.
  intros Hs Hk Hsf. destruct Hsf. unfold check_order_v. cbv zeta.
  change sf_action with (actions d !!! k) in *.
  cbn [view v_occurrences bind_step plan_step step_occurrence].
  rewrite sf_number, Z.eqb_refl. rewrite (proj2 (Z.leb_gt _ _) sf_occurrence).
  cbn [note negb app].
  rewrite concat_nil.
  - destruct (Z.eqb_spec (action_occurrences s !!! k) 0) as [H0|]; [|done].
    rewrite (exclusion_agrees _ s k); auto. by apply (actions_in_range k).
  - intros dep Hdep. apply dependency_agrees. rewrite Forall_forall in sf_dependencies.
    apply sf_dependencies. unfold compiled_build. destruct (fold_left _ _ _).
    cbn [action_dependency_indices]. rewrite lookup_total_map by done.
    clear -Hdep. induction (dependencies (actions d !!! k)) as [|x xs IH]; [by apply elem_of_nil in Hdep|].
    cbn [map zip zip_with]. apply elem_of_cons in Hdep as [->|Hdep]; [left|right; by apply IH].
Qed.

(** All checks of a step. *)
Lemma checks_agree r k t len history :
  run_ok d (request_initial limits n) r -> (k < length (actions d))%nat ->
  step_facts d (req_policy n) table (run_state r) (run_holds r) (incompleteness d (run_state r)) k t ->
  Z.of_nat len < max_plan_steps (req_policy n) -> Z.of_nat len + 1 < 2 ^ 32 ->
  holds_agree d (Z.of_nat len) (run_holds r) history -> authorised (actions d !!! k) ->
  check_step_v n (Z.of_nat len) (view (run_state r)) history (step_of t len k) k = [].
Proof.
  intros Ho Hk Hsf Hmax Hlen Hh [Hdom Hlev]. unfold check_step_v, check_index_v. cbv zeta.
  rewrite (order_agrees _ (incompleteness d (run_state r)) (run_holds r)); [|apply Ho|done|done].
  destruct Hsf. change sf_action with (actions d !!! k) in *.
  destruct sf_preconditions as (bs & Hf & Hb).
  rewrite (check_preconditions_agree _ (run_state r) _ _ bs Hf) by done.
  rewrite authority_agrees, compensation_agrees by done.
  cbn [bind_step plan_step step_index].
  rewrite (u32_small (Z.of_nat len)), Z.eqb_refl by (unfold in_u32; lia).
  rewrite (proj2 (Z.leb_gt _ _) Hmax). cbn [note negb app]. apply concat_nil. intros u Hu.
  eapply (use_agrees (Z.of_nat len) (run_state r) (run_holds r) history k u Hk Hu); [lia|done| |].
  - apply (ro_holds _ _ _ Ho).
  - subst sf_uses. by rewrite compiled_resource_index in sf_resources.
Qed.

(** The state, the floors and the history after the effects and the consumption. *)
Lemma consumed_agrees r k t len history found :
  run_ok d (request_initial limits n) r -> (k < length (actions d))%nat ->
  step_facts d (req_policy n) table (run_state r) (run_holds r) (incompleteness d (run_state r)) k t ->
  Z.of_nat len + 1 < 2 ^ 32 -> holds_agree d (Z.of_nat len) (run_holds r) history ->
  exists consumed,
    (let '(found, s) := fold_left (effect_v n (Z.of_nat len)) (effects (actions d !!! k))
                          (found, view (run_state r)) in
     fold_left (consume_v n (Z.of_nat len)) (resource_uses (actions d !!! k)) (found, s, history)) =
    (found, view consumed,
     fold_left (push_hold d (Z.of_nat len)) (resource_uses (actions d !!! k)) history) /\
    tr_state t = finish consumed k (action_occurrences (run_state r) !!! k) (tr_end_tick t) /\
    action_occurrences consumed = action_occurrences (run_state r) /\
    tick consumed = tick (run_state r) /\
    holds_agree d (Z.of_nat len + 1) (tr_holds t)
      (fold_left (push_hold d (Z.of_nat len)) (resource_uses (actions d !!! k)) history).
Proof.
  intros Ho Hk Hsf Hlen Hh. destruct Hsf. change sf_action with (actions d !!! k) in *.
  pose proof (Forall_lookup_total _ _ _ Hsep Hk) as Hsepk.
  destruct sf_effects as (affected & He & Hst & _ & _).
  assert (Huses : sf_uses = indexed (resource_uses (actions d !!! k)))
    by (unfold sf_uses; by rewrite compiled_resource_index).
  rewrite Huses in *. clear Huses.
  assert (Hpos : 0 <= Z.of_nat len < 2 ^ 32) by lia.
  pose proof (fun u Hu => use_agrees (Z.of_nat len) (run_state r) (run_holds r) history k u
    Hk Hu Hpos Hh (ro_holds _ _ _ Ho) sf_resources) as Hus.
  exists (fold_left (consume d) (indexed (resource_uses (actions d !!! k))) affected).
  split; [|split; [exact Hst|]].
  - rewrite (effects_agree _ _ _ _ _ He).
    apply consumption_agrees; [|apply Hsepk|].
    + apply (foldM_effects_ok d _ _ _ (ro_state _ _ _ Ho)) in He.
      apply (ssh_available d _ (sok_shape d _ He)).
    + apply Forall_forall. intros u Hu. destruct (Hus u Hu) as (_ & i & Hi & Hcons & _).
      by eapply affordable_after.
  - apply foldM_effects_frame in He as [Hocc Htick].
    destruct (fold_consume_frame d (indexed (resource_uses (actions d !!! k))) affected)
      as (-> & -> & _). split; [done|]. split; [done|]. rewrite sf_holds.
    apply (holds_agree_step d (rdy_ids _ _ Hr)); [lia|done|apply Hsepk| | |].
    + pose proof (aty_uses _ (action_typed_at d (rdy_typed _ _ Hr) k Hk)) as Hut.
      eapply Forall_impl; [exact Hut|]. intros u [_ [? _]]. done.
    + intros u Hu. destruct (Hus u Hu) as (_ & i & Hi & _). by exists i.
    + intros u i Hu Hi Hkind. destruct (Hus u Hu) as (_ & j & Hj & _ & Hre).
      rewrite Hi in Hj. injection Hj as <-. by apply Hre.
Qed.

(** One admitted step of the planner is one step of the validator without findings. *)
Lemma step_agrees base r k t len pg :
  run_ok d (request_initial limits n) r -> (k < length (actions d))%nat ->
  Transition.apply d ix c (req_policy n) table (run_state r) (run_holds r)
    (incompleteness d (run_state r)) k = Ok t ->
  Z.of_nat len < max_plan_steps (req_policy n) -> Z.of_nat len + 1 < 2 ^ 32 ->
  authorised (actions d !!! k) -> progress_agrees base r len pg ->
  let cost := zip_with Z.add (run_cost r) (component (tr_delta t)) in
  let pg' := validate_step n pg (step_of t len k) in
  progress_agrees base (mkRun (tr_state t) (tr_holds t) cost) (S len) pg' /\
  (pg_objective pg = run_cost r -> Forall in_u64 cost -> pg_objective pg' = cost).
Proof.
  intros Ho Hk Ht Hmax Hlen Hauth []. cbv zeta.
  pose proof (action_typed_at d (rdy_typed _ _ Hr) k Hk) as Hty.
  pose proof (apply_floor_gap _ _ _ _ _ _ _ _ Ht) as Hfloor.
  pose proof (apply_inv _ _ _ _ _ _ _ _ Ht) as Hsf.
  destruct (consumed_agrees r k t len (pg_history pg) base Ho Hk Hsf Hlen pga_holds0)
    as (consumed & Hrun & Hst & Hocc & Htick & Hh).
  pose proof (checks_agree r k t len (pg_history pg) Ho Hk Hsf Hmax Hlen pga_holds0 Hauth) as Hchecks.
  destruct Hsf. change sf_action with (actions d !!! k) in *. clear sf_action.
  destruct sf_effects as (_ & _ & _ & _ & Hadd).
  unfold validate_step. cbn [bind_step plan_step step_action] in Hchecks |- *.
  rewrite (action_found k Hk). cbv zeta in Hchecks |- *.
  rewrite pga_position0, pga_state0, pga_findings0. rewrite Hchecks, app_nil_r. clear Hchecks.
  destruct (fold_left (effect_v n (Z.of_nat len)) (effects (actions d !!! k))
              (base, view (run_state r))) as [found s]. rewrite Hrun.
  rewrite !shortfall_agrees.
  rewrite !(floor_gap_congr d consumed (tr_state t)) by (by rewrite Hst).
  fold (incompleteness d (tr_state t)). fold (floor_gap d (tr_state t)).
  rewrite pga_floor0, pga_completeness0.
  split; [split|]; cbn [pg_findings pg_state pg_objective pg_completeness pg_floor pg_history pg_position
              run_state run_holds run_cost]; try done.
  - rewrite (proj2 (Z.ltb_ge _ _) Hfloor). apply app_nil_r.
  - cbn [view v_tick]. rewrite Htick. unfold add_or_keep. rewrite Hadd. cbn [default].
    rewrite Hst. unfold v_count, view, finish. cbn. by rewrite Hocc.
  - rewrite u32_small by (unfold in_u32; lia). lia.
  - rewrite Nat2Z.inj_succ. unfold Z.succ. exact Hh.
  - intros -> Hcost. rewrite sf_delta in Hcost |- *. destruct (ro_cost _ _ _ Ho) as [Hl8 Hpos].
    apply account_agrees; first [done|apply sum_shortfall_range].
Qed.

(** A whole execution: the validator's progress over the planner's steps. *)
Lemma run_agrees base path r pg :
  request_typed n ->
  Transition.exec d ix c (req_policy n) table (request_initial limits n) path = Ok r ->
  sizez path <= bound d (req_policy n) -> Forall in_u64 (run_cost r) ->
  progress_agrees base (mkRun (request_initial limits n) [] (replicate 8 0)) 0 pg ->
  pg_objective pg = replicate 8 0 -> Forall authorised (actions d) ->
  exists steps,
    foldM (replay_step d ix c (req_policy n) table)
      (mkReplay (request_initial limits n) [] [] zero_objective) (map (action_at d) path) =
      Ok (mkReplay (run_state r) (run_holds r) steps (mkObjective (run_cost r))) /\
    length steps = length path /\
    let pg' := fold_left (validate_step n) (map (bind_step (req_authority n)) steps) pg in
    progress_agrees base r (length path) pg' /\ pg_objective pg' = run_cost r.
Proof.
  intros Ht He Hlen Hu Hpg Hob Hcur. destruct (request_initial_ok limits n Ht) as [Hs Hp].
  pose proof (ready_resources limits n Hl Hr) as Hsz.
  pose proof (ready_bound limits n Hl Hr (rty_steps _ Ht)) as Hbound.
  assert (Hmax : bound d (req_policy n) <= max_plan_steps (req_policy n)) by (unfold bound; lia).
  revert r He Hlen Hu. induction path as [|k path IH] using rev_ind; intros r He Hlen Hu.
  { injection He as <-. by exists []. }
  unfold sizez in Hlen. rewrite length_app in Hlen. simpl in Hlen.
  apply exec_snoc in He as (r0 & H0 & Hstep).
  pose proof (exec_run_ok d limits (req_policy n) table Hr Hsz _ path r0 Hs Hp H0) as Ho.
  assert (Hu0 : Forall in_u64 (run_cost r0)) by (by eapply cost_prefix).
  destruct (IH r0 H0) as (steps & Hf & Hls & Hpa & Hob0); [unfold sizez; lia|done|].
  apply exec_step_inv in Hstep as (Hk & t & Htr & ->).
  exists (steps ++ [plan_step (length steps) (action_at d k) (actions d !!! k) t]).
  assert (Hadd : objective_add (mkObjective (run_cost r0)) (tr_delta t) =
                 Some (mkObjective (zip_with Z.add (run_cost r0) (component (tr_delta t))))).
  { destruct (step_delta d limits (req_policy n) table Hr r0 k t Htr Hk) as (Hl8 & Hpos & Hwf).
    apply objective_add_total; [|done|done]. split; [apply (ro_cost _ _ _ Ho)|done]. }
  split; [|split].
  - rewrite map_app, foldM_app, Hf. cbn [rbind map foldM]. unfold replay_step.
    rewrite (action_index_of d limits Hr k Hk). cbn [rp_state rp_holds rp_objective rp_steps].
    by rewrite Htr, Hadd.
  - rewrite !length_app. simpl. lia.
  - rewrite map_app, fold_left_app, length_app. cbn [map fold_left length].
    rewrite Hls, Nat.add_1_r.
    destruct (step_agrees base r0 k t (length path) _ Ho Hk Htr ltac:(lia) ltac:(lia)
                (Forall_lookup_total _ _ _ Hcur Hk) Hpa)
      as [? Hstep]. auto.
Qed.
End Step.
End Simulation.

(** ** Plans and certificates of the planner *)

(** No two admissible facts about one subject with the same sequence disagree. *)
Definition evidence_agrees (limits : ModelLimits) (n : PlanRequest) : Prop :=
  forall k, Reconcile.agreeing (req_definition n) (indexer_build (req_definition n))
              (req_authority n) limits (key_facts k (ev_facts (req_evidence n))).

Section Plans.
Context (limits : ModelLimits) (n : PlanRequest).
Abbreviation d := (req_definition n).
Context (Hr : search_ready d limits) (Hag : evidence_agrees limits n) (Ha : admissible limits n).

Lemma initial_v_view : initial_v n = view (request_initial limits n).
Proof. apply (initial_agrees d (req_authority n) limits Hr _ Hag). Qed.

Lemma holds_agree_initial : holds_agree d 0 [] (replicate (length (resources d)) []).
Proof.
  split.
  - apply length_replicate.
  - intros i Hi. by rewrite lookup_total_replicate_2.
  - intros i Hi. rewrite lookup_total_replicate_2 by done. constructor.
  - intros i Hi. pose proof (Forall_lookup_total _ _ _ (dty_resources d (rdy_typed _ _ Hr)) Hi)
      as (_ & [Hc _] & _). exact Hc.
Qed.

Lemma initial_progress_agrees p :
  progress_agrees n (pg_findings (initial_progress n p))
    (mkRun (request_initial limits n) [] (replicate 8 0)) 0 (initial_progress n p).
Proof.
  split; cbn [initial_progress pg_findings pg_state pg_completeness pg_floor pg_history
              pg_position run_state run_holds run_cost].
  - done.
  - exact initial_v_view.
  - rewrite initial_v_view. apply (shortfall_agrees n _ true).
  - rewrite initial_v_view. apply (shortfall_agrees n _ false).
  - done.
  - exact holds_agree_initial.
Qed.

(** The plan level findings on digests, identity, fences and the definition. *)
Lemma initial_findings p :
  definition_wf default_model_limits d -> plan_sound limits n p ->
  pg_findings (initial_progress n p) = [].
Proof.
  intros Hw [(Hid & Hep & Hbo & Hat) (Hrd & Hdd & Hed & Had & Hpd) [Hdig _] _ _].
  cbn [initial_progress pg_findings]. unfold check_digests_v.
  rewrite Hid, Hep, Hbo, Hat, Hrd, Hdd, Hed, Had, Hpd.
  rewrite !(bool_decide_eq_true_2 (_ = _)) by done. rewrite !Z.eqb_refl.
  cbn [negb andb app plan_note note].
  assert (Hf : concat (map (check_fence_v p) (req_fences n)) = []).
  { apply concat_nil. intros f Hin. pose proof (adm_fences _ _ Ha) as Hfs.
    rewrite Forall_forall in Hfs. destruct (Hfs f Hin) as [Hle Hboot].
    unfold check_fence_v. rewrite Hep, Hbo. rewrite (proj2 (Z.ltb_ge _ _) Hle).
    destruct (Z.eqb_spec (fence_epoch f) (req_epoch n)) as [He|]; [|done].
    by rewrite (Hboot He), Z.eqb_refl. }
  unfold plan_note in Hf |- *. rewrite Hf. unfold note, check_definition_v, validate_definition.
  apply check_definition_iff in Hw. by rewrite Hw.
Qed.

Lemma goals_agree s :
  goals_satisfied d (indexer_build d) s = true -> concat (map (check_goal_v n (view s)) (goals d)) = [].
Proof.
  intros Hg. apply concat_nil. intros g Hin. apply (goal_agrees n limits Hr).
  unfold goals_satisfied in Hg. rewrite forallb_forall in Hg. apply Hg. by apply list_elem_of_In.
Qed.

(** An admissible request that demands current authority grants every action. *)
Lemma actions_current :
  require_current_authority (req_policy n) = true ->
  Forall (authorised n) (actions d).
Proof.
  intros Hc. pose proof (adm_levels _ _ Ha Hc) as Hlev. rewrite Forall_forall in *. intros a Hin.
  split; [|by apply Hlev]. apply (adm_domains _ _ Ha Hc). do 4 right. by exists a.
Qed.
End Plans.

Lemma compare_objective_refl o : compare_objective o o = 0.
Proof.
  unfold compare_objective. induction (component o) as [|x l IH]; [done|]. simpl.
  by rewrite Z.ltb_irrefl.
Qed.

Lemma uses_separate_canonical a : uses_separate a -> uses_separate (canonicalise_action a).
Proof.
  intros [Hnd Hset]. split; simpl.
  - by rewrite (sort_by_perm (lt_on use_key)).
  - intros e He Hk. rewrite (sort_by_perm (lt_on use_key)). apply Hset; [|done].
    by rewrite (sort_by_perm (lt_on effect_key)) in He.
Qed.

Lemma uses_separate_all d :
  Forall uses_separate (actions d) -> Forall uses_separate (actions (canonicalise d)).
Proof.
  intros H. apply Forall_map, Forall_sort; [apply _|]. eapply Forall_impl; [exact H|].
  apply uses_separate_canonical.
Qed.

(** A sound plan passes the validator, whichever search found it. *)
Lemma sound_plans_validate r p :
  request_typed r -> admissible default_model_limits (normalise r) ->
  plan_sound default_model_limits (normalise r) p ->
  require_current_authority (req_policy r) = true ->
  evidence_agrees default_model_limits (normalise r) ->
  Forall uses_separate (actions (req_definition r)) ->
  validate_plan r p =
    mkReport true true true (plan_objective p) (plan_digest p) (plan_digest p) [].
Proof.
  intros Ht Ha Hs Hcur Hag Hsep.
  pose proof (admissible_ready _ r Ht Ha) as Hr. pose proof (normalise_typed r Ht) as Hn.
  unfold validate_plan. set (n := normalise r) in *.
  pose proof (initial_progress_agrees _ n Hr Hag p) as Hpg.
  rewrite (initial_findings _ n Ha p (adm_definition _ _ Ha) Hs) in Hpg.
  destruct Hs as [_ _ [Hdig _] _ (path & run & Hex & Hgoals & _)].
  destruct Hex as (He & Henc & Hlen & Hobj & Hu & steps & Hrep & Hsteps & _).
  destruct (run_agrees n default_model_limits Hr Hag default_limits_ok
              (uses_separate_all _ Hsep) [] path run (initial_progress n p) Hn He Hlen Hu Hpg
              eq_refl (actions_current _ n Ha Hcur))
    as (steps' & Hf & _ & Hpa & Hob).
  unfold replay in Hrep. rewrite Henc, Hf in Hrep. injection Hrep as <- _.
  unfold validate_normalised. rewrite Hsteps. cbv zeta. destruct Hpa as [Hfound Hst _ _ _ _].
  rewrite Hob, Hst, Hfound, (goals_agree _ n Hr _ Hgoals).
  rewrite Hobj, <- Hdig, compare_objective_refl, (bool_decide_eq_true_2 (_ = plan_digest _)) by done.
  done.
Qed.

(** ... in particular the planner's. *)
Lemma planned_plan_validates r res p :
  request_typed r -> plan default_model_limits r = Some res -> pr_plan res = Some p ->
  require_current_authority (req_policy r) = true ->
  evidence_agrees default_model_limits (normalise r) ->
  Forall uses_separate (actions (req_definition r)) ->
  validate_plan r p =
    mkReport true true true (plan_objective p) (plan_digest p) (plan_digest p) [].
Proof.
  intros Ht Hres Hp Hcur Hag Hsep.
  destruct (plan_outcomes _ r res default_limits_ok Ht Hres) as
    [|p' Ha _ Hp' _ Hs| | | |]; try congruence.
  rewrite Hp in Hp'. injection Hp' as <-. by apply sound_plans_validate.
Qed.

(** C3: the planner and the independent validator agree. For any request whose
    policy demands current authority, whose evidence holds no contradictory
    observations and whose actions never use one resource twice nor set a
    resource they use, every plan the planner returns is judged valid by
    [validate_plan], which re-derives digests, identity, fences, ordering,
    exclusion, preconditions, evidence bindings, authority, compensation, holds,
    consumption, floors, goals and the objective on its own: there is no
    finding, and the recomputed objective is the plan's. *)
Theorem planned_plans_validate r res p :
  request_typed r -> plan default_model_limits r = Some res -> pr_plan res = Some p ->
  require_current_authority (req_policy r) = true ->
  evidence_agrees default_model_limits (normalise r) ->
  Forall uses_separate (actions (req_definition r)) ->
  validate_plan r p =
    mkReport true true true (plan_objective p) (plan_digest p) (plan_digest p) [].
Proof. apply planned_plan_validates. Qed.

(** Facts about distinct keys cannot contradict each other. *)
Lemma distinct_keys_agree limits n :
  NoDup (map fact_table_key (ev_facts (req_evidence n))) -> evidence_agrees limits n.
Proof.
  intros Hnd k f g Hf Hg _ _ _.
  unfold key_facts in Hf, Hg. rewrite !list_elem_of_filter in Hf, Hg.
  destruct Hf as [[_ Hf] Hfin], Hg as [[_ Hg] Hgin].
  cut (f = g); [by intros ->|]. subst k. induction (ev_facts (req_evidence n)) as [|x l IH];
    [by apply elem_of_nil in Hfin|].
  cbn [map] in Hnd. apply NoDup_cons in Hnd as [Hx Hnd].
  apply elem_of_cons in Hfin as [->|Hfin], Hgin as [->|Hgin]; auto.
  - destruct Hx. rewrite <- Hg. by apply list_elem_of_fmap_2.
  - destruct Hx. rewrite Hg. by apply list_elem_of_fmap_2.
Qed.

Lemma example_agrees : evidence_agrees default_model_limits (normalise example_request).
Proof. apply distinct_keys_agree. apply (bool_decide_unpack _). vm_compute. done. Qed.

Lemma example_separate : Forall uses_separate (actions example_definition).
Proof.
  repeat constructor; try set_solver; simpl; intros e He Hk;
    repeat (apply elem_of_cons in He as [->|He]; [discriminate Hk|]); by apply elem_of_nil in He.
Qed.

Lemma planned_plans_validate_witness :
  exists res p, plan default_model_limits example_request = Some res /\ pr_plan res = Some p /\
    vr_findings (validate_plan example_request p) = [].
Proof.
  pose proof plan_example as He.
  destruct (plan default_model_limits example_request) as [res|] eqn:Hres; [|discriminate He].
  simpl in He. injection He as _ He.
  destruct (pr_plan res) as [p|] eqn:Hp; [|discriminate He].
  exists res, p. split; [reflexivity|]. split; [exact Hp|].
  rewrite (planned_plans_validate example_request res p example_request_typed Hres Hp eq_refl
             example_agrees example_separate).
  reflexivity.
Defined.

(** A goal upper bound certificate for the example request that bounds the
    service by the very value the goal asks for. *)
Definition forged_certificate : InfeasibilityCertificate :=
  let n := normalise example_request in
  mkCertificate ProofKind.GOAL_UPPER_BOUND (request_digest n) (policy_digest (req_policy n)) 0 0 0 []
    (subject_of_service 1) 3 3 [established_assumption] [].

(** A certificate the validator accepts proves nothing by itself: the bound
    is compared with the structural maximum of the service, never with the value
    the goal requires, so a certificate whose bound meets the requirement is
    judged valid for a request the planner solves. *)
Theorem validator_accepts_false_certificate :
  vr_valid (validate_certificate example_request forged_certificate) = true /\
  cert_required_value forged_certificate <= cert_unreachable_value forged_certificate /\
  option_map pr_decision (plan default_model_limits example_request) = Some PlanDecision.PLAN_FOUND.
Proof. vm_compute. done. Qed.

(** An action that names its only spare twice, and reaches the only goal. *)
Definition greedy_repair : ActionSpec :=
  mkAction 10 "twice" ActionKind.REPLACE Reversibility.IRREVERSIBLE 0 0 0 0 1 1
    AuthorityDomain.RECOVERY_ADMISSION AuthorityLevel.RECOMMENDATION []
    [mkEffect EffectKind.MARK_RESOURCE_RESTORED (subject_of_resource 1) 1]
    [mkUse 1 1; mkUse 1 1] [] [].

Definition greedy_request : PlanRequest :=
  mkRequest 1 3 9 1
    (mkDefinition [] [] [] [mkResource 1 ResourceKind.CONSUMABLE 1 0] [greedy_repair]
       [mkGoal GoalKind.RESOURCE_RESTORED (subject_of_resource 1) 1 1] [])
    (mkEvidence 3 9 [lease_fact 1 EvidenceKind.RESOURCE_AVAILABLE_UNITS (subject_of_resource 1) 1 7])
    example_authority (mkPolicy true true 8 100 100 100 1) [].

(** Without separate uses the two disagree: the planner checks each of two
    uses of one spare against the single available unit and returns a plan; the
    validator, which subtracts them one after the other, rejects it. *)
Theorem duplicate_use_plan_invalid :
  exists res p, plan default_model_limits greedy_request = Some res /\
    pr_decision res = PlanDecision.PLAN_FOUND /\ pr_plan res = Some p /\
    encoding p = [10] /\
    map vf_code (vr_findings (validate_plan greedy_request p)) =
      [ReasonCode.VALIDATION_RESOURCE_VIOLATION].
Proof.
  assert (H : match plan default_model_limits greedy_request with
    | Some res => (pr_decision res, option_map (fun p => (encoding p,
        map vf_code (vr_findings (validate_plan greedy_request p)))) (pr_plan res))
    | None => (PlanDecision.COUNT, None)
    end = (PlanDecision.PLAN_FOUND, Some ([10], [ReasonCode.VALIDATION_RESOURCE_VIOLATION])))
    by (vm_compute; reflexivity).
  destruct (plan default_model_limits greedy_request) as [res|]; [|discriminate H].
  injection H as Hd Hp. destruct (pr_plan res) as [p|] eqn:Hpl; [|discriminate Hp].
  injection Hp as He Hf. by exists res, p.
Qed.
