(* ===== verification/Certificates.v ===== *)
(** * Certificates of the planner pass the validator

    Relates the three certificates [Planner::plan] issues ([src/planner.cpp],
    lines 1403-1515) to [validate_certificate] of [src/validate.cpp]. *)
From S2P Require Import Prelude Ids Canonical Model Objective Domain DefinitionCheck Plan Fixture.
From S2P Require Import Reconcile Transition Search SearchCorrect StaticProofs Planner Validate.
From S2P Require Import ValidateCorrect.

(** ** The number of expanded nodes *)

Section Expanded.
Context (d : FabricDefinition) (ix : Indexer) (c : Compiled) (policy : PlanPolicy)
  (table : list (EvidenceKey * SubjectResolution)).

Abbreviation expanded st := (so_nodes_expanded (outcome st)).

(** How a step of the search may end: nothing is decided and no expansion
    forgotten, or the search stops with a verdict that is not exhaustion of the
    space. *)
Definition progressed (n : Z) (o : result SearchState SearchState) : Prop :=
  match o with
  | Ok st => n <= expanded st
  | Err st => so_found (outcome st) = true \/ so_budget_exhausted (outcome st) = true
  end.

Lemma expand_one_progress current st k n :
  n <= expanded st -> progressed n (expand_one d ix c policy table current st k).
Proof.
  intros Hn. unfold expand_one. destruct (apply _ _ _ _ _ _ _ _ _) as [t|r].
  2:{ unfold count_rejection. by destruct (blocked_by_unknown r), (blocked_by_policy r), (blocked_by_safety r). }
  destruct (_ <=? _); [by right|]. destruct (objective_add _ _); [|by right].
  destruct (negb _); [done|]. destruct (_ <? _); [by right|done].
Qed.

Lemma expand_all_progress current ks st n :
  n <= expanded st -> progressed n (foldM (expand_one d ix c policy table current) st ks).
Proof.
  revert st. induction ks as [|k ks IH]; intros st Hn; [done|]. cbn [foldM].
  pose proof (expand_one_progress current st k n Hn) as H.
  destruct (expand_one _ _ _ _ _ _ _ _) as [st'|st']; simpl in *; [by apply IH|done].
Qed.

Lemma visit_progress current st n :
  n <= expanded st -> progressed n (visit d ix c policy table st current).
Proof.
  intros Hn. unfold visit. destruct (match visited_find _ _ with Some _ => _ | None => _ end); [done|].
  destruct (goals_satisfied _ _ _); [by left|]. destruct (_ <=? _); [by right|].
  destruct (_ <=? _); [simpl; lia|]. apply expand_all_progress. simpl. lia.
Qed.

Lemma loop_progress fuel st final n :
  n <= expanded st -> search_loop d ix c policy table fuel st = Some final ->
  so_found (outcome final) = true \/ so_budget_exhausted (outcome final) = true \/
  n <= expanded final.
Proof.
  revert st. induction fuel as [|fuel IH]; intros st Hn H; [done|]. simpl in H.
  destruct (frontier st) as [|cur rest]; [injection H as <-; auto|].
  pose proof (visit_progress cur (with_frontier rest st) n Hn) as Hv.
  destruct (visit _ _ _ _ _ _ _) as [st'|st']; [by eapply IH|]. injection H as <-.
  destruct Hv; auto.
Qed.

(** A search that exhausts its space has expanded at least the root. *)
Lemma run_expands root final :
  search_run d ix c policy table root = Some final ->
  so_found (outcome final) = false -> so_budget_exhausted (outcome final) = false ->
  1 <= expanded final.
Proof.
  unfold search_run. intros H Hf Hb.
  destruct (search_loop _ _ _ _ _ _ _) as [st|] eqn:Hl; [|done]. injection H as <-. simpl in *.
  unfold search_fuel in Hl. rewrite Nat.add_succ_r in Hl. cbn [search_loop frontier initial_search] in Hl.
  assert (Hv : progressed 1 (visit d ix c policy table (with_frontier [] (initial_search d c policy root)) 0)).
  { unfold visit, visited_find. simpl. rewrite decide_True by done. simpl.
    destruct (goals_satisfied _ _ _); [by left|]. destruct (_ <=? _); [by right|].
    destruct (_ <=? _); [simpl; lia|]. apply expand_all_progress. simpl. lia. }
  destruct (visit _ _ _ _ _ _ _) as [st'|st']; simpl in Hv.
  - destruct (loop_progress _ _ _ 1 Hv Hl) as [?|[?|?]]; congruence.
  - injection Hl as <-. destruct Hv; congruence.
Qed.
End Expanded.

(** ** The certificates [plan] issues *)

(** The certificate of a result, with what the planner established for it. *)
Inductive issued (limits : ModelLimits) (n : PlanRequest) (cert : InfeasibilityCertificate) : Prop :=
| issued_cycle dr cycle :
    dr_request dr = n -> dr_digest dr = request_digest n -> cert = cycle_certificate dr cycle ->
    dependency_cycle (req_definition n) cycle -> issued limits n cert
| issued_bound dr g b :
    dr_request dr = n -> dr_digest dr = request_digest n -> cert = bound_certificate dr g b ->
    g ∈ goals (req_definition n) ->
    goal_upper_bound (req_definition n) (indexer_build (req_definition n))
      (request_initial limits n) g = Some b ->
    b < goal_value g -> issued limits n cert
| issued_exhaustive dr o :
    dr_request dr = n -> dr_digest dr = request_digest n -> cert = exhaustive_certificate dr o ->
    unresolved_referenced (req_definition n) (indexer_build (req_definition n))
      (request_table limits n) (request_initial limits n) = [] ->
    1 <= so_nodes_expanded o -> issued limits n cert.

Lemma issued_cases limits r res cert :
  plan limits r = Some res -> pr_certificate res = Some cert -> issued limits (normalise r) cert.
Proof.
  unfold plan. cbv zeta. set (n := normalise r). intros Hres Hc.
  destruct (admission limits n (new_log 96)) as [[]|[decision log]]; [|injection Hres as <-; discriminate].
  unfold plan_admitted in Hres. cbv zeta in Hres.
  pose proof (dfs_run_spec (successors (req_definition n) (indexer_build (req_definition n)))
                (successors_range _)) as Hdfs.
  unfold find_dependency_cycle in Hres. destruct (dfs_run _) as [[st|w]|]; [| |done].
  2:{ injection Hres as <-. injection Hc as <-. eapply issued_cycle; [| |reflexivity|]; [done..|].
      by apply closed_walk_cycle. }
  destruct (infeasible_goal _ _ _ _) as [[g b]|] eqn:Hg.
  { injection Hres as <-. injection Hc as <-. apply infeasible_goal_spec in Hg as (? & ? & ?).
    eapply issued_bound; [| |reflexivity|..]; done. }
  destruct (search_run _ _ _ _ _ _) as [final|] eqn:Hrun; [|done]. injection Hres as <-.
  unfold conclude_search in Hc. cbv zeta in Hc.
  destruct (so_found (outcome final)) eqn:Hf; [by destruct (replay _ _ _ _ _ _ _) as [[]|]|].
  destruct (so_budget_exhausted (outcome final)) eqn:Hb; [by destruct (so_accounting_overflow _)|].
  case_bool_decide as Hu; [|done]. injection Hc as <-.
  eapply issued_exhaustive; [| |reflexivity|exact Hu|]; [done..|]. by eapply run_expands.
Qed.

(** ** Each kind passes the validator *)

Section Kinds.
Context (limits : ModelLimits) (n : PlanRequest).
Abbreviation d := (req_definition n).
Abbreviation ix := (indexer_build d).
Context (Hr : search_ready d limits) (Hag : evidence_agrees limits n).

Lemma cycle_edge_intro x y : depends_on d y x -> cycle_edge n x y = true.
Proof.
  intros (a & Hin & <- & dep & Hdep & Hpre). unfold cycle_edge.
  apply list_elem_of_lookup in Hin as [k Hk]. pose proof (lookup_lt_Some _ _ _ Hk) as Hlt.
  apply list_lookup_total_correct in Hk. subst a.
  pose proof (action_found n limits Hr k Hlt) as Hf. unfold action_at in Hf. rewrite Hf.
  apply existsb_exists. exists dep.
  split; [by apply list_elem_of_In|by apply Z.eqb_eq].
Qed.

Lemma cycle_edges_intro cycle :
  (forall i x y, cycle !! i = Some x -> cycle !! S i = Some y -> depends_on d y x) ->
  cycle_edges n cycle = true.
Proof.
  induction cycle as [|x [|y cycle] IH]; intros H; [done|done|]. cbn [cycle_edges].
  rewrite (cycle_edge_intro x y) by (by apply (H 0%nat)). apply IH.
  intros i u v Hu Hv. by apply (H (S i)).
Qed.

Lemma cycle_passes cert : dependency_cycle d (cert_cycle cert) -> check_cycle_v n cert = [].
Proof.
  intros (Hlen & Hends & Hedges). unfold check_cycle_v. cbv zeta.
  rewrite (proj2 (Z.ltb_ge _ _)) by (unfold sizez; lia).
  apply note_nil. by rewrite cycle_edges_intro, bool_decide_eq_true_2.
Qed.

(** The goals the certificate is compared with. *)
Lemma bound_matched_intro cert gs g matched :
  (forall h, h ∈ gs -> goal_kind h = GoalKind.SERVICE_REACHABLE_AT_LEAST ->
             is_Some (service_index d (subject_id (goal_subject h)))) ->
  matched = true \/ g ∈ gs /\ goal_subject g = cert_unreachable_subject cert /\
    goal_value g = cert_required_value cert /\
    (if bool_decide (goal_kind g = GoalKind.SERVICE_REACHABLE_AT_LEAST)
     then exists i, service_index d (subject_id (goal_subject g)) = Some i /\
                    cert_unreachable_value cert <= max_reachable (services d !!! i)
     else cert_unreachable_value cert <= 0) ->
  bound_matched n cert gs matched = true.
Proof.
  revert matched. induction gs as [|h gs IH]; intros matched Hdec Hm.
  { by destruct Hm as [->|(?%elem_of_nil & _)]. }
  cbn [bound_matched].
  assert (Hrest : forall b, (matched = true -> b = true) -> (g = h -> b = true) ->
                            bound_matched n cert gs b = true).
  { intros b Hb Hh. apply IH; [intros; apply Hdec; [by right|done]|].
    destruct Hm as [?|([?|Hin]%elem_of_cons & Hrest)]; [left; auto|left; auto|by right]. }
  destruct (negb _ || negb _) eqn:Hskip.
  { apply Hrest; [done|]. intros <-. destruct Hm as [?|(_ & Hs & Hv & _)]; [done|].
    by rewrite Hs, Hv, bool_decide_eq_true_2, Z.eqb_refl in Hskip by done. }
  destruct (decide (goal_kind h = GoalKind.SERVICE_REACHABLE_AT_LEAST)) as [Hk|Hk];
    [rewrite (bool_decide_eq_true_2 (goal_kind h = _)) by done
    |rewrite (bool_decide_eq_false_2 (goal_kind h = _)) by done].
  - destruct (Hdec h) as [i Hi]; [left|done|]. rewrite Hi. apply Hrest; [by intros ->|].
    intros ->. destruct Hm as [->|(_ & _ & _ & Hb)]; [done|].
    rewrite bool_decide_eq_true_2 in Hb by done. destruct Hb as (j & Hj & Hle).
    rewrite Hi in Hj. injection Hj as <-. rewrite (proj2 (Z.leb_le _ _) Hle). by destruct matched.
  - apply Hrest; [by intros ->|]. intros ->. destruct Hm as [->|(_ & _ & _ & Hb)]; [done|].
    rewrite bool_decide_eq_false_2 in Hb by done.
    rewrite (proj2 (Z.leb_le _ _) Hb). by destruct matched.
Qed.

Lemma service_bound_max s g i b :
  service_bound d s g i = Some b -> b <= max_reachable (services d !!! i).
Proof.
  unfold service_bound. destruct (foldM _ _ _) as [[best total]|]; [|done].
  destruct (add_overflow _ _) as [z|]; [|done]. intros [= <-].
  destruct (Z.ltb_spec (max_reachable (services d !!! i)) z); lia.
Qed.

Lemma bound_passes dr g b :
  g ∈ goals d -> goal_upper_bound d ix (request_initial limits n) g = Some b -> b < goal_value g ->
  (goal_kind g = GoalKind.SERVICE_REACHABLE_AT_LEAST \/ goal_value g <= 1) ->
  check_bound_v n (bound_certificate dr g b) = [].
Proof.
  intros Hg Hb Hlt Hkind. apply note_nil, negb_false_iff.
  pose proof (dwf_goals _ _ (rdy_wf _ _ Hr)) as Hwf. rewrite Forall_forall in Hwf.
  assert (Hsvc : forall h, h ∈ goals d -> goal_kind h = GoalKind.SERVICE_REACHABLE_AT_LEAST ->
    subject_kind (goal_subject h) = SubjectKind.SERVICE /\
    is_Some (service_index d (subject_id (goal_subject h)))).
  { intros h Hh Hk. destruct (Hwf h Hh) as (_ & Hs & Hdec & _). rewrite Hk in Hs. simpl in Hs.
    split; [done|]. unfold declared in Hdec. rewrite Hs in Hdec.
    by apply (find_index_id_is_Some service_id). }
  apply (bound_matched_intro _ _ g); [intros h Hh Hk; by apply Hsvc|]. right.
  split; [done|]. split; [done|]. split; [done|]. 
  cbn [bound_certificate cert_unreachable_value].
  destruct (decide (goal_kind g = GoalKind.SERVICE_REACHABLE_AT_LEAST)) as [Hk|Hk];
    [rewrite (bool_decide_eq_true_2 (goal_kind g = _)) by done
    |rewrite (bool_decide_eq_false_2 (goal_kind g = _)) by done; destruct Hkind; [done|lia]].
  destruct (Hsvc g Hg Hk) as [Hs [i Hi]]. exists i. split; [done|].
  unfold goal_upper_bound, subject_index in Hb. rewrite Hk, Hs in Hb.
  unfold service_index in Hi. rewrite (find_index_sorted service_id) in Hi by apply (rdy_ids _ _ Hr).
  change (service_ids ix) with (map service_id (services d)) in Hb. rewrite Hi in Hb.
  by eapply service_bound_max.
Qed.

Lemma exhaustive_passes cert :
  1 <= cert_nodes_expanded cert ->
  unresolved_referenced d ix (request_table limits n) (request_initial limits n) = [] ->
  check_exhaustive_v n cert = [].
Proof.
  intros Hn Hu. unfold check_exhaustive_v. rewrite (proj2 (Z.eqb_neq _ _)) by lia. simpl.
  apply concat_nil. intros s Hs. apply note_nil, negb_false_iff.
  rewrite (initial_v_view limits n Hr Hag).
  assert (He : established_v n (view (request_initial limits n)) s =
               is_established (request_initial limits n) ix s).
  { unfold established_v, is_established. rewrite (tables_subject_eq d (rdy_ids _ _ Hr)). done. }
  rewrite He. destruct (is_established _ _ _) eqn:Hest; [done|].
  assert (Hin : s ∈ unresolved_referenced d ix (request_table limits n) (request_initial limits n)).
  { unfold unresolved_referenced, subject_set. rewrite elem_of_unique_adj, elem_of_sort_by by apply _.
    apply elem_of_app. right. unfold unestablished. by apply list_elem_of_filter. }
  rewrite Hu in Hin. by apply elem_of_nil in Hin.
Qed.
End Kinds.

(** C6: the planner's certificates pass the independent validator: for a request
    without contradictory evidence whose link, node and restoration goals ask for
    a value of at most one, every certificate of infeasibility the planner issues
    is judged valid, without findings: its digests are those of the request, its
    assumptions are stated, a cycle is a cycle of the declared dependencies, a
    bound lies below the structural maximum, and an exhaustive proof has expanded
    a node and found every referenced subject established. *)
Theorem planned_certificates_validate limits r res cert :
  limits_ok limits -> request_typed r -> plan limits r = Some res ->
  pr_certificate res = Some cert -> evidence_agrees limits (normalise r) ->
  Forall (fun g => goal_kind g = GoalKind.SERVICE_REACHABLE_AT_LEAST \/ goal_value g <= 1)
    (goals (req_definition r)) ->
  validate_certificate r cert = mkReport true false false zero_objective zero_digest zero_digest [].
Proof.
  intros Hl Ht Hres Hc Hag Hgoals. unfold validate_certificate.
  assert (Ha : admissible limits (normalise r))
    by (destruct (plan_outcomes limits r res Hl Ht Hres); congruence || done).
  pose proof (admissible_ready limits r Ht Ha) as Hr.
  assert (Hf : certificate_findings (normalise r) cert = []).
  { destruct (issued_cases _ _ _ _ Hres Hc) as
      [dr cycle Hdr Hd -> Hcy|dr g b Hdr Hd -> Hg Hb Hlt|dr o Hdr Hd -> Hu Hn];
      unfold certificate_findings, plan_note;
      cbn [cycle_certificate bound_certificate exhaustive_certificate cert_request_digest
           cert_policy_digest cert_assumptions cert_kind app];
      rewrite Hd, Hdr, !(bool_decide_eq_true_2 (_ = _)), bool_decide_eq_false_2 by done;
      cbn [negb note app].
    - by apply (cycle_passes limits).
    - apply (bound_passes limits); try done. rewrite Forall_forall in Hgoals. apply Hgoals.
      simpl in Hg. by rewrite (sort_by_perm (lt_on goal_key)) in Hg.
    - by apply (exhaustive_passes limits). }
  by rewrite Hf.
Qed.

Lemma planned_certificates_validate_witness :
  exists res cert, plan default_model_limits short_request = Some res /\
    pr_certificate res = Some cert /\ vr_valid (validate_certificate short_request cert) = true.
Proof.
  pose proof short_request_example as He.
  destruct (plan default_model_limits short_request) as [res|] eqn:Hres; [|discriminate He].
  injection He as He. destruct (pr_certificate res) as [cert|] eqn:Hc; [|discriminate He].
  exists res, cert. split; [reflexivity|]. split; [exact Hc|].
  assert (Hag : evidence_agrees default_model_limits (normalise short_request)).
  { apply distinct_keys_agree. apply (bool_decide_unpack _). vm_compute. exact I. }
  assert (Hg : Forall (fun g => goal_kind g = GoalKind.SERVICE_REACHABLE_AT_LEAST \/ goal_value g <= 1)
                 (goals (req_definition short_request))).
  { apply Forall_cons. split; [left; reflexivity|constructor]. }
  rewrite (planned_certificates_validate default_model_limits short_request res cert
             default_limits_ok short_request_typed Hres Hc Hag Hg).
  reflexivity.
Defined.
