(* ===== verification/ValidateSound.v ===== *)
(** * Accepted plans are executions

    The converse of [ValidateCorrect]: a plan without findings is an execution
    of [Search::apply] that reaches the goals, whoever wrote the plan. *)
From S2P Require Import Prelude Ids Canonical Model Objective Domain DefinitionCheck Plan Fixture.
From S2P Require Import Reconcile Transition Search SearchCorrect StaticProofs Planner Validate.
From S2P Require Import ValidateCorrect.

Lemma app_cancel {A} (l l' : list A) : l ++ l' = l -> l' = [].
Proof. intros H. apply (app_inv_head l). by rewrite app_nil_r. Qed.

(** ** Findings only accumulate *)

Section Findings.
Context (n : PlanRequest).
Abbreviation d := (req_definition n).

Lemma effect_v_found position found s e :
  effect_v n position (found, s) e =
  (found ++ (effect_v n position ([], s) e).1, (effect_v n position ([], s) e).2).
Proof.
  unfold effect_v. destruct (tables_subject d (eff_subject e)); [|done].
  destruct (eff_kind e); simpl; repeat case_match; simpl; by rewrite ?app_nil_r.
Qed.

Lemma effects_v_found position es found s :
  fold_left (effect_v n position) es (found, s) =
  (found ++ (fold_left (effect_v n position) es ([], s)).1,
   (fold_left (effect_v n position) es ([], s)).2).
Proof.
  revert found s. induction es as [|e es IH]; intros found s; cbn [fold_left].
  { by rewrite app_nil_r. }
  rewrite (effect_v_found position found), (surjective_pairing (effect_v n position ([], s) e)).
  rewrite IH. rewrite (IH (effect_v n position ([], s) e).1). cbn [fst snd]. by rewrite app_assoc.
Qed.

Lemma consume_v_found position found s history u :
  exists extra s' history', forall f,
    consume_v n position (f ++ found, s, history) u = (f ++ found ++ extra, s', history').
Proof.
  unfold consume_v. destruct (resource_index d (use_resource u)) as [i|].
  2:{ exists [], s, history. intros f. by rewrite app_nil_r. }
  destruct (_ && _).
  - destruct (_ <? _).
    + eexists _, _, _. intros f. by rewrite <- app_assoc.
    + exists []. eexists _, _. intros f. by rewrite app_nil_r.
  - exists []. eexists _, _. intros f. by rewrite app_nil_r.
Qed.

Lemma consumes_v_found position us found s history :
  exists extra, (fold_left (consume_v n position) us (found, s, history)).1.1 = found ++ extra.
Proof.
  revert found s history. induction us as [|u us IH]; intros found s history; cbn [fold_left].
  { exists []. by rewrite app_nil_r. }
  destruct (consume_v_found position found s history u) as (extra & s' & h' & H).
  specialize (H []). cbn [app] in H. rewrite H.
  destruct (IH (found ++ extra) s' h') as [extra' ->]. exists (extra ++ extra'). by rewrite app_assoc.
Qed.

Lemma validate_step_found pg step :
  exists extra, pg_findings (validate_step n pg step) = pg_findings pg ++ extra.
Proof.
  unfold validate_step. destruct (action_index d (step_action step)) as [k|]; cbv zeta; [|by eexists].
  rewrite effects_v_found.
  match goal with |- context [fold_left (consume_v n ?p) ?us (?f, ?s, ?h)] =>
    destruct (consumes_v_found p us f s h) as [extra H];
    destruct (fold_left (consume_v n p) us (f, s, h)) as [[found s'] h'] end.
  simpl in H. rewrite H. cbn [pg_findings]. rewrite <- !app_assoc. by eexists.
Qed.

Lemma validate_steps_found steps pg :
  exists extra, pg_findings (fold_left (validate_step n) steps pg) = pg_findings pg ++ extra.
Proof.
  revert pg. induction steps as [|s steps IH]; intros pg; cbn [fold_left].
  { exists []. by rewrite app_nil_r. }
  destruct (IH (validate_step n pg s)) as [e1 ->], (validate_step_found pg s) as [e2 ->].
  exists (e2 ++ e1). by rewrite app_assoc.
Qed.
End Findings.

(** ** Checks without findings are checks the planner passes *)

Section Back.
Context (n : PlanRequest) (limits : ModelLimits).
Abbreviation d := (req_definition n).
Abbreviation ix := (indexer_build d).
Abbreviation c := (compiled_build d ix).
Abbreviation table := (request_table limits n).
Context (Hr : search_ready d limits) (Hl : limits_ok limits) (Hag : evidence_agrees limits n)
  (Hsep : Forall uses_separate (actions d))
  (Hsmall : Forall (fun r => resource_kind r = ResourceKind.REUSABLE -> capacity r < 2 ^ 31)
              (resources d)).

Lemma concat_map_nil {A B} (f : A -> list B) l : concat (map f l) = [] -> Forall (fun x => f x = []) l.
Proof.
  induction l as [|x l IH]; [constructor|]. simpl. intros [H1 H2]%app_nil. constructor; auto.
Qed.

Lemma effect_back position s e :
  (effect_v n position ([], view s) e).1 = [] -> exists s', apply_effect d ix s e = Ok s'.
Proof.
  unfold effect_v, apply_effect. rewrite (tables_subject_eq d (rdy_ids _ _ Hr)).
  destruct (subject_index _ _) as [i|]; [|done].
  destruct (eff_kind e); cbn [view v_service_known v_reachable];
    repeat match goal with
    | |- context [if ?b then _ else _] => destruct b
    end; intros H; try discriminate H; by eexists.
Qed.

Lemma effects_back position es s :
  (fold_left (effect_v n position) es ([], view s)).1 = [] ->
  exists s', foldM (apply_effect d ix) s es = Ok s'.
Proof.
  revert s. induction es as [|e es IH]; intros s; cbn [fold_left foldM]; [by eexists|].
  rewrite (surjective_pairing (effect_v n position ([], view s) e)), effects_v_found.
  cbn [fst]. intros [He Hes]%app_nil. destruct (effect_back position s e He) as [s1 H1].
  rewrite H1. cbn [rbind]. apply IH. by rewrite (effect_agrees n limits Hr _ _ _ _ _ H1) in Hes.
Qed.

Lemma dependency_back position s dep :
  check_dependency_v n position (view s) dep = [] ->
  check_dependency d s (index_of (dep_predecessor dep) (action_ids ix), dep) = Ok tt.
Proof.
  unfold check_dependency_v, check_dependency. rewrite (action_index_eq d (rdy_ids _ _ Hr)).
  cbn [fst snd]. destruct (index_of _ _) as [p|] eqn:Hp; [|done]. intros H%note_nil.
  apply require_ok. cbn [view v_occurrences] in H. rewrite H. rewrite andb_true_r.
  apply index_of_bound in Hp. apply Z.ltb_lt. unfold sizez. lia.
Qed.

Lemma exclusion_back position s k :
  state_ok d s -> (k < length (actions d))%nat ->
  concat (map (check_exclusion_v n position (view s)) (exclusion_groups (actions d !!! k))) = [] ->
  Forall (fun g => check_exclusion d c s g = Ok tt) (action_group_indices c !!! k).
Proof.
  intros Hs Hk Hc%concat_map_nil. rewrite compiled_groups by done. unfold group_indices_of.
  apply Forall_forall. intros g (id & Hid & Hg)%list_elem_of_omap. rewrite Forall_forall in Hc.
  specialize (Hc id Hid). unfold check_exclusion_v, group_index in Hc. rewrite Hg in Hc.
  apply note_nil in Hc. apply find_index_Some in Hg as (Hlt & Hid' & _). bool_cases. subst id.
  rewrite (selected_agrees n limits Hr s g Hlt Hs (actions_in_range n limits Hr Hl k Hk)) in Hc.
  apply require_ok, Z.ltb_lt. lia.
Qed.

Lemma preconditions_back position s ps bs :
  concat (map fst (map (check_precondition_v n position (view s)) ps)) = [] ->
  exists bs', foldM (check_precondition ix table s) bs ps = Ok bs'.
Proof.
  revert bs. induction ps as [|p ps IH]; intros bs; cbn [map concat foldM]; [by eexists|].
  intros [Hp Hps]%app_nil. unfold check_precondition_v in Hp.
  rewrite (precondition_agrees n limits Hr) in Hp. unfold check_precondition.
  destruct (precondition_holds ix s p) as [known holds]. destruct known; [|done].
  destruct holds; [|done]. cbn [negb].
  destruct (decide (pre_kind p = _)); [by apply IH|].
  destruct (resolution_for _ _) as [r|]; [|by apply IH].
  destruct (decide (res_state r = SubjectState.RESOLVED)); by apply IH.
Qed.

(** Holds of a small resource add up without wrapping. *)
Lemma use_back position s holds history k x :
  (k < length (actions d))%nat -> 0 <= position < 2 ^ 32 ->
  holds_agree d position holds history -> Forall hold_typed holds ->
  x ∈ zip (map (fun u => index_of (use_resource u) (resource_ids ix)) (resource_uses (actions d !!! k)))
        (resource_uses (actions d !!! k)) ->
  check_use_v n position (view s) history x.2 = [] -> check_use d s holds x = Ok tt.
Proof.
  intros Hk Hpos Hh Hty Hx Hc. destruct x as [o u]. apply zip_map_elem in Hx as [Ho Hu].
  cbn [fst snd] in *. destruct (declared_use_index d limits k u Hr Hk Hu) as [i Hi].
  pose proof (index_of_bound _ _ _ _ Hi) as Hlt. rewrite Hi in Ho. injection Ho as ->.
  unfold check_use_v in Hc. rewrite (resource_index_eq d (rdy_ids _ _ Hr)), Hi in Hc.
  unfold check_use. cbn [fst snd]. simpl default.
  pose proof (Forall_lookup_total _ _ _ (dwf_action _ _ (rdy_wf _ _ Hr)) Hk) as Ha.
  pose proof (awf_uses _ _ _ Ha) as Hus. rewrite Forall_forall in Hus.
  destruct (Hus u Hu) as (res & Hres & Hunz & Hle). unfold find_resource in Hres.
  rewrite (resource_index_eq d (rdy_ids _ _ Hr)), Hi in Hres. rewrite (list_lookup_lookup_total_lt _ _ Hlt) in Hres. injection Hres as <-.
  pose proof (aty_uses _ (action_typed_at d (rdy_typed _ _ Hr) k Hk)) as Hut.
  rewrite Forall_forall in Hut. destruct (Hut u Hu) as [_ [Hunits _]].
  pose proof (Forall_lookup_total _ _ _ Hsmall Hlt) as Hsm.
  pose proof (Forall_lookup_total _ _ _ (dwf_resource _ _ (rdy_wf _ _ Hr)) Hlt) as [Hkc _].
  destruct (decide (resource_kind (resources d !!! i) = ResourceKind.CONSUMABLE)) as [Hkind|Hkind].
  - rewrite (bool_decide_eq_true_2 _ Hkind) in Hc. cbn [view v_resource_known v_available] in Hc.
    destruct (resource_known s !!! i =? 0); [done|]. apply note_nil in Hc. apply require_ok.
    by rewrite Hc.
  - rewrite (bool_decide_eq_false_2 _ Hkind) in Hc. apply note_nil in Hc. bool_cases.
    assert (Hreu : resource_kind (resources d !!! i) = ResourceKind.REUSABLE)
      by (by destruct (resource_kind _)).
    specialize (Hsm Hreu).
    pose proof (ha_capacity _ _ _ _ Hh i Hlt) as Hcap.
    pose proof (ha_past _ _ _ _ Hh i Hlt) as Hpast.
    pose proof (sum_running_nonneg d i position _ Hpast) as H0.
    pose proof (sum_units_perm _ _ (ha_running _ _ _ _ Hh i Hlt)) as Hsum.
    assert (Hheld : held_units holds i = sum_units (held_at i holds)).
    { unfold held_units. rewrite held_units_fold; [lia| |lia|lia].
      eapply Forall_impl; [exact Hty|]. intros h [_ [? _] _]. done. }
    rewrite overlapping_fold in Hc by (done || lia).
    apply require_ok, negb_true_iff, Z.ltb_ge. rewrite Hheld.
    rewrite u64_small by (unfold in_u64; lia). lia.
Qed.

(** The checks of [Search::apply] in one statement. *)
Lemma apply_intro s holds inc k bs affected end_tick :
  let a := actions d !!! k in
  let uses := zip (action_resource_indices c !!! k) (resource_uses a) in
  let consumed := fold_left (consume d) uses affected in
  action_occurrences s !!! k < max_occurrences a ->
  Forall (fun x => check_dependency d s x = Ok tt)
    (zip (action_dependency_indices c !!! k) (dependencies a)) ->
  (action_occurrences s !!! k = 0 ->
   Forall (fun g => check_exclusion d c s g = Ok tt) (action_group_indices c !!! k)) ->
  foldM (check_precondition ix table s) [] (preconditions a) = Ok bs ->
  Forall (fun x => check_use d s holds x = Ok tt) uses ->
  foldM (apply_effect d ix) s (effects a) = Ok affected ->
  floor_gap d consumed <= floor_gap d s ->
  (reversibility a = Reversibility.IRREVERSIBLE -> allow_irreversible_actions (req_policy n) = true) ->
  add_overflow (tick consumed) (duration_ticks a) = Some end_tick ->
  is_ok (Transition.apply d ix c (req_policy n) table s holds inc k) = true.
Proof.
  intros a uses consumed H1 H2 H3 H4 H5 H6 H7 H8 H9. unfold Transition.apply. cbv zeta.
  fold a uses. rewrite (proj2 (require_ok _ _ tt)) by (by apply Z.ltb_lt). cbn [rbind].
  rewrite (proj2 (checkM_ok _ _)) by done. cbn [rbind].
  assert (Hx : (if action_occurrences s !!! k =? 0
                then checkM (check_exclusion d c s) (action_group_indices c !!! k) else Ok tt) = Ok tt).
  { destruct (Z.eqb_spec (action_occurrences s !!! k) 0); [|done]. apply checkM_ok. auto. }
  rewrite Hx. cbn [rbind]. rewrite H4. cbn [rbind].
  rewrite (proj2 (checkM_ok _ _)) by done. cbn [rbind]. rewrite H6. cbn [rbind]. fold consumed.
  rewrite (proj2 (require_ok _ _ tt)) by (by apply Z.leb_le). cbn [rbind].
  rewrite (proj2 (require_ok _ _ tt)).
  2:{ apply negb_true_iff, andb_false_iff. case_bool_decide; [right|by left].
      apply negb_false_iff. auto. }
  cbn [rbind]. by rewrite H9.
Qed.

(** The duration of a step, and of a plan. *)
Definition step_duration (step : PlanStep) : Z :=
  match action_index d (step_action step) with
  | Some k => duration_ticks (actions d !!! k)
  | None => 0
  end.

Definition plan_duration (steps : list PlanStep) : Z := foldr (fun s t => step_duration s + t) 0 steps.

(** Two steps that pass every check and name the same action do the same. *)
Lemma validate_step_same pg s1 s2 k :
  action_index d (step_action s1) = Some k -> action_index d (step_action s2) = Some k ->
  check_step_v n (pg_position pg) (pg_state pg) (pg_history pg) s1 k = [] ->
  check_step_v n (pg_position pg) (pg_state pg) (pg_history pg) s2 k = [] ->
  validate_step n pg s1 = validate_step n pg s2.
Proof. intros H1 H2 C1 C2. unfold validate_step. by rewrite H1, H2, C1, C2. Qed.

(** What a step without findings has gone through. *)
Lemma clean_step pg step base :
  pg_findings pg = base -> pg_findings (validate_step n pg step) = base ->
  exists k, action_index d (step_action step) = Some k /\
    check_step_v n (pg_position pg) (pg_state pg) (pg_history pg) step k = [] /\
    let after := fold_left (effect_v n (pg_position pg)) (effects (actions d !!! k)) ([], pg_state pg) in
    after.1 = [] /\
    exists s' history', fold_left (consume_v n (pg_position pg)) (resource_uses (actions d !!! k))
        (base, after.2, pg_history pg) = (base, s', history') /\
      (pg_floor pg <? v_shortfall d s' false) = false.
Proof.
  intros Hb Hf. unfold validate_step in Hf. cbv zeta in Hf.
  destruct (action_index d (step_action step)) as [k|].
  2:{ cbn [pg_findings] in Hf. rewrite Hb in Hf. apply app_cancel in Hf. by destruct (check_index_v _ _). }
  exists k. split; [done|]. rewrite effects_v_found in Hf. rewrite Hb in Hf.
  set (checks := check_step_v _ _ _ _ _ _) in *.
  set (after := fold_left (effect_v n (pg_position pg)) _ ([], pg_state pg)) in *.
  destruct (consumes_v_found n (pg_position pg) (resource_uses (actions d !!! k))
              ((base ++ checks) ++ after.1) after.2 (pg_history pg)) as [extra Hx].
  destruct (fold_left (consume_v n (pg_position pg)) _ ((base ++ checks) ++ after.1, _, _))
    as [[found s'] history'] eqn:Hc.
  cbn [fst] in Hx. subst found. cbn [pg_findings] in Hf. rewrite <- !app_assoc in Hf.
  apply app_cancel in Hf. apply app_nil in Hf as [H1 Hf]. apply app_nil in Hf as [H2 Hf].
  apply app_nil in Hf as [H3 H4%note_nil]. split; [done|]. split; [done|].
  exists s', history'. split; [|done]. by rewrite H1, H2, H3, !app_nil_r in Hc.
Qed.

(** The order checks, one by one. *)
Lemma order_back position s step k :
  state_ok d s -> (k < length (actions d))%nat -> check_order_v n position (view s) step k = [] ->
  action_occurrences s !!! k < max_occurrences (actions d !!! k) /\
  Forall (fun x => check_dependency d s x = Ok tt)
    (zip (action_dependency_indices c !!! k) (dependencies (actions d !!! k))) /\
  (action_occurrences s !!! k = 0 ->
   Forall (fun g => check_exclusion d c s g = Ok tt) (action_group_indices c !!! k)).
Proof.
  intros Hs Hk Ho. unfold check_order_v in Ho. cbv zeta in Ho.
  apply app_nil in Ho as [H1%note_nil Ho]. apply app_nil in Ho as [_ Ho].
  apply app_nil in Ho as [H3%concat_map_nil H4]. cbn [view v_occurrences] in *. bool_cases.
  split; [lia|]. split.
  - unfold compiled_build. destruct (fold_left _ _ _). cbn [action_dependency_indices].
    rewrite lookup_total_map by done. apply Forall_forall. intros [o dep] Hx.
    apply zip_map_elem in Hx as [Ho Hdep]. cbn [fst snd] in *. injection Ho as ->.
    rewrite Forall_forall in H3. by apply (dependency_back position), H3.
  - intros H0. rewrite (proj2 (Z.eqb_eq _ _) H0) in H4. by apply (exclusion_back position s k).
Qed.

Lemma compensation_back position step a :
  check_compensation_v n position step a = [] ->
  reversibility a = Reversibility.IRREVERSIBLE -> allow_irreversible_actions (req_policy n) = true.
Proof.
  unfold check_compensation_v. intros [_ H%note_nil]%app_nil Hrev.
  rewrite bool_decide_eq_true_2 in H by done. cbn [andb] in H. by bool_cases.
Qed.

Lemma authority_back position step a :
  check_authority_v n position step a = [] ->
  authorised n a.
Proof.
  unfold check_authority_v. intros [H _]%app_nil. destruct (authority_find _ _) as [b|] eqn:Hb; [|done].
  destruct (bool_decide (evaluate_domain _ _ = _)) eqn:Hd; [|done]. cbn [negb] in H.
  apply app_nil in H as [_ H]. apply app_nil in H as [H1%note_nil H2%note_nil]. bool_cases.
  match goal with H : step_required_level step = _ |- _ => rewrite H in * end.
  match goal with H : step_required_domain step = _ |- _ => rewrite H in * end.
  split; [done|]. exists b. split; [done|]. lia.
Qed.

(** The consumption and the tick of a step that passed its checks. *)
Lemma consumption_back s holds history k affected len base :
  state_ok d s -> Forall hold_typed holds -> (k < length (actions d))%nat ->
  holds_agree d (Z.of_nat len) holds history -> Z.of_nat len + 1 < 2 ^ 32 ->
  Forall (fun x => check_use d s holds x = Ok tt)
    (zip (action_resource_indices c !!! k) (resource_uses (actions d !!! k))) ->
  foldM (apply_effect d ix) s (effects (actions d !!! k)) = Ok affected ->
  let consumed := fold_left (consume d)
    (zip (action_resource_indices c !!! k) (resource_uses (actions d !!! k))) affected in
  tick consumed = tick s /\
  (fold_left (consume_v n (Z.of_nat len)) (resource_uses (actions d !!! k))
     (base, view affected, history)).1.2 = view consumed.
Proof.
  intros Hs Hty Hk Hh Hlen Huses He. cbv zeta. rewrite compiled_resource_index in * by done.
  pose proof (foldM_effects_frame d _ _ _ He) as [_ Ht].
  edestruct (fold_consume_frame d) as (_ & -> & _). split; [done|].
  pose proof (Forall_lookup_total _ _ _ Hsep Hk) as Hsepk.
  assert (Hpos : 0 <= Z.of_nat len < 2 ^ 32) by lia.
  pose proof (fun u Hu => use_agrees n limits Hr (Z.of_nat len) s holds history k u
    Hk Hu Hpos Hh Hty Huses) as Hus.
  rewrite (consumption_agrees n limits Hr (Z.of_nat len) _ base affected history); [done| |apply Hsepk|].
  - apply (foldM_effects_ok d _ _ _ Hs) in He. apply (ssh_available d _ (sok_shape d _ He)).
  - apply Forall_forall. intros u Hu. destruct (Hus u Hu) as (_ & i & Hi & Hcons & _).
    by eapply (affordable_after n limits Hr).
Qed.

(** A step without findings is a step the planner admits, and both go on alike. *)
Lemma step_back base r len pg step :
  run_ok d (request_initial limits n) r -> progress_agrees n base r len pg ->
  Z.of_nat len + 1 < 2 ^ 32 -> pg_findings (validate_step n pg step) = base ->
  tick (run_state r) + step_duration step < 2 ^ 64 ->
  exists k t, (k < length (actions d))%nat /\ action_at d k = step_action step /\
    Transition.apply d ix c (req_policy n) table (run_state r) (run_holds r)
      (incompleteness d (run_state r)) k = Ok t /\
    tick (tr_state t) = tick (run_state r) + step_duration step /\
    let cost := zip_with Z.add (run_cost r) (component (tr_delta t)) in
    progress_agrees n base (mkRun (tr_state t) (tr_holds t) cost) (S len) (validate_step n pg step) /\
    (pg_objective pg = run_cost r -> Forall in_u64 cost ->
     pg_objective (validate_step n pg step) = cost).
Proof.
  intros Ho Hpg Hlen Hf Htick. pose proof Hpg as [Hb Hst _ Hfl Hpos Hh].
  destruct (clean_step pg step base Hb Hf) as (k & Hk & Hchk & Hafter). cbv zeta in Hafter.
  pose proof Hchk as Hchk'. unfold check_step_v in Hchk. cbv zeta in Hchk.
  rewrite Hpos, Hst in Hchk, Hafter. rewrite Hfl in Hafter.
  pose proof (find_index_Some _ _ _ Hk) as (Hlt & Hid & _). bool_cases.
  destruct Hafter as (Heff & s' & history' & Hcons & Hfloor).
  apply app_nil in Hchk as [_ Hchk]. apply app_nil in Hchk as [Hord Hchk].
  apply app_nil in Hchk as [Hpre Hchk]. apply app_nil in Hchk as [Hauth Hchk].
  apply app_nil in Hchk as [Hcomp Hchk]. apply app_nil in Hchk as [Hmax%note_nil Huse%concat_map_nil].
  bool_cases. destruct (order_back _ _ _ k (ro_state _ _ _ Ho) Hlt Hord) as (Hocc & Hdeps & Hexcl).
  apply app_nil in Hpre as [Hpre _]. apply (preconditions_back _ _ _ []) in Hpre as [bs Hbs].
  destruct (effects_back _ _ _ Heff) as [affected Ha].
  assert (Huses : Forall (fun x => check_use d (run_state r) (run_holds r) x = Ok tt)
                    (zip (action_resource_indices c !!! k) (resource_uses (actions d !!! k)))).
  { rewrite compiled_resource_index by done. apply Forall_forall. intros x Hx.
    pose proof (zip_map_elem _ _ _ Hx) as [_ Hu]. rewrite Forall_forall in Huse.
    eapply use_back; [exact Hlt|split; [apply Nat2Z.is_nonneg|]|exact Hh|apply Ho|exact Hx|by apply Huse].
    lia. }
  destruct (consumption_back _ _ (pg_history pg) k affected len base (ro_state _ _ _ Ho) (ro_holds _ _ _ Ho)
              Hlt Hh Hlen Huses Ha) as [Hct Hcv].
  rewrite (effects_agree n limits Hr _ _ _ _ _ Ha) in Hcons. cbn [snd] in Hcons.
  rewrite Hcons in Hcv. cbn [fst snd] in Hcv. subst s'.
  rewrite (shortfall_agrees n _ false) in Hfloor.
  assert (Hdur : step_duration step = duration_ticks (actions d !!! k)) by (unfold step_duration; by rewrite Hk).
  rewrite Hdur in *.
  pose proof (action_typed_at d (rdy_typed _ _ Hr) k Hlt) as Hty.
  pose proof (sty_tick _ (sok_typed _ _ (ro_state _ _ _ Ho))) as Hti.
  assert (Hadd : add_overflow (tick (run_state r)) (duration_ticks (actions d !!! k)) =
                 Some (tick (run_state r) + duration_ticks (actions d !!! k))).
  { apply add_overflow_Some; [done|apply Hty|]. split; [done|].
    pose proof (aty_duration _ Hty). unfold in_u64 in *. lia. }
  pose proof (apply_intro (run_state r) (run_holds r) (incompleteness d (run_state r)) k bs affected _
    Hocc Hdeps Hexcl Hbs Huses Ha Hfloor (compensation_back _ _ _ Hcomp)
    ltac:(rewrite Hct; exact Hadd)) as Hok.
  destruct (Transition.apply _ _ _ _ _ _ _ _ _) as [t|] eqn:Ht; [|done].
  pose proof (authority_back _ _ _ Hauth) as Haut.
  exists k, t. split; [done|]. split; [exact Hid|]. split; [done|].
  destruct (apply_state_ok d _ _ (rdy_typed _ _ Hr) _ _ _ _ _ (ro_state _ _ _ Ho) Hlt Ht) as [_ Hend].
  assert (Htk : tick (tr_state t) = tr_end_tick t).
  { destruct (sf_effects _ _ _ _ _ _ _ _ (apply_inv _ _ _ _ _ _ _ _ Ht)) as (? & _ & -> & _). done. }
  split; [lia|]. cbv zeta.
  rewrite (validate_step_same pg step 
             (bind_step (req_authority n) (plan_step len (action_at d k) (actions d !!! k) t)) k Hk (action_found n limits Hr k Hlt) Hchk').
  - by apply (step_agrees n limits Hr Hag Hl Hsep).
  - rewrite Hpos, Hst. apply (checks_agree n limits Hr Hag Hl); try done.
    by apply apply_inv.
Qed.
End Back.

Section Sound.
Context (n : PlanRequest) (limits : ModelLimits).
Abbreviation d := (req_definition n).
Abbreviation ix := (indexer_build d).
Abbreviation run_exec := (exec d ix (compiled_build d ix) (req_policy n) (request_table limits n)
                            (request_initial limits n)).
Context (Hr : search_ready d limits) (Hl : limits_ok limits) (Hag : evidence_agrees limits n)
  (Hsep : Forall uses_separate (actions d)) (Ht : request_typed n)
  (Hsmall : Forall (fun r => resource_kind r = ResourceKind.REUSABLE -> capacity r < 2 ^ 31)
              (resources d)).

(** The remaining steps of a plan without findings extend the execution so far. *)
Lemma steps_back base steps : forall path r pg,
  run_exec path = Ok r -> progress_agrees n base r (length path) pg ->
  (Forall in_u64 (run_cost r) -> pg_objective pg = run_cost r) ->
  pg_findings (fold_left (validate_step n) steps pg) = base ->
  sizez path + sizez steps < 2 ^ 32 -> tick (run_state r) + plan_duration n steps < 2 ^ 64 ->
  exists rest run, run_exec (path ++ rest) = Ok run /\
    map (action_at d) rest = map step_action steps /\
    let pg' := fold_left (validate_step n) steps pg in
    pg_state pg' = view (run_state run) /\
    (Forall in_u64 (run_cost run) -> pg_objective pg' = run_cost run).
Proof.
  destruct (request_initial_ok limits n Ht) as [Hs Hp].
  pose proof (ready_resources limits n Hl Hr) as Hsz.
  induction steps as [|step steps IH]; intros path r pg He Hpg Hob Hf Hlen Htick.
  { exists [], r. rewrite app_nil_r. split; [done|]. split; [done|]. split; [apply Hpg|done]. }
  cbn [fold_left] in Hf. unfold sizez in Hlen. cbn [length plan_duration foldr] in Hlen, Htick.
  pose proof (exec_run_ok d limits (req_policy n) _ Hr Hsz _ path r Hs Hp He) as Ho.
  destruct (validate_step_found n pg step) as [e1 H1].
  destruct (validate_steps_found n steps (validate_step n pg step)) as [e2 H2].
  rewrite H2, H1, (pga_findings _ _ _ _ _ Hpg), <- app_assoc in Hf.
  apply app_cancel in Hf. apply app_nil in Hf as [-> ->]. rewrite app_nil_r in H1, H2.
  assert (Hpos : forall steps, 0 <= plan_duration n steps).
  { induction steps0 as [|s ss IHs]; [done|]. cbn [plan_duration foldr].
    assert (0 <= step_duration n s); [|unfold plan_duration in IHs; lia]. unfold step_duration.
    destruct (action_index d _) as [k|] eqn:Hk; [|done]. apply find_index_Some in Hk as (Hlt & _).
    destruct (aty_duration _ (action_typed_at d (rdy_typed _ _ Hr) k Hlt)). done. }
  specialize (Hpos steps). fold (plan_duration n steps) in Htick.
  destruct (step_back n limits Hr Hl Hag Hsep Hsmall base r (length path) pg step Ho Hpg)
    as (k & t & Hk & Hact & Ht' & Htk & Hpg' & Hob'); [lia|rewrite H1; apply Hpg|lia|].
  assert (Hexec : run_exec (path ++ [k]) = Ok (mkRun (tr_state t) (tr_holds t)
    (zip_with Z.add (run_cost r) (component (tr_delta t))))).
  { apply exec_snoc. exists r. split; [done|]. unfold exec_step. rewrite decide_True by done.
    by rewrite Ht'. }
  destruct (IH (path ++ [k]) _ (validate_step n pg step) Hexec) as (rest & run & Hrun & Hmap & Hend).
  - by rewrite length_app, Nat.add_1_r.
  - intros Hu. apply Hob'; [|exact Hu]. apply Hob.
    eapply (cost_prefix d limits (req_policy n) (request_table limits n) (request_initial limits n)); eauto.
    unfold exec_step. rewrite decide_True by done. by rewrite Ht'.
  - rewrite H2, H1. apply Hpg.
  - unfold sizez. rewrite length_app. simpl. lia.
  - cbn [run_state]. lia.
  - exists (k :: rest), run. rewrite <- app_assoc in Hrun. split; [done|]. split; [|done].
    cbn [map]. by rewrite Hmap, Hact.
Qed.
End Sound.

Lemma compare_objective_eq a b :
  length (component a) = length (component b) -> compare_objective a b = 0 -> a = b.
Proof.
  destruct a as [xs], b as [ys]. unfold compare_objective. simpl. intros Hlen H. f_equal.
  revert ys Hlen H. induction xs as [|x xs IH]; intros [|y ys] Hlen H; try done. simpl in *.
  destruct (Z.ltb_spec x y); [done|]. destruct (Z.ltb_spec y x); [done|]. f_equal; [lia|]. auto.
Qed.

Lemma check_goals_back n limits s :
  search_ready (req_definition n) limits ->
  concat (map (check_goal_v n (view s)) (goals (req_definition n))) = [] ->
  goals_satisfied (req_definition n) (indexer_build (req_definition n)) s = true.
Proof.
  intros Hr H%concat_map_nil. unfold goals_satisfied. apply forallb_forall. intros g Hg%list_elem_of_In.
  rewrite Forall_forall in H. by apply (goal_agrees n limits Hr), H.
Qed.



(** ** A hold that wraps around *)

(** Takes [units] of resource 1 for four more steps and brings [link] up. *)
Definition hold_action (id other link units : Z) : ActionSpec :=
  mkAction id "hold" ActionKind.RESTORE Reversibility.REVERSIBLE other 0 0 0 0 1
    AuthorityDomain.RECOVERY_ADMISSION AuthorityLevel.RECOMMENDATION []
    [mkEffect EffectKind.SET_LINK_OPERATIONAL (subject_of_link link) 1] [mkUse 1 units] [] [].

Definition hold_request : PlanRequest :=
  mkRequest 1 3 9 1
    (mkDefinition [mkNode 1 true; mkNode 2 false] [mkLink 1 1 2; mkLink 2 1 2] []
       [mkResource 1 ResourceKind.REUSABLE UINT32_MAX 5]
       [hold_action 10 11 1 UINT32_MAX; hold_action 11 10 2 2]
       [mkGoal GoalKind.LINK_OPERATIONAL (subject_of_link 1) 1 1;
        mkGoal GoalKind.LINK_OPERATIONAL (subject_of_link 2) 1 1] [])
    (mkEvidence 3 9
       [fabric_fact 1 EvidenceKind.LINK_OPERATIONAL (subject_of_link 1) 0 7;
        fabric_fact 2 EvidenceKind.LINK_OPERATIONAL (subject_of_link 2) 0 7])
    example_authority example_policy [].

(** Both actions one after the other, although the first holds every unit. *)
Definition hold_plan : RecoveryPlan :=
  let n := normalise hold_request in
  let step index action other :=
    mkStep index action 1 0 0 AuthorityDomain.RECOVERY_ADMISSION AuthorityLevel.RECOMMENDATION 4
      AuthorityLevel.RECOMMENDATION [] false other in
  let p := mkPlan 7 1 3 9 1 [step 0 10 11; step 1 11 10] (mkObjective [0; 0; 0; 0; 2; 0; 0; 0])
    (request_digest n) (definition_digest (req_definition n)) (evidence_digest (req_evidence n))
    (authority_digest (req_authority n)) (policy_digest (req_policy n)) zero_digest [] in
  set_identity p 7 (compute_digest p).

(** Without the bound on capacities the validator is unsound: it adds the
    overlapping holds of a reusable resource in 32 bits, so 2 units next to
    4294967295 held ones count as 1. It judges a plan valid for a request the
    planner, which adds in 64 bits, proves infeasible. *)
Theorem overlapping_holds_wrap :
  vr_valid (validate_plan hold_request hold_plan) = true /\
  encoding hold_plan = [10; 11] /\
  option_map pr_decision (plan default_model_limits hold_request) =
    Some PlanDecision.PROVEN_INFEASIBLE.
Proof. vm_compute. done. Qed.
