(* ===== verification/Protocol.v ===== *)
(** * The framed transport

    Models [include/nrp/protocol.hpp] and [src/protocol.cpp]: frame headers,
    frames and the payload codecs. A connection's input is the list of its bytes;
    [decode_frame] returns the frame and the bytes it took. *)
From S2P Require Import Prelude Ids Canonical Model Objective Domain DefinitionCheck Plan Fixture Codec Crc32 Journal Planner Validate.

Module FrameType.
Inductive t :=
| HELLO | HELLO_ACK | PLAN_REQUEST | PLAN_RESPONSE | VALIDATE_REQUEST | VALIDATE_RESPONSE
| STATUS_REQUEST | STATUS_RESPONSE | BYE | ERROR_FRAME | COUNT.

#[global] Instance eq_dec : EqDecision t.
Proof. solve_decision. Defined.

Definition to_u16 (x : t) : Z :=
  match x with
  | HELLO => 1 | HELLO_ACK => 2 | PLAN_REQUEST => 3 | PLAN_RESPONSE => 4
  | VALIDATE_REQUEST => 5 | VALIDATE_RESPONSE => 6 | STATUS_REQUEST => 7
  | STATUS_RESPONSE => 8 | BYE => 9 | ERROR_FRAME => 10 | COUNT => 11
  end.

(** [static_cast] from the raw value; the decoder admits no other values. *)
Definition of_u16 (raw : Z) : t :=
  match raw with
  | 1 => HELLO | 2 => HELLO_ACK | 3 => PLAN_REQUEST | 4 => PLAN_RESPONSE
  | 5 => VALIDATE_REQUEST | 6 => VALIDATE_RESPONSE | 7 => STATUS_REQUEST
  | 8 => STATUS_RESPONSE | 9 => BYE | 10 => ERROR_FRAME | _ => COUNT
  end.

Definition to_string (x : t) : string :=
  match x with
  | HELLO => "HELLO" | HELLO_ACK => "HELLO_ACK" | PLAN_REQUEST => "PLAN_REQUEST"
  | PLAN_RESPONSE => "PLAN_RESPONSE" | VALIDATE_REQUEST => "VALIDATE_REQUEST"
  | VALIDATE_RESPONSE => "VALIDATE_RESPONSE" | STATUS_REQUEST => "STATUS_REQUEST"
  | STATUS_RESPONSE => "STATUS_RESPONSE" | BYE => "BYE" | ERROR_FRAME => "ERROR"
  | COUNT => "COUNT"
  end.

(** [is_valid] on the raw value of a header, which the source casts first. *)
Definition is_valid (raw : Z) : bool := negb (raw =? to_u16 COUNT) && (raw <? to_u16 COUNT).
End FrameType.

Module ErrorCode.
Inductive t :=
| NONE | BAD_MAGIC | BAD_VERSION | BAD_HEADER_CHECKSUM | BAD_PAYLOAD_CHECKSUM | FRAME_TOO_LARGE
| INVALID_ENUM | INVALID_LENGTH | TRAILING_BYTES | SEQUENCE_REGRESSION | SESSION_MISMATCH
| SESSION_LIMIT | QUEUE_LIMIT | UNSUPPORTED_REQUEST | DECODE_REJECTED | STICKY_FAILURE
| SHUTTING_DOWN | COUNT.

#[global] Instance eq_dec : EqDecision t.
Proof. solve_decision. Defined.

Definition to_u16 (x : t) : Z :=
  match x with
  | NONE => 0 | BAD_MAGIC => 1 | BAD_VERSION => 2 | BAD_HEADER_CHECKSUM => 3
  | BAD_PAYLOAD_CHECKSUM => 4 | FRAME_TOO_LARGE => 5 | INVALID_ENUM => 6 | INVALID_LENGTH => 7
  | TRAILING_BYTES => 8 | SEQUENCE_REGRESSION => 9 | SESSION_MISMATCH => 10
  | SESSION_LIMIT => 11 | QUEUE_LIMIT => 12 | UNSUPPORTED_REQUEST => 13
  | DECODE_REJECTED => 14 | STICKY_FAILURE => 15 | SHUTTING_DOWN => 16 | COUNT => 17
  end.

(** [static_cast] from the raw value; outside the domain the cast is not used. *)
Definition of_u16 (raw : Z) : t :=
  match raw with
  | 0 => NONE | 1 => BAD_MAGIC | 2 => BAD_VERSION | 3 => BAD_HEADER_CHECKSUM
  | 4 => BAD_PAYLOAD_CHECKSUM | 5 => FRAME_TOO_LARGE | 6 => INVALID_ENUM | 7 => INVALID_LENGTH
  | 8 => TRAILING_BYTES | 9 => SEQUENCE_REGRESSION | 10 => SESSION_MISMATCH
  | 11 => SESSION_LIMIT | 12 => QUEUE_LIMIT | 13 => UNSUPPORTED_REQUEST
  | 14 => DECODE_REJECTED | 15 => STICKY_FAILURE | 16 => SHUTTING_DOWN | _ => COUNT
  end.

Definition to_string (x : t) : string :=
  match x with
  | NONE => "NONE" | BAD_MAGIC => "BAD_MAGIC" | BAD_VERSION => "BAD_VERSION"
  | BAD_HEADER_CHECKSUM => "BAD_HEADER_CHECKSUM"
  | BAD_PAYLOAD_CHECKSUM => "BAD_PAYLOAD_CHECKSUM" | FRAME_TOO_LARGE => "FRAME_TOO_LARGE"
  | INVALID_ENUM => "INVALID_ENUM" | INVALID_LENGTH => "INVALID_LENGTH"
  | TRAILING_BYTES => "TRAILING_BYTES" | SEQUENCE_REGRESSION => "SEQUENCE_REGRESSION"
  | SESSION_MISMATCH => "SESSION_MISMATCH" | SESSION_LIMIT => "SESSION_LIMIT"
  | QUEUE_LIMIT => "QUEUE_LIMIT" | UNSUPPORTED_REQUEST => "UNSUPPORTED_REQUEST"
  | DECODE_REJECTED => "DECODE_REJECTED" | STICKY_FAILURE => "STICKY_FAILURE"
  | SHUTTING_DOWN => "SHUTTING_DOWN" | COUNT => "COUNT"
  end.
End ErrorCode.

(** ** Frames *)

Definition kFrameMagic : Z := 0x4E525046.
Definition kFrameHeaderSize : Z := 56.
Definition kProtocolVersion : Z := 1.

Record ProtocolLimits := mkProtocolLimits {
  max_payload_bytes : Z;
  max_records_per_message : Z;
  limits_model : ModelLimits
}.

Definition default_protocol_limits : ProtocolLimits :=
  mkProtocolLimits (4 * 2 ^ 20) 4096 default_model_limits.

Record FrameHeader := mkHeader {
  fh_magic : Z;
  fh_version : Z;
  fh_type : Z;
  fh_flags : Z;
  fh_reserved : Z;
  fh_session : Z;
  fh_epoch : Z;
  fh_boot : Z;
  fh_sequence : Z;
  fh_payload_length : Z;
  fh_payload_crc32 : Z;
  fh_header_crc32 : Z
}.

Record Frame := mkFrame { frame_header : FrameHeader; frame_payload : list Z }.

(** The 52 bytes the header checksum covers. *)
Definition header_bytes (h : FrameHeader) : list Z :=
  w_u32 (fh_magic h) ++ w_u16 (fh_version h) ++ w_u16 (fh_type h) ++ w_u16 (fh_flags h) ++
  w_u16 (fh_reserved h) ++ w_u64 (fh_session h) ++ w_u64 (fh_epoch h) ++ w_u64 (fh_boot h) ++
  w_u64 (fh_sequence h) ++ w_u32 (fh_payload_length h) ++ w_u32 (fh_payload_crc32 h).

(** The checksum field of [h] itself is not read. *)
Definition encode_frame_header (h : FrameHeader) : list Z :=
  header_bytes h ++ w_u32 (crc32 (header_bytes h) 0).

Definition protocol_error (message : string) : Status := mkStatus StatusCode.PROTOCOL_ERROR message.

Definition decode_frame_header (bytes : list Z) : result Status FrameHeader :=
  if sizez bytes <? kFrameHeaderSize then Err (protocol_error "frame header is a truncated prefix")
  else if negb (read_u32 bytes 0 =? kFrameMagic) then Err (protocol_error "frame magic mismatch")
  else if negb (read_u16 bytes 4 =? kProtocolVersion)
  then Err (mkStatus StatusCode.UNSUPPORTED
              ("protocol version is not supported: " +:+ pretty (read_u16 bytes 4)))
  else if (read_u16 bytes 6 =? 0) || negb (FrameType.is_valid (read_u16 bytes 6))
  then Err (protocol_error "frame type is outside the defined domain")
  else if negb (read_u16 bytes 8 =? 0) || negb (read_u16 bytes 10 =? 0)
  then Err (protocol_error "reserved frame header bits are set")
  else
    let header :=
      mkHeader kFrameMagic (read_u16 bytes 4) (read_u16 bytes 6) (read_u16 bytes 8)
        (read_u16 bytes 10) (read_u64 bytes 12) (read_u64 bytes 20) (read_u64 bytes 28)
        (read_u64 bytes 36) (read_u32 bytes 44) (read_u32 bytes 48) (read_u32 bytes 52) in
    if negb (fh_header_crc32 header =? crc32 (take 52 bytes) 0)
    then Err (protocol_error "frame header checksum mismatch")
    else Ok header.

Definition new_header (type : FrameType.t) (session epoch boot sequence : Z) (payload : list Z)
  : FrameHeader :=
  mkHeader kFrameMagic kProtocolVersion (FrameType.to_u16 type) 0 0 session epoch boot sequence
    (u32 (sizez payload)) (crc32 payload 0) 0.

Definition encode_frame (type : FrameType.t) (session epoch boot sequence : Z) (payload : list Z)
  : list Z :=
  encode_frame_header (new_header type session epoch boot sequence payload) ++ payload.

Definition incomplete (message : string) : Status := mkStatus StatusCode.NOT_FOUND message.

(** The frame at the front of [data], and the bytes it takes. *)
Definition decode_frame (limits : ProtocolLimits) (data : list Z) : result Status (Frame * Z) :=
  if sizez data <? kFrameHeaderSize then Err (incomplete "frame header is incomplete")
  else
    let* header := decode_frame_header data in
    if max_payload_bytes limits <? fh_payload_length header
    then Err (mkStatus StatusCode.OUT_OF_RANGE "declared payload exceeds the frame bound")
    else
      let total := kFrameHeaderSize + fh_payload_length header in
      if sizez data <? total then Err (incomplete "frame payload is incomplete")
      else
        let payload := take (Z.to_nat (fh_payload_length header)) (drop 56 data) in
        if negb (crc32 payload 0 =? fh_payload_crc32 header)
        then Err (protocol_error "frame payload checksum mismatch")
        else Ok (mkFrame header payload, total).

(** ** Payloads: sessions *)

Definition encode_hello (client_nonce requested_features : Z) : list Z :=
  w_u64 client_nonce ++ w_u32 requested_features.

Definition decode_hello (payload : list Z) : result Status Z :=
  fst ((nonce <- rd r_u64 ;; _ <- rd r_u32 ;; _ <- require_end ;;
        if nonce =? 0 then dfail (protocol_error "hello nonce must be non-zero")
        else dret nonce) (reader payload)).

Record HelloAck := mkHelloAck {
  ack_session : Z;
  ack_epoch : Epoch;
  ack_boot : BootId;
  ack_server_nonce : Z;
  ack_next_sequence : Sequence
}.

Definition encode_hello_ack (a : HelloAck) : list Z :=
  w_u64 (ack_session a) ++ w_u64 (ack_epoch a) ++ w_u64 (ack_boot a) ++
  w_u64 (ack_server_nonce a) ++ w_u64 (ack_next_sequence a).

Definition decode_hello_ack (payload : list Z) : result Status HelloAck :=
  fst ((session <- rd r_u64 ;; epoch <- rd r_u64 ;; boot <- rd r_u64 ;; nonce <- rd r_u64 ;;
        next <- rd r_u64 ;; _ <- check_ok ;; _ <- require_end ;;
        if is_zero session
        then dfail (protocol_error "session identity must be non-zero")
        else if next =? 0 then dfail (protocol_error "next sequence must be at least one")
        else dret (mkHelloAck session epoch boot nonce next)) (reader payload)).

Record ErrorPayload := mkErrorPayload {
  err_code : ErrorCode.t;
  err_reason : ReasonCode.t;
  err_text : string
}.

Definition encode_error_payload (e : ErrorPayload) : list Z :=
  w_u16 (ErrorCode.to_u16 (err_code e)) ++ w_u8 (ReasonCode.to_u8 (err_reason e)) ++
  w_str (err_text e).

Definition r_error_code : Rd ErrorCode.t := fun r =>
  let '(raw, r) := r_u16 r in
  if rd_ok r && (ErrorCode.to_u16 ErrorCode.COUNT <=? raw)
  then (ErrorCode.of_u16 raw,
        fail StatusCode.PROTOCOL_ERROR "error code is outside the defined domain" r)
  else (ErrorCode.of_u16 raw, r).

Definition decode_error_body : Dec ErrorPayload :=
  code <- rd r_error_code ;;
  reason <- rd (r_enum_value ReasonCode.of_u8 (ReasonCode.to_u8 ReasonCode.COUNT) "error reason") ;;
  text <- rd (r_str 512) ;; _ <- check_ok ;; dret (mkErrorPayload code reason text).

Definition decode_error_payload (payload : list Z) : result Status ErrorPayload :=
  decode_all decode_error_body payload.

Definition encode_status_response_payload (epoch boot last_sequence plans_committed
  sessions_active plans_rejected : Z) : list Z :=
  w_u64 epoch ++ w_u64 boot ++ w_u64 last_sequence ++ w_u64 plans_committed ++
  w_u64 sessions_active ++ w_u64 plans_rejected.

(** ** Payloads: requests *)

Definition decode_plan_request_payload (payload : list Z) (limits : ProtocolLimits)
  : result Status PlanRequest :=
  let* request := decode_all (decode_plan_request_body (limits_model limits)) payload in
  let* _ := fst (validate_definition (req_definition request) (limits_model limits) (new_log 16)) in
  if max_records_per_message limits <? sizez (actions (req_definition request))
  then Err (mkStatus StatusCode.OUT_OF_RANGE "request declares too many actions")
  else Ok request.

(** A plan with its digest behind it. *)
Definition encode_digested_plan (p : RecoveryPlan) : list Z :=
  encode_plan p ++ encode_digest (plan_digest p).

Definition decode_digested_plan (limits : ModelLimits) : Dec RecoveryPlan :=
  p <- decode_plan limits ;; digest <- decode_digest ;; dret (set_identity p (plan_id p) digest).

Definition encode_validate_request_payload (request : PlanRequest) (p : RecoveryPlan) : list Z :=
  encode_request request ++ encode_digested_plan p.

Definition decode_validate_request_body (limits : ModelLimits) : Dec (PlanRequest * RecoveryPlan) :=
  request <- decode_plan_request_body limits ;; p <- decode_digested_plan limits ;;
  _ <- check_ok ;; dret (request, p).

Definition decode_validate_request_payload (payload : list Z) (limits : ProtocolLimits)
  : result Status (PlanRequest * RecoveryPlan) :=
  decode_all (decode_validate_request_body (limits_model limits)) payload.

(** ** Payloads: certificates *)

Definition encode_certificate (c : InfeasibilityCertificate) : list Z :=
  w_u8 (ProofKind.to_u8 (cert_kind c)) ++ encode_digest (cert_request_digest c) ++
  encode_digest (cert_policy_digest c) ++ w_u64 (cert_nodes_expanded c) ++
  w_u64 (cert_nodes_generated c) ++ w_u64 (cert_reachable_states c) ++
  w_list w_u64 (cert_cycle c) ++
  w_u8 (SubjectKind.to_u8 (subject_kind (cert_unreachable_subject c))) ++
  w_u64 (subject_id (cert_unreachable_subject c)) ++ w_u64 (cert_unreachable_value c) ++
  w_u64 (cert_required_value c) ++ w_list w_str (cert_assumptions c) ++
  w_list encode_explanation (cert_explanations c).

Definition decode_cycle_entry : Dec ActionId := id <- rd r_u64 ;; _ <- check_ok ;; dret id.

Definition decode_assumption (limits : ModelLimits) : Dec string :=
  text <- rd (r_str (u32 (max_string_length limits * 4))) ;; _ <- check_ok ;; dret text.

Definition decode_certificate (limits : ModelLimits) : Dec InfeasibilityCertificate :=
  kind <- rd (r_enum_value ProofKind.of_u8 3 "proof kind") ;;
  rdig <- decode_digest ;; pdig <- decode_digest ;;
  expanded <- rd r_u64 ;; generated <- rd r_u64 ;; reachable <- rd r_u64 ;;
  cycle <- d_list (max_actions limits) "proof cycle" decode_cycle_entry ;;
  skind <- rd (r_enum_value SubjectKind.of_u8 7 "proof subject kind") ;; sid <- rd r_u64 ;;
  value <- rd r_u64 ;; required <- rd r_u64 ;;
  assumptions <- d_list 32 "proof assumptions" (decode_assumption limits) ;;
  explanations <- d_list 64 "proof explanations" (decode_explanation limits) ;;
  dret (mkCertificate kind rdig pdig expanded generated reachable cycle (mkSubject skind sid) value
          required assumptions explanations).

(** ** Payloads: results *)

(** A flag and, where it is set, what it announces. *)
Definition w_option {A} (w : A -> list Z) (x : option A) : list Z :=
  match x with
  | None => w_boolean false
  | Some x => w_boolean true ++ w x
  end.

Definition d_option {A} (m : Dec A) : Dec (option A) :=
  present <- rd r_boolean ;;
  if present then x <- m ;; dret (Some x) else dret None.

Definition encode_stats (s : SearchStats) : list Z :=
  w_u64 (st_nodes_expanded s) ++ w_u64 (st_nodes_generated s) ++
  w_u64 (st_nodes_pruned_by_dominance s) ++ w_u64 (st_nodes_pruned_by_safety s) ++
  w_u64 (st_nodes_pruned_by_authority s) ++ w_u64 (st_nodes_pruned_by_policy s) ++
  w_u64 (st_frontier_high_water s) ++ w_u64 (st_states_revisited s) ++
  w_u64 (st_budget_nodes s) ++ w_boolean (st_budget_exhausted s) ++
  w_boolean (st_frontier_emptied s).

Definition decode_stats : Dec SearchStats :=
  a <- rd r_u64 ;; b <- rd r_u64 ;; c <- rd r_u64 ;; d <- rd r_u64 ;; e <- rd r_u64 ;;
  f <- rd r_u64 ;; g <- rd r_u64 ;; h <- rd r_u64 ;; i <- rd r_u64 ;;
  j <- rd r_boolean ;; k <- rd r_boolean ;; dret (mkStats a b c d e f g h i j k).

Definition encode_plan_response_payload (r : PlanningResult) : list Z :=
  w_u8 (PlanDecision.to_u8 (pr_decision r)) ++ w_u64 (pr_request r) ++ w_u64 (pr_epoch r) ++
  w_u64 (pr_boot r) ++ w_u64 (pr_attempt r) ++ w_option encode_digested_plan (pr_plan r) ++
  w_option encode_certificate (pr_certificate r) ++ encode_stats (pr_stats r) ++
  w_list encode_subject (pr_unresolved_subjects r) ++
  w_list encode_explanation (pr_explanations r) ++ encode_digest (pr_request_digest r).

(** Here a subject of kind [NONE] is accepted. *)
Definition decode_subject (what : string) : Dec Subject :=
  kind <- rd (r_enum_value SubjectKind.of_u8 7 what) ;; id <- rd r_u64 ;; _ <- check_ok ;;
  dret (mkSubject kind id).

Definition decode_plan_response_body (limits : ModelLimits) : Dec PlanningResult :=
  decision <- rd (r_enum_value PlanDecision.of_u8 (PlanDecision.to_u8 PlanDecision.COUNT)
                    "plan decision") ;;
  request <- rd r_u64 ;; epoch <- rd r_u64 ;; boot <- rd r_u64 ;; attempt <- rd r_u64 ;;
  _ <- check_ok ;;
  if negb (PlanDecision.is_valid decision)
  then dfail (protocol_error "plan decision is outside the domain")
  else
    p <- d_option (decode_digested_plan limits) ;; _ <- check_ok ;;
    c <- d_option (decode_certificate limits) ;; _ <- check_ok ;;
    stats <- decode_stats ;;
    unresolved <- d_list (u32 (max_nodes limits + max_links limits + max_services limits +
                               max_resources limits)) "unresolved subjects"
                    (decode_subject "unresolved subject kind") ;;
    explanations <- d_list 256 "result explanations" (decode_explanation limits) ;;
    digest <- decode_digest ;; _ <- check_ok ;;
    dret (mkResult decision request epoch boot attempt p c stats unresolved explanations digest).

Definition decode_plan_response_payload (payload : list Z) (limits : ProtocolLimits)
  : result Status PlanningResult :=
  decode_all (decode_plan_response_body (limits_model limits)) payload.

(** ** Payloads: validation reports *)

Definition encode_finding (f : ValidationFinding) : list Z :=
  w_u8 (ReasonCode.to_u8 (vf_code f)) ++ w_u32 (vf_step f) ++ encode_subject (vf_subject f) ++
  w_str (vf_text f).

Definition encode_validate_response_payload (r : ValidationReport) : list Z :=
  w_boolean (vr_valid r) ++ w_boolean (vr_objective_matches r) ++
  w_boolean (vr_digest_matches r) ++ encode_objective (vr_recomputed_objective r) ++
  encode_digest (vr_stated_digest r) ++ encode_digest (vr_recomputed_digest r) ++
  w_list encode_finding (vr_findings r).

Definition decode_finding : Dec ValidationFinding :=
  code <- rd (r_enum_value ReasonCode.of_u8 (ReasonCode.to_u8 ReasonCode.COUNT) "finding reason") ;;
  step <- rd r_u32 ;; kind <- rd (r_enum_value SubjectKind.of_u8 7 "finding subject kind") ;;
  id <- rd r_u64 ;; text <- rd (r_str 512) ;; _ <- check_ok ;;
  dret (mkFinding code step (mkSubject kind id) text).

Definition decode_validate_response_body : Dec ValidationReport :=
  valid <- rd r_boolean ;; objective_matches <- rd r_boolean ;; digest_matches <- rd r_boolean ;;
  objective <- drepeat kObjectiveComponents (rd r_u64) ;;
  stated <- decode_digest ;; recomputed <- decode_digest ;;
  findings <- d_list 512 "validation findings" decode_finding ;;
  dret (mkReport valid objective_matches digest_matches (mkObjective objective) stated recomputed
          findings).

Definition decode_validate_response_payload (payload : list Z) : result Status ValidationReport :=
  decode_all decode_validate_response_body payload.
