(* ===== verification/ProtocolCorrect.v ===== *)
(** * The transport reads exactly what was sent

    [decode_frame] inverts [encode_frame] on every input and asks for more bytes
    on every proper prefix; the payload decoders invert their encoders. *)
From S2P Require Import Prelude Ids Canonical Model Objective Domain DefinitionCheck Plan Fixture Codec Crc32 Journal Planner Validate Protocol.

(** ** Fields at an offset *)

Lemma w_u16_bytes v : Forall in_u8 (w_u16 v).
Proof. repeat constructor; apply land_ff_u8. Qed.
#[export] Hint Resolve w_u16_bytes : bytes.

Lemma unread_u32 d k : Forall in_u8 d -> (k + 4 <= length d)%nat ->
  in_u32 (read_u32 d k) /\ drop k d = w_u32 (read_u32 d k) ++ drop (k + 4) d.
Proof.
  intros Hd Hk. destruct (read_le_split 4 w_u32 32 w_u32_bytes (fun _ => eq_refl) w_u32_sum eq_refl
    (drop k d) (Forall_drop _ k _ Hd)) as [Hr He].
  - unfold sizez. rewrite length_drop. lia.
  - split; [exact Hr|]. by rewrite drop_drop in He.
Qed.

Lemma unread_u64 d k : Forall in_u8 d -> (k + 8 <= length d)%nat ->
  in_u64 (read_u64 d k) /\ drop k d = w_u64 (read_u64 d k) ++ drop (k + 8) d.
Proof.
  intros Hd Hk. destruct (read_le_split 8 w_u64 64 w_u64_bytes (fun _ => eq_refl)
    (fun v => eq_trans (w_u64_sum v) (u64_mod v)) eq_refl
    (drop k d) (Forall_drop _ k _ Hd)) as [Hr He].
  - unfold sizez. rewrite length_drop. lia.
  - split; [exact Hr|]. by rewrite drop_drop in He.
Qed.

Lemma unread_u16 d k : Forall in_u8 d -> (k + 2 <= length d)%nat ->
  in_u16 (read_u16 d k) /\ drop k d = w_u16 (read_u16 d k) ++ drop (k + 2) d.
Proof.
  intros Hd Hk. destruct (lookup_lt_is_Some_2 d k ltac:(lia)) as [a Ha].
  destruct (lookup_lt_is_Some_2 d (S k) ltac:(lia)) as [b Hb].
  assert (Hua : in_u8 a) by (rewrite Forall_lookup in Hd; eauto).
  assert (Hub : in_u8 b) by (rewrite Forall_lookup in Hd; eauto).
  assert (Hv : read_u16 d k = a + b * 256).
  { unfold read_u16. rewrite (list_lookup_total_correct _ _ _ Ha), (list_lookup_total_correct _ _ _ Hb).
    by rewrite lor_shiftl_add. }
  rewrite (drop_S _ _ _ Ha), (drop_S _ _ _ Hb), Hv. replace (k + 2)%nat with (S (S k)) by lia.
  unfold in_u8 in *. split; [unfold in_u16; lia|].
  assert (Hw : w_u16 (a + b * 256) = [a; b]); [|by rewrite Hw].
  apply le_sum_inj; [apply w_u16_bytes|repeat constructor; lia|done|].
  rewrite w_u16_sum. simpl. unfold u16. rewrite Z.mod_small by lia. lia.
Qed.

(** ** Frames *)

(** A header the decoder can return, for this payload. *)
Record frame_fits (limits : ProtocolLimits) (f : Frame) : Prop := {
  ff_magic : fh_magic (frame_header f) = kFrameMagic;
  ff_version : fh_version (frame_header f) = kProtocolVersion;
  ff_type : 0 < fh_type (frame_header f) < FrameType.to_u16 FrameType.COUNT;
  ff_flags : fh_flags (frame_header f) = 0;
  ff_reserved : fh_reserved (frame_header f) = 0;
  ff_session : in_u64 (fh_session (frame_header f));
  ff_epoch : in_u64 (fh_epoch (frame_header f));
  ff_boot : in_u64 (fh_boot (frame_header f));
  ff_sequence : in_u64 (fh_sequence (frame_header f));
  ff_length : fh_payload_length (frame_header f) = sizez (frame_payload f);
  ff_payload_crc : fh_payload_crc32 (frame_header f) = crc32 (frame_payload f) 0;
  ff_header_crc : fh_header_crc32 (frame_header f) = crc32 (header_bytes (frame_header f)) 0;
  ff_payload : Forall in_u8 (frame_payload f);
  ff_bound : sizez (frame_payload f) <= max_payload_bytes limits
}.

(** The bytes of a frame. *)
Definition frame_bytes (f : Frame) : list Z :=
  encode_frame_header (frame_header f) ++ frame_payload f.

Lemma header_bytes_u8 h : Forall in_u8 (header_bytes h).
Proof. unfold header_bytes. repeat (apply Forall_app_2; [solve [auto with bytes]|]). auto with bytes. Qed.

Lemma length_header_bytes h : length (header_bytes h) = 52%nat.
Proof. reflexivity. Qed.

Lemma length_encode_header h : length (encode_frame_header h) = 56%nat.
Proof. reflexivity. Qed.

Lemma read_u16_at v rest : in_u16 v -> read_u16 (w_u16 v ++ rest) 0 = v.
Proof.
  intros Hv. unfold read_u16, w_u16. simpl. rewrite lor_shiftl_add by (lia || apply land_ff_u8).
  pose proof (w_u16_sum v) as Hs. unfold w_u16, u16 in Hs. simpl in Hs.
  rewrite Z.mod_small in Hs by done. lia.
Qed.

(** What a header announces is read back, whatever follows it. *)
Lemma decode_header_encode limits f tail :
  in_u32 (max_payload_bytes limits) -> frame_fits limits f ->
  decode_frame_header (encode_frame_header (frame_header f) ++ tail) = Ok (frame_header f).
Proof.
  intros Hu []. destruct f as [[ma ve ty fl re se ep bo sq le pc hc] p].
  cbn [frame_header frame_payload fh_magic fh_version fh_type fh_flags fh_reserved fh_session
       fh_epoch fh_boot fh_sequence fh_payload_length fh_payload_crc32 fh_header_crc32] in *.
  subst ma ve fl re. simpl FrameType.to_u16 in ff_type0.
  set (h := mkHeader _ _ _ _ _ _ _ _ _ _ _ _) in *. set (bytes := encode_frame_header h ++ tail).
  assert (Hlen : sizez bytes = 56 + sizez tail)
    by (unfold sizez, bytes; rewrite length_app, length_encode_header; lia).
  assert (H0 : read_u32 bytes 0 = kFrameMagic) by reflexivity.
  assert (H4 : read_u16 bytes 4 = kProtocolVersion) by reflexivity.
  assert (H6 : read_u16 bytes 6 = ty).
  { change (read_u16 bytes 6) with (read_u16 (w_u16 ty ++ drop 8 bytes) 0). apply read_u16_at.
    unfold in_u16. lia. }
  assert (H8 : read_u16 bytes 8 = 0) by reflexivity.
  assert (H10 : read_u16 bytes 10 = 0) by reflexivity.
  assert (H12 : read_u64 bytes 12 = se) by (by apply read_le8).
  assert (H20 : read_u64 bytes 20 = ep) by (by apply read_le8).
  assert (H28 : read_u64 bytes 28 = bo) by (by apply read_le8).
  assert (H36 : read_u64 bytes 36 = sq) by (by apply read_le8).
  assert (H44 : read_u32 bytes 44 = le)
    by (apply read_le4; unfold in_u32, sizez in *; lia).
  assert (H48 : read_u32 bytes 48 = pc) by (apply read_le4; subst pc; by apply crc32_u32).
  assert (H52 : read_u32 bytes 52 = hc).
  { rewrite ff_header_crc0. apply (read_le4 (crc32 (header_bytes h) 0) tail).
    apply crc32_u32; [apply header_bytes_u8|done]. }
  assert (Hhead : take 52 bytes = header_bytes h) by reflexivity.
  unfold decode_frame_header.
  rewrite Hlen, H0, H4, H6, H8, H10, H12, H20, H28, H36, H44, H48, H52, Hhead.
  clearbody bytes. unfold kFrameHeaderSize.
  destruct (Z.ltb_spec (56 + sizez tail) 56); [unfold sizez in *; lia|].
  unfold FrameType.is_valid. simpl FrameType.to_u16. rewrite !Z.eqb_refl. cbn [negb orb].
  destruct (Z.eqb_spec ty 0); [lia|]. destruct (Z.eqb_spec ty 11); [lia|].
  destruct (Z.ltb_spec ty 11); [|lia]. cbn [negb orb andb fh_header_crc32].
  apply Z.eqb_eq in ff_header_crc0. by rewrite ff_header_crc0.
Qed.

(** The other way round, the decoder accepts nothing but the bytes of a header. *)
Lemma decode_header_inv bytes h :
  Forall in_u8 bytes -> decode_frame_header bytes = Ok h ->
  (56 <= length bytes)%nat /\ bytes = header_bytes h ++ w_u32 (fh_header_crc32 h) ++ drop 56 bytes /\
  fh_magic h = kFrameMagic /\ fh_version h = kProtocolVersion /\
  0 < fh_type h < FrameType.to_u16 FrameType.COUNT /\ fh_flags h = 0 /\ fh_reserved h = 0 /\
  in_u64 (fh_session h) /\ in_u64 (fh_epoch h) /\ in_u64 (fh_boot h) /\ in_u64 (fh_sequence h) /\
  in_u32 (fh_payload_length h) /\ fh_header_crc32 h = crc32 (header_bytes h) 0.
Proof.
  intros Hb. unfold decode_frame_header, kFrameHeaderSize, FrameType.is_valid.
  destruct (Z.ltb_spec (sizez bytes) 56) as [|Hs]; [discriminate|].
  assert (Hl : (56 <= length bytes)%nat) by (unfold sizez in Hs; lia).
  destruct (unread_u32 bytes 0 Hb ltac:(lia)) as [_ E0].
  destruct (unread_u16 bytes 4 Hb ltac:(lia)) as [_ E4].
  destruct (unread_u16 bytes 6 Hb ltac:(lia)) as [R6 E6].
  destruct (unread_u16 bytes 8 Hb ltac:(lia)) as [_ E8].
  destruct (unread_u16 bytes 10 Hb ltac:(lia)) as [_ E10].
  destruct (unread_u64 bytes 12 Hb ltac:(lia)) as [R12 E12].
  destruct (unread_u64 bytes 20 Hb ltac:(lia)) as [R20 E20].
  destruct (unread_u64 bytes 28 Hb ltac:(lia)) as [R28 E28].
  destruct (unread_u64 bytes 36 Hb ltac:(lia)) as [R36 E36].
  destruct (unread_u32 bytes 44 Hb ltac:(lia)) as [R44 E44].
  destruct (unread_u32 bytes 48 Hb ltac:(lia)) as [R48 E48].
  destruct (unread_u32 bytes 52 Hb ltac:(lia)) as [R52 E52].
  simpl Nat.add in *. rewrite E4, E6, E8, E10, E12, E20, E28, E36, E44, E48, E52 in E0.
  rewrite drop_0 in E0. revert E0.
  generalize (read_u32 bytes 0), (read_u16 bytes 4), (read_u16 bytes 8), (read_u16 bytes 10).
  intros v0 v4 v8 v10 E0.
  destruct (Z.eqb_spec v0 kFrameMagic) as [->|]; [|discriminate].
  destruct (Z.eqb_spec v4 kProtocolVersion) as [->|]; [|discriminate].
  destruct (Z.eqb_spec (read_u16 bytes 6) 0); [discriminate|].
  destruct (Z.eqb_spec (read_u16 bytes 6) (FrameType.to_u16 FrameType.COUNT)); [discriminate|].
  destruct (Z.ltb_spec (read_u16 bytes 6) (FrameType.to_u16 FrameType.COUNT)) as [Hlt|]; [|discriminate].
  destruct (Z.eqb_spec v8 0) as [->|]; [|discriminate].
  destruct (Z.eqb_spec v10 0) as [->|]; [|discriminate]. cbn [negb orb andb].
  set (hd := mkHeader _ _ _ _ _ _ _ _ _ _ _ _).
  assert (Ht : take 52 bytes = header_bytes hd) by (rewrite E0; reflexivity).
  rewrite Ht. destruct (Z.eqb_spec (fh_header_crc32 hd) (crc32 (header_bytes hd) 0)) as [Hc|];
    [|discriminate]. intros Hh. injection Hh as Hh. change (hd = h) in Hh. rewrite <- Hh. clear Hh.
  split_and!; try done.
  unfold in_u16 in R6. simpl. lia.
Qed.

Section Frames.
Context (limits : ProtocolLimits) (Hlimits : in_u32 (max_payload_bytes limits)).

Lemma frame_fits_bytes f : frame_fits limits f ->
  frame_bytes f = header_bytes (frame_header f) ++ w_u32 (fh_header_crc32 (frame_header f)) ++
                  frame_payload f.
Proof.
  intros H. unfold frame_bytes, encode_frame_header. rewrite (ff_header_crc _ _ H).
  by rewrite <- app_assoc.
Qed.

Lemma decode_frame_head f tail : frame_fits limits f ->
  decode_frame limits (encode_frame_header (frame_header f) ++ tail) =
    if sizez tail <? sizez (frame_payload f)
    then Err (incomplete "frame payload is incomplete")
    else
      let payload := take (length (frame_payload f)) tail in
      if negb (crc32 payload 0 =? crc32 (frame_payload f) 0)
      then Err (protocol_error "frame payload checksum mismatch")
      else Ok (mkFrame (frame_header f) payload, kFrameHeaderSize + sizez (frame_payload f)).
Proof.
  intros Hf. unfold decode_frame. rewrite (decode_header_encode limits f tail Hlimits Hf).
  assert (Hl : sizez (encode_frame_header (frame_header f) ++ tail) = 56 + sizez tail)
    by (unfold sizez; rewrite length_app, length_encode_header; lia).
  rewrite Hl. unfold rbind. rewrite (ff_length _ _ Hf), (ff_payload_crc _ _ Hf).
  pose proof (ff_bound _ _ Hf) as Hb. unfold kFrameHeaderSize.
  destruct (Z.ltb_spec (56 + sizez tail) 56); [unfold sizez in *; lia|].
  destruct (Z.ltb_spec (max_payload_bytes limits) (sizez (frame_payload f))); [lia|].
  assert (Hlt : (56 + sizez tail <? 56 + sizez (frame_payload f)) =
                (sizez tail <? sizez (frame_payload f))).
  { generalize (sizez tail), (sizez (frame_payload f)). intros x y.
    destruct (Z.ltb_spec x y), (Z.ltb_spec (56 + x) (56 + y)); (reflexivity || lia). }
  rewrite Hlt.
  change (drop 56 (encode_frame_header (frame_header f) ++ tail)) with tail.
  replace (Z.to_nat (sizez (frame_payload f))) with (length (frame_payload f))
    by (unfold sizez; by rewrite Nat2Z.id). reflexivity.
Qed.

Lemma decode_frame_bytes f rest : frame_fits limits f ->
  decode_frame limits (frame_bytes f ++ rest) =
    Ok (f, kFrameHeaderSize + sizez (frame_payload f)).
Proof.
  intros Hf. unfold frame_bytes. rewrite <- app_assoc, decode_frame_head by done. cbv zeta.
  rewrite take_app_length, Z.eqb_refl. unfold sizez at 1 2. rewrite length_app.
  destruct (Z.ltb_spec (Z.of_nat (length (frame_payload f) + length rest))
                       (Z.of_nat (length (frame_payload f)))); [lia|]. by destruct f.
Qed.

Lemma decode_frame_inv d f n : Forall in_u8 d -> decode_frame limits d = Ok (f, n) ->
  frame_fits limits f /\ n = kFrameHeaderSize + sizez (frame_payload f) /\
  exists rest, d = frame_bytes f ++ rest.
Proof.
  intros Hd. unfold decode_frame. destruct (sizez d <? kFrameHeaderSize); [discriminate|].
  destruct (decode_frame_header d) as [h|] eqn:Hh; [cbn [rbind]|discriminate].
  destruct (decode_header_inv d h Hd Hh) as (Hl & He & ? & ? & ? & ? & ? & ? & ? & ? & ? & Hu & ?).
  destruct (Z.ltb_spec (max_payload_bytes limits) (fh_payload_length h)); [discriminate|].
  destruct (Z.ltb_spec (sizez d) (kFrameHeaderSize + fh_payload_length h)) as [|Hs]; [discriminate|].
  destruct (Z.eqb_spec (crc32 (take (Z.to_nat (fh_payload_length h)) (drop 56 d)) 0)
              (fh_payload_crc32 h)) as [Hc|]; [|discriminate]. cbn [negb]. intros [= <- <-].
  set (p := take _ _) in *.
  assert (Hp : sizez p = fh_payload_length h).
  { unfold p, sizez, in_u32, kFrameHeaderSize in *. rewrite length_take, length_drop. lia. }
  assert (Hf : frame_fits limits (mkFrame h p)).
  { split; try done; cbn [frame_header frame_payload]; [|lia].
    by apply Forall_take, Forall_drop. }
  split; [done|]. split; [by rewrite <- Hp|].
  exists (drop (Z.to_nat (fh_payload_length h)) (drop 56 d)).
  rewrite (frame_fits_bytes _ Hf). cbn [frame_header frame_payload]. rewrite <- !app_assoc.
  unfold p. rewrite take_drop. exact He.
Qed.
End Frames.

(** The frame [encode_frame] writes. *)
Definition sent_frame (type : FrameType.t) (session epoch boot sequence : Z) (payload : list Z)
  : Frame :=
  let h := new_header type session epoch boot sequence payload in
  mkFrame (mkHeader (fh_magic h) (fh_version h) (fh_type h) (fh_flags h) (fh_reserved h)
             (fh_session h) (fh_epoch h) (fh_boot h) (fh_sequence h) (fh_payload_length h)
             (fh_payload_crc32 h) (crc32 (header_bytes h) 0)) payload.

Lemma sent_frame_bytes type session epoch boot sequence payload :
  encode_frame type session epoch boot sequence payload =
  frame_bytes (sent_frame type session epoch boot sequence payload).
Proof. done. Qed.

Lemma sent_frame_fits limits type session epoch boot sequence payload :
  in_u32 (max_payload_bytes limits) -> type <> FrameType.COUNT ->
  in_u64 session -> in_u64 epoch -> in_u64 boot -> in_u64 sequence ->
  Forall in_u8 payload -> sizez payload <= max_payload_bytes limits ->
  frame_fits limits (sent_frame type session epoch boot sequence payload).
Proof.
  intros Hu Ht Hs He Hb Hq Hp Hz.
  split; unfold sent_frame, new_header; cbv zeta; cbn [frame_header frame_payload fh_magic
    fh_version fh_type fh_flags fh_reserved fh_session fh_epoch fh_boot fh_sequence
    fh_payload_length fh_payload_crc32 fh_header_crc32]; try done.
  - destruct type; simpl; (lia || done).
  - apply u32_small. unfold in_u32, sizez in *. lia.
Qed.

(** ** What the framing promises *)

(** C29: framing is lossless and unambiguous. A buffer decodes to a frame and a
    length when, and only when, the frame satisfies every check of the header
    (known type, reserved bits zero, both checksums, payload within the bound) and
    the buffer starts with exactly the bytes of that frame; what follows it is not
    looked at. *)
Theorem decode_frame_iff limits d f n :
  in_u32 (max_payload_bytes limits) -> Forall in_u8 d ->
  decode_frame limits d = Ok (f, n) <->
  frame_fits limits f /\ n = kFrameHeaderSize + sizez (frame_payload f) /\
  exists rest, d = frame_bytes f ++ rest.
Proof.
  intros Hu Hd. split; [by apply decode_frame_inv|]. intros (Hf & -> & rest & ->).
  by apply decode_frame_bytes.
Qed.

(** A frame that has not arrived completely is never an error: on every
    proper prefix of what [encode_frame] writes the decoder reports NOT_FOUND,
    which asks for more bytes. *)
Theorem partial_frame_incomplete limits type session epoch boot sequence payload k :
  in_u32 (max_payload_bytes limits) -> type <> FrameType.COUNT ->
  in_u64 session -> in_u64 epoch -> in_u64 boot -> in_u64 sequence ->
  Forall in_u8 payload -> sizez payload <= max_payload_bytes limits ->
  (k < length (encode_frame type session epoch boot sequence payload))%nat ->
  exists message, decode_frame limits
      (take k (encode_frame type session epoch boot sequence payload)) =
    Err (mkStatus StatusCode.NOT_FOUND message).
Proof.
  intros Hu Ht Hs He Hb Hq Hp Hz Hk. rewrite sent_frame_bytes in *.
  pose proof (sent_frame_fits _ _ _ _ _ _ _ Hu Ht Hs He Hb Hq Hp Hz) as Hf.
  set (f := sent_frame _ _ _ _ _ _) in *. unfold frame_bytes in *.
  rewrite length_app in Hk. change (length (encode_frame_header (frame_header f))) with 56%nat in Hk.
  destruct (Nat.lt_ge_cases k 56) as [Hlt|Hge].
  - exists "frame header is incomplete". unfold decode_frame, kFrameHeaderSize.
    destruct (Z.ltb_spec (sizez (take k (encode_frame_header (frame_header f) ++ frame_payload f))) 56)
      as [|Hn]; [done|]. unfold sizez in Hn. rewrite length_take in Hn. lia.
  - exists "frame payload is incomplete". rewrite take_app.
    change (length (encode_frame_header (frame_header f))) with 56%nat.
    rewrite take_ge by (change (length (encode_frame_header (frame_header f))) with 56%nat; lia).
    rewrite (decode_frame_head limits Hu f _ Hf).
    destruct (Z.ltb_spec (sizez (take (k - 56) (frame_payload f))) (sizez (frame_payload f)))
      as [|Hn]; [done|]. unfold sizez in Hn. rewrite length_take in Hn. lia.
Qed.

(** ** Payloads *)

#[global] Instance proof_kind_prim what :
  Prim (fun k => ProofKind.to_u8 k < 3) (fun k => w_u8 (ProofKind.to_u8 k))
    (r_enum_value ProofKind.of_u8 3 what).
Proof. enum_prim 3%nat. Qed.
#[global] Instance decision_prim what :
  Prim (fun k => PlanDecision.to_u8 k < 11) (fun k => w_u8 (PlanDecision.to_u8 k))
    (r_enum_value PlanDecision.of_u8 (PlanDecision.to_u8 PlanDecision.COUNT) what).
Proof. enum_prim 11%nat. Qed.

#[global] Instance d_option_steady {A} (m : Dec A) `{!Steady m} : Steady (d_option m).
Proof. unfold d_option. apply _. Qed.

Definition option_fits {A} (V : A -> Prop) (x : option A) : Prop :=
  match x with Some x => V x | None => True end.

#[global] Instance option_codec {A} (V : A -> Prop) e (m : Dec A) `{!Codec V e m} `{!Steady m} :
  Codec (option_fits V) (w_option e) (d_option m).
Proof.
  apply codec_intro; [apply _| |]; unfold d_option.
  - intros [x|] rest Hx; unfold w_option; rewrite <- ?app_assoc;
      rewrite (run_rd r_boolean) by done; [|done]. by run_codec.
  - intros d x r' Hrun Hd Hok. back_codec. destruct (_ : bool).
    + back_codec. split; [done|]. eexists. split; [|done]. unfold w_option. by rewrite <- app_assoc.
    + back_codec. split; [done|]. by eexists.
Qed.

Definition digested_plan_fits (limits : ModelLimits) (p : RecoveryPlan) : Prop :=
  plan_fits limits (set_identity p (plan_id p) zero_digest) /\ digest_fits (plan_digest p).

Definition stats_fits (s : SearchStats) : Prop :=
  in_u64 (st_nodes_expanded s) /\ in_u64 (st_nodes_generated s) /\
  in_u64 (st_nodes_pruned_by_dominance s) /\ in_u64 (st_nodes_pruned_by_safety s) /\
  in_u64 (st_nodes_pruned_by_authority s) /\ in_u64 (st_nodes_pruned_by_policy s) /\
  in_u64 (st_frontier_high_water s) /\ in_u64 (st_states_revisited s) /\ in_u64 (st_budget_nodes s).

Definition subject_fits (s : Subject) : Prop :=
  SubjectKind.to_u8 (subject_kind s) < 7 /\ in_u64 (subject_id s).

Definition certificate_fits (limits : ModelLimits) (c : InfeasibilityCertificate) : Prop :=
  ProofKind.to_u8 (cert_kind c) < 3 /\ digest_fits (cert_request_digest c) /\
  digest_fits (cert_policy_digest c) /\ in_u64 (cert_nodes_expanded c) /\
  in_u64 (cert_nodes_generated c) /\ in_u64 (cert_reachable_states c) /\
  list_fits in_u64 (max_actions limits) (cert_cycle c) /\
  SubjectKind.to_u8 (subject_kind (cert_unreachable_subject c)) < 7 /\
  in_u64 (subject_id (cert_unreachable_subject c)) /\ in_u64 (cert_unreachable_value c) /\
  in_u64 (cert_required_value c) /\
  list_fits (str_fits (u32 (max_string_length limits * 4))) 32 (cert_assumptions c) /\
  list_fits (explanation_fits limits) 64 (cert_explanations c).

Definition result_fits (limits : ModelLimits) (r : PlanningResult) : Prop :=
  PlanDecision.to_u8 (pr_decision r) < 11 /\ in_u64 (pr_request r) /\ in_u64 (pr_epoch r) /\
  in_u64 (pr_boot r) /\ in_u64 (pr_attempt r) /\
  option_fits (digested_plan_fits limits) (pr_plan r) /\
  option_fits (certificate_fits limits) (pr_certificate r) /\ stats_fits (pr_stats r) /\
  list_fits subject_fits (u32 (max_nodes limits + max_links limits + max_services limits +
                               max_resources limits)) (pr_unresolved_subjects r) /\
  list_fits (explanation_fits limits) 256 (pr_explanations r) /\ digest_fits (pr_request_digest r).

Definition finding_fits (f : ValidationFinding) : Prop :=
  ReasonCode.to_u8 (vf_code f) < 58 /\ in_u32 (vf_step f) /\ subject_fits (vf_subject f) /\
  str_fits 512 (vf_text f).

Definition report_fits (r : ValidationReport) : Prop :=
  (Forall in_u64 (component (vr_recomputed_objective r)) /\
   length (component (vr_recomputed_objective r)) = kObjectiveComponents) /\
  digest_fits (vr_stated_digest r) /\ digest_fits (vr_recomputed_digest r) /\
  list_fits finding_fits 512 (vr_findings r).

#[local] Opaque w_u8 w_u16 w_u32 w_u64 w_boolean w_str w_list encode_plan plan_fits encode_request.

#[global] Instance digested_plan_codec limits :
  Codec (digested_plan_fits limits) encode_digested_plan (decode_digested_plan limits).
Proof.
  apply codec_intro; [unfold decode_digested_plan; apply _| |];
    unfold decode_digested_plan, encode_digested_plan, digested_plan_fits.
  - intros p rest [Hp Hd]. rewrite <- (encode_plan_identity p zero_digest), <- !app_assoc.
    run_codec. by destruct p as [? ? ? ? ? ? ? ? ? ? ? ? []].
  - intros d p r' Hrun Hd Hok. back_codec. rewrite encode_plan_identity. simpl.
    match goal with H : plan_fits _ ?q |- _ => pose proof (plan_fits_digest _ _ H) as Hz end.
    unfold set_identity at 1. simpl.
    split; [split; [by unfold set_identity in Hz; rewrite Hz|done]|].
    eexists. split; [|done]. by rewrite <- !app_assoc.
Qed.

#[global] Instance cycle_entry_codec : Codec in_u64 w_u64 decode_cycle_entry.
Proof. apply group_id_codec. Qed.

#[global] Instance assumption_codec limits :
  Codec (str_fits (u32 (max_string_length limits * 4))) w_str (decode_assumption limits).
Proof.
  apply codec_intro; [unfold decode_assumption; apply _| |]; unfold decode_assumption.
  - intros x rest Hx. by run_codec.
  - intros d x r' Hrun Hd Hok. back_codec. split; [done|]. by eexists.
Qed.

#[global] Instance certificate_codec limits :
  Codec (certificate_fits limits) encode_certificate (decode_certificate limits).
Proof.
  apply codec_intro; [unfold decode_certificate; apply _| |];
    unfold decode_certificate, encode_certificate, certificate_fits.
  - intros [? ? ? ? ? ? ? [? ?] ? ? ? ?] rest Hx. simpl in Hx. simpl. rewrite <- ?app_assoc.
    by run_codec.
  - intros d x r' Hrun Hd Hok. back_codec. simpl. split; [tauto|].
    eexists. split; [|done]. by rewrite <- ?app_assoc.
Qed.

#[global] Instance stats_codec : Codec stats_fits encode_stats decode_stats.
Proof. solve_codec stats_fits encode_stats decode_stats. Qed.

#[global] Instance subject_codec what : Codec subject_fits encode_subject (decode_subject what).
Proof.
  apply codec_intro; [unfold decode_subject; apply _| |];
    unfold decode_subject, encode_subject, subject_fits.
  - intros [k i] rest Hx. simpl in Hx. simpl. rewrite <- ?app_assoc. by run_codec.
  - intros d x r' Hrun Hd Hok. back_codec. simpl. split; [tauto|].
    eexists. split; [|done]. by rewrite <- ?app_assoc.
Qed.

#[global] Instance finding_codec : Codec finding_fits encode_finding decode_finding.
Proof.
  apply codec_intro; [unfold decode_finding; apply _| |];
    unfold decode_finding, encode_finding, encode_subject, finding_fits, subject_fits.
  - intros [c st [k i] t] rest Hx. simpl in Hx. simpl. rewrite <- ?app_assoc. by run_codec.
  - intros d x r' Hrun Hd Hok. back_codec. simpl. split; [tauto|].
    eexists. split; [|done]. by rewrite <- ?app_assoc.
Qed.

#[local] Opaque encode_digested_plan encode_certificate encode_stats encode_subject encode_finding.

#[global] Instance result_codec limits :
  Codec (result_fits limits) encode_plan_response_payload (decode_plan_response_body limits).
Proof.
  apply codec_intro; [unfold decode_plan_response_body; apply _| |];
    unfold decode_plan_response_body, encode_plan_response_payload, result_fits.
  - intros x rest Hx. destruct x as [dec ? ? ? ? ? ? ? ? ? ?]. simpl in Hx. simpl.
    rewrite <- ?app_assoc. run_codec.
    replace (PlanDecision.is_valid dec) with true by (destruct dec; simpl in Hx; done || lia).
    cbn [negb]. by run_codec.
  - intros d x r' Hrun Hd Hok. back_codec. destruct (negb _); [discriminate|]. back_codec. simpl.
    split; [tauto|]. eexists. split; [|done]. by rewrite <- ?app_assoc.
Qed.

#[local] Existing Instance components_codec.

#[global] Instance report_codec :
  Codec report_fits encode_validate_response_payload decode_validate_response_body.
Proof.
  apply codec_intro; [unfold decode_validate_response_body; apply _| |];
    unfold decode_validate_response_body, encode_validate_response_payload, encode_objective,
      report_fits.
  - intros [? ? ? [?] ? ? ?] rest Hx. simpl in Hx. simpl. rewrite <- ?app_assoc. by run_codec.
  - intros d x r' Hrun Hd Hok. back_codec. simpl. split; [tauto|].
    eexists. split; [|done]. by rewrite <- ?app_assoc.
Qed.

#[global] Instance validate_request_codec limits :
  Codec (fun x => request_fits limits (fst x) /\ digested_plan_fits limits (snd x))
    (fun x => encode_validate_request_payload (fst x) (snd x)) (decode_validate_request_body limits).
Proof.
  apply codec_intro; [unfold decode_validate_request_body; apply _| |];
    unfold decode_validate_request_body, encode_validate_request_payload.
  - intros [q p] rest [Hq Hp]. simpl in Hq, Hp. cbn [fst snd]. rewrite <- app_assoc. by run_codec.
  - intros d x r' Hrun Hd Hok. back_codec. simpl. split; [tauto|].
    eexists. split; [|done]. by rewrite <- ?app_assoc.
Qed.

#[local] Transparent w_u8 w_u16 w_u32 w_u64 w_boolean w_str w_list encode_plan plan_fits encode_request
  encode_digested_plan encode_certificate encode_stats encode_subject encode_finding.

(** ** Error payloads *)

Lemma r_u16_read d : Forall in_u8 d -> 2 <= sizez d ->
  r_u16 (reader d) = (read_u16 d 0, reader (drop 2 d)).
Proof.
  intros Hd Hs. unfold r_u16. rewrite need_reader by done. unfold advance. cbn [rd_data reader rd_error].
  unfold sizez in Hs. destruct d as [|a [|b d]]; [simpl in Hs; lia|simpl in Hs; lia|].
  apply Forall_cons in Hd as [Ha Hd]. apply Forall_cons in Hd as [Hb _].
  unfold read_u16. simpl. f_equal. f_equal. unfold u16. apply Z.mod_small.
  unfold in_u8 in Hb. rewrite Z.shiftl_mul_pow2 by lia. lia.
Qed.

#[global] Instance r_u16_steady : SteadyRd r_u16.
Proof. intros r Hr. unfold r_u16. by rewrite need_bad. Qed.

#[global] Instance r_u16_prim : Prim in_u16 w_u16 r_u16.
Proof.
  split.
  - intros x rest Hx. unfold r_u16. rewrite need_reader by (unfold sizez; simpl; lia).
    unfold advance. cbn [rd_data reader rd_error].
    assert (Hv : read_u16 (w_u16 x ++ rest) 0 = x) by (by apply read_u16_at).
    unfold read_u16 in Hv. simpl in *. f_equal. rewrite <- Hv at 3. f_equal.
    unfold u16. apply Z.mod_small. pose proof (land_ff_u8 (Z.shiftr x 8)) as Hb. unfold in_u8 in Hb.
    rewrite Z.shiftl_mul_pow2 by lia. lia.
  - intros r x r' Hb Hr Hok. destruct (rd_ok r) eqn:Hrok.
    2:{ pose proof (steady_rd (m := r_u16) r Hrok) as Hs. rewrite Hr in Hs. simpl in Hs. congruence. }
    rewrite (rd_ok_reader r Hrok) in *. cbn [rd_data reader] in Hb.
    destruct (Z.lt_ge_cases (sizez (rd_data r)) 2) as [Hs|Hs].
    { unfold r_u16, need, remaining in Hr. simpl in Hr.
      destruct (Z.ltb_spec (sizez (rd_data r)) 2); [|lia]. injection Hr as <- <-. done. }
    rewrite r_u16_read in Hr by done. injection Hr as <- <-.
    destruct (unread_u16 (rd_data r) 0 Hb) as [Hx He]; [unfold sizez in Hs; lia|].
    split; [done|]. exists (drop 2 (rd_data r)). split; [|done]. rewrite drop_0 in He.
    exact (f_equal reader He).
Qed.

#[global] Instance r_error_code_steady : SteadyRd r_error_code.
Proof.
  intros r Hr. pose proof (steady_rd (m := r_u16) r Hr) as H. unfold r_error_code.
  destruct (r_u16 r) as [v r1]. simpl in *. by rewrite H.
Qed.

#[global] Instance r_error_code_prim :
  Prim (fun c => ErrorCode.to_u16 c < 17) (fun c => w_u16 (ErrorCode.to_u16 c)) r_error_code.
Proof.
  split.
  - intros c rest Hc. unfold r_error_code. rewrite prim_dec_enc
      by (unfold in_u16; destruct c; simpl in *; lia). by destruct c; [..|simpl in Hc; lia].
  - intros r c r' Hb. unfold r_error_code. destruct (r_u16 r) as [v r1] eqn:Hv.
    destruct (rd_ok r1) eqn:Hok1; simpl; [|intros [= <- <-]; congruence].
    destruct (Z.leb_spec 17 v); [intros [= <- <-]; by rewrite fail_not_ok|].
    intros [= <- <-] _. destruct (prim_enc_dec _ _ _ Hb Hv Hok1) as (Hu & rest & -> & ->).
    assert (Hinv : ErrorCode.to_u16 (ErrorCode.of_u16 v) = v).
    { apply Z.eqb_eq. refine (proj1 (forallb_forall
        (fun v => ErrorCode.to_u16 (ErrorCode.of_u16 v) =? v) (below 17)) eq_refl v _).
      apply list_elem_of_In, elem_of_below. unfold in_u16 in Hu. lia. }
    rewrite Hinv. split; [lia|]. by exists rest.
Qed.

Definition error_fits (e : ErrorPayload) : Prop :=
  ErrorCode.to_u16 (err_code e) < 17 /\ ReasonCode.to_u8 (err_reason e) < 58 /\
  str_fits 512 (err_text e).

#[local] Opaque w_u8 w_u16 w_str.
#[global] Instance error_codec : Codec error_fits encode_error_payload decode_error_body.
Proof. solve_codec error_fits encode_error_payload decode_error_body. Qed.
#[local] Transparent w_u8 w_u16 w_str.

(** C31: the payloads that cross the wire decode exactly. A payload is accepted as a
    planning result, a validation request, a validation report or an error when,
    and only when, it is the encoding of the value returned and that value fits the
    types and bounds of the protocol. Values within the bounds are therefore
    transmitted without loss; one beyond them, such as a report of more than 512
    findings, is not decoded at all. *)
Theorem payloads_lossless limits payload :
  Forall in_u8 payload ->
  (forall r, decode_plan_response_payload payload limits = Ok r <->
     result_fits (limits_model limits) r /\ payload = encode_plan_response_payload r) /\
  (forall q p, decode_validate_request_payload payload limits = Ok (q, p) <->
     (request_fits (limits_model limits) q /\ digested_plan_fits (limits_model limits) p) /\
     payload = encode_validate_request_payload q p) /\
  (forall r, decode_validate_response_payload payload = Ok r <->
     report_fits r /\ payload = encode_validate_response_payload r) /\
  (forall e, decode_error_payload payload = Ok e <->
     error_fits e /\ payload = encode_error_payload e).
Proof.
  intros Hp. split_and!; intros.
  - by apply (decode_all_iff (decode_plan_response_body (limits_model limits))).
  - pose proof (decode_all_iff (decode_validate_request_body (limits_model limits)) payload (q, p) Hp)
      as H. exact H.
  - by apply (decode_all_iff decode_validate_response_body).
  - by apply (decode_all_iff decode_error_body).
Qed.

Lemma decode_all_err {A} (m : Dec A) bytes s reader_err :
  m (reader bytes) = (Err s, reader_err) -> decode_all m bytes = Err s.
Proof. unfold decode_all, dbind. by intros ->. Qed.

(** Reports are bounded by the reader only. The validator puts no bound on
    its findings, and the service sends what it found: a report of more than 512
    findings is encoded, and no client can decode it. *)
Theorem long_report_undecodable r :
  512 < sizez (vr_findings r) < 2 ^ 32 ->
  Forall in_u64 (component (vr_recomputed_objective r)) ->
  length (component (vr_recomputed_objective r)) = kObjectiveComponents ->
  digest_fits (vr_stated_digest r) -> digest_fits (vr_recomputed_digest r) ->
  decode_validate_response_payload (encode_validate_response_payload r) =
    Err (mkStatus StatusCode.OUT_OF_RANGE
           ("declared count for validation findings exceeds the model limit: " +:+
            pretty (sizez (vr_findings r)) +:+ " > " +:+ pretty 512)).
Proof.
  intros Hs Hc Hl Hd1 Hd2. destruct r as [b1 b2 b3 [o] d1 d2 fs].
  cbn [vr_findings vr_recomputed_objective vr_stated_digest vr_recomputed_digest component] in *.
  apply decode_all_err with (reader_err := fail StatusCode.OUT_OF_RANGE
      ("declared count for validation findings exceeds the model limit: " +:+
       pretty (sizez fs) +:+ " > " +:+ pretty 512) (reader (concat (map encode_finding fs)))).
  unfold decode_validate_response_body, encode_validate_response_payload, encode_objective.
  cbn [vr_valid vr_objective_matches vr_digest_matches vr_findings vr_recomputed_objective
       vr_stated_digest vr_recomputed_digest component].
  run_codec. unfold d_list, w_list, dbind, rd, r_bounded_count.
  rewrite u32_small by (unfold in_u32; lia).
  rewrite prim_dec_enc by (unfold in_u32; lia). simpl rd_ok. cbn [negb].
  destruct (Z.ltb_spec 512 (sizez fs)); [done|lia].
Qed.

(** ** The handshake's payloads *)

Lemma fst_of {A B} (x : A * B) a b : x = (a, b) -> x.1 = a.
Proof. by intros ->. Qed.

#[local] Opaque w_u32 w_u64.
Lemma decode_hello_encode nonce features :
  in_u64 nonce -> in_u32 features -> nonce <> 0 ->
  decode_hello (encode_hello nonce features) = Ok nonce.
Proof.
  intros Hn Hf H0. apply fst_of with (b := reader []).
  rewrite <- (app_nil_r (encode_hello nonce features)). unfold encode_hello. rewrite <- app_assoc.
  run_codec. unfold dbind. change (require_end (reader [])) with (Ok tt : result Status unit, reader []).
  cbv beta iota. destruct (Z.eqb_spec nonce 0); [done|]. reflexivity.
Qed.

Lemma decode_hello_ack_encode a :
  in_u64 (ack_session a) -> in_u64 (ack_epoch a) -> in_u64 (ack_boot a) ->
  in_u64 (ack_server_nonce a) -> in_u64 (ack_next_sequence a) ->
  ack_session a <> 0 -> ack_next_sequence a <> 0 ->
  decode_hello_ack (encode_hello_ack a) = Ok a.
Proof.
  destruct a as [s e b n q]. simpl. intros Hs He Hb Hn Hq Hs0 Hq0. apply fst_of with (b := reader []).
  rewrite <- (app_nil_r (encode_hello_ack _)). unfold encode_hello_ack. simpl. rewrite <- !app_assoc.
  run_codec. unfold dbind. change (require_end (reader [])) with (Ok tt : result Status unit, reader []).
  cbv beta iota. unfold is_zero. destruct (Z.eqb_spec s 0); [done|].
  destruct (Z.eqb_spec q 0); [done|]. reflexivity.
Qed.
#[local] Transparent w_u32 w_u64.

(** ** Concrete frames and payloads *)

Lemma protocol_limits_ok : in_u32 (max_payload_bytes default_protocol_limits).
Proof. unfold in_u32. simpl. lia. Qed.

Lemma hello_bytes : Forall in_u8 (encode_hello 77 0).
Proof. unfold encode_hello. encoder_bytes. Qed.

(** A HELLO frame with the first byte of the next one behind it. *)
Lemma decode_frame_iff_witness :
  decode_frame default_protocol_limits
    (encode_frame FrameType.HELLO 0 0 0 1 (encode_hello 77 0) ++ [0x46]) =
    Ok (sent_frame FrameType.HELLO 0 0 0 1 (encode_hello 77 0), 68).
Proof.
  assert (Hf : frame_fits default_protocol_limits
                 (sent_frame FrameType.HELLO 0 0 0 1 (encode_hello 77 0))).
  { apply sent_frame_fits; [exact protocol_limits_ok|discriminate|unfold in_u64; lia|
      unfold in_u64; lia|unfold in_u64; lia|unfold in_u64; lia|exact hello_bytes|].
    vm_compute. discriminate. }
  apply (decode_frame_iff default_protocol_limits _ _ _ protocol_limits_ok).
  - apply Forall_app_2; [|concrete_bytes]. rewrite sent_frame_bytes. unfold frame_bytes.
    apply Forall_app_2; [|exact hello_bytes]. unfold encode_frame_header.
    apply Forall_app_2; [apply header_bytes_u8|apply w_u32_bytes].
  - split; [exact Hf|]. split; [reflexivity|]. exists [0x46]. reflexivity.
Defined.

Lemma partial_frame_incomplete_witness :
  exists message, decode_frame default_protocol_limits
      (take 60 (encode_frame FrameType.HELLO 0 0 0 1 (encode_hello 77 0))) =
    Err (mkStatus StatusCode.NOT_FOUND message).
Proof.
  apply (partial_frame_incomplete default_protocol_limits FrameType.HELLO 0 0 0 1
           (encode_hello 77 0) 60);
    [exact protocol_limits_ok|discriminate|unfold in_u64; lia|unfold in_u64; lia|
     unfold in_u64; lia|unfold in_u64; lia|exact hello_bytes|vm_compute; discriminate|].
  apply Nat.ltb_lt. reflexivity.
Defined.

Definition sample_error : ErrorPayload :=
  mkErrorPayload ErrorCode.QUEUE_LIMIT ReasonCode.NONE "queue full".

Lemma payloads_lossless_witness :
  decode_error_payload (encode_error_payload sample_error) = Ok sample_error.
Proof.
  assert (Hb : Forall in_u8 (encode_error_payload sample_error)).
  { unfold encode_error_payload. encoder_bytes. }
  destruct (payloads_lossless default_protocol_limits _ Hb) as (_ & _ & _ & H).
  apply H. split; [|reflexivity]. split; [reflexivity|]. split; [reflexivity|].
  split; [vm_compute; discriminate|]. by vm_compute.
Defined.

(** The report of a plan with 513 faulty steps. *)
Definition long_report : ValidationReport :=
  mkReport false true true (mkObjective [0; 0; 0; 0; 0; 0; 0; 0]) zero_digest zero_digest
    (repeat (mkFinding ReasonCode.PROOF_DEPENDENCY_CYCLE 0 default_subject "") 513).

Lemma long_report_undecodable_witness :
  is_ok (decode_validate_response_payload (encode_validate_response_payload long_report)) = false.
Proof.
  rewrite (long_report_undecodable long_report); [reflexivity| | | | |].
  - vm_compute. split; reflexivity.
  - simpl. repeat (apply Forall_cons; split; [unfold in_u64; lia|]). apply Forall_nil. exact I.
  - reflexivity.
  - split; unfold in_u64; simpl; lia.
  - split; unfold in_u64; simpl; lia.
Defined.
