(* ===== verification/Session.v ===== *)
(** * Session registry

    Models [SessionRegistry] of [src/runtime_service.cpp] and
    [include/nrp/runtime.hpp]: the bounded table of session records behind
    the server. Every method takes the registry's mutex for its whole body, so
    each one is a function on the table. The second half states what the
    registry promises as operations on a finite map from live session
    identities to their authority, and proves that the table implements them. *)
From S2P Require Import Prelude Ids.

Abbreviation SessionId := Z (only parsing).

Record SessionRecord := mkSession {
  sr_id : SessionId;
  sr_epoch : Epoch;
  sr_boot : BootId;
  sr_last_client_sequence : Sequence;
  sr_server_sequence : Sequence;
  sr_client_nonce : Z;
  sr_active_requests : Z;
  sr_closed : bool
}.

Record SessionRegistry := mkRegistry {
  rg_sessions : list SessionRecord;
  rg_max_sessions : Z;
  rg_high_water : Z;
  rg_next_id : Z
}.

Definition fresh_session : SessionRecord := mkSession 0 0 0 0 0 0 0 false.
#[global] Instance SessionRecord_inhabited : Inhabited SessionRecord := populate fresh_session.

Definition new_registry (max_sessions : Z) : SessionRegistry :=
  mkRegistry [] (if max_sessions =? 0 then 1 else max_sessions) 0 1.

Definition set_sessions (reg : SessionRegistry) (l : list SessionRecord) : SessionRegistry :=
  mkRegistry l (rg_max_sessions reg) (rg_high_water reg) (rg_next_id reg).

(** The record [create] writes into the slot it found. *)
Definition opened (id : SessionId) (epoch : Epoch) (boot : BootId) (client_nonce : Z) : SessionRecord :=
  mkSession id epoch boot 0 0 client_nonce 0 false.

Definition session_create (reg : SessionRegistry) (epoch : Epoch) (boot : BootId) (client_nonce : Z)
  : result Status SessionRecord * SessionRegistry :=
  let session := opened (rg_next_id reg) epoch boot client_nonce in
  let next := u64 (rg_next_id reg + 1) in
  match find_index sr_closed (rg_sessions reg) with
  | Some slot =>
      (Ok session, mkRegistry (<[slot := session]> (rg_sessions reg)) (rg_max_sessions reg)
                     (rg_high_water reg) next)
  | None =>
      if rg_max_sessions reg <=? sizez (rg_sessions reg)
      then (Err (mkStatus StatusCode.EXHAUSTED "session table is full"), reg)
      else
        let l := rg_sessions reg ++ [session] in
        (Ok session, mkRegistry l (rg_max_sessions reg)
                       (if rg_high_water reg <? sizez l then u32 (sizez l) else rg_high_water reg)
                       next)
  end.

Definition is_session (id : SessionId) (r : SessionRecord) : bool :=
  (sr_id r =? id) && negb (sr_closed r).

Definition not_established : Status := mkStatus StatusCode.NOT_FOUND "session is not established".

Definition session_accept (reg : SessionRegistry) (id : SessionId) (epoch : Epoch) (boot : BootId)
  (sequence : Sequence) : result Status unit * SessionRegistry :=
  match find_index (is_session id) (rg_sessions reg) with
  | None => (Err not_established, reg)
  | Some i =>
      let r := rg_sessions reg !!! i in
      if negb ((sr_epoch r =? epoch) && (sr_boot r =? boot))
      then (Err (mkStatus StatusCode.STATE_MISMATCH
                   "frame authority does not match the established session"), reg)
      else if sequence <=? sr_last_client_sequence r
      then (Err (mkStatus StatusCode.STATE_MISMATCH "frame sequence is not strictly increasing"), reg)
      else (Ok tt, set_sessions reg (<[i :=
              mkSession (sr_id r) (sr_epoch r) (sr_boot r) sequence (sr_server_sequence r)
                (sr_client_nonce r) (u64 (sr_active_requests r + 1)) (sr_closed r)]> (rg_sessions reg)))
  end.

Definition session_release (reg : SessionRegistry) (id : SessionId)
  : result Status unit * SessionRegistry :=
  match find_index (fun r => sr_id r =? id) (rg_sessions reg) with
  | None => (Err not_established, reg)
  | Some i =>
      let r := rg_sessions reg !!! i in
      (Ok tt, set_sessions reg (<[i :=
         mkSession (sr_id r) (sr_epoch r) (sr_boot r) (sr_last_client_sequence r)
           (sr_server_sequence r) (sr_client_nonce r) 0 true]> (rg_sessions reg)))
  end.

Definition session_get (reg : SessionRegistry) (id : SessionId) : result Status SessionRecord :=
  match find_index (is_session id) (rg_sessions reg) with
  | None => Err not_established
  | Some i => Ok (rg_sessions reg !!! i)
  end.

Definition session_size (reg : SessionRegistry) : Z :=
  u32 (sizez (filter (fun r => sr_closed r = false) (rg_sessions reg))).

Definition session_high_water (reg : SessionRegistry) : Z := rg_high_water reg.

(** ** The table as a map

    What a client can observe of the registry: the live sessions, each with its
    epoch, boot identity and last accepted sequence. *)
Abbreviation Authority := (Z * Z * Z)%type (only parsing).

Definition authority (r : SessionRecord) : Authority :=
  (sr_epoch r, sr_boot r, sr_last_client_sequence r).

Definition live (reg : SessionRegistry) : gmap SessionId Authority :=
  list_to_map ((fun r => (sr_id r, authority r)) <$>
               filter (fun r => sr_closed r = false) (rg_sessions reg)).

(** The promise of [accept] on that map. *)
Definition accept_spec (m : gmap SessionId Authority) (id : SessionId) (epoch : Epoch)
  (boot : BootId) (sequence : Sequence) : result Status unit * gmap SessionId Authority :=
  match m !! id with
  | None => (Err not_established, m)
  | Some (e, b, last) =>
      if negb ((e =? epoch) && (b =? boot))
      then (Err (mkStatus StatusCode.STATE_MISMATCH
                   "frame authority does not match the established session"), m)
      else if sequence <=? last
      then (Err (mkStatus StatusCode.STATE_MISMATCH "frame sequence is not strictly increasing"), m)
      else (Ok tt, <[id := (e, b, sequence)]> m)
  end.

(** Identities are distinct, below the next one and never zero; the table stays
    within its bound, and the high water mark is its length. *)
Record SessionInv (reg : SessionRegistry) : Prop := {
  session_ids : forall i j r s, rg_sessions reg !! i = Some r -> rg_sessions reg !! j = Some s ->
    sr_id r = sr_id s -> i = j;
  session_id_range : forall i r, rg_sessions reg !! i = Some r -> 0 < sr_id r < rg_next_id reg;
  session_next : 0 < rg_next_id reg <= UINT64_MAX;
  session_bound : sizez (rg_sessions reg) <= rg_max_sessions reg;
  session_max : 0 < rg_max_sessions reg < 2 ^ 32;
  session_high : rg_high_water reg = sizez (rg_sessions reg)
}.

Lemma new_registry_inv max_sessions : in_u32 max_sessions -> SessionInv (new_registry max_sessions).
Proof.
  unfold in_u32, new_registry. intros Hm. split; simpl; try (intros; by rewrite lookup_nil in *).
  - unfold UINT64_MAX. lia.
  - unfold sizez. simpl. destruct (Z.eqb_spec max_sessions 0); lia.
  - destruct (Z.eqb_spec max_sessions 0); lia.
  - done.
Qed.

Section Registry.
Context (reg : SessionRegistry) (Hinv : SessionInv reg).

Lemma live_keys_NoDup :
  NoDup (fst <$> ((fun r => (sr_id r, authority r)) <$>
                  filter (fun r => sr_closed r = false) (rg_sessions reg))).
Proof.
  destruct Hinv as [Hids _ _ _ _ _]. rewrite <- list_fmap_compose.
  assert (Hnd : NoDup (sr_id <$> rg_sessions reg)).
  { apply NoDup_alt. intros i j id Hi Hj.
    apply list_lookup_fmap_Some in Hi as (r & -> & Hi).
    apply list_lookup_fmap_Some in Hj as (s & Heq & Hj). by eapply Hids. }
  clear -Hnd. induction (rg_sessions reg) as [|r l IH]; [constructor|].
  apply NoDup_cons in Hnd as [Hr Hnd]. rewrite filter_cons. destruct (decide _); [|auto].
  simpl. constructor; [|auto]. intros (s & Hs & Hin)%list_elem_of_fmap.
  apply list_elem_of_filter in Hin as [_ Hin]. apply Hr. simpl in Hs. rewrite Hs.
  by apply list_elem_of_fmap_2.
Qed.

Lemma live_lookup id a :
  live reg !! id = Some a <->
  exists i r, rg_sessions reg !! i = Some r /\ sr_closed r = false /\ sr_id r = id /\ authority r = a.
Proof.
  unfold live. rewrite <- elem_of_list_to_map by apply live_keys_NoDup.
  rewrite list_elem_of_fmap. split.
  - intros (r & [= -> ->] & Hin). apply list_elem_of_filter in Hin as [Hc Hin].
    apply list_elem_of_lookup in Hin as [i Hi]. eauto 6.
  - intros (i & r & Hi & Hc & <- & <-). exists r. split; [done|].
    apply list_elem_of_filter. split; [done|]. by eapply list_elem_of_lookup_2.
Qed.

Lemma live_none_find id :
  find_index (is_session id) (rg_sessions reg) = None -> live reg !! id = None.
Proof.
  intros Hn. apply eq_None_not_Some. intros [a Ha].
  apply live_lookup in Ha as (i & r & Hi & Hc & <- & _).
  apply find_index_None in Hn. eapply Forall_lookup_1 in Hn; [|done].
  unfold is_session in Hn. rewrite Z.eqb_refl, Hc in Hn. done.
Qed.

Lemma live_some_find id i :
  find_index (is_session id) (rg_sessions reg) = Some i ->
  exists r, rg_sessions reg !! i = Some r /\ rg_sessions reg !!! i = r /\
    sr_id r = id /\ sr_closed r = false /\ live reg !! id = Some (authority r).
Proof.
  intros (Hlt & Hp & _)%find_index_Some.
  destruct (lookup_lt_is_Some_2 _ _ Hlt) as [r Hr].
  rewrite (list_lookup_total_correct _ _ _ Hr) in *.
  unfold is_session in Hp. bool_cases. exists r. split_and!; try done.
  apply live_lookup. eauto 6.
Qed.
End Registry.

(** Rewriting one slot by a record of the same identity. *)
Lemma session_update reg i r r' :
  SessionInv reg -> rg_sessions reg !! i = Some r -> sr_id r' = sr_id r ->
  SessionInv (set_sessions reg (<[i := r']> (rg_sessions reg))) /\
  (sr_closed r' = false ->
   live (set_sessions reg (<[i := r']> (rg_sessions reg))) = <[sr_id r := authority r']> (live reg)) /\
  (sr_closed r' = true ->
   live (set_sessions reg (<[i := r']> (rg_sessions reg))) = delete (sr_id r) (live reg)).
Proof.
  intros Hinv Hi Hid. pose proof (lookup_lt_Some _ _ _ Hi) as Hlt.
  set (reg' := set_sessions _ _).
  assert (Hat : forall j s, rg_sessions reg' !! j = Some s ->
            (j = i /\ s = r') \/ (j <> i /\ rg_sessions reg !! j = Some s)).
  { intros j s. simpl. destruct (decide (i = j)) as [<-|].
    - rewrite list_lookup_insert_eq by done. intros [= <-]. by left.
    - rewrite list_lookup_insert_ne by done. right. split; [congruence|done]. }
  assert (Hinv' : SessionInv reg').
  { destruct Hinv as [Hids Hr Hn Hb Hm Hh]. split; simpl; try done.
    - intros j k s t [[-> ->]|[? Hj]]%Hat [[-> ->]|[? Hk]]%Hat Heq.
      + done.
      + eapply Hids; [done..|congruence].
      + eapply Hids; [done..|congruence].
      + by eapply Hids.
    - intros j s [[-> ->]|[? Hj]]%Hat; [rewrite Hid|]; by eapply Hr.
    - unfold sizez in *. by rewrite length_insert.
    - unfold sizez in *. by rewrite length_insert. }
  split_and!; [done| |].
  - intros Hc. apply map_eq. intros id. apply option_eq. intros a.
    rewrite live_lookup by done. destruct (decide (id = sr_id r)) as [->|Hne].
    + rewrite lookup_insert_eq. split.
      * intros (j & s & [[-> ->]|[Hj1 Hj]]%Hat & _ & Hs & <-); [done|].
        exfalso. apply Hj1. by eapply (session_ids _ Hinv).
      * intros [= <-]. exists i, r'. simpl. by rewrite list_lookup_insert_eq.
    + rewrite lookup_insert_ne, live_lookup by (done || congruence). split.
      * intros (j & s & [[-> ->]|[Hj1 Hj]]%Hat & Hcs & Hs & Ha); [congruence|eauto 6].
      * intros (j & s & Hj & Hcs & Hs & Ha). exists j, s. simpl.
        rewrite list_lookup_insert_ne; [done|]. intros <-. congruence.
  - intros Hc. apply map_eq. intros id. apply option_eq. intros a.
    rewrite live_lookup by done. rewrite lookup_delete_Some, live_lookup by done. split.
    + intros (j & s & [[-> ->]|[Hj1 Hj]]%Hat & Hcs & Hs & Ha); [congruence|].
      split; [|eauto 6]. intros Heq. apply Hj1.
      eapply (session_ids _ Hinv); [done..|congruence].
    + intros (Hne & j & s & Hj & Hcs & Hs & Ha). exists j, s. simpl.
      rewrite list_lookup_insert_ne; [done|]. intros <-. congruence.
Qed.

(** A record with the next identity enters at a position where no live record was. *)
Lemma session_enter reg reg' i session :
  SessionInv reg -> sr_id session = rg_next_id reg -> sr_closed session = false ->
  rg_next_id reg < UINT64_MAX -> rg_next_id reg' = rg_next_id reg + 1 ->
  rg_max_sessions reg' = rg_max_sessions reg ->
  sizez (rg_sessions reg') <= rg_max_sessions reg -> rg_high_water reg' = sizez (rg_sessions reg') ->
  rg_sessions reg' !! i = Some session ->
  (forall j, j <> i -> rg_sessions reg' !! j = rg_sessions reg !! j) ->
  (forall r, rg_sessions reg !! i = Some r -> sr_closed r = true) ->
  SessionInv reg' /\ live reg !! sr_id session = None /\
  live reg' = <[sr_id session := authority session]> (live reg).
Proof.
  intros Hinv Hid Hopen Hnext Hnext' Hmax Hsize Hhigh Hi Hother Hclosed.
  pose proof (session_id_range _ Hinv) as Hrange. pose proof (session_next _ Hinv) as Hpos.
  assert (Hat : forall j s, rg_sessions reg' !! j = Some s ->
            (j = i /\ s = session) \/ (j <> i /\ rg_sessions reg !! j = Some s)).
  { intros j s Hj. destruct (decide (j = i)) as [->|]; [left; by simplify_eq|].
    right. split; [done|]. by rewrite <- Hother. }
  assert (Hinv' : SessionInv reg').
  { split; try (rewrite ?Hnext', ?Hmax; by destruct Hinv || lia).
    - intros j k s t [[-> ->]|[? Hj]]%Hat [[-> ->]|[? Hk]]%Hat Heq; try done.
      + apply Hrange in Hk. lia.
      + apply Hrange in Hj. lia.
      + by eapply (session_ids _ Hinv).
    - intros j s [[-> ->]|[? Hj]]%Hat; rewrite Hnext'; [lia|]. apply Hrange in Hj. lia.
    - rewrite Hnext'. lia. }
  split_and!; [done| |].
  - apply eq_None_not_Some. intros [a Ha].
    apply live_lookup in Ha as (j & r & Hj & _ & Heq & _); [|done]. apply Hrange in Hj. lia.
  - apply map_eq. intros id. apply option_eq. intros a. rewrite live_lookup by done.
    destruct (decide (id = sr_id session)) as [->|Hne].
    + rewrite lookup_insert_eq. split.
      * intros (j & s & [[-> ->]|[_ Hj]]%Hat & _ & Hs & <-); [done|]. apply Hrange in Hj. lia.
      * intros [= <-]. eauto 6.
    + rewrite lookup_insert_ne, live_lookup by (done || congruence). split.
      * intros (j & s & [[-> ->]|[Hj1 Hj]]%Hat & Hcs & Hs & Ha); [congruence|eauto 6].
      * intros (j & s & Hj & Hcs & Hs & Ha). exists j, s. rewrite Hother; [done|].
        intros ->. apply Hclosed in Hj. congruence.
Qed.

Lemma session_size_live reg : SessionInv reg -> session_size reg = Z.of_nat (size (live reg)).
Proof.
  intros Hinv. unfold session_size, live.
  rewrite map_size_list_to_map by by apply live_keys_NoDup. rewrite length_fmap. apply u32_small.
  pose proof (session_bound _ Hinv). pose proof (session_max _ Hinv).
  pose proof (length_filter (fun r => sr_closed r = false) (rg_sessions reg)).
  unfold in_u32, sizez in *. lia.
Qed.

Lemma create_spec reg epoch boot nonce :
  SessionInv reg -> rg_next_id reg < UINT64_MAX ->
  match session_create reg epoch boot nonce with
  | (Ok r, reg') =>
      r = opened (rg_next_id reg) epoch boot nonce /\ rg_next_id reg' = rg_next_id reg + 1 /\
      SessionInv reg' /\ live reg !! sr_id r = None /\
      live reg' = <[sr_id r := authority r]> (live reg)
  | (Err s, reg') =>
      s = mkStatus StatusCode.EXHAUSTED "session table is full" /\ reg' = reg /\
      session_size reg = rg_max_sessions reg
  end.
Proof.
  intros Hinv Hnext. pose proof (session_next _ Hinv) as Hpos.
  pose proof (session_bound _ Hinv) as Hbound. pose proof (session_max _ Hinv) as Hmax.
  pose proof (session_high _ Hinv) as Hhigh.
  assert (Hu : u64 (rg_next_id reg + 1) = rg_next_id reg + 1).
  { apply u64_small. unfold in_u64, UINT64_MAX in *. lia. }
  unfold session_create. rewrite Hu. destruct (find_index sr_closed _) as [slot|] eqn:Hslot.
  - apply find_index_Some in Hslot as (Hlt & Hc & _).
    split; [done|]. split; [done|].
    eapply (session_enter _ _ slot); simpl; try done;
       [unfold sizez in *; by rewrite length_insert|unfold sizez in *; by rewrite length_insert
       |by apply list_lookup_insert_eq|intros j Hj; by rewrite list_lookup_insert_ne
       |intros r Hr; by rewrite (list_lookup_total_correct _ _ _ Hr) in Hc].
  - destruct (Z.leb_spec (rg_max_sessions reg) (sizez (rg_sessions reg))) as [Hfull|Hroom].
    + split_and!; [done..|]. unfold session_size.
      assert (Hall : filter (fun r => sr_closed r = false) (rg_sessions reg) = rg_sessions reg).
      { apply find_index_None in Hslot. clear -Hslot.
        induction Hslot as [|r l Hr _ IH]; [done|]. by rewrite filter_cons_True, IH. }
      rewrite Hall, u32_small; unfold in_u32; lia.
    + assert (Hlen : sizez (rg_sessions reg ++ [opened (rg_next_id reg) epoch boot nonce]) =
                     sizez (rg_sessions reg) + 1).
      { unfold sizez. rewrite length_app. simpl. lia. }
      rewrite Hlen, (proj2 (Z.ltb_lt _ _)) by lia.
      split; [done|]. split; [done|].
      eapply (session_enter _ _ (length (rg_sessions reg))); simpl; try done;
         [lia|rewrite Hlen; apply u32_small; unfold in_u32, sizez in *; lia
         |by apply list_lookup_middle
         |intros j Hj; destruct (decide (j < length (rg_sessions reg))%nat);
          [by rewrite lookup_app_l
          |rewrite lookup_ge_None_2 by (rewrite length_app; simpl; lia);
           rewrite lookup_ge_None_2 by lia; done]
         |intros r Hr; rewrite lookup_ge_None_2 in Hr by done; done].
Qed.

Lemma accept_refines reg id epoch boot sequence :
  SessionInv reg ->
  let '(res, reg') := session_accept reg id epoch boot sequence in
  SessionInv reg' /\ (res, live reg') = accept_spec (live reg) id epoch boot sequence.
Proof.
  intros Hinv. unfold session_accept, accept_spec.
  destruct (find_index (is_session id) _) as [i|] eqn:Hf.
  - destruct (live_some_find _ Hinv _ _ Hf) as (r & Hi & -> & Hid & Hc & ->). unfold authority.
    destruct (negb _); [done|]. destruct (_ <=? _); [done|].
    match goal with |- context [<[i := ?r']> (rg_sessions reg)] =>
      destruct (session_update reg i r r' Hinv Hi) as (Hinv' & Hlive & _); [done|] end.
    split; [exact Hinv'|]. rewrite Hlive, Hid by done. done.
  - by rewrite (live_none_find _ Hinv _ Hf).
Qed.

Lemma release_refines reg id :
  SessionInv reg ->
  let '(res, reg') := session_release reg id in
  SessionInv reg' /\ live reg' = delete id (live reg) /\
  (is_Some (live reg !! id) -> res = Ok tt).
Proof.
  intros Hinv. unfold session_release. destruct (find_index _ _) as [i|] eqn:Hf.
  - apply find_index_Some in Hf as (Hlt & Heq & _). apply Z.eqb_eq in Heq.
    destruct (lookup_lt_is_Some_2 _ _ Hlt) as [r Hr].
    rewrite (list_lookup_total_correct _ _ _ Hr) in *.
    match goal with |- context [<[i := ?r']> (rg_sessions reg)] =>
      destruct (session_update reg i r r' Hinv Hr) as (Hinv' & _ & Hlive); [done|] end.
    split; [exact Hinv'|]. rewrite Hlive, Heq by done. done.
  - assert (Hnone : live reg !! id = None).
    { apply eq_None_not_Some. intros [a Ha].
      apply live_lookup in Ha as (i & r & Hi & _ & Hid & _); [|done].
      apply find_index_None in Hf. eapply Forall_lookup_1 in Hf; [|done].
      apply Z.eqb_neq in Hf. congruence. }
    rewrite delete_id by done. split_and!; [done..|]. rewrite Hnone. by intros [? ?].
Qed.

(** ** What the registry promises *)

(** C18: the session table implements a finite map from live session identities
    to their authority, of at most the configured size. A session enters under
    an identity that no session ever had, unless as many sessions are live as the
    table may hold; a frame is accepted exactly under the epoch and boot identity
    of a live session and a sequence above all accepted before, which it raises;
    a released session is gone; the size and the lookup are those of the map. *)
Theorem registry_refines reg :
  SessionInv reg ->
  (forall epoch boot nonce, rg_next_id reg < UINT64_MAX ->
     match session_create reg epoch boot nonce with
     | (Ok r, reg') =>
         SessionInv reg' /\ rg_next_id reg' = sr_id r + 1 /\ rg_next_id reg <= sr_id r /\
         live reg !! sr_id r = None /\ live reg' = <[sr_id r := (epoch, boot, 0)]> (live reg)
     | (Err _, reg') => reg' = reg /\ Z.of_nat (size (live reg)) = rg_max_sessions reg
     end) /\
  (forall id epoch boot sequence,
     let '(res, reg') := session_accept reg id epoch boot sequence in
     SessionInv reg' /\ (res, live reg') = accept_spec (live reg) id epoch boot sequence) /\
  (forall id,
     let '(res, reg') := session_release reg id in
     SessionInv reg' /\ live reg' = delete id (live reg) /\
     (is_Some (live reg !! id) -> res = Ok tt)) /\
  (forall id, match session_get reg id with
     | Ok r => live reg !! id = Some (authority r)
     | Err s => s = not_established /\ live reg !! id = None
     end) /\
  session_size reg = Z.of_nat (size (live reg)) /\
  session_size reg <= session_high_water reg <= rg_max_sessions reg.
Proof.
  intros Hinv. split_and!.
  - intros epoch boot nonce Hnext. pose proof (create_spec reg epoch boot nonce Hinv Hnext) as H.
    destruct (session_create _ _ _ _) as [[r|s] reg'].
    + destruct H as (-> & Hn & Hi & Hnone & Hlive). rewrite Hn. by split_and!; try done; simpl; lia.
    + destruct H as (_ & -> & H). by rewrite <- session_size_live.
  - intros. by apply accept_refines.
  - intros. by apply release_refines.
  - intros id. unfold session_get. destruct (find_index _ _) as [i|] eqn:Hf.
    + by destruct (live_some_find _ Hinv _ _ Hf) as (r & _ & -> & _ & _ & Hl).
    + split; [done|]. by apply live_none_find.
  - by apply session_size_live.
  - unfold session_high_water. rewrite (session_high _ Hinv). unfold session_size.
    pose proof (session_bound _ Hinv). pose proof (session_max _ Hinv).
    pose proof (length_filter (fun r => sr_closed r = false) (rg_sessions reg)).
    rewrite u32_small; unfold in_u32, sizez in *; lia.
  - unfold session_high_water. rewrite (session_high _ Hinv). apply session_bound, Hinv.
Qed.

(** A table of two slots, whose first session was released. *)
Definition sample_registry : SessionRegistry :=
  let '(_, reg) := session_create (new_registry 2) 3 4 9 in
  let '(_, reg) := session_create reg 3 4 10 in
  (session_release reg 1).2.

Lemma sample_registry_inv : SessionInv sample_registry.
Proof.
  replace sample_registry with
    (mkRegistry [mkSession 1 3 4 0 0 9 0 true; mkSession 2 3 4 0 0 10 0 false] 2 2 3) by reflexivity.
  split; simpl; try (unfold UINT64_MAX; lia); try done.
  - intros [|[|[|i]]] [|[|[|j]]] r t; simpl; intros; simplify_eq; simpl in *; done || lia.
  - intros [|[|[|i]]] r; simpl; intros [= <-]; simpl; lia.
Qed.

Lemma registry_refines_witness :
  live sample_registry = {[2 := (3, 4, 0)]} /\ session_size sample_registry = 1 /\
  (session_accept sample_registry 2 3 4 1).1 = Ok tt /\
  (session_accept sample_registry 1 3 4 1).1 = Err not_established.
Proof.
  pose proof (registry_refines sample_registry sample_registry_inv) as (_ & Haccept & _ & _ & Hsize & _).
  assert (Hl : live sample_registry = {[2 := (3, 4, 0)]}) by reflexivity.
  rewrite Hl in *. split_and!; [done|done|..].
  - specialize (Haccept 2 3 4 1). destruct (session_accept sample_registry 2 3 4 1) as [res reg'].
    destruct Haccept as [_ [= -> _]]. reflexivity.
  - specialize (Haccept 1 3 4 1). destruct (session_accept sample_registry 1 3 4 1) as [res reg'].
    destruct Haccept as [_ [= -> _]]. reflexivity.
Defined.
