(* ===== verification/Service.v ===== *)
(** * The planning service

    Models [PlannerService] of [src/runtime_service.cpp]: the bounded job queue,
    the worker threads around [run_plan] and [run_validate], the durable records
    they append, the hand-off of results and shutdown. Each operation that the
    source runs under one lock is a function on the shared state; the threads are
    interleaved by the step relation at the end. *)
From S2P Require Import Prelude Ids Canonical Model Objective Domain DefinitionCheck Plan Fixture.
From S2P Require Import Codec Crc32 Journal Store Planner Validate Protocol.

(** ** Crash points *)

Module CrashPoint.
Inductive t :=
| NONE | AFTER_ATTEMPT_APPEND_BEFORE_FLUSH | AFTER_COMMIT_BEFORE_PUBLISH
| AFTER_PUBLISH_BEFORE_ACK | COUNT.

#[global] Instance eq_dec : EqDecision t.
Proof. solve_decision. Defined.

Definition to_string (x : t) : string :=
  match x with
  | NONE => "NONE"
  | AFTER_ATTEMPT_APPEND_BEFORE_FLUSH => "AFTER_ATTEMPT_APPEND_BEFORE_FLUSH"
  | AFTER_COMMIT_BEFORE_PUBLISH => "AFTER_COMMIT_BEFORE_PUBLISH"
  | AFTER_PUBLISH_BEFORE_ACK => "AFTER_PUBLISH_BEFORE_ACK"
  | COUNT => "COUNT"
  end.

Definition is_valid (x : t) : bool := negb (bool_decide (x = COUNT)).
End CrashPoint.

Definition parse_crash_point (text : string) : result Status CrashPoint.t :=
  if bool_decide (text = EmptyString) || bool_decide (text = "NONE") then Ok CrashPoint.NONE
  else if bool_decide (text = "AFTER_ATTEMPT_APPEND_BEFORE_FLUSH")
  then Ok CrashPoint.AFTER_ATTEMPT_APPEND_BEFORE_FLUSH
  else if bool_decide (text = "AFTER_COMMIT_BEFORE_PUBLISH")
  then Ok CrashPoint.AFTER_COMMIT_BEFORE_PUBLISH
  else if bool_decide (text = "AFTER_PUBLISH_BEFORE_ACK")
  then Ok CrashPoint.AFTER_PUBLISH_BEFORE_ACK
  else Err (mkStatus StatusCode.INVALID_ARGUMENT ("unknown crash point: " +:+ text)).

(** ** State *)

Record ServiceConfig := mkConfig {
  cfg_model_limits : ModelLimits;
  cfg_protocol_limits : ProtocolLimits;
  cfg_store_limits : StoreLimits;
  cfg_worker_threads : Z;
  cfg_max_queue_depth : Z;
  cfg_max_sessions : Z;
  cfg_crash_point : CrashPoint.t;
  cfg_persist : bool
}.

Record ServiceStats := mkServiceStats {
  requests_accepted : Z;
  requests_completed : Z;
  requests_rejected : Z;
  requests_refused_exhausted : Z;
  plans_found : Z;
  plans_infeasible : Z;
  plans_indeterminate : Z;
  validations_run : Z;
  queue_high_water : Z
}.

(** The hand-off slot of a waiting submitter. *)
Record JobState := mkJobState {
  js_done : bool;
  js_status : option Status;
  js_plan_result : PlanningResult;
  js_validation_result : ValidationReport
}.

Inductive JobKind := PLAN | VALIDATE.

(** A slot or a callback is a number, the identity of the shared object: the
    position of its job among the submissions so far. *)
Record Job := mkJob {
  job_kind : JobKind;
  job_request : PlanRequest;
  job_plan : option RecoveryPlan;
  job_callback : option nat;
  job_state : option nat
}.

Record Service := mkService {
  sv_config : ServiceConfig;
  sv_store : option Store;
  sv_disk : Disk;
  sv_epoch : Epoch;
  sv_boot : BootId;
  sv_last_durable : Sequence;
  sv_queue : list Job;
  sv_stopping : bool;
  sv_stats : ServiceStats;
  sv_slots : gmap nat JobState;
  sv_calls : list (nat * result Status PlanningResult);
  sv_submitted : list Job
}.

Definition closed_status : Status := mkStatus StatusCode.CLOSED "job did not complete".
Definition default_result : PlanningResult :=
  mkResult PlanDecision.REJECTED_INVALID_REQUEST 0 0 0 0 None None zero_stats [] [] zero_digest.
Definition default_report : ValidationReport :=
  mkReport false false false zero_objective zero_digest zero_digest [].
Definition empty_slot : JobState :=
  mkJobState false (Some closed_status) default_result default_report.

Definition set_durable (sv : Service) (st : Store) (d : Disk) (last : Sequence) : Service :=
  mkService (sv_config sv) (Some st) d (sv_epoch sv) (sv_boot sv) last (sv_queue sv)
    (sv_stopping sv) (sv_stats sv) (sv_slots sv) (sv_calls sv) (sv_submitted sv).

Definition set_queue (sv : Service) (q : list Job) (stopping : bool) : Service :=
  mkService (sv_config sv) (sv_store sv) (sv_disk sv) (sv_epoch sv) (sv_boot sv)
    (sv_last_durable sv) q stopping (sv_stats sv) (sv_slots sv) (sv_calls sv) (sv_submitted sv).

Definition set_counters (sv : Service) (s : ServiceStats) : Service :=
  mkService (sv_config sv) (sv_store sv) (sv_disk sv) (sv_epoch sv) (sv_boot sv)
    (sv_last_durable sv) (sv_queue sv) (sv_stopping sv) s (sv_slots sv) (sv_calls sv) (sv_submitted sv).

Definition set_slots (sv : Service) (slots : gmap nat JobState) : Service :=
  mkService (sv_config sv) (sv_store sv) (sv_disk sv) (sv_epoch sv) (sv_boot sv)
    (sv_last_durable sv) (sv_queue sv) (sv_stopping sv) (sv_stats sv) slots (sv_calls sv)
    (sv_submitted sv).

Definition push_call (sv : Service) (callback : nat) (r : result Status PlanningResult) : Service :=
  mkService (sv_config sv) (sv_store sv) (sv_disk sv) (sv_epoch sv) (sv_boot sv)
    (sv_last_durable sv) (sv_queue sv) (sv_stopping sv) (sv_stats sv) (sv_slots sv)
    (sv_calls sv ++ [(callback, r)]) (sv_submitted sv).

Definition drop_store (sv : Service) (d : Disk) : Service :=
  mkService (sv_config sv) None d (sv_epoch sv) (sv_boot sv) (sv_last_durable sv) (sv_queue sv)
    (sv_stopping sv) (sv_stats sv) (sv_slots sv) (sv_calls sv) (sv_submitted sv).

(** ** Durable records *)

Definition append_durable (io : Io) (type : RecordType.t) (payload : list Z) (sv : Service)
  : result Status unit * Service :=
  match sv_store sv with
  | None => (Ok tt, sv)
  | Some st =>
      match append io type payload true st (sv_disk sv) with
      | (Ok _, st, d) => (Ok tt, set_durable sv st d (last_sequence st))
      | (Err s, st, d) => (Err s, set_durable sv st d (sv_last_durable sv))
      end
  end.

(** A result that was not planned: the identity of the request and one explanation. *)
Definition rejected_result (request : PlanRequest) (decision : PlanDecision.t) (code : ReasonCode.t)
  (text : string) (digest : Digest) : PlanningResult :=
  mkResult decision (req_id request) (req_epoch request) (req_boot request) (req_attempt request)
    None None zero_stats [] [mkExplanation code default_subject 0 0 text] digest.

Definition fenced_result (sv : Service) (request : PlanRequest) : PlanningResult :=
  rejected_result request PlanDecision.REJECTED_FENCED ReasonCode.REQUEST_FENCED_BY_EPOCH
    ("request is scoped to coordinator epoch " +:+ pretty (req_epoch request) +:+ " boot " +:+
     pretty (req_boot request) +:+ " but this incarnation is epoch " +:+ pretty (sv_epoch sv) +:+
     " boot " +:+ pretty (sv_boot sv)) (request_digest request).

Definition attempt_payload (request : PlanRequest) : list Z :=
  w_u64 (req_id request) ++ w_u64 (req_attempt request) ++ w_u64 (req_epoch request) ++
  w_u64 (req_boot request) ++ encode_digest (request_digest request).

Definition attempt_refused (request : PlanRequest) (s : Status) : PlanningResult :=
  rejected_result request PlanDecision.REJECTED_EXHAUSTED ReasonCode.PERSISTENCE_INTEGRITY_FAILURE
    (status_to_string s) zero_digest.

(** The outcome of planning as a durable record. *)
Definition outcome_record (r : PlanningResult) : RecordType.t * list Z :=
  match pr_plan r with
  | Some p => (RecordType.COMMITTED_PLAN, encode_plan_record p)
  | None =>
      (RecordType.INFEASIBILITY,
       w_u64 (pr_request r) ++ w_u8 (PlanDecision.to_u8 (pr_decision r)) ++
       w_u64 (st_nodes_expanded (pr_stats r)) ++ w_u64 (st_nodes_generated (pr_stats r)) ++
       encode_digest (pr_request_digest r))
  end.

Definition commit_refused (r : PlanningResult) (s : Status) : PlanningResult :=
  mkResult PlanDecision.REJECTED_EXHAUSTED (pr_request r) (pr_epoch r) (pr_boot r) (pr_attempt r)
    None None (pr_stats r) (pr_unresolved_subjects r)
    (pr_explanations r ++ [mkExplanation ReasonCode.PERSISTENCE_INTEGRITY_FAILURE default_subject 0 0
                             (status_to_string s)]) (pr_request_digest r).

(** ** [run_plan]

    The process may die at a crash point; what it leaves is the disk. Between
    the durable attempt and the durable outcome other threads may run, so the two
    halves are functions of their own. *)
Inductive Ran (A : Type) : Type :=
| Returned (a : A)
| Crashed (d : Disk).
Arguments Returned {A} a.
Arguments Crashed {A} d.

(** Up to the call of the planner: [Err] is an early return. *)
Definition begin_plan (io : Io) (request : PlanRequest) (sv : Service)
  : Ran (result PlanningResult unit * Service) :=
  if negb ((req_epoch request =? sv_epoch sv) && (req_boot request =? sv_boot sv))
  then Returned (Err (fenced_result sv request), sv)
  else
    match sv_store sv, cfg_crash_point (sv_config sv) with
    | Some st, CrashPoint.AFTER_ATTEMPT_APPEND_BEFORE_FLUSH =>
        let '(_, _, d) := append io RecordType.ATTEMPT (attempt_payload request) false st (sv_disk sv) in
        Crashed d
    | _, _ =>
        match append_durable io RecordType.ATTEMPT (attempt_payload request) sv with
        | (Err s, sv) => Returned (Err (attempt_refused request s), sv)
        | (Ok _, sv) => Returned (Ok tt, sv)
        end
    end.

(** From the planner's result on. *)
Definition commit_plan (io : Io) (r : PlanningResult) (sv : Service) : Ran (PlanningResult * Service) :=
  let '(type, payload) := outcome_record r in
  match append_durable io type payload sv with
  | (Err s, sv) => Returned (commit_refused r s, sv)
  | (Ok _, sv) =>
      match cfg_crash_point (sv_config sv) with
      | CrashPoint.AFTER_COMMIT_BEFORE_PUBLISH => Crashed (sv_disk sv)
      | _ => Returned (r, sv)
      end
  end.

(** The whole function, undisturbed by other threads; [None] only if the planner
    ran out of fuel, which it never does. *)
Definition run_plan (io_attempt io_outcome : Io) (request : PlanRequest) (sv : Service)
  : option (Ran (PlanningResult * Service)) :=
  match begin_plan io_attempt request sv with
  | Crashed d => Some (Crashed d)
  | Returned (Err r, sv) => Some (Returned (r, sv))
  | Returned (Ok _, sv) =>
      match plan (cfg_model_limits (sv_config sv)) request with
      | None => None
      | Some r => Some (commit_plan io_outcome r sv)
      end
  end.

Definition lineage_payload (request : PlanRequest) (p : RecoveryPlan) (report : ValidationReport)
  : list Z :=
  w_u64 (req_id request) ++ encode_digest (plan_digest p) ++ w_boolean (vr_valid report).

Definition run_validate (io : Io) (request : PlanRequest) (p : RecoveryPlan) (sv : Service)
  : ValidationReport * Service :=
  let report := validate_plan request p in
  match sv_store sv with
  | None => (report, sv)
  | Some _ =>
      (report, (append_durable io RecordType.EVIDENCE_LINEAGE (lineage_payload request p report) sv).2)
  end.

(** ** Completion *)

Definition finish_slot (sv : Service) (slot : nat) (f : JobState -> JobState) : Service :=
  set_slots sv (alter f slot (sv_slots sv)).

Definition planned_slot (r : result Status PlanningResult) (js : JobState) : JobState :=
  match r with
  | Ok r => mkJobState true None r (js_validation_result js)
  | Err s => mkJobState true (Some s) (js_plan_result js) (js_validation_result js)
  end.

Definition validated_slot (report : ValidationReport) (js : JobState) : JobState :=
  mkJobState true None (js_plan_result js) report.

Definition complete (job : Job) (r : result Status PlanningResult) (sv : Service) : Service :=
  let sv := match job_callback job with Some c => push_call sv c r | None => sv end in
  match job_state job with
  | Some slot => finish_slot sv slot (planned_slot r)
  | None => sv
  end.

Definition complete_validation (job : Job) (report : ValidationReport) (sv : Service) : Service :=
  match job_state job with
  | Some slot => finish_slot sv slot (validated_slot report)
  | None => sv
  end.

(** [fetch_add] on one counter. *)
Definition count_decision (decision : PlanDecision.t) (s : ServiceStats) : ServiceStats :=
  let '(mkServiceStats acc com rej exh fou inf ind val hig) := s in
  match decision with
  | PlanDecision.PLAN_FOUND => mkServiceStats acc com rej exh (u64 (fou + 1)) inf ind val hig
  | PlanDecision.PROVEN_INFEASIBLE => mkServiceStats acc com rej exh fou (u64 (inf + 1)) ind val hig
  | PlanDecision.INDETERMINATE_SEARCH_LIMIT
  | PlanDecision.INDETERMINATE_INCOMPLETE_EVIDENCE =>
      mkServiceStats acc com rej exh fou inf (u64 (ind + 1)) val hig
  | _ => mkServiceStats acc com (u64 (rej + 1)) exh fou inf ind val hig
  end.

Definition count_completed (s : ServiceStats) : ServiceStats :=
  let '(mkServiceStats acc com rej exh fou inf ind val hig) := s in
  mkServiceStats acc (u64 (com + 1)) rej exh fou inf ind val hig.

Definition count_accepted (s : ServiceStats) : ServiceStats :=
  let '(mkServiceStats acc com rej exh fou inf ind val hig) := s in
  mkServiceStats (u64 (acc + 1)) com rej exh fou inf ind val hig.

Definition count_refused (s : ServiceStats) : ServiceStats :=
  let '(mkServiceStats acc com rej exh fou inf ind val hig) := s in
  mkServiceStats acc com rej (u64 (exh + 1)) fou inf ind val hig.

Definition count_validation (s : ServiceStats) : ServiceStats :=
  let '(mkServiceStats acc com rej exh fou inf ind val hig) := s in
  mkServiceStats acc com rej exh fou inf ind (u64 (val + 1)) hig.

Definition raise_high_water (depth : Z) (s : ServiceStats) : ServiceStats :=
  let '(mkServiceStats acc com rej exh fou inf ind val hig) := s in
  mkServiceStats acc com rej exh fou inf ind val (if hig <? depth then depth else hig).

(** ** Submission *)

(** What the three entry points share, under the queue lock; only the plan
    submissions watch the high water mark. *)
Definition enqueue (job : Job) (watch : bool) (sv : Service) : result Status unit * Service :=
  if sv_stopping sv
  then (Err (mkStatus StatusCode.CLOSED "service is shutting down"), sv)
  else if cfg_max_queue_depth (sv_config sv) <=? sizez (sv_queue sv)
  then (Err (mkStatus StatusCode.EXHAUSTED "work queue is full"),
        set_counters sv (count_refused (sv_stats sv)))
  else
    let q := sv_queue sv ++ [job] in
    let stats := count_accepted (sv_stats sv) in
    (Ok tt, set_queue (set_counters sv (if watch then raise_high_water (sizez q) stats else stats))
              q (sv_stopping sv)).

(** The job joins the history of submissions, its slot the slots. *)
Definition register (job : Job) (sv : Service) : Service :=
  mkService (sv_config sv) (sv_store sv) (sv_disk sv) (sv_epoch sv) (sv_boot sv)
    (sv_last_durable sv) (sv_queue sv) (sv_stopping sv) (sv_stats sv)
    (match job_state job with
     | Some slot => <[slot := empty_slot]> (sv_slots sv)
     | None => sv_slots sv
     end) (sv_calls sv) (sv_submitted sv ++ [job]).

Inductive Call :=
| CallPlan (request : PlanRequest)
| CallValidate (request : PlanRequest) (p : RecoveryPlan)
| CallSubmitPlan (request : PlanRequest).

Definition job_of (call : Call) (id : nat) : Job :=
  match call with
  | CallPlan request => mkJob PLAN request None None (Some id)
  | CallValidate request p => mkJob VALIDATE request (Some p) None (Some id)
  | CallSubmitPlan request => mkJob PLAN request None (Some id) None
  end.

(** [plan], [validate] up to the wait, and [submit_plan]. *)
Definition submit (call : Call) (sv : Service) : result Status nat * Service :=
  let id := length (sv_submitted sv) in
  let job := job_of call id in
  let watch := match job_kind job with PLAN => true | VALIDATE => false end in
  match enqueue job watch sv with
  | (Err s, sv) => (Err s, sv)
  | (Ok _, sv) => (Ok id, register job sv)
  end.

(** What the wait of [plan] returns; [None] while it blocks. *)
Definition wait_plan (id : nat) (sv : Service) : option (result Status PlanningResult) :=
  js ← sv_slots sv !! id;
  if js_done js
  then Some match js_status js with Some s => Err s | None => Ok (js_plan_result js) end
  else None.

Definition wait_validate (id : nat) (sv : Service) : option (result Status ValidationReport) :=
  js ← sv_slots sv !! id;
  if js_done js
  then Some match js_status js with Some s => Err s | None => Ok (js_validation_result js) end
  else None.

(** ** Threads *)

Inductive Worker :=
| Idle
| Busy (job : Job)
| Attempted (job : Job)
| Publishing (job : Job) (r : PlanningResult)
| Exited.

(** One step of [worker_loop]; [None] where the thread waits or has ended. *)
Definition worker_step (io : Io) (sv : Service) (w : Worker) : option (Ran (Worker * Service)) :=
  match w with
  | Idle =>
      match sv_queue sv with
      | job :: rest => Some (Returned (Busy job, set_queue sv rest (sv_stopping sv)))
      | [] => if sv_stopping sv then Some (Returned (Exited, sv)) else None
      end
  | Busy job =>
      match job_kind job, job_plan job with
      | PLAN, _ =>
          match begin_plan io (job_request job) sv with
          | Crashed d => Some (Crashed d)
          | Returned (Err r, sv) => Some (Returned (Publishing job r, sv))
          | Returned (Ok _, sv) => Some (Returned (Attempted job, sv))
          end
      | VALIDATE, Some p =>
          let '(report, sv) := run_validate io (job_request job) p sv in
          let sv := set_counters sv (count_validation (sv_stats sv)) in
          Some (Returned (Idle, complete_validation job report sv))
      | VALIDATE, None => None
      end
  | Attempted job =>
      match plan (cfg_model_limits (sv_config sv)) (job_request job) with
      | None => None
      | Some r =>
          match commit_plan io r sv with
          | Crashed d => Some (Crashed d)
          | Returned (r, sv) => Some (Returned (Publishing job r, sv))
          end
      end
  | Publishing job r =>
      let sv := set_counters sv (count_decision (pr_decision r) (count_completed (sv_stats sv))) in
      let sv := complete job (Ok r) sv in
      match cfg_crash_point (sv_config sv) with
      | CrashPoint.AFTER_PUBLISH_BEFORE_ACK => Some (Crashed (sv_disk sv))
      | _ => Some (Returned (Idle, sv))
      end
  | Exited => None
  end.

Inductive Shutdown := Up | Draining (pending : list Job) | Joining | Down.

Definition shut_down_status : Status :=
  mkStatus StatusCode.CLOSED "service shut down before the job ran".

(** One step of the thread in [shutdown]; [None] where it waits or has returned. *)
Definition shutdown_step (io : Io) (workers : list Worker) (sv : Service) (s : Shutdown)
  : option (Shutdown * Service) :=
  match s with
  | Up => Some (Draining (sv_queue sv), set_queue sv [] true)
  | Draining (job :: pending) =>
      Some (Draining pending, complete job (Err shut_down_status) sv)
  | Draining [] => Some (Joining, sv)
  | Joining =>
      if forallb (fun w => match w with Exited => true | _ => false end) workers
      then Some (Down, match sv_store sv with
                       | Some st => drop_store sv (commit_snapshot io st (sv_disk sv)).2
                       | None => sv
                       end)
      else None
  | Down => None
  end.

Record System := mkSystem {
  sys_service : Service;
  sys_workers : list Worker;
  sys_shutdown : Shutdown
}.

(** The process, until it is killed at a crash point. *)
Inductive Process :=
| Alive (s : System)
| Dead (d : Disk).

Definition resume (s : System) (w : nat) (r : Ran (Worker * Service)) : Process :=
  match r with
  | Returned (worker, sv) => Alive (mkSystem sv (<[w := worker]> (sys_workers s)) (sys_shutdown s))
  | Crashed d => Dead d
  end.

(** Any thread may take the next step; [ios] says how the file system may behave. *)
Inductive thread_step (ios : Io -> Prop) : Process -> Process -> Prop :=
| step_worker s io w worker r :
    ios io -> sys_workers s !! w = Some worker -> worker_step io (sys_service s) worker = Some r ->
    thread_step ios (Alive s) (resume s w r)
| step_shutdown s io next sv :
    ios io -> shutdown_step io (sys_workers s) (sys_service s) (sys_shutdown s) = Some (next, sv) ->
    thread_step ios (Alive s) (Alive (mkSystem sv (sys_workers s) next)).

(** ... or a client may submit. *)
Inductive process_step (ios : Io -> Prop) : Process -> Process -> Prop :=
| step_thread p q : thread_step ios p q -> process_step ios p q
| step_submit s call :
    process_step ios (Alive s)
      (Alive (mkSystem (submit call (sys_service s)).2 (sys_workers s) (sys_shutdown s))).

(** [PlannerService::start] *)
Definition zero_service_stats : ServiceStats := mkServiceStats 0 0 0 0 0 0 0 0 0.

Definition start (io : Io) (config : ServiceConfig) (path : string) (d : Disk)
  : option (result Status System * Disk) :=
  let threads := if cfg_worker_threads config =? 0 then 1 else cfg_worker_threads config in
  let system st d epoch boot last :=
    mkSystem (mkService config st d epoch boot last [] false zero_service_stats ∅ [] [])
      (replicate (Z.to_nat threads) Idle) Up in
  if cfg_persist config && negb (bool_decide (path = EmptyString)) then
    match open io path (mkOptions (cfg_store_limits config) true true) d with
    | None => None
    | Some (Err s, d) => Some (Err s, d)
    | Some (Ok st, d) =>
        Some (Ok (system (Some st) d (st_epoch st) (st_boot st) (last_sequence st)), d)
    end
  else Some (Ok (system None d 1 1 0), d).
