(* ===== verification/ServiceCorrect.v ===== *)
(** * What the planning service promises

    The invariant of the interleaved threads of [Service.v]: every accepted job
    has exactly one place (queued, with a worker, drained, or answered), an answer
    that carries a plan or a proof was durable before it was handed out, and
    shutdown ends with every waiter answered. *)
From S2P Require Import Prelude Ids Canonical Model Objective Domain DefinitionCheck Plan Fixture.
From S2P Require Import Codec Crc32 Journal Store StoreCorrect Planner Validate Protocol Service.

(** ** Jobs and their places *)

Definition job_id (j : Job) : nat :=
  match job_callback j, job_state j with
  | Some id, _ | None, Some id => id
  | None, None => 0%nat
  end.

Definition worker_jobs (w : Worker) : list Job :=
  match w with Busy j | Attempted j | Publishing j _ => [j] | Idle | Exited => [] end.

Definition pending_jobs (s : Shutdown) : list Job :=
  match s with Draining pending => pending | _ => [] end.

(** The jobs nobody has answered yet. *)
Definition outstanding (s : System) : list Job :=
  sv_queue (sys_service s) ++ concat (map worker_jobs (sys_workers s)) ++
  pending_jobs (sys_shutdown s).

Record JobsInv (submitted out : list Job) (slots : gmap nat JobState)
  (calls : list (nat * result Status PlanningResult)) : Prop := {
  jobs_known : forall id j, submitted !! id = Some j -> exists call, j = job_of call id;
  jobs_out : forall j, j ∈ out -> submitted !! job_id j = Some j;
  jobs_once : NoDup out;
  jobs_slots : forall id, is_Some (slots !! id) <->
    exists j, submitted !! id = Some j /\ job_state j = Some id;
  jobs_open : forall id js, slots !! id = Some js ->
    js_done js = false <-> exists j, j ∈ out /\ job_state j = Some id;
  jobs_called_once : NoDup (calls.*1);
  jobs_called : forall id, id ∈ (calls.*1) <->
    exists j, submitted !! id = Some j /\ job_callback j = Some id /\ j ∉ out
}.

Lemma jobs_inv_perm submitted out out' slots calls :
  out ≡ₚ out' -> JobsInv submitted out slots calls -> JobsInv submitted out' slots calls.
Proof.
  intros Hp []. split; try done.
  - intros j. rewrite <- Hp. auto.
  - by rewrite <- Hp.
  - intros id js Hs. rewrite jobs_open0 by done. by setoid_rewrite Hp.
  - intros id. rewrite jobs_called0. by setoid_rewrite Hp.
Qed.

Lemma job_id_of call id : job_id (job_of call id) = id.
Proof. by destruct call. Qed.

Lemma job_of_callback call id c : job_callback (job_of call id) = Some c -> c = id.
Proof. by destruct call; intros [=]. Qed.

Lemma job_of_state call id c : job_state (job_of call id) = Some c -> c = id.
Proof. by destruct call; intros [=]. Qed.

(** A submission. *)
Lemma jobs_inv_submit submitted out slots calls call :
  let id := length submitted in
  let job := job_of call id in
  JobsInv submitted out slots calls ->
  JobsInv (submitted ++ [job]) (out ++ [job])
    (match job_state job with Some slot => <[slot := empty_slot]> slots | None => slots end) calls.
Proof.
  intros id job [Hk Hout Hnd Hslots Hopen Hcnd Hcalled].
  assert (Hsub : forall n j, (submitted ++ [job]) !! n = Some j <->
            submitted !! n = Some j \/ n = id /\ j = job).
  { intros n j. rewrite lookup_app_Some. split.
    - intros [?|[? Hj]]; [by left|]. right. apply list_lookup_singleton_Some in Hj as [? <-].
      subst id. split; [lia|done].
    - intros [?|[-> ->]]; [by left|]. right. split; [done|]. by rewrite Nat.sub_diag. }
  assert (Hfresh : forall j, submitted !! id = Some j -> False).
  { intros j Hj. apply lookup_lt_Some in Hj. subst id. lia. }
  assert (Hnew : job ∉ out).
  { intros Hj%Hout. unfold job in Hj. rewrite job_id_of in Hj. by apply Hfresh in Hj. }
  assert (Hno : slots !! id = None).
  { apply eq_None_not_Some. intros (j & Hj & _)%Hslots. by apply Hfresh in Hj. }
  split.
  - intros n j [Hj|[-> ->]]%Hsub; [by apply Hk|]. by exists call.
  - intros j [Hj|Hj]%elem_of_app; apply Hsub; [left; by apply Hout|right].
    apply list_elem_of_singleton in Hj as ->. by unfold job; rewrite job_id_of.
  - apply NoDup_app. split_and!; [done| |apply NoDup_singleton].
    intros j Hj ->%list_elem_of_singleton. done.
  - intros n. setoid_rewrite Hsub. destruct (job_state job) as [slot|] eqn:Hst.
    + pose proof (job_of_state _ _ _ Hst) as ->. rewrite lookup_insert_is_Some'. rewrite Hslots. split.
      * intros [<-|(j & ? & ?)]; [by exists job; auto|by exists j; auto].
      * intros (j & [?|[-> ->]] & ?); [right; by exists j|by left].
    + rewrite Hslots. split; [intros (j & ? & ?); by exists j; auto|].
      intros (j & [?|[-> ->]] & ?); [by exists j|congruence].
  - intros n js. destruct (job_state job) as [slot|] eqn:Hst.
    + pose proof (job_of_state _ _ _ Hst) as ->. rewrite lookup_insert_Some.
      intros [[<- <-]|[Hne Hjs]].
      * split; [|done]. intros _. exists job. split; [|done]. apply elem_of_app. right. by constructor.
      * rewrite (Hopen _ _ Hjs). setoid_rewrite elem_of_app. split.
        -- intros (j & ? & ?). exists j. auto.
        -- intros (j & [?|Hj] & Hs); [by exists j|]. apply list_elem_of_singleton in Hj as ->.
           congruence.
    + intros Hjs. rewrite (Hopen _ _ Hjs). setoid_rewrite elem_of_app. split.
      * intros (j & ? & ?). exists j. auto.
      * intros (j & [?|Hj] & Hs); [by exists j|]. apply list_elem_of_singleton in Hj as ->. congruence.
  - done.
  - intros n. rewrite Hcalled. setoid_rewrite Hsub. setoid_rewrite elem_of_app. split.
    + intros (j & Hj & Hc & Ho). exists j. split_and!; [by left|done|].
      intros [?|Hin]; [done|]. apply list_elem_of_singleton in Hin as ->.
      apply job_of_callback in Hc as ->. by apply Hfresh in Hj.
    + intros (j & [Hj|[-> ->]] & Hc & Ho).
      * exists j. split_and!; [done..|]. intros ?. apply Ho. by left.
      * destruct Ho. right. by constructor.
Qed.

Lemma jobs_id submitted out slots calls j :
  JobsInv submitted out slots calls -> j ∈ out -> exists call, j = job_of call (job_id j).
Proof. intros Hi Hj. eapply jobs_known; [done|]. by eapply jobs_out. Qed.

(** Two unanswered jobs that share a slot or a callback are the same. *)
Lemma jobs_same submitted out slots calls i j id :
  JobsInv submitted out slots calls -> i ∈ out -> j ∈ out ->
  (job_state i = Some id \/ job_callback i = Some id) ->
  (job_state j = Some id \/ job_callback j = Some id) -> i = j.
Proof.
  intros Hi Hin Hjn Hsi Hsj.
  assert (Hid : forall k, k ∈ out -> job_state k = Some id \/ job_callback k = Some id ->
                          job_id k = id).
  { intros k Hk Hsk. destruct (jobs_id _ _ _ _ _ Hi Hk) as [call Heq]. rewrite Heq in Hsk.
    destruct Hsk as [->%job_of_state| ->%job_of_callback]; done. }
  apply (jobs_out _ _ _ _ Hi) in Hin as Hi1. apply (jobs_out _ _ _ _ Hi) in Hjn as Hj1.
  rewrite (Hid _ Hin Hsi) in Hi1. rewrite (Hid _ Hjn Hsj) in Hj1. congruence.
Qed.

(** An answer. *)
Lemma jobs_inv_answer submitted job out slots calls (f : JobState -> JobState) r :
  (forall js, js_done (f js) = true) ->
  JobsInv submitted (job :: out) slots calls ->
  JobsInv submitted out
    (match job_state job with Some slot => alter f slot slots | None => slots end)
    (match job_callback job with Some c => calls ++ [(c, r)] | None => calls end).
Proof.
  intros Hf Hinv. pose proof Hinv as [Hk Hout Hnd Hslots Hopen Hcnd Hcalled].
  apply NoDup_cons in Hnd as [Hnew Hnd].
  assert (Hhead : job ∈ job :: out) by constructor.
  assert (Htail : forall j, j ∈ out -> j ∈ job :: out) by (by constructor).
  assert (Hother : forall j id, j ∈ out -> job_state j = Some id \/ job_callback j = Some id ->
            job_state job = Some id \/ job_callback job = Some id -> False).
  { intros j id Hj Hs Hs'.
    rewrite (jobs_same _ _ _ _ _ _ id Hinv (Htail _ Hj) Hhead Hs Hs') in Hj. done. }
  split; try done.
  - intros j Hj. by apply Hout, Htail.
  - intros id. rewrite <- Hslots. destruct (job_state job); [|done]. apply lookup_alter_is_Some.
  - intros id js Hjs.
    assert (Hcase : (job_state job = Some id /\ js_done js = true) \/
                    (job_state job <> Some id /\ slots !! id = Some js)).
    { destruct (job_state job) as [slot|] eqn:Hst; [|by right].
      apply lookup_alter_Some in Hjs as [(-> & js0 & _ & ->)|[Hne Hjs]]; [by left|].
      right. split; [congruence|done]. }
    destruct Hcase as [[Hst ->]|[Hst Hjs0]].
    + split; [done|]. intros (j & Hj & Hs). exfalso. by eapply Hother; eauto.
    + rewrite (Hopen _ _ Hjs0). split; [|intros (j & Hj & Hs); by exists j; auto].
      intros (j & [->|Hj]%elem_of_cons & Hs); [done|by exists j].
  - destruct (job_callback job) as [c|] eqn:Hcb; [|done]. rewrite fmap_app. apply NoDup_app.
    split_and!; [done| |apply NoDup_singleton]. simpl. intros id Hid ->%list_elem_of_singleton.
    apply Hcalled in Hid as (j & Hj & Hc & Ho). apply Ho.
    apply (jobs_out _ _ _ _ Hinv) in Hhead as Hjob.
    destruct (jobs_id _ _ _ _ _ Hinv Hhead) as [call Heq]. rewrite Heq in Hcb.
    apply job_of_callback in Hcb. rewrite <- Hcb in Hjob. replace j with job by congruence. done.
  - intros id.
    assert (Hmid : (id ∈ (calls.*1)) <-> (exists j, submitted !! id = Some j /\ job_callback j = Some id /\
                     (j ∉ out) /\ j <> job)).
    { rewrite Hcalled. setoid_rewrite not_elem_of_cons. naive_solver. }
    assert (Hjob : forall j, submitted !! id = Some j -> job_callback j = Some id ->
                     job_callback job = Some id -> j = job).
    { intros j Hj _ Hcb. pose proof (jobs_out _ _ _ _ Hinv _ Hhead) as Hsub.
      destruct (jobs_id _ _ _ _ _ Hinv Hhead) as [call Heq]. rewrite Heq in Hcb.
      apply job_of_callback in Hcb. rewrite <- Hcb in Hsub. congruence. }
    destruct (job_callback job) as [c|] eqn:Hcb.
    + rewrite fmap_app, elem_of_app, Hmid. simpl. rewrite list_elem_of_singleton. split.
      * intros [(j & ? & ? & ? & ?)| ->]; [by exists j|]. exists job. split_and!; [|done..].
        pose proof (Hout _ Hhead) as Hsub. destruct (jobs_id _ _ _ _ _ Hinv Hhead) as [call Heq].
        rewrite Heq in Hcb. apply job_of_callback in Hcb. congruence.
      * intros (j & Hj & Hc & Ho). destruct (decide (c = id)) as [->|Hne]; [by right|left].
        exists j. split_and!; try done. intros ->. congruence.
    + rewrite Hmid. split; [intros (j & ? & ? & ? & ?); by exists j|].
      intros (j & Hj & Hc & Ho). exists j. split_and!; try done. intros ->. congruence.
Qed.

(** ** Where an answer comes from *)

(** The store, if there is one, has acknowledged a record. *)
Definition logged (sv : Service) (type : RecordType.t) (payload : list Z) : Prop :=
  match sv_store sv with
  | None => True
  | Some st => exists r, r ∈ st_records st /\ rec_type r = type /\ rec_payload r = payload
  end.

Definition current (sv : Service) (request : PlanRequest) : Prop :=
  req_epoch request = sv_epoch sv /\ req_boot request = sv_boot sv.

Definition planned (sv : Service) (request : PlanRequest) (r : PlanningResult) : Prop :=
  plan (cfg_model_limits (sv_config sv)) request = Some r.

(** The results [run_plan] may return for a request: a refusal that says why, or
    the planner's own result, which is then on record together with the attempt. *)
Inductive justified (sv : Service) (request : PlanRequest) : PlanningResult -> Prop :=
| just_fenced :
    ~ current sv request -> justified sv request (fenced_result sv request)
| just_refused s :
    current sv request -> justified sv request (attempt_refused request s)
| just_uncommitted r s :
    current sv request -> planned sv request r ->
    logged sv RecordType.ATTEMPT (attempt_payload request) ->
    justified sv request (commit_refused r s)
| just_committed r :
    current sv request -> planned sv request r ->
    logged sv RecordType.ATTEMPT (attempt_payload request) ->
    logged sv (outcome_record r).1 (outcome_record r).2 ->
    justified sv request r.

(** What later steps keep: the incarnation, the configuration and the log. *)
Definition extends (sv sv' : Service) : Prop :=
  sv_config sv' = sv_config sv /\ sv_epoch sv' = sv_epoch sv /\ sv_boot sv' = sv_boot sv /\
  match sv_store sv, sv_store sv' with
  | Some st, Some st' => st_records st `prefix_of` st_records st'
  | None, Some _ => False
  | _, None => True
  end.

#[global] Instance extends_preorder : PreOrder extends.
Proof.
  split.
  - intros sv. unfold extends. by destruct (sv_store sv).
  - intros a b c (Hc1 & He1 & Hb1 & Hs1) (Hc2 & He2 & Hb2 & Hs2). unfold extends.
    split_and!; [congruence..|].
    destruct (sv_store a), (sv_store b), (sv_store c); try done. by etransitivity.
Qed.

Lemma extends_same sv sv' :
  sv_config sv' = sv_config sv -> sv_epoch sv' = sv_epoch sv -> sv_boot sv' = sv_boot sv ->
  sv_store sv' = sv_store sv -> extends sv sv'.
Proof. intros ? ? ? Hs. unfold extends. rewrite Hs. by destruct (sv_store sv). Qed.

Lemma logged_extends sv sv' type payload :
  extends sv sv' -> logged sv type payload -> logged sv' type payload.
Proof.
  intros (_ & _ & _ & Hs). unfold logged. destruct (sv_store sv), (sv_store sv'); try done.
  intros (r & Hr & ? & ?). exists r. split; [|done]. destruct Hs as [rest ->].
  apply elem_of_app. by left.
Qed.

Lemma current_extends sv sv' request : extends sv sv' -> current sv request <-> current sv' request.
Proof. intros (_ & He & Hb & _). unfold current. by rewrite He, Hb. Qed.

Lemma justified_extends sv sv' request r :
  extends sv sv' -> justified sv request r -> justified sv' request r.
Proof.
  intros Hx. pose proof Hx as (Hc & He & Hb & _).
  assert (Hp : forall r, planned sv request r -> planned sv' request r).
  { intros r'. unfold planned. by rewrite Hc. }
  intros [Hn|s Hcur|r' s Hcur Hpl Ha|r' Hcur Hpl Ha Ho].
  - replace (fenced_result sv request) with (fenced_result sv' request).
    + constructor. by rewrite <- current_extends.
    + unfold fenced_result. by rewrite He, Hb.
  - constructor. by rewrite <- current_extends.
  - constructor; [by rewrite <- current_extends|auto|by eapply logged_extends].
  - constructor; [by rewrite <- current_extends|auto|by eapply logged_extends..].
Qed.

#[local] Hint Resolve justified_extends logged_extends : nrp.

(** ** The parts of the service a durable record touches *)

Definition same_jobs (sv sv' : Service) : Prop :=
  sv_queue sv' = sv_queue sv /\ sv_stopping sv' = sv_stopping sv /\
  sv_slots sv' = sv_slots sv /\ sv_calls sv' = sv_calls sv /\
  sv_submitted sv' = sv_submitted sv /\ sv_stats sv' = sv_stats sv.

(** An append of any outcome: the log keeps its records and gains the new one
    exactly when the append is acknowledged. *)
Lemma append_log io type payload flush st d res st' d' :
  append io type payload flush st d = (res, st', d') ->
  st_records st' = st_records st ++
    match res with Ok _ => [new_record st type payload] | Err _ => [] end.
Proof.
  destruct res as [s|s]; intros H.
  - apply append_ok_inv in H as (_ & _ & _ & _ & -> & _). done.
  - rewrite app_nil_r. revert H. unfold append. cbv zeta.
    repeat (case_match; try (intros [= <- <- <-]; done); try discriminate).
Qed.

Lemma append_durable_spec io type payload sv res sv' :
  append_durable io type payload sv = (res, sv') ->
  extends sv sv' /\ same_jobs sv sv' /\ (res = Ok tt -> logged sv' type payload).
Proof.
  unfold append_durable. destruct (sv_store sv) as [st|] eqn:Hst.
  - destruct (append _ _ _ _ _ _) as [[res0 st'] d'] eqn:Ha. apply append_log in Ha as Hlog.
    assert (Hx : forall last, extends sv (set_durable sv st' d' last)).
    { intros last. unfold extends. simpl. rewrite Hst, Hlog. split_and!; try done.
      by apply prefix_app_r. }
    destruct res0 as [s|s]; intros [= <- <-]; (split; [apply Hx|split; [by repeat split|]]).
    + intros _. unfold logged. simpl. rewrite Hlog. exists (new_record st type payload).
      split; [|done].
      apply elem_of_app. right. by constructor.
    + discriminate.
  - intros [= <- <-]. split_and!; [reflexivity|done..|]. intros _. unfold logged. by rewrite Hst.
Qed.

Lemma append_durable_res io type payload sv res sv' :
  append_durable io type payload sv = (res, sv') -> forall u, res = Ok u -> res = Ok tt.
Proof. by intros _ [] ->. Qed.

Lemma begin_plan_spec io request sv res sv' :
  begin_plan io request sv = Returned (res, sv') ->
  extends sv sv' /\ same_jobs sv sv' /\
  match res with
  | Ok _ => current sv' request /\ logged sv' RecordType.ATTEMPT (attempt_payload request)
  | Err r => justified sv' request r
  end.
Proof.
  unfold begin_plan. destruct (negb _) eqn:Hcur.
  - intros [= <- <-]. split_and!; [reflexivity|done..|]. constructor. intros [He Hb].
    rewrite He, Hb, !Z.eqb_refl in Hcur. done.
  - intros Hrun.
    assert (Happ : exists res0, append_durable io RecordType.ATTEMPT (attempt_payload request) sv =
                     (res0, sv') /\ res = match res0 with
                                          | Ok _ => Ok tt
                                          | Err s => Err (attempt_refused request s)
                                          end).
    { destruct (append_durable _ _ _ _) as [res0 sv1] eqn:Ha. exists res0.
      destruct (sv_store sv) as [st|], (cfg_crash_point (sv_config sv));
        try (destruct (append io _ _ _ _ _) as [[? ?] ?]; discriminate);
        destruct res0; by injection Hrun as <- <-. }
    destruct Happ as (res0 & Ha & ->). apply append_durable_spec in Ha as (Hx & Hj & Hl).
    split_and!; [done..|]. assert (Hc : current sv' request).
    { rewrite <- current_extends by done. unfold current. bool_cases. done. }
    destruct res0 as [[]|s]; [by split; auto|by constructor].
Qed.

Lemma commit_plan_spec io request r sv res sv' :
  current sv request -> planned sv request r ->
  logged sv RecordType.ATTEMPT (attempt_payload request) ->
  commit_plan io r sv = Returned (res, sv') ->
  extends sv sv' /\ same_jobs sv sv' /\ justified sv' request res.
Proof.
  intros Hcur Hp Ha. unfold commit_plan. destruct (outcome_record r) as [type payload] eqn:Ho.
  destruct (append_durable _ _ _ _) as [res0 sv1] eqn:Hd.
  apply append_durable_spec in Hd as (Hx & Hj & Hl).
  assert (Hcur1 : current sv1 request) by by rewrite <- current_extends.
  assert (Hp1 : planned sv1 request r) by (unfold planned in *; by destruct Hx as (-> & _)).
  destruct res0 as [[]|s].
  - intros H. assert (H' : res = r /\ sv' = sv1) by (destruct (cfg_crash_point _); by inversion H).
    destruct H' as [-> ->]. split_and!; [done..|]. apply just_committed; try done.
    + by eapply logged_extends.
    + rewrite Ho. by apply Hl.
  - intros [= <- <-]. split_and!; [done..|]. apply just_uncommitted; try done.
    by eapply logged_extends.
Qed.

Lemma run_validate_spec io request p sv report sv' :
  run_validate io request p sv = (report, sv') ->
  report = validate_plan request p /\ extends sv sv' /\ same_jobs sv sv'.
Proof.
  unfold run_validate. destruct (sv_store sv); intros [= <- <-].
  - destruct (append_durable _ _ _ _) as [res sv1] eqn:Hd.
    by apply append_durable_spec in Hd as (Hx & Hj & _).
  - split_and!; done || reflexivity.
Qed.

(** ** The invariant of the system *)

Definition worker_ok (sv : Service) (w : Worker) : Prop :=
  match w with
  | Idle | Busy _ => True
  | Attempted j =>
      job_kind j = PLAN /\ current sv (job_request j) /\
      logged sv RecordType.ATTEMPT (attempt_payload (job_request j))
  | Publishing j r => job_kind j = PLAN /\ justified sv (job_request j) r
  | Exited => sv_stopping sv = true
  end.

Definition shutdown_ok (s : System) : Prop :=
  let sv := sys_service s in
  match sys_shutdown s with
  | Up => sv_stopping sv = false
  | Draining _ | Joining => sv_stopping sv = true /\ sv_queue sv = []
  | Down => sv_stopping sv = true /\ sv_queue sv = [] /\ Forall (fun w => w = Exited) (sys_workers s)
  end.

(** What a filled slot holds, by the kind of its job. *)
Definition slot_ok (sv : Service) (j : Job) (js : JobState) : Prop :=
  match job_kind j with
  | PLAN => justified sv (job_request j) (js_plan_result js)
  | VALIDATE => exists p, job_plan j = Some p /\
                  js_validation_result js = validate_plan (job_request j) p
  end.

Record SysInv (s : System) : Prop := {
  sys_jobs : JobsInv (sv_submitted (sys_service s)) (outstanding s) (sv_slots (sys_service s))
               (sv_calls (sys_service s));
  sys_workers_ok : Forall (worker_ok (sys_service s)) (sys_workers s);
  sys_shutdown_ok : shutdown_ok s;
  sys_slots : forall id js, sv_slots (sys_service s) !! id = Some js -> js_done js = true ->
    js_status js = None ->
    exists j, sv_submitted (sys_service s) !! id = Some j /\ slot_ok (sys_service s) j js;
  sys_calls : forall id r, (id, Ok r) ∈ sv_calls (sys_service s) ->
    exists j, sv_submitted (sys_service s) !! id = Some j /\ job_kind j = PLAN /\
      justified (sys_service s) (job_request j) r
}.

Lemma slot_ok_extends sv sv' j js : extends sv sv' -> slot_ok sv j js -> slot_ok sv' j js.
Proof. unfold slot_ok. destruct (job_kind j); [apply justified_extends|done]. Qed.

Lemma worker_ok_extends sv sv' w :
  extends sv sv' -> (sv_stopping sv = true -> sv_stopping sv' = true) ->
  worker_ok sv w -> worker_ok sv' w.
Proof.
  intros Hx Hs. destruct w as [| |j|j r|]; simpl; try done; try auto.
  - intros (? & ? & ?). split_and!; [done|by rewrite <- current_extends|by eapply logged_extends].
  - intros [? ?]. split; [done|by eapply justified_extends].
Qed.

(** A step that changes neither slots nor calls nor the history. *)
Lemma sys_inv_quiet s s' :
  SysInv s -> extends (sys_service s) (sys_service s') ->
  sv_slots (sys_service s') = sv_slots (sys_service s) ->
  sv_calls (sys_service s') = sv_calls (sys_service s) ->
  sv_submitted (sys_service s') = sv_submitted (sys_service s) ->
  outstanding s' ≡ₚ outstanding s ->
  Forall (worker_ok (sys_service s')) (sys_workers s') -> shutdown_ok s' -> SysInv s'.
Proof.
  intros [Hj Hw Hsd Hsl Hc] Hx Es Ec Eh Ho Hw' Hsd'. split; rewrite ?Es, ?Ec, ?Eh; try done.
  - by eapply jobs_inv_perm.
  - intros id js H1 H2 H3. destruct (Hsl id js H1 H2 H3) as (j & ? & ?). exists j.
    split; [done|by eapply slot_ok_extends].
  - intros id r H1. destruct (Hc id r H1) as (j & ? & ? & ?). exists j.
    split_and!; [done..|by eapply justified_extends].
Qed.

(** ** One worker's part of the outstanding jobs *)

Lemma concat_insert {A B} (f : A -> list B) (l : list A) i x :
  l !! i = Some x -> exists rest, forall y, concat (map f (<[i := y]> l)) ≡ₚ f y ++ rest.
Proof.
  intros Hi. exists (concat (map f (take i l)) ++ concat (map f (drop (S i) l))). intros y.
  rewrite insert_take_drop by by eapply lookup_lt_Some.
  rewrite map_app, concat_app. simpl. apply Permutation_app_swap_app.
Qed.

Lemma outstanding_worker s w worker :
  sys_workers s !! w = Some worker ->
  exists rest,
    outstanding s ≡ₚ sv_queue (sys_service s) ++ worker_jobs worker ++ rest /\
    forall sv worker', outstanding (mkSystem sv (<[w := worker']> (sys_workers s)) (sys_shutdown s))
      ≡ₚ sv_queue sv ++ worker_jobs worker' ++ rest.
Proof.
  intros Hw. destruct (concat_insert worker_jobs _ _ _ Hw) as [rest Hrest].
  exists (rest ++ pending_jobs (sys_shutdown s)). unfold outstanding. simpl. split.
  - rewrite <- (list_insert_id (sys_workers s) w worker) at 1 by done.
    by rewrite Hrest, <- !app_assoc.
  - intros sv worker'. by rewrite Hrest, <- !app_assoc.
Qed.

Lemma workers_ok_insert sv sv' ws w worker' :
  Forall (worker_ok sv) ws -> extends sv sv' -> (sv_stopping sv = true -> sv_stopping sv' = true) ->
  worker_ok sv' worker' -> Forall (worker_ok sv') (<[w := worker']> ws).
Proof.
  intros Hw Hx Hs Ho. apply Forall_insert; [|done].
  eapply Forall_impl; [done|]. intros w'. by apply worker_ok_extends.
Qed.

(** ** Preservation *)

Lemma submit_inv call s :
  SysInv s -> SysInv (mkSystem (submit call (sys_service s)).2 (sys_workers s) (sys_shutdown s)).
Proof.
  intros Hs. destruct s as [sv ws sh]. simpl. unfold submit, enqueue.
  destruct (sv_stopping sv) eqn:Hstop; [done|].
  destruct (_ <=? sizez (sv_queue sv)).
  { apply (sys_inv_quiet _ _ Hs); try done; [by apply extends_same| |apply (sys_shutdown_ok _ Hs)].
    eapply Forall_impl; [apply (sys_workers_ok _ Hs)|].
    intros w. apply worker_ok_extends; [by apply extends_same|done]. }
  pose proof Hs as [Hj Hw Hsd Hsl Hc]. simpl in *.
  set (job := job_of call (length (sv_submitted sv))).
  set (sv' := register _ _). assert (Hx : extends sv sv') by by apply extends_same.
  assert (Hsub : forall id j, sv_submitted sv !! id = Some j -> sv_submitted sv' !! id = Some j).
  { intros id j. apply lookup_app_l_Some. }
  split; simpl.
  - eapply jobs_inv_perm; [|by apply jobs_inv_submit].
    unfold outstanding. simpl. rewrite <- !app_assoc.
    apply Permutation_app_head. rewrite app_assoc. apply Permutation_app_comm.
  - eapply Forall_impl; [done|]. intros w. apply worker_ok_extends; [done|]. simpl. congruence.
  - unfold shutdown_ok in *. simpl in *. destruct sh; try done; destruct Hsd; congruence.
  - intros id js Hjs Hd Hn.
    assert (Hold : sv_slots sv !! id = Some js).
    { revert Hjs. destruct (job_state job); [|done].
      rewrite lookup_insert_Some. intros [[_ <-]|[_ ?]]; done. }
    destruct (Hsl id js Hold Hd Hn) as (j & ? & ?). exists j. split; [by apply Hsub|].
    by eapply slot_ok_extends.
  - intros id r Hr. destruct (Hc id r Hr) as (j & ? & ? & ?). exists j.
    split_and!; [by apply Hsub|done|by eapply justified_extends].
Qed.

Lemma sys_inv_answer s s' job f r :
  (forall js, js_done (f js) = true) ->
  (forall js, js_status (f js) = None -> slot_ok (sys_service s') job (f js)) ->
  (forall r', r = Ok r' -> job_kind job = PLAN /\ justified (sys_service s') (job_request job) r') ->
  SysInv s -> extends (sys_service s) (sys_service s') ->
  sv_slots (sys_service s') =
    match job_state job with
    | Some slot => alter f slot (sv_slots (sys_service s))
    | None => sv_slots (sys_service s)
    end ->
  sv_calls (sys_service s') =
    match job_callback job with
    | Some c => sv_calls (sys_service s) ++ [(c, r)]
    | None => sv_calls (sys_service s)
    end ->
  sv_submitted (sys_service s') = sv_submitted (sys_service s) ->
  outstanding s ≡ₚ job :: outstanding s' ->
  Forall (worker_ok (sys_service s')) (sys_workers s') -> shutdown_ok s' -> SysInv s'.
Proof.
  intros Hdone Hslot Hcall [Hj Hw Hsd Hsl Hc] Hx Es Ec Eh Ho Hw' Hsd'.
  pose proof (jobs_inv_perm _ _ _ _ _ Ho Hj) as Hj1.
  assert (Hjob : sv_submitted (sys_service s) !! job_id job = Some job).
  { apply (jobs_out _ _ _ _ Hj1). constructor. }
  destruct (jobs_known _ _ _ _ Hj1 _ _ Hjob) as [call Heq].
  split; rewrite ?Es, ?Ec, ?Eh; try done.
  - by apply jobs_inv_answer.
  - intros id js H1 H2 H3.
    assert (Hcase : (exists js0, job_state job = Some id /\ js = f js0) \/
                    sv_slots (sys_service s) !! id = Some js).
    { destruct (job_state job) as [slot|]; [|by right].
      apply lookup_alter_Some in H1 as [(-> & js0 & _ & ->)|[_ ?]]; [left; eauto|by right]. }
    destruct Hcase as [(js0 & Hst & ->)|Hold].
    + rewrite Heq in Hst. apply job_of_state in Hst as ->. exists job. auto.
    + destruct (Hsl id js Hold H2 H3) as (j & ? & ?). exists j.
      split; [done|by eapply slot_ok_extends].
  - intros id r' H1.
    assert (Hcase : (job_callback job = Some id /\ r = Ok r') \/
                    (id, Ok r') ∈ sv_calls (sys_service s)).
    { destruct (job_callback job) as [c|]; [|by right].
      apply elem_of_app in H1 as [?|H1]; [by right|left].
      apply list_elem_of_singleton in H1 as [= -> ->]. done. }
    destruct Hcase as [[Hcb ->]|Hold].
    + rewrite Heq in Hcb. apply job_of_callback in Hcb as ->. exists job.
      destruct (Hcall r' eq_refl). auto.
    + destruct (Hc id r' Hold) as (j & ? & ? & ?). exists j.
      split_and!; [done..|by eapply justified_extends].
Qed.

(** [complete] on the shared state. *)
Lemma complete_fields job r sv :
  let sv' := complete job r sv in
  extends sv sv' /\ sv_queue sv' = sv_queue sv /\ sv_stopping sv' = sv_stopping sv /\
  sv_submitted sv' = sv_submitted sv /\
  sv_slots sv' = match job_state job with
                 | Some slot => alter (planned_slot r) slot (sv_slots sv)
                 | None => sv_slots sv
                 end /\
  sv_calls sv' = match job_callback job with
                 | Some c => sv_calls sv ++ [(c, r)]
                 | None => sv_calls sv
                 end.
Proof.
  unfold complete. destruct (job_callback job), (job_state job); simpl;
    (split; [by apply extends_same|by repeat split]).
Qed.

Lemma shutdown_ok_worker s sv w worker worker' :
  shutdown_ok s -> sys_workers s !! w = Some worker -> worker <> Exited ->
  sv_stopping sv = sv_stopping (sys_service s) ->
  (sv_queue (sys_service s) = [] -> sv_queue sv = []) ->
  shutdown_ok (mkSystem sv (<[w := worker']> (sys_workers s)) (sys_shutdown s)).
Proof.
  unfold shutdown_ok. simpl. intros Hs Hw Hne -> Hq.
  destruct (sys_shutdown s); try (destruct Hs; auto; done).
  destruct Hs as (_ & _ & Hall). by apply (Forall_lookup_1 _ _ _ _ Hall) in Hw.
Qed.

Section WorkerStep.
Context (s : System) (io : Io) (w : nat) (worker : Worker).
Hypothesis Hinv : SysInv s.
Hypothesis Hw : sys_workers s !! w = Some worker.
Let sv := sys_service s.

(** A step that only moves the worker's job along, and may append records. *)
Lemma worker_moves sv' worker' :
  worker <> Exited -> extends sv sv' -> same_jobs sv sv' -> worker_jobs worker' = worker_jobs worker ->
  worker_ok sv' worker' ->
  SysInv (mkSystem sv' (<[w := worker']> (sys_workers s)) (sys_shutdown s)).
Proof.
  intros Hne Hx (Hq & Hstop & Hsl & Hc & Hh & _) Hjobs Hok.
  destruct (outstanding_worker _ _ _ Hw) as (rest & Ho & Ho').
  apply (sys_inv_quiet s); try done.
  - by rewrite Ho', Ho, Hjobs, Hq.
  - eapply workers_ok_insert; [apply (sys_workers_ok _ Hinv)|done| |done].
    simpl. by rewrite Hstop.
  - eapply shutdown_ok_worker; [apply (sys_shutdown_ok _ Hinv)|done..|]. by rewrite Hq.
Qed.

(** A step that answers the worker's job. *)
Lemma worker_answers sv1 job f r :
  worker_jobs worker = [job] ->
  (forall js, js_done (f js) = true) ->
  (forall js, js_status (f js) = None -> slot_ok sv1 job (f js)) ->
  (forall r', r = Ok r' -> job_kind job = PLAN /\ justified sv1 (job_request job) r') ->
  extends sv sv1 -> sv_queue sv1 = sv_queue sv -> sv_stopping sv1 = sv_stopping sv ->
  sv_submitted sv1 = sv_submitted sv ->
  sv_slots sv1 = match job_state job with
                 | Some slot => alter f slot (sv_slots sv)
                 | None => sv_slots sv
                 end ->
  sv_calls sv1 = match job_callback job with
                 | Some c => sv_calls sv ++ [(c, r)]
                 | None => sv_calls sv
                 end ->
  SysInv (mkSystem sv1 (<[w := Idle]> (sys_workers s)) (sys_shutdown s)).
Proof.
  intros Hjob Hf Hslot Hcall Hx Hq Hstop Hh Hsl Hc.
  destruct (outstanding_worker _ _ _ Hw) as (rest & Ho & Ho').
  apply (sys_inv_answer s _ job f r); try done.
  - rewrite Ho', Ho, Hjob, Hq. simpl. by rewrite Permutation_middle.
  - eapply workers_ok_insert; [apply (sys_workers_ok _ Hinv)|done| |done]. simpl. by rewrite Hstop.
  - eapply shutdown_ok_worker; [apply (sys_shutdown_ok _ Hinv)|done| |done|].
    + intros ->. done.
    + by rewrite Hq.
Qed.

End WorkerStep.

(** A validation has a plan and a slot. *)
Lemma validation_job s w job :
  SysInv s -> sys_workers s !! w = Some (Busy job) -> job_kind job = VALIDATE ->
  job_callback job = None /\ is_Some (job_plan job).
Proof.
  intros Hinv Hw Hk. destruct (outstanding_worker _ _ _ Hw) as (rest & Ho & _).
  assert (Hin : job ∈ outstanding s).
  { rewrite Ho. apply elem_of_app. right. by constructor. }
  destruct (jobs_id _ _ _ _ _ (sys_jobs _ Hinv) Hin) as [call Heq]. rewrite Heq in Hk |- *.
  by destruct call.
Qed.

Lemma worker_step_inv s io w worker worker' sv' :
  SysInv s -> sys_workers s !! w = Some worker ->
  worker_step io (sys_service s) worker = Some (Returned (worker', sv')) ->
  SysInv (mkSystem sv' (<[w := worker']> (sys_workers s)) (sys_shutdown s)).
Proof.
  intros Hinv Hw. set (sv := sys_service s).
  pose proof (Forall_lookup_1 _ _ _ _ (sys_workers_ok _ Hinv) Hw) as Hok. fold sv in Hok.
  unfold worker_step. destruct worker as [|job|job|job r|].
  - destruct (sv_queue sv) as [|job rest] eqn:Hq.
    + destruct (sv_stopping sv) eqn:Hstop; [|discriminate]. intros [= <- <-].
      by apply (worker_moves s w Idle).
    + intros [= <- <-]. destruct (outstanding_worker _ _ _ Hw) as (more & Ho & Ho').
      apply (sys_inv_quiet s); try done; [by apply extends_same| | |].
      * rewrite Ho', Ho. fold sv. rewrite Hq. simpl. by rewrite Permutation_middle.
      * eapply workers_ok_insert; [apply (sys_workers_ok _ Hinv)|by apply extends_same|done|done].
      * eapply shutdown_ok_worker; [apply (sys_shutdown_ok _ Hinv)|done..|]. fold sv. by rewrite Hq.
  - destruct (job_kind job) eqn:Hkind.
    + destruct (begin_plan io (job_request job) sv) as [[[u|r] sv1]|d] eqn:Hb; [| |discriminate];
        intros [= <- <-]; apply begin_plan_spec in Hb as (Hx & Hj & Hres);
        by apply (worker_moves s w (Busy job)).
    + destruct (validation_job _ _ _ Hinv Hw Hkind) as [Hcb _].
      destruct (job_plan job) as [p|] eqn:Hp; [|discriminate].
      destruct (run_validate io (job_request job) p sv) as [report sv1] eqn:Hv. intros [= <- <-].
      apply run_validate_spec in Hv as (-> & Hx & Hq & Hstop & Hsl & Hc & Hh & _).
      apply (worker_answers s w (Busy job)) with (job := job)
        (f := validated_slot (validate_plan (job_request job) p)) (r := Err shut_down_status);
        try done; unfold complete_validation; try (destruct (job_state job); done).
      * intros js _. unfold slot_ok. rewrite Hkind. by exists p.
      * destruct (job_state job); simpl; by rewrite Hsl.
      * rewrite Hcb. by destruct (job_state job).
  - destruct (plan _ _) as [r0|] eqn:Hp; [|discriminate].
    destruct (commit_plan io r0 sv) as [[r sv1]|d] eqn:Hc; [|discriminate]. intros [= <- <-].
    destruct Hok as (Hkind & Hcur & Hlog).
    apply (commit_plan_spec io _ _ _ _ _ Hcur Hp Hlog) in Hc as (Hx & Hj & Hjust).
    by apply (worker_moves s w (Attempted job)).
  - destruct Hok as [Hkind Hjust].
    set (sv0 := set_counters _ _). destruct (complete_fields job (Ok r) sv0) as (Hx & Hq & Hs & Hh & Hsl & Hc).
    assert (Hx' : extends sv (complete job (Ok r) sv0)).
    { etransitivity; [|exact Hx]. by apply extends_same. }
    intros Hrun. assert (Heq : worker' = Idle /\ sv' = complete job (Ok r) sv0).
    { destruct (cfg_crash_point _); by inversion Hrun. }
    destruct Heq as [-> ->].
    apply (worker_answers s w (Publishing job r)) with (job := job) (f := planned_slot (Ok r))
      (r := Ok r); try done.
    + intros js _. unfold slot_ok. rewrite Hkind. by eapply justified_extends.
    + intros r' [= <-]. split; [done|]. by eapply justified_extends.
  - discriminate.
Qed.

Lemma shutdown_step_inv s io next sv' :
  SysInv s -> shutdown_step io (sys_workers s) (sys_service s) (sys_shutdown s) = Some (next, sv') ->
  SysInv (mkSystem sv' (sys_workers s) next).
Proof.
  intros Hinv. destruct s as [sv ws sh]. simpl. pose proof (sys_workers_ok _ Hinv) as Hws.
  pose proof (sys_shutdown_ok _ Hinv) as Hsd. unfold shutdown_ok in Hsd. simpl in *.
  assert (Hweak : forall sv', extends sv sv' -> (sv_stopping sv = true -> sv_stopping sv' = true) ->
            Forall (worker_ok sv') ws).
  { intros sv1 Hx Hs. eapply Forall_impl; [done|]. intros w. by apply worker_ok_extends. }
  destruct sh as [|[|job pending]| |]; simpl.
  - intros [= <- <-]. apply (sys_inv_quiet _ _ Hinv); try done; [by apply extends_same| |].
    + unfold outstanding. simpl. rewrite app_nil_r. by rewrite Permutation_app_comm.
    + apply Hweak; [by apply extends_same|done].
  - intros [= <- <-]. by apply (sys_inv_quiet _ _ Hinv).
  - intros [= <- <-]. destruct Hsd as [Hstop Hq].
    destruct (complete_fields job (Err shut_down_status) sv) as (Hx & Hq' & Hs & Hh & Hsl & Hc).
    apply (sys_inv_answer (mkSystem sv ws (Draining (job :: pending))) _ job
             (planned_slot (Err shut_down_status)) (Err shut_down_status)); try done.
    + unfold outstanding. simpl. rewrite Hq', Hq. simpl. by rewrite Permutation_middle.
    + apply Hweak; [done|]. intros Ht. cbn [sys_service]. by rewrite Hs.
    + unfold shutdown_ok. cbn [sys_service sys_shutdown]. by rewrite Hs, Hq'.
  - destruct (forallb _ ws) eqn:Hall; [|discriminate]. intros [= <- <-].
    assert (Hex : Forall (fun w => w = Exited) ws).
    { apply Forall_forall. intros w Hw. apply list_elem_of_In in Hw.
      rewrite forallb_forall in Hall. specialize (Hall w Hw). by destruct w. }
    assert (Hx : forall d, extends sv (drop_store sv d)).
    { intros d. unfold extends. simpl. by destruct (sv_store sv). }
    destruct (sv_store sv) as [st|].
    + apply (sys_inv_quiet _ _ Hinv); try done; [apply Hx|apply Hweak; [apply Hx|done]|].
      unfold shutdown_ok. simpl. destruct Hsd. done.
    + apply (sys_inv_quiet _ _ Hinv); try done. unfold shutdown_ok. simpl. destruct Hsd. done.
  - discriminate.
Qed.

Lemma process_step_inv ios s s' :
  process_step ios (Alive s) (Alive s') -> SysInv s -> SysInv s'.
Proof.
  intros Hstep Hinv. inversion Hstep as [? ? Hthread|? call]; subst; [|by apply submit_inv].
  inversion Hthread as [? io w worker r Hio Hw Hrun Heq|? io next sv Hio Hrun]; subst.
  - destruct r as [[worker' sv']|d]; [|done]. by simplify_eq/=; eapply worker_step_inv.
  - by eapply shutdown_step_inv.
Qed.

(** What every step of a living process extends holds of the whole run. *)
Lemma reachable_ind ios (R : System -> System -> Prop) s s' :
  (forall s, R s s) ->
  (forall s1 s2 s3, process_step ios (Alive s1) (Alive s2) -> R s2 s3 -> R s1 s3) ->
  rtc (process_step ios) (Alive s) (Alive s') -> R s s'.
Proof.
  intros Hrefl Hstep Hrun. remember (Alive s) as p eqn:Hp. remember (Alive s') as p' eqn:Hp'.
  revert s Hp. induction Hrun as [|p q p' Hpq Hrun IH]; intros s0 Hp; subst.
  - by simplify_eq.
  - destruct q as [s1|d]; [eapply Hstep; [exact Hpq|by apply IH]|].
    inversion Hrun as [|? ? ? Hdead]; subst. inversion Hdead as [? ? Hd|]; inversion Hd.
Qed.

Lemma reachable_inv ios s s' :
  rtc (process_step ios) (Alive s) (Alive s') -> SysInv s -> SysInv s'.
Proof.
  apply (reachable_ind ios (fun s s' => SysInv s -> SysInv s')); [done|].
  intros s1 s2 s3 Hstep IH Hinv. apply IH. by eapply process_step_inv.
Qed.

(** A service that has just started. *)
Definition fresh_system (config : ServiceConfig) (st : option Store) (d : Disk) (epoch : Epoch)
  (boot : BootId) (last : Sequence) (threads : nat) : System :=
  mkSystem (mkService config st d epoch boot last [] false zero_service_stats ∅ [] [])
    (replicate threads Idle) Up.

Lemma fresh_system_inv config st d epoch boot last threads :
  SysInv (fresh_system config st d epoch boot last threads).
Proof.
  assert (Hout : outstanding (fresh_system config st d epoch boot last threads) = []).
  { unfold outstanding. simpl. rewrite app_nil_r. by induction threads. }
  split; try done.
  - rewrite Hout. split; simpl; try done.
    + intros j Hj. by apply not_elem_of_nil in Hj.
    + constructor.
    + intros id. rewrite lookup_empty. split; [by intros [? ?]|by intros (? & ? & ?)].
    + constructor.
    + intros id. split; [intros Hj; by apply not_elem_of_nil in Hj|by intros (? & ? & ?)].
  - simpl. apply Forall_replicate. exact I.
  - simpl. intros id r Hj. by apply not_elem_of_nil in Hj.
Qed.

Lemma start_fresh io config path d s d' :
  start io config path d = Some (Ok s, d') ->
  exists st epoch boot last threads, s = fresh_system config st d' epoch boot last threads /\
    match st with
    | Some st => open io path (mkOptions (cfg_store_limits config) true true) d = Some (Ok st, d') /\
                 epoch = st_epoch st /\ boot = st_boot st
    | None => d' = d /\ epoch = 1 /\ boot = 1
    end.
Proof.
  unfold start. destruct (_ && _).
  - destruct (open _ _ _ _) as [[[st|s0] d1]|] eqn:Ho; [|discriminate..].
    intros [= <- <-]. exists (Some st). eauto 10.
  - intros [= <- <-]. exists None. eauto 10.
Qed.

(** ** What no step changes *)

(** The incarnation, the configuration, the log, and the history of submissions. *)
Definition remembers (sv sv' : Service) : Prop :=
  sv_submitted sv `prefix_of` sv_submitted sv' /\ extends sv sv'.

#[global] Instance remembers_preorder : PreOrder remembers.
Proof.
  split; [done|]. intros a b c [H1 H2] [H3 H4]. split; by etransitivity.
Qed.

Lemma remembers_same sv sv' : extends sv sv' -> same_jobs sv sv' -> remembers sv sv'.
Proof. intros Hx (_ & _ & _ & _ & Hs & _). split; [by rewrite Hs|done]. Qed.

Lemma remembers_quiet sv sv' :
  sv_submitted sv `prefix_of` sv_submitted sv' -> sv_config sv' = sv_config sv ->
  sv_epoch sv' = sv_epoch sv -> sv_boot sv' = sv_boot sv -> sv_store sv' = sv_store sv ->
  remembers sv sv'.
Proof. intros Hs. split; [done|by apply extends_same]. Qed.

Lemma complete_remembers job r sv : remembers sv (complete job r sv).
Proof. destruct (complete_fields job r sv) as (Hx & _ & _ & Hs & _). split; [by rewrite Hs|done]. Qed.

Lemma worker_step_remembers io sv worker worker' sv' :
  worker_step io sv worker = Some (Returned (worker', sv')) -> remembers sv sv'.
Proof.
  unfold worker_step. destruct worker as [|job|job|job r|].
  - destruct (sv_queue sv); [destruct (sv_stopping sv); [|discriminate]|]; intros [= <- <-];
      by apply remembers_quiet.
  - destruct (job_kind job).
    + destruct (begin_plan io _ sv) as [[[u|r] sv1]|d] eqn:Hb; [| |discriminate]; intros [= <- <-];
        apply begin_plan_spec in Hb as (? & ? & _); by apply remembers_same.
    + destruct (job_plan job) as [p|]; [|discriminate].
      destruct (run_validate io _ p sv) as [report sv1] eqn:Hv. intros [= <- <-].
      apply run_validate_spec in Hv as (_ & ? & ?). etransitivity; [by apply remembers_same|].
      unfold complete_validation. destruct (job_state job); by apply remembers_quiet.
  - destruct (plan _ _) as [r|]; [|discriminate].
    unfold commit_plan. destruct (outcome_record r) as [type payload].
    destruct (append_durable _ _ _ _) as [[u|s] sv1] eqn:Hd;
      apply append_durable_spec in Hd as (? & ? & _);
      [destruct (cfg_crash_point _)|]; try discriminate; intros [= <- <-]; by apply remembers_same.
  - set (sv0 := set_counters _ _). assert (H : remembers sv (complete job (Ok r) sv0)).
    { etransitivity; [|apply complete_remembers]. by apply remembers_quiet. }
    destruct (cfg_crash_point _); try discriminate; by intros [= <- <-].
  - discriminate.
Qed.

Lemma shutdown_step_remembers io ws sv s next sv' :
  shutdown_step io ws sv s = Some (next, sv') -> remembers sv sv'.
Proof.
  destruct s as [|[|job pending]| |]; simpl; [intros [= _ <-]; by apply remembers_quiet|by intros [= _ <-]| | |done].
  - intros [= _ <-]. apply complete_remembers.
  - destruct (forallb _ ws); [|discriminate]. intros [= _ <-]. split; [by destruct (sv_store sv)|].
    destruct (sv_store sv) eqn:Hst; [|reflexivity]. unfold extends. by rewrite Hst.
Qed.

Lemma process_step_remembers ios s s' :
  process_step ios (Alive s) (Alive s') -> remembers (sys_service s) (sys_service s').
Proof.
  intros Hstep. inversion Hstep as [? ? Hthread|? call]; subst.
  - inversion Hthread as [? io w worker r Hio Hw Hrun Heq|? io next sv Hio Hrun]; subst.
    + destruct r as [[worker' sv']|d]; [|done]. simplify_eq/=. by eapply worker_step_remembers.
    + by eapply shutdown_step_remembers.
  - simpl. unfold submit, enqueue. destruct (sv_stopping _); [done|].
    destruct (_ <=? _); apply remembers_quiet; try done. by apply prefix_app_r.
Qed.

Lemma reachable_remembers ios s s' :
  rtc (process_step ios) (Alive s) (Alive s') -> remembers (sys_service s) (sys_service s').
Proof.
  apply (reachable_ind ios (fun s s' => remembers (sys_service s) (sys_service s'))); [done|].
  intros s1 s2 s3 Hstep IH. etransitivity; [by eapply process_step_remembers|exact IH].
Qed.

(** ** Shutdown terminates *)

Definition worker_rank (w : Worker) : nat :=
  match w with Exited => 0 | Idle => 1 | Publishing _ _ => 2 | Attempted _ => 3 | Busy _ => 4 end.

Definition shutdown_rank (s : Shutdown) : nat :=
  match s with Up => 3 | Draining pending => 2 + length pending | Joining => 1 | Down => 0 end.

(** An upper bound on the steps the threads can still take without a new job. *)
Definition work (s : System) : nat :=
  5 * length (sv_queue (sys_service s)) + sum_list (map worker_rank (sys_workers s)) +
  shutdown_rank (sys_shutdown s).

Lemma sum_list_insert {A} (f : A -> nat) ws w worker worker' :
  ws !! w = Some worker ->
  (sum_list (map f (<[w := worker']> ws)) + f worker = sum_list (map f ws) + f worker')%nat.
Proof.
  revert w; induction ws as [|x ws IH]; intros [|w] Hw; simplify_eq/=; [lia|].
  specialize (IH _ Hw). lia.
Qed.

Lemma worker_step_queue io sv worker worker' sv' :
  worker_step io sv worker = Some (Returned (worker', sv')) ->
  (5 * length (sv_queue sv') + worker_rank worker' <
   5 * length (sv_queue sv) + worker_rank worker)%nat.
Proof.
  unfold worker_step. destruct worker as [|job|job|job r|].
  - destruct (sv_queue sv) as [|job rest] eqn:Hq.
    + destruct (sv_stopping sv); [|discriminate]. intros [= <- <-]. rewrite Hq. simpl. lia.
    + intros [= <- <-]. simpl. lia.
  - destruct (job_kind job).
    + destruct (begin_plan io (job_request job) sv) as [[[u|r] sv1]|d] eqn:Hb; [| |discriminate];
        intros [= <- <-]; apply begin_plan_spec in Hb as (_ & (Hq & _) & _); rewrite Hq; simpl; lia.
    + destruct (job_plan job) as [p|]; [|discriminate].
      destruct (run_validate io (job_request job) p sv) as [report sv1] eqn:Hv. intros [= <- <-].
      apply run_validate_spec in Hv as (_ & _ & (Hq & _)).
      unfold complete_validation. destruct (job_state job); simpl; rewrite Hq; lia.
  - destruct (plan _ _) as [r0|]; [|discriminate]. unfold commit_plan.
    destruct (outcome_record r0) as [type payload].
    destruct (append_durable io type payload sv) as [res sv1] eqn:Hd.
    apply append_durable_spec in Hd as (_ & (Hq & _) & _).
    destruct res; [destruct (cfg_crash_point _)|]; intros [= <- <-]; rewrite Hq; simpl; lia.
  - destruct (complete_fields job (Ok r)
      (set_counters sv (count_decision (pr_decision r) (count_completed (sv_stats sv)))))
      as (_ & Hq & _).
    destruct (cfg_crash_point _); intros [= <- <-]; rewrite Hq; simpl; lia.
  - discriminate.
Qed.

Lemma thread_step_work ios s s' : thread_step ios (Alive s) (Alive s') -> (work s' < work s)%nat.
Proof.
  intros Hstep. inversion Hstep as [? io w worker r Hio Hw Hrun Heq|? io next sv Hio Hrun]; subst.
  - destruct r as [[worker' sv']|d]; [|done]. simplify_eq/=.
    apply worker_step_queue in Hrun. unfold work. simpl.
    pose proof (sum_list_insert worker_rank _ _ _ worker' Hw). lia.
  - destruct s as [sv0 ws sh]. unfold work. simpl in *.
    destruct sh as [|[|job pending]| |]; simpl in Hrun.
    + injection Hrun as <- <-. simpl. lia.
    + injection Hrun as <- <-. simpl. lia.
    + injection Hrun as <- <-. destruct (complete_fields job (Err shut_down_status) sv0) as (_ & Hq & _).
      rewrite Hq. simpl. lia.
    + destruct (forallb _ ws); [|discriminate]. injection Hrun as <- <-.
      destruct (sv_store sv0); simpl; lia.
    + discriminate.
Qed.

(** A worker that has something to do can do it. *)
Lemma worker_runs s io w worker :
  SysInv s -> sys_workers s !! w = Some worker -> worker <> Exited ->
  (sv_queue (sys_service s) <> [] \/ sv_stopping (sys_service s) = true \/ worker <> Idle) ->
  exists r, worker_step io (sys_service s) worker = Some r.
Proof.
  intros Hinv Hw Hne Hbusy. unfold worker_step. destruct worker as [|job|job|job r|]; [| | | |done].
  - destruct (sv_queue (sys_service s)); [|by eauto]. destruct Hbusy as [|[->|]]; [done|by eauto|done].
  - destruct (job_kind job) eqn:Hk.
    + destruct (begin_plan _ _ _) as [[[u|r] sv1]|d]; eauto.
    + destruct (validation_job _ _ _ Hinv Hw Hk) as [_ [p ->]].
      destruct (run_validate _ _ _ _). eauto.
  - destruct (plan_answers (cfg_model_limits (sv_config (sys_service s))) (job_request job)) as [r ->].
    destruct (commit_plan _ _ _) as [[? ?]|]; eauto.
  - destruct (cfg_crash_point _); eauto.
Qed.

(** Until it is down, a service that shuts down never waits for ever. *)
Lemma shutdown_progress (ios : Io -> Prop) s io :
  SysInv s -> ios io -> sys_shutdown s <> Up ->
  sys_shutdown s = Down \/ exists p, thread_step ios (Alive s) p.
Proof.
  intros Hinv Hio Hup. pose proof (sys_shutdown_ok _ Hinv) as Hsd. unfold shutdown_ok in Hsd.
  destruct s as [sv ws sh]. simpl in *. destruct sh as [|[|job pending]| |]; [done| | | |by left]; right.
  - eexists. by eapply step_shutdown.
  - eexists. by eapply step_shutdown.
  - destruct Hsd as [Hstop Hq].
    destruct (forallb (fun w => match w with Exited => true | _ => false end) ws) eqn:Hall.
    { eexists. eapply step_shutdown; [exact Hio|]. simpl. by rewrite Hall. }
    assert (Hw : exists w worker, ws !! w = Some worker /\ worker <> Exited).
    { clear -Hall. induction ws as [|x ws IH]; [done|]. simpl in Hall.
      destruct (decide (forallb (fun w => match w with Exited => true | _ => false end) ws = true))
        as [Ht|Hf].
      - rewrite Ht, andb_true_r in Hall. exists 0%nat, x. split; [done|]. by intros ->.
      - apply not_true_is_false in Hf. destruct (IH Hf) as (w & worker & ? & ?). by exists (S w), worker. }
    destruct Hw as (w & worker & Hw & Hne).
    assert (Hr : exists r, worker_step io sv worker = Some r)
      by (eapply (worker_runs (mkSystem sv ws Joining)); eauto).
    destruct Hr as [r Hr]. eexists. by eapply (step_worker _ (mkSystem sv ws Joining)).
Qed.

(** ** What the service promises *)

(** Nobody waits for ever and nothing is answered twice: in every reachable state
    a callback has been called at most once, and when shutdown has returned each
    accepted job is answered. *)
Lemma down_answered s id call :
  SysInv s -> sys_shutdown s = Down -> sv_submitted (sys_service s) !! id = Some (job_of call id) ->
  match call with
  | CallPlan _ | CallValidate _ _ =>
      exists js, sv_slots (sys_service s) !! id = Some js /\ js_done js = true
  | CallSubmitPlan _ => id ∈ (sv_calls (sys_service s)).*1
  end.
Proof.
  intros Hinv Hdown Hsub. pose proof (sys_shutdown_ok _ Hinv) as Hsd. unfold shutdown_ok in Hsd.
  rewrite Hdown in Hsd. destruct Hsd as (_ & Hq & Hex).
  assert (Hout : outstanding s = []).
  { unfold outstanding. rewrite Hq, Hdown. simpl. rewrite app_nil_r.
    by induction Hex as [|w ws -> _ IH]. }
  pose proof (sys_jobs _ Hinv) as Hj. rewrite Hout in Hj.
  assert (Hslot : job_state (job_of call id) = Some id ->
            exists js, sv_slots (sys_service s) !! id = Some js /\ js_done js = true).
  { intros Hst. destruct (proj2 (jobs_slots _ _ _ _ Hj id)) as [js Hjs]; [eauto|].
    exists js. split; [done|]. destruct (js_done js) eqn:Hd; [done|].
    apply (jobs_open _ _ _ _ Hj _ _ Hjs) in Hd as (j & Hj0 & _). by apply not_elem_of_nil in Hj0. }
  destruct call; simpl in *; [by apply Hslot..|].
  apply (jobs_called _ _ _ _ Hj). eexists. split_and!; [done|done|apply not_elem_of_nil].
Qed.

Lemma down_wait s id call :
  SysInv s -> sys_shutdown s = Down -> sv_submitted (sys_service s) !! id = Some (job_of call id) ->
  match call with
  | CallPlan _ => wait_plan id (sys_service s) <> None
  | CallValidate _ _ => wait_validate id (sys_service s) <> None
  | CallSubmitPlan _ => id ∈ (sv_calls (sys_service s)).*1
  end.
Proof.
  intros Hinv Hdown Hsub. pose proof (down_answered _ _ _ Hinv Hdown Hsub) as Ha.
  unfold wait_plan, wait_validate.
  destruct call; [destruct Ha as (js & -> & Hd)..|done]; simpl; by rewrite Hd.
Qed.

(** C17: shutdown ends and answers everyone. Once shutdown has begun, submissions
    are refused without an effect, every step of any thread strictly decreases
    [work], and some thread can always step until the service is down, whatever
    the file system does; and when it is down, every slot of an accepted
    [plan] or [validate] is filled and every accepted callback has been called,
    none ever twice. *)
Theorem shutdown_answers_everyone (ios : Io -> Prop) io config path d s0 d0 s :
  ios io -> start io config path d = Some (Ok s0, d0) ->
  rtc (process_step ios) (Alive s0) (Alive s) -> sys_shutdown s <> Up ->
  (forall call, (submit call (sys_service s)).2 = sys_service s) /\
  (forall s', thread_step ios (Alive s) (Alive s') -> (work s' < work s)%nat) /\
  (sys_shutdown s = Down \/ exists p, thread_step ios (Alive s) p) /\
  NoDup (sv_calls (sys_service s)).*1 /\
  (sys_shutdown s = Down -> forall id call, sv_submitted (sys_service s) !! id = Some (job_of call id) ->
     match call with
     | CallPlan _ => wait_plan id (sys_service s) <> None
     | CallValidate _ _ => wait_validate id (sys_service s) <> None
     | CallSubmitPlan _ => id ∈ (sv_calls (sys_service s)).*1
     end).
Proof.
  intros Hio Hstart Hrun Hup. apply start_fresh in Hstart as (st & e & b & l & n & -> & _).
  pose proof (reachable_inv _ _ _ Hrun (fresh_system_inv _ _ _ _ _ _ _)) as Hinv.
  split_and!.
  - intros call. pose proof (sys_shutdown_ok _ Hinv) as Hsd. unfold shutdown_ok in Hsd.
    assert (Hstop : sv_stopping (sys_service s) = true) by (by destruct (sys_shutdown s); intuition).
    unfold submit, enqueue. by rewrite Hstop.
  - intros s'. apply thread_step_work.
  - by eapply shutdown_progress.
  - apply (jobs_called_once _ _ _ _ (sys_jobs _ Hinv)).
  - intros Hdown id call. by apply down_wait.
Qed.

(** A plan request was answered, to the thread that waits or through its callback. *)
Definition answered (sv : Service) (request : PlanRequest) (r : PlanningResult) : Prop :=
  exists id,
    (sv_submitted sv !! id = Some (job_of (CallPlan request) id) /\ wait_plan id sv = Some (Ok r)) \/
    (sv_submitted sv !! id = Some (job_of (CallSubmitPlan request) id) /\ (id, Ok r) ∈ sv_calls sv).

Lemma answered_justified s request r :
  SysInv s -> answered (sys_service s) request r -> justified (sys_service s) request r.
Proof.
  intros Hinv (id & [[Hsub Hwait]|[Hsub Hin]]).
  - unfold wait_plan in Hwait. destruct (sv_slots (sys_service s) !! id) as [js|] eqn:Hjs; [|done].
    simpl in Hwait. destruct (js_done js) eqn:Hd; [|done].
    destruct (js_status js) eqn:Hst; [done|]. injection Hwait as <-.
    destruct (sys_slots _ Hinv id js Hjs Hd Hst) as (j & Hj & Hok).
    rewrite Hsub in Hj. by injection Hj as <-.
  - destruct (sys_calls _ Hinv id r Hin) as (j & Hj & _ & Hok).
    rewrite Hsub in Hj. by injection Hj as <-.
Qed.

Lemma validation_waited s id q p v :
  SysInv s -> sv_submitted (sys_service s) !! id = Some (job_of (CallValidate q p) id) ->
  wait_validate id (sys_service s) = Some (Ok v) -> v = validate_plan q p.
Proof.
  intros Hinv Hsub Hwait. unfold wait_validate in Hwait.
  destruct (sv_slots (sys_service s) !! id) as [js|] eqn:Hjs; [|done].
  simpl in Hwait. destruct (js_done js) eqn:Hd; [|done].
  destruct (js_status js) eqn:Hst; [done|]. injection Hwait as <-.
  destruct (sys_slots _ Hinv id js Hjs Hd Hst) as (j & Hj & Hok).
  rewrite Hsub in Hj. injection Hj as <-. by destruct Hok as (p' & [= <-] & ->).
Qed.

(** Only the planner's own result carries a plan or a proof. *)
Lemma justified_carries sv request r :
  justified sv request r -> pr_plan r <> None \/ pr_certificate r <> None ->
  current sv request /\ planned sv request r /\
  logged sv RecordType.ATTEMPT (attempt_payload request) /\
  logged sv (outcome_record r).1 (outcome_record r).2.
Proof. intros [] Hc; [simpl in Hc; by destruct Hc..|done]. Qed.

(** C16: what a caller is told is on record. An answer to a plan request is one of
    the refusals of [run_plan] or the planner's own result, and a result with a
    plan or a proof is only ever handed out when the attempt and the outcome are
    acknowledged records of the store; the answer to a validation is the
    validator's report. *)
Theorem answers_are_durable (ios : Io -> Prop) io config path d s0 d0 s :
  start io config path d = Some (Ok s0, d0) -> rtc (process_step ios) (Alive s0) (Alive s) ->
  let sv := sys_service s in
  (forall request r, answered sv request r ->
     justified sv request r /\
     (pr_plan r <> None \/ pr_certificate r <> None ->
      current sv request /\ plan (cfg_model_limits (sv_config sv)) request = Some r /\
      logged sv RecordType.ATTEMPT (attempt_payload request) /\
      logged sv (outcome_record r).1 (outcome_record r).2)) /\
  (forall id request p v,
     sv_submitted sv !! id = Some (job_of (CallValidate request p) id) ->
     wait_validate id sv = Some (Ok v) -> v = validate_plan request p).
Proof.
  intros Hstart Hrun sv. apply start_fresh in Hstart as (st & e & b & l & n & -> & _).
  pose proof (reachable_inv _ _ _ Hrun (fresh_system_inv _ _ _ _ _ _ _)) as Hinv. split.
  - intros request r Ha. pose proof (answered_justified _ _ _ Hinv Ha) as Hj.
    split; [done|]. by apply justified_carries.
  - intros id request p v. by apply validation_waited.
Qed.

(** ** Crashes of the whole process *)

(** The store is sound, and its sequence numbers cannot run out before its table
    of records is full. *)
Definition store_ok (limits : StoreLimits) (sv : Service) : Prop :=
  match sv_store sv with
  | None => True
  | Some st =>
      Inv limits st (sv_disk sv) /\
      last_sequence st + (max_records limits - sizez (st_records st)) + max_records limits + 2
        <= UINT64_MAX
  end.

(** The records the service appends are of types that recovery does not interpret. *)
Definition opaque_record (type : RecordType.t) (payload : list Z) : Prop :=
  Forall in_u8 payload /\ type <> RecordType.BOOT /\ type <> RecordType.FENCE.

Lemma attempt_opaque request : opaque_record RecordType.ATTEMPT (attempt_payload request).
Proof. split; [|done]. unfold attempt_payload, encode_digest. encoder_bytes. Qed.

Lemma outcome_opaque r : opaque_record (outcome_record r).1 (outcome_record r).2.
Proof.
  unfold outcome_record, opaque_record. destruct (pr_plan r) as [p|]; cbn [fst snd];
    (split; [|split; discriminate]).
  - apply encode_plan_record_bytes.
  - unfold encode_digest. encoder_bytes.
Qed.

Lemma lineage_opaque request p report :
  opaque_record RecordType.EVIDENCE_LINEAGE (lineage_payload request p report).
Proof. split; [|done]. unfold lineage_payload, encode_digest. encoder_bytes. Qed.

Lemma opaque_sound limits st type payload :
  opaque_record type payload -> RecordType.is_valid type = true ->
  sizez payload <= max_record_bytes limits -> sound_record limits (new_record st type payload).
Proof.
  intros (Hb & Hboot & Hfence) Hv Hs. split.
  - split; [done|apply u64_range|done|done].
  - unfold payload_ok. simpl. by destruct type.
Qed.

Lemma append_refused type payload flush st d s st' d' :
  append io_ok type payload flush st d = (Err s, st', d') -> st' = st /\ d' = d.
Proof.
  unfold append. cbv zeta.
  repeat (case_match; simplify_eq/=; try (intros [= <- <- <-]; done); try discriminate).
  all: intros [= <- <- <-]; done.
Qed.

Section Crashes.
Context (limits : StoreLimits) (Hlimits : limits_sound limits).

(** Appending one of the service's records, and what is on disk if the process
    dies right after it. *)
Lemma append_store_ok type payload flush st d res st' d' :
  Inv limits st d ->
  last_sequence st + (max_records limits - sizez (st_records st)) + max_records limits + 2
    <= UINT64_MAX ->
  opaque_record type payload -> append io_ok type payload flush st d = (res, st', d') ->
  Inv limits st' d' /\ crash limits st d d' /\
  last_sequence st' + (max_records limits - sizez (st_records st')) + max_records limits + 2
    <= UINT64_MAX.
Proof.
  intros Hi Hroom Ho Ha. destruct res as [s|s].
  - apply append_ok_inv in Ha as (Hv & Hsz & Hcount & _ & -> & ->).
    rewrite (inv_limits _ _ _ Hi) in Hsz, Hcount.
    assert (Hlt : last_sequence st < UINT64_MAX).
    { unfold sizez in *. lia. }
    pose proof (opaque_sound limits st type payload Ho Hv Hsz) as Hs. split_and!.
    + by apply inv_append.
    + pose proof (crash_appending limits st d type payload _ Hs (le_n _)) as Hc.
      by rewrite firstn_all in Hc.
    + simpl. rewrite (next_sequence_succ _ _ _ Hi Hlt). unfold sizez in *. rewrite length_app. simpl. lia.
  - apply append_refused in Ha as [-> ->]. split_and!; [done|constructor|done].
Qed.

(** What a dying process leaves. *)
Definition leaves (sv : Service) (d : Disk) : Prop :=
  match sv_store sv with
  | None => d = sv_disk sv
  | Some st => crash limits st (sv_disk sv) d
  end.

Lemma leaves_disk sv : leaves sv (sv_disk sv).
Proof. unfold leaves. destruct (sv_store sv); [constructor|done]. Qed.

Lemma append_durable_store_ok type payload sv res sv' :
  store_ok limits sv -> opaque_record type payload ->
  append_durable io_ok type payload sv = (res, sv') ->
  store_ok limits sv' /\ leaves sv (sv_disk sv').
Proof.
  unfold store_ok, append_durable, leaves. destruct (sv_store sv) as [st|] eqn:Hst.
  - intros [Hi Hroom] Ho. destruct (append _ _ _ _ _ _) as [[res0 st'] d'] eqn:Ha.
    destruct (append_store_ok _ _ _ _ _ _ _ _ Hi Hroom Ho Ha) as (Hi' & Hc & Hroom').
    destruct res0; intros [= <- <-]; by simpl.
  - intros _ _ [= <- <-]. by rewrite Hst.
Qed.

Lemma complete_store job r sv :
  sv_store (complete job r sv) = sv_store sv /\ sv_disk (complete job r sv) = sv_disk sv.
Proof. unfold complete. by destruct (job_callback job), (job_state job). Qed.

Lemma store_ok_same sv sv' :
  sv_store sv' = sv_store sv -> sv_disk sv' = sv_disk sv -> store_ok limits sv -> store_ok limits sv'.
Proof. unfold store_ok. by intros -> ->. Qed.

Lemma begin_plan_store_ok request sv :
  store_ok limits sv ->
  match begin_plan io_ok request sv with
  | Returned (_, sv') => store_ok limits sv'
  | Crashed d => leaves sv d
  end.
Proof.
  intros Hok. unfold begin_plan. destruct (negb _); [done|].
  assert (Hd : match append_durable io_ok RecordType.ATTEMPT (attempt_payload request) sv with
               | (Err s, sv) => store_ok limits sv
               | (Ok _, sv) => store_ok limits sv
               end).
  { destruct (append_durable _ _ _ _) as [res sv'] eqn:Ha.
    destruct (append_durable_store_ok _ _ _ _ _ Hok (attempt_opaque request) Ha) as [? _].
    by destruct res. }
  destruct (sv_store sv) as [st|] eqn:Hst, (cfg_crash_point (sv_config sv));
    try (destruct (append_durable _ _ _ _) as [[]]; exact Hd).
  destruct (append _ _ _ _ _ _) as [[res st'] d'] eqn:Ha. unfold leaves. rewrite Hst.
  unfold store_ok in Hok. rewrite Hst in Hok. destruct Hok as [Hi Hroom].
  by destruct (append_store_ok _ _ _ _ _ _ _ _ Hi Hroom (attempt_opaque request) Ha) as (_ & Hc & _).
Qed.

Lemma commit_plan_store_ok r sv :
  store_ok limits sv ->
  match commit_plan io_ok r sv with
  | Returned (_, sv') => store_ok limits sv'
  | Crashed d => leaves sv d
  end.
Proof.
  intros Hok. unfold commit_plan. pose proof (outcome_opaque r) as Ho.
  destruct (outcome_record r) as [type payload].
  destruct (append_durable _ _ _ _) as [res sv'] eqn:Ha.
  destruct (append_durable_store_ok _ _ _ _ _ Hok Ho Ha) as [Hok' Hl].
  destruct res; [|done]. by destruct (cfg_crash_point _).
Qed.

Lemma worker_store_ok sv worker :
  store_ok limits sv ->
  match worker_step io_ok sv worker with
  | Some (Returned (_, sv')) => store_ok limits sv'
  | Some (Crashed d) => leaves sv d
  | None => True
  end.
Proof.
  intros Hok. unfold worker_step. destruct worker as [|job|job|job r|]; [| | | |done].
  - destruct (sv_queue sv); [by destruct (sv_stopping sv)|]. by eapply store_ok_same.
  - destruct (job_kind job).
    + pose proof (begin_plan_store_ok (job_request job) sv Hok) as Hb.
      by destruct (begin_plan _ _ _) as [[[u|r] sv1]|d].
    + destruct (job_plan job) as [p|]; [|done]. unfold run_validate.
      assert (Hd : forall sv1, store_ok limits sv1 -> store_ok limits
                (complete_validation job (validate_plan (job_request job) p)
                   (set_counters sv1 (count_validation (sv_stats sv1))))).
      { intros sv1. unfold complete_validation. destruct (job_state job); by eapply store_ok_same. }
      destruct (sv_store sv) eqn:Hst; [|by apply Hd]. apply Hd.
      destruct (append_durable _ _ _ _) as [res sv'] eqn:Ha.
      by destruct (append_durable_store_ok _ _ _ _ _ Hok (lineage_opaque _ _ _) Ha).
  - destruct (plan _ _) as [r|]; [|done].
    pose proof (commit_plan_store_ok r sv Hok) as Hc. by destruct (commit_plan _ _ _) as [[r' sv1]|d].
  - set (sv0 := set_counters _ _). destruct (complete_store job (Ok r) sv0) as [Hs Hd].
    assert (Hok1 : store_ok limits (complete job (Ok r) sv0)) by by eapply store_ok_same.
    assert (Hl : leaves sv (sv_disk (complete job (Ok r) sv0))) by (rewrite Hd; exact (leaves_disk sv)).
    by destruct (cfg_crash_point _).
Qed.

Lemma process_store_ok s p :
  store_ok limits (sys_service s) -> process_step (eq io_ok) (Alive s) p ->
  match p with
  | Alive s' => store_ok limits (sys_service s')
  | Dead d => leaves (sys_service s) d
  end.
Proof.
  intros Hok Hstep. inversion Hstep as [? ? Hthread|? call]; subst.
  - inversion Hthread as [? io w worker r <- Hw Hrun|? io next sv <- Hrun]; subst.
    + pose proof (worker_store_ok _ worker Hok) as Hwk. rewrite Hrun in Hwk.
      by destruct r as [[worker' sv']|d].
    + destruct s as [sv0 ws sh]. simpl in *. destruct sh as [|[|job pending]| |]; simpl in Hrun.
      * injection Hrun as <- <-. by eapply store_ok_same.
      * by injection Hrun as <- <-.
      * injection Hrun as <- <-. destruct (complete_store job (Err shut_down_status) sv0).
        by eapply store_ok_same.
      * destruct (forallb _ ws); [|discriminate]. injection Hrun as <- <-.
        destruct (sv_store sv0) eqn:Hst; [done|]. by unfold store_ok; rewrite Hst.
      * discriminate.
  - simpl. unfold submit, enqueue. destruct (sv_stopping _); [done|].
    destruct (_ <=? _); by eapply store_ok_same.
Qed.

Lemma reachable_store_ok s s' :
  rtc (process_step (eq io_ok)) (Alive s) (Alive s') -> store_ok limits (sys_service s) ->
  store_ok limits (sys_service s').
Proof.
  apply (reachable_ind _ (fun s s' => store_ok limits (sys_service s) -> store_ok limits (sys_service s')));
    [done|].
  intros s1 s2 s3 Hstep IH Hok. apply IH. exact (process_store_ok _ _ Hok Hstep).
Qed.
End Crashes.

(** A record of the service survives whatever kills the process. *)
(** The next open on what a process left behind: it succeeds with the old log at
    the front of its own, the record in it, or there is no room for the records a
    restart writes. *)
Definition recovers (limits : StoreLimits) (path : string) (create : bool) (st : Store) (d1 : Disk)
  (type : RecordType.t) (payload : list Z) : Prop :=
  exists res d', open io_ok path (mkOptions limits create true) d1 = Some (res, d') /\
    match res with
    | Ok st' =>
        Inv limits st' d' /\ st_records st `prefix_of` st_records st' /\
        exists record, record ∈ st_records st' /\ rec_type record = type /\ rec_payload record = payload
    | Err s =>
        status_code s = StatusCode.EXHAUSTED /\ max_records limits < 2 * sizez (st_records st) + 3
    end.

Lemma logged_survives limits path sv st type payload d1 create :
  limits_sound limits -> store_ok limits sv -> sv_store sv = Some st -> logged sv type payload ->
  crash limits st (sv_disk sv) d1 -> small limits d1 -> recovers limits path create st d1 type payload.
Proof.
  intros Hlimits Hok Hst Hlog Hcrash Hsmall. unfold store_ok in Hok. rewrite Hst in Hok.
  destruct Hok as [Hi Hroom]. pose proof (inv_count _ _ _ Hi).
  unfold logged in Hlog. rewrite Hst in Hlog.
  destruct (reopen_spec limits Hlimits path st _ d1 create Hi Hcrash Hsmall ltac:(lia)) as (rs & Hrs & Hopen).
  assert (Hpre : st_records st `prefix_of` rs).
  { destruct Hrs as [->|(? & ? & -> & _)]; [done|by apply prefix_app_r]. }
  assert (Hlen : sizez rs <= sizez (st_records st) + 1).
  { destruct Hrs as [->|(? & ? & -> & _)]; unfold sizez; rewrite ?length_app; simpl; lia. }
  case_decide as Hdec.
  - destruct Hopen as (st' & d' & rv & Hopen & Hi' & _ & _ & _ & Hrec).
    exists (Ok st'), d'. split; [done|]. split; [done|].
    assert (Hpre' : st_records st `prefix_of` st_records st') by (rewrite Hrec; by apply prefix_app_r).
    split; [done|]. destruct Hlog as (record & Hr & Ht & Hpl). exists record. split; [|done].
    destruct Hpre' as [rest ->]. apply elem_of_app. by left.
  - destruct Hopen as (s & d' & Hopen & Hs). exists (Err s), d'. split; [done|]. split; [done|].
    pose proof (length_dynamic rs). unfold sizez in *. lia.
Qed.

(** C11: a published plan survives the process. Take a service whose calls of the
    file system succeed. Whenever its process is killed - at a crash point, or at
    any time, in the middle of an append or between the stages of a snapshot - and
    leaves a journal within the bound of the store, the next open either fails with
    EXHAUSTED, and then the log filled about half of the table or more, or yields
    a store with every earlier record and, among them, the record of every plan
    that any caller was ever given. *)
Theorem published_plans_survive limits config path d s0 d0 s st request r p d1 create :
  limits_sound limits -> start io_ok config path d = Some (Ok s0, d0) ->
  store_ok limits (sys_service s0) -> rtc (process_step (eq io_ok)) (Alive s0) (Alive s) ->
  sv_store (sys_service s) = Some st -> answered (sys_service s) request r -> pr_plan r = Some p ->
  process_step (eq io_ok) (Alive s) (Dead d1) \/ crash limits st (sv_disk (sys_service s)) d1 ->
  small limits d1 ->
  recovers limits path create st d1 RecordType.COMMITTED_PLAN (encode_plan_record p).
Proof.
  intros Hlimits Hstart Hok0 Hrun Hst Ha Hp Hdead Hsmall.
  apply start_fresh in Hstart as (st0 & e & b & l & n & -> & _).
  pose proof (reachable_inv _ _ _ Hrun (fresh_system_inv _ _ _ _ _ _ _)) as Hinv.
  pose proof (reachable_store_ok limits _ _ Hrun Hok0) as Hok.
  assert (Hcrash : crash limits st (sv_disk (sys_service s)) d1).
  { destruct Hdead as [Hdead|]; [|done].
    pose proof (process_store_ok limits _ _ Hok Hdead) as Hl. unfold leaves in Hl. by rewrite Hst in Hl. }
  apply answered_justified in Ha; [|done]. apply justified_carries in Ha as (_ & _ & _ & Hlog);
    [|rewrite Hp; by left].
  unfold outcome_record in Hlog. rewrite Hp in Hlog. by eapply logged_survives.
Qed.

(** A worker that nobody disturbs runs [run_plan]. *)
Lemma busy_runs (ios : Io -> Prop) s w job io_attempt io_outcome r sv' :
  ios io_attempt -> ios io_outcome -> sys_workers s !! w = Some (Busy job) -> job_kind job = PLAN ->
  run_plan io_attempt io_outcome (job_request job) (sys_service s) = Some (Returned (r, sv')) ->
  rtc (thread_step ios) (Alive s)
    (Alive (mkSystem sv' (<[w := Publishing job r]> (sys_workers s)) (sys_shutdown s))).
Proof.
  intros H1 H2 Hw Hk. unfold run_plan.
  destruct (begin_plan io_attempt (job_request job) (sys_service s)) as [[[u|r0] sv1]|d] eqn:Hb.
  - destruct (plan _ _) as [r0|] eqn:Hp; [|discriminate]. intros Hc.
    assert (Hlt : (w < length (sys_workers s))%nat) by by eapply lookup_lt_Some.
    eapply rtc_l; [eapply (step_worker _ s io_attempt w (Busy job)); [done|done|];
      simpl; rewrite Hk, Hb; reflexivity|]. simpl.
    apply rtc_once. rewrite <- (list_insert_insert_eq (sys_workers s) w (Publishing job r) (Attempted job)).
    eapply (step_worker _ (mkSystem sv1 _ _) io_outcome w (Attempted job) (Returned (_, _))); [done| |].
    + simpl. by apply list_lookup_insert_eq.
    + simpl. rewrite Hp. injection Hc as ->. reflexivity.
  - intros [= <- <-]. apply rtc_once.
    eapply (step_worker _ s io_attempt w (Busy job) (Returned (_, _))); [done|done|].
    simpl. by rewrite Hk, Hb.
  - discriminate.
Qed.

Lemma threads_are_steps ios p q : rtc (thread_step ios) p q -> rtc (process_step ios) p q.
Proof. apply rtc_subrel. intros. by apply step_thread. Qed.

(** A whole frame changes the journal. *)
Lemma frame_grows d r e : d = write_journal d (frame r e) -> False.
Proof.
  intros He. apply (f_equal (fun x => length (default [] (journal_file x)))) in He.
  unfold write_journal in He. cbn [journal_file from_option id] in He.
  rewrite length_app, length_frame in He. lia.
Qed.

(** ** A concrete service *)

Definition service_limits : StoreLimits := mkStoreLimits 8 4096 65536 8.
Definition service_config : ServiceConfig :=
  mkConfig default_model_limits default_protocol_limits service_limits 1 4 4 CrashPoint.NONE true.
Definition empty_disk : Disk := mkDisk None None.
Definition first_open : option (result Status Store * Disk) :=
  open io_ok "s" (mkOptions service_limits true true) empty_disk.

(** The example request under the first incarnation of a new store. *)
Definition first_request : PlanRequest :=
  mkRequest 1 1 1 1 example_definition
    (mkEvidence 1 1 (ev_facts example_evidence))
    (mkAuthority 1 1 (auth_bindings example_authority)) example_policy [].

Lemma first_plan :
  exists r p, plan default_model_limits first_request = Some r /\ pr_plan r = Some p /\
    sizez (encode_plan_record p) <= 4096.
Proof.
  assert (H : match plan default_model_limits first_request with
              | Some r => match pr_plan r with
                          | Some p => sizez (encode_plan_record p) <=? 4096
                          | None => false
                          end
              | None => false
              end = true) by (vm_compute; reflexivity).
  destruct (plan _ _) as [r|]; [|discriminate]. destruct (pr_plan r) as [p|] eqn:Hp; [|discriminate].
  apply Z.leb_le in H. eauto.
Qed.

Lemma service_limits_sound : limits_sound service_limits.
Proof. split; unfold in_u32; simpl; lia. Qed.

Lemma first_open_spec :
  exists st d, first_open = Some (Ok st, d) /\ Inv service_limits st d /\ last_sequence st = 1 /\
    sizez (st_records st) = 1 /\ sizez (default [] (journal_file d)) = 76 /\
    snapshot_file d = None /\ st_epoch st = 1 /\ st_boot st = 1.
Proof.
  pose proof (open_loaded service_limits service_limits_sound "s" true empty_disk [] 0 None
    empty_disk ltac:(reflexivity) (empty_holds _ service_limits_sound) ltac:(done)) as H.
  rewrite decide_True in H by done. destruct H as (st & d & rv & Ho & Hi & _). exists st, d.
  split; [exact Ho|]. split; [exact Hi|].
  assert (Hx : match first_open with
    | Some (Ok st, d) => (last_sequence st =? 1) && (sizez (st_records st) =? 1) &&
        (sizez (default [] (journal_file d)) =? 76) && bool_decide (snapshot_file d = None) &&
        (st_epoch st =? 1) && (st_boot st =? 1)
    | _ => false
    end = true) by (vm_compute; reflexivity).
  unfold first_open in Hx. rewrite Ho in Hx. by bool_cases.
Qed.

Lemma attempt_size request : sizez (attempt_payload request) = 48.
Proof. reflexivity. Qed.

(** A store whose log has [n] records, in a journal of [size] bytes. *)
Definition grown (st : Store) (d : Disk) (n size : Z) : Prop :=
  Inv service_limits st d /\ last_sequence st = n /\ sizez (st_records st) = n /\
  sizez (default [] (journal_file d)) = size /\ snapshot_file d = None.

Lemma grown_append type payload st d n size :
  grown st d n size -> n < 8 -> opaque_record type payload -> RecordType.is_valid type = true ->
  sizez payload <= 4096 ->
  let record := new_record st type payload in
  append io_ok type payload true st d =
    (Ok (next_sequence st), push_record st record, write_journal d (frame record (st_epoch st))) /\
  grown (push_record st record) (write_journal d (frame record (st_epoch st))) (n + 1)
    (size + 40 + sizez payload).
Proof.
  intros (Hi & Hl & Hc & Hj & Hs) Hn Ho Hv Hsz record.
  assert (Hlt : last_sequence st < UINT64_MAX) by (rewrite Hl; unfold UINT64_MAX; lia). split.
  - apply (append_succeeds service_limits _ _ _ _ _ Hi); [done|exact Hsz|rewrite Hc; simpl; lia].
  - split_and!.
    + apply inv_append; [done|done|rewrite Hc; simpl; lia|by apply opaque_sound].
    + simpl. rewrite (next_sequence_succ _ _ _ Hi Hlt). lia.
    + simpl. unfold sizez in *. rewrite length_app. simpl. lia.
    + unfold write_journal. cbn [journal_file from_option id]. unfold sizez in *.
      rewrite length_app, length_frame. simpl rec_payload. lia.
    + exact Hs.
Qed.

(** The service started on an empty disk, with one worker. *)
Definition first_system (st : Store) (d : Disk) : System := fresh_system service_config (Some st) d 1 1 1 1.

(** What the worker finds when it takes the example request, and leaves. *)
Definition first_taken (s0 : System) : Service :=
  set_queue (submit (CallPlan first_request) (sys_service s0)).2 [] false.

Lemma first_run :
  exists st d st2 d2 r p,
    let s0 := first_system st d in
    let sv1 := first_taken s0 in
    start io_ok service_config "s" empty_disk = Some (Ok s0, d) /\
    store_ok service_limits (sys_service s0) /\
    plan default_model_limits first_request = Some r /\ pr_plan r = Some p /\
    (exists st1 d1, run_plan io_ok io_ok first_request sv1 =
       Some (Returned (r, set_durable (set_durable sv1 st1 d1 (last_sequence st1)) st2 d2
                            (last_sequence st2)))) /\
    Inv service_limits st2 d2 /\ last_sequence st2 = 3 /\ sizez (st_records st2) = 3 /\
    small service_limits d2.
Proof.
  destruct first_open_spec as (st & d & Ho & Hi & Hl & Hc & Hj & Hs & He & Hb).
  destruct first_plan as (r & p & Hr & Hp & Hsize).
  pose proof (conj Hi (conj Hl (conj Hc (conj Hj Hs))) : grown st d 1 76) as Hg0.
  destruct (grown_append RecordType.ATTEMPT (attempt_payload first_request) _ _ _ _ Hg0
    ltac:(lia) (attempt_opaque _) eq_refl) as [Ha1 Hg1]; [by rewrite attempt_size|].
  set (st1 := push_record st _) in *. set (d1 := write_journal d _) in *. clearbody st1 d1.
  assert (Hop : opaque_record RecordType.COMMITTED_PLAN (encode_plan_record p)).
  { split; [apply encode_plan_record_bytes|split; discriminate]. }
  pose proof (grown_append _ _ _ _ _ _ Hg1 (eq_refl : 1 + 1 < 8) Hop eq_refl Hsize) as [Ha2 Hg2].
  set (st2 := push_record st1 _) in *. set (d2 := write_journal d1 _) in *. clearbody st2 d2.
  exists st, d, st2, d2, r, p. destruct Hg2 as (Hi2 & Hl2 & Hc2 & Hj2 & Hs2). cbv zeta.
  split_and!; [| |exact Hr|exact Hp| |exact Hi2|exact Hl2|exact Hc2|].
  - unfold start. replace (cfg_persist service_config && _) with true by reflexivity.
    change (open io_ok "s" (mkOptions (cfg_store_limits service_config) true true) empty_disk)
      with first_open. rewrite Ho, He, Hb, Hl. reflexivity.
  - unfold store_ok. simpl. split; [exact Hi|]. rewrite Hl, Hc. done.
  - exists st1, d1. unfold run_plan, begin_plan. simpl. unfold append_durable. simpl. rewrite Ha1. simpl.
    rewrite Hr. unfold commit_plan, outcome_record. rewrite Hp. unfold append_durable. simpl.
    rewrite Ha2. reflexivity.
  - split; [|unfold file_small; rewrite Hs2; done].
    unfold file_small. rewrite Hj2. simpl max_journal_bytes. rewrite attempt_size. lia.
Qed.

(** It answers the example request. *)
Lemma sample_run :
  exists s0 d0 s st r p,
    start io_ok service_config "s" empty_disk = Some (Ok s0, d0) /\
    store_ok service_limits (sys_service s0) /\
    rtc (process_step (eq io_ok)) (Alive s0) (Alive s) /\
    sv_store (sys_service s) = Some st /\ answered (sys_service s) first_request r /\
    pr_plan r = Some p /\ small service_limits (sv_disk (sys_service s)) /\
    sizez (st_records st) = 3 /\ last_sequence st = 3 /\ Inv service_limits st (sv_disk (sys_service s)).
Proof.
  destruct first_run as (st & d & st2 & d2 & r & p & Hstart & Hok & _ & Hp & (st1 & d1 & Hrun) & Hi2 & Hl2 & Hc2 & Hsm).
  set (s0 := first_system st d) in *. set (sv1 := first_taken s0) in *.
  set (job := job_of (CallPlan first_request) 0).
  set (s1 := mkSystem (submit (CallPlan first_request) (sys_service s0)).2 [Idle] Up).
  set (sv2 := set_durable _ st2 d2 (last_sequence st2)) in Hrun.
  set (sv3 := complete job (Ok r)
    (set_counters sv2 (count_decision (pr_decision r) (count_completed (sv_stats sv2))))).
  exists s0, d, (mkSystem sv3 [Idle] Up), st2, r, p.
  split_and!; [exact Hstart|exact Hok| |reflexivity| |exact Hp|exact Hsm|exact Hc2|exact Hl2|exact Hi2].
  - eapply rtc_l; [apply (step_submit _ s0 (CallPlan first_request))|].
    apply threads_are_steps.
    eapply rtc_l; [by eapply (step_worker _ s1 io_ok 0 Idle (Returned (Busy job, sv1)))|].
    etransitivity.
    + by eapply (busy_runs (eq io_ok) (mkSystem sv1 [Busy job] Up) 0 job io_ok io_ok).
    + apply rtc_once.
      by eapply (step_worker _ (mkSystem sv2 [Publishing job r] Up) io_ok 0 (Publishing job r)
                   (Returned (Idle, sv3))).
  - exists 0%nat. left. split; reflexivity.
Qed.

Lemma answers_are_durable_witness :
  exists s r p, answered (sys_service s) first_request r /\ pr_plan r = Some p /\
    is_Some (sv_store (sys_service s)) /\
    logged (sys_service s) RecordType.ATTEMPT (attempt_payload first_request) /\
    logged (sys_service s) RecordType.COMMITTED_PLAN (encode_plan_record p).
Proof.
  destruct sample_run as (s0 & d0 & s & st & r & p & Hstart & _ & Hrun & Hst & Ha & Hp & _).
  exists s, r, p. split; [exact Ha|]. split; [exact Hp|]. split; [by rewrite Hst|].
  destruct (answers_are_durable (eq io_ok) io_ok service_config "s" empty_disk s0 d0 s Hstart Hrun)
    as [Hplan _].
  destruct (Hplan first_request r Ha) as [_ Hlog].
  destruct Hlog as (_ & _ & Hattempt & Houtcome); [left; by rewrite Hp|].
  unfold outcome_record in Houtcome. rewrite Hp in Houtcome. by split.
Defined.

(** The process is killed right after the answer. *)
Lemma published_plans_survive_witness :
  exists s d1 p st' d', start io_ok service_config "s" empty_disk <> None /\
    d1 = sv_disk (sys_service s) /\
    open io_ok "s" (mkOptions service_limits true true) d1 = Some (Ok st', d') /\
    exists record, record ∈ st_records st' /\ rec_type record = RecordType.COMMITTED_PLAN /\
      rec_payload record = encode_plan_record p.
Proof.
  destruct sample_run as
    (s0 & d0 & s & st & r & p & Hstart & Hok & Hrun & Hst & Ha & Hp & Hsm & Hc & Hl & Hi).
  destruct (published_plans_survive service_limits service_config "s" empty_disk s0 d0 s st
      first_request r p _ true service_limits_sound Hstart Hok Hrun Hst Ha Hp
      (or_intror (crash_idle _ _ _)) Hsm) as ([st'|e] & d' & Hopen & Hres).
  - exists s, (sv_disk (sys_service s)), p, st', d'. split; [by rewrite Hstart|].
    split; [reflexivity|]. split; [exact Hopen|]. exact (proj2 (proj2 Hres)).
  - exfalso. assert (Hroom : last_sequence st + max_records service_limits + 2 <= UINT64_MAX).
    { rewrite Hl. vm_compute. discriminate. }
    destruct (reopen_spec service_limits service_limits_sound "s" st _ _ true Hi
                (crash_idle _ _ _) Hsm Hroom) as (rs & [->|(type & payload & _ & He)] & Hopen');
      [|by apply frame_grows in He].
    rewrite decide_True in Hopen'.
    2: { pose proof (length_dynamic (st_records st)). rewrite Hc in *. simpl. lia. }
    destruct Hopen' as (st' & d2 & rv & Hopen' & _). by rewrite Hopen' in Hopen.
Defined.

(** A service without a store, shut down before its only job ran. *)
Definition volatile_config : ServiceConfig :=
  mkConfig default_model_limits default_protocol_limits service_limits 1 4 4 CrashPoint.NONE false.

Lemma shutdown_answers_everyone_witness :
  exists s, sys_shutdown s = Down /\ sv_calls (sys_service s) = [(0%nat, Err shut_down_status)] /\
    0%nat ∈ (sv_calls (sys_service s)).*1.
Proof.
  set (s0 := fresh_system volatile_config None empty_disk 1 1 0 1).
  set (job := job_of (CallSubmitPlan first_request) 0).
  set (sv1 := (submit (CallSubmitPlan first_request) (sys_service s0)).2).
  set (sv2 := set_queue sv1 [] true). set (sv3 := push_call sv2 0 (Err shut_down_status)).
  assert (Hrun : rtc (process_step (eq io_ok)) (Alive s0) (Alive (mkSystem sv3 [Exited] Down))).
  { eapply rtc_l; [apply (step_submit _ s0 (CallSubmitPlan first_request))|].
    apply threads_are_steps.
    eapply rtc_l; [by apply (step_shutdown _ (mkSystem sv1 [Idle] Up) io_ok (Draining [job]) sv2)|].
    eapply rtc_l; [by apply (step_shutdown _ (mkSystem sv2 [Idle] (Draining [job])) io_ok (Draining []) sv3)|].
    eapply rtc_l; [by apply (step_shutdown _ (mkSystem sv3 [Idle] (Draining [])) io_ok Joining sv3)|].
    eapply rtc_l; [by eapply (step_worker _ (mkSystem sv3 [Idle] Joining) io_ok 0 Idle
                                (Returned (Exited, sv3)))|].
    apply rtc_once. by apply (step_shutdown _ (mkSystem sv3 [Exited] Joining) io_ok Down sv3). }
  exists (mkSystem sv3 [Exited] Down). split; [reflexivity|]. split; [reflexivity|].
  destruct (shutdown_answers_everyone (eq io_ok) io_ok volatile_config "s" empty_disk s0 empty_disk
    _ eq_refl eq_refl Hrun) as (_ & _ & _ & _ & Hanswered); [discriminate|].
  exact (Hanswered eq_refl 0%nat (CallSubmitPlan first_request) eq_refl).
Defined.
