(* ===== verification/Server.v ===== *)
(** * The framed server

    Models [PlanningServer] of [src/runtime_server.cpp]: the connection thread
    [serve] with its receive buffer, the handshake, the check of every frame
    against the session table, the dispatch of requests to the planning service
    and the error frames. The service is an interface; [receive] takes a received
    chunk as far as it can in one step, calls of the service included. [Threads.v]
    runs the same operations with all threads interleaved, and with the sockets of
    [Transport.v]. What the peer sends is an argument, what it has not read yet is
    part of the connection. *)
From S2P Require Import Prelude Ids Canonical Model Objective Domain DefinitionCheck Plan Fixture.
From S2P Require Import Codec Crc32 Journal Store Planner Validate Protocol Session Service.

Record ErrorMapping := mkMapping { map_code : ErrorCode.t; map_reason : ReasonCode.t }.

Definition map_status (s : Status) : ErrorMapping :=
  match status_code s with
  | StatusCode.PROTOCOL_ERROR =>
      mkMapping ErrorCode.DECODE_REJECTED ReasonCode.PROTOCOL_DECODE_REJECTED
  | StatusCode.UNSUPPORTED =>
      mkMapping ErrorCode.UNSUPPORTED_REQUEST ReasonCode.REQUEST_UNSUPPORTED_PROBLEM
  | StatusCode.OUT_OF_RANGE =>
      mkMapping ErrorCode.FRAME_TOO_LARGE ReasonCode.PROTOCOL_FRAME_TOO_LARGE
  | StatusCode.STATE_MISMATCH =>
      mkMapping ErrorCode.SEQUENCE_REGRESSION ReasonCode.PROTOCOL_SEQUENCE_REGRESSION
  | StatusCode.EXHAUSTED => mkMapping ErrorCode.QUEUE_LIMIT ReasonCode.QUEUE_LIMIT_REACHED
  | StatusCode.CLOSED => mkMapping ErrorCode.SHUTTING_DOWN ReasonCode.SHUTDOWN_REQUESTED
  | _ => mkMapping ErrorCode.DECODE_REJECTED ReasonCode.PROTOCOL_DECODE_REJECTED
  end.

(** ** The planning service, as the server sees it

    [None]: the call does not return, because the process dies in it. *)
Class Backend (S : Type) := {
  be_plan : PlanRequest -> S -> option (result Status PlanningResult * S);
  be_validate : PlanRequest -> RecoveryPlan -> S -> option (result Status ValidationReport * S);
  be_stats : S -> ServiceStats;
  be_last_durable : S -> Sequence
}.

(** Why a call of the model has no result. *)
Inductive Stop := ProcessDied | OutOfFuel | Blocked.

Definition returned {A} (x : option A) : result Stop A :=
  match x with Some a => Ok a | None => Err ProcessDied end.

(** ** State *)

Record ServerStats := mkServerStats {
  connections_accepted : Z;
  connections_rejected : Z;
  frames_received : Z;
  frames_rejected : Z;
  sticky_failures : Z
}.

Record Server (S : Type) := mkServer {
  srv_service : S;
  srv_max_sessions : Z;
  srv_limits : ProtocolLimits;
  srv_epoch : Epoch;
  srv_boot : BootId;
  srv_stopping : bool;
  srv_sessions : SessionRegistry;
  srv_stats : ServerStats
}.
Arguments mkServer {S} _ _ _ _ _ _ _ _.
Arguments srv_service {S} s. Arguments srv_max_sessions {S} s. Arguments srv_limits {S} s.
Arguments srv_epoch {S} s. Arguments srv_boot {S} s. Arguments srv_stopping {S} s.
Arguments srv_sessions {S} s. Arguments srv_stats {S} s.

(** The locals of [serve]. [cn_open]: the loop has not been left; [cn_writable]:
    sends succeed; [cn_unread]: what was sent and the peer has not read yet. *)
Record Connection := mkConnection {
  cn_open : bool;
  cn_writable : bool;
  cn_unread : list Z;
  cn_buffer : list Z;
  cn_session : SessionId;
  cn_server_sequence : Sequence;
  cn_handshake : bool
}.

(** A connection just accepted. *)
Definition new_connection : Connection := mkConnection true true [] [] 0 0 false.

Definition hang_up (cn : Connection) : Connection :=
  mkConnection false (cn_writable cn) (cn_unread cn) (cn_buffer cn) (cn_session cn)
    (cn_server_sequence cn) (cn_handshake cn).

Definition set_buffer (cn : Connection) (b : list Z) : Connection :=
  mkConnection (cn_open cn) (cn_writable cn) (cn_unread cn) b (cn_session cn)
    (cn_server_sequence cn) (cn_handshake cn).

Definition set_unread (cn : Connection) (b : list Z) : Connection :=
  mkConnection (cn_open cn) (cn_writable cn) b (cn_buffer cn) (cn_session cn)
    (cn_server_sequence cn) (cn_handshake cn).

(** [++server_sequence.value] *)
Definition next_server_sequence (cn : Connection) : Connection :=
  mkConnection (cn_open cn) (cn_writable cn) (cn_unread cn) (cn_buffer cn) (cn_session cn)
    (u64 (cn_server_sequence cn + 1)) (cn_handshake cn).

Definition establish (cn : Connection) (session : SessionId) : Connection :=
  mkConnection (cn_open cn) (cn_writable cn) (cn_unread cn) (cn_buffer cn) session 1 true.

Definition send_all (cn : Connection) (bytes : list Z) : result Status unit * Connection :=
  if cn_writable cn then (Ok tt, set_unread cn (cn_unread cn ++ bytes))
  else (Err (mkStatus StatusCode.IO_ERROR "send failed"), cn).

(** [fetch_add] on one counter. *)
Definition count_connection (s : ServerStats) : ServerStats :=
  let '(mkServerStats acc rej recv frej sti) := s in mkServerStats (u64 (acc + 1)) rej recv frej sti.
Definition count_rejected (s : ServerStats) : ServerStats :=
  let '(mkServerStats acc rej recv frej sti) := s in mkServerStats acc (u64 (rej + 1)) recv frej sti.
Definition count_frame (s : ServerStats) : ServerStats :=
  let '(mkServerStats acc rej recv frej sti) := s in mkServerStats acc rej (u64 (recv + 1)) frej sti.
Definition count_bad_frame (s : ServerStats) : ServerStats :=
  let '(mkServerStats acc rej recv frej sti) := s in mkServerStats acc rej recv (u64 (frej + 1)) sti.
Definition count_sticky (s : ServerStats) : ServerStats :=
  let '(mkServerStats acc rej recv frej sti) := s in mkServerStats acc rej recv frej (u64 (sti + 1)).

Section Server.
Context {S : Type} `{!Backend S}.

Definition replace_service (srv : Server S) (s : S) : Server S :=
  mkServer s (srv_max_sessions srv) (srv_limits srv) (srv_epoch srv) (srv_boot srv)
    (srv_stopping srv) (srv_sessions srv) (srv_stats srv).

Definition set_registry (srv : Server S) (reg : SessionRegistry) : Server S :=
  mkServer (srv_service srv) (srv_max_sessions srv) (srv_limits srv) (srv_epoch srv) (srv_boot srv)
    (srv_stopping srv) reg (srv_stats srv).

Definition count (srv : Server S) (f : ServerStats -> ServerStats) : Server S :=
  mkServer (srv_service srv) (srv_max_sessions srv) (srv_limits srv) (srv_epoch srv) (srv_boot srv)
    (srv_stopping srv) (srv_sessions srv) (f (srv_stats srv)).

(** ** Sending *)

Definition send_frame (srv : Server S) (cn : Connection) (type : FrameType.t) (session : SessionId)
  (sequence : Sequence) (payload : list Z) : result Status unit * Connection :=
  send_all cn (encode_frame type session (srv_epoch srv) (srv_boot srv) sequence payload).

(** The status of a send is looked at in one place only. *)
Definition send_error (srv : Server S) (cn : Connection) (session : SessionId) (sequence : Sequence)
  (code : ErrorCode.t) (reason : ReasonCode.t) (text : string) : Connection :=
  (send_frame srv cn FrameType.ERROR_FRAME session sequence
     (encode_error_payload (mkErrorPayload code reason text))).2.

Definition response_sequence (cn : Connection) : Sequence := u64 (cn_server_sequence cn + 1).

(** ** Handshake *)

Definition serve_hello (srv : Server S) (cn : Connection) (frame : Frame) : Server S * Connection :=
  if negb (bool_decide (FrameType.of_u16 (fh_type (frame_header frame)) = FrameType.HELLO))
  then (count srv count_sticky,
        hang_up (send_error srv cn 0 1 ErrorCode.SESSION_MISMATCH ReasonCode.PROTOCOL_SESSION_MISMATCH
                   "the first frame of a connection must be HELLO"))
  else
    match decode_hello (frame_payload frame) with
    | Err s =>
        (count srv count_sticky,
         hang_up (send_error srv cn 0 1 ErrorCode.DECODE_REJECTED ReasonCode.PROTOCOL_DECODE_REJECTED
                    (status_message s)))
    | Ok nonce =>
        match session_create (srv_sessions srv) (srv_epoch srv) (srv_boot srv) nonce with
        | (Err s, reg) =>
            (count (set_registry srv reg) count_rejected,
             hang_up (send_error srv cn 0 1 ErrorCode.SESSION_LIMIT ReasonCode.SESSION_LIMIT_REACHED
                        (status_message s)))
        | (Ok created, reg) =>
            let cn := establish cn (sr_id created) in
            let ack := mkHelloAck (cn_session cn) (srv_epoch srv) (srv_boot srv) 1
                         (u64 (cn_server_sequence cn + 1)) in
            (set_registry srv reg,
             match send_frame srv cn FrameType.HELLO_ACK (cn_session cn) (cn_server_sequence cn)
                     (encode_hello_ack ack) with
             | (Err _, cn) => hang_up cn
             | (Ok _, cn) => next_server_sequence cn
             end)
        end
    end.

(** ** Requests *)

(** A request that cannot be decoded ends the connection. *)
Definition reject_request (srv : Server S) (cn : Connection) (s : Status) : Server S * Connection :=
  (count srv count_sticky,
   hang_up (send_error srv cn (cn_session cn) (response_sequence cn) (map_code (map_status s))
              (map_reason (map_status s)) (status_message s))).

(** The service's answer, or its refusal as an error frame. *)
Definition respond {A} (srv : Server S) (cn : Connection) (type : FrameType.t)
  (encode : A -> list Z) (r : result Status A) : Connection :=
  next_server_sequence
    match r with
    | Ok a => (send_frame srv cn type (cn_session cn) (response_sequence cn) (encode a)).2
    | Err s =>
        send_error srv cn (cn_session cn) (response_sequence cn) (map_code (map_status s))
          (map_reason (map_status s)) (status_message s)
    end.

Definition status_payload (srv : Server S) : list Z :=
  let stats := be_stats (srv_service srv) in
  encode_status_response_payload (srv_epoch srv) (srv_boot srv) (be_last_durable (srv_service srv))
    (u64 (plans_found stats + plans_infeasible stats)) (session_size (srv_sessions srv))
    (requests_rejected stats).

Definition serve_request (srv : Server S) (cn : Connection) (frame : Frame)
  : result Stop (Server S * Connection) :=
  match FrameType.of_u16 (fh_type (frame_header frame)) with
  | FrameType.PLAN_REQUEST =>
      match decode_plan_request_payload (frame_payload frame) (srv_limits srv) with
      | Err s => Ok (reject_request srv cn s)
      | Ok request =>
          let* (r, s) := returned (be_plan request (srv_service srv)) in
          Ok (replace_service srv s,
              respond srv cn FrameType.PLAN_RESPONSE encode_plan_response_payload r)
      end
  | FrameType.VALIDATE_REQUEST =>
      match decode_validate_request_payload (frame_payload frame) (srv_limits srv) with
      | Err s => Ok (reject_request srv cn s)
      | Ok (request, p) =>
          let* (r, s) := returned (be_validate request p (srv_service srv)) in
          Ok (replace_service srv s,
              respond srv cn FrameType.VALIDATE_RESPONSE encode_validate_response_payload r)
      end
  | FrameType.STATUS_REQUEST =>
      Ok (srv, next_server_sequence
                 (send_frame srv cn FrameType.STATUS_RESPONSE (cn_session cn) (response_sequence cn)
                    (status_payload srv)).2)
  | FrameType.BYE => Ok (srv, hang_up cn)
  | _ =>
      Ok (count srv count_sticky,
          hang_up (send_error srv cn (cn_session cn) (response_sequence cn)
                     ErrorCode.UNSUPPORTED_REQUEST ReasonCode.REQUEST_UNSUPPORTED_PROBLEM
                     "frame type is not accepted in this state"))
  end.

(** A whole frame, from the counter on. *)
Definition serve_frame (srv : Server S) (cn : Connection) (frame : Frame)
  : result Stop (Server S * Connection) :=
  let srv := count srv count_frame in
  if negb (cn_handshake cn) then Ok (serve_hello srv cn frame)
  else
    let h := frame_header frame in
    match session_accept (srv_sessions srv) (fh_session h) (fh_epoch h) (fh_boot h) (fh_sequence h) with
    | (Err s, reg) =>
        Ok (count (set_registry srv reg) count_sticky,
            hang_up (send_error srv cn (cn_session cn) (response_sequence cn)
                       ErrorCode.SESSION_MISMATCH ReasonCode.PROTOCOL_SESSION_MISMATCH
                       (status_message s)))
    | (Ok _, reg) => serve_request (set_registry srv reg) cn frame
    end.

(** ** The receive buffer *)

Inductive Buffered :=
| Partial
| Whole
| Refused (m : ErrorMapping) (text : string).

Definition inspect (limits : ProtocolLimits) (buffer : list Z) : Buffered :=
  if sizez buffer <? kFrameHeaderSize then Partial
  else
    match decode_frame_header buffer with
    | Err s => Refused (map_status s) (status_message s)
    | Ok header =>
        if max_payload_bytes limits <? fh_payload_length header
        then Refused (mkMapping ErrorCode.FRAME_TOO_LARGE ReasonCode.PROTOCOL_FRAME_TOO_LARGE)
               "declared payload exceeds the frame bound"
        else if kFrameHeaderSize + fh_payload_length header <=? sizez buffer then Whole
        else Partial
    end.

(** A frame that is refused ends the connection. *)
Definition reject_frame (srv : Server S) (cn : Connection) (m : ErrorMapping) (text : string)
  : Server S * Connection :=
  (count (count srv count_bad_frame) count_sticky,
   hang_up (send_error srv cn (cn_session cn) (response_sequence cn) (map_code m) (map_reason m) text)).

(** The loop of [serve] up to its next read: every whole frame of the buffer. *)
Fixpoint pump (fuel : nat) (srv : Server S) (cn : Connection)
  : result Stop (Server S * Connection) :=
  match fuel with
  | O => Err OutOfFuel
  | Datatypes.S fuel =>
      if srv_stopping srv || negb (cn_open cn) then Ok (srv, hang_up cn)
      else
        match inspect (srv_limits srv) (cn_buffer cn) with
        | Partial => Ok (srv, cn)
        | Refused m text => Ok (reject_frame srv cn m text)
        | Whole =>
            match decode_frame (srv_limits srv) (cn_buffer cn) with
            | Err s => Ok (reject_frame srv cn (map_status s) (status_message s))
            | Ok (frame, consumed) =>
                let* (srv, cn) :=
                  serve_frame srv (set_buffer cn (drop (Z.to_nat consumed) (cn_buffer cn))) frame in
                pump fuel srv cn
            end
        end
  end.

(** Every frame takes at least its header from the buffer. *)
Definition pump_fuel (cn : Connection) : nat := length (cn_buffer cn) + 2.

(** What [serve] does once its loop is left. *)
Definition end_connection (srv : Server S) (cn : Connection) : Server S * Connection :=
  if cn_handshake cn
  then (set_registry srv (session_release (srv_sessions srv) (cn_session cn)).2, cn)
  else (srv, cn).

Definition settle (r : Server S * Connection) : Server S * Connection :=
  let '(srv, cn) := r in if cn_open cn then (srv, cn) else end_connection srv cn.

(** One [recv_some]: the bytes that came, or [[]] for a peer that closed or a
    socket shut down. *)
Definition receive (srv : Server S) (cn : Connection) (chunk : list Z)
  : result Stop (Server S * Connection) :=
  if negb (cn_open cn) then Ok (srv, cn)
  else
    let* r :=
      match chunk with
      | [] => Ok (srv, hang_up cn)
      | _ =>
          let cn := set_buffer cn (cn_buffer cn ++ chunk) in
          if max_payload_bytes (srv_limits srv) + 4 * kFrameHeaderSize <? sizez (cn_buffer cn)
          then Ok (count (count srv count_bad_frame) count_sticky, hang_up cn)
          else pump (pump_fuel cn) srv cn
      end in
    Ok (settle r).

Fixpoint receive_all (srv : Server S) (cn : Connection) (chunks : list (list Z))
  : result Stop (Server S * Connection) :=
  match chunks with
  | [] => Ok (srv, cn)
  | chunk :: chunks => let* (srv, cn) := receive srv cn chunk in receive_all srv cn chunks
  end.

(** ** Connections *)

(** The body of [accept_loop] for one incoming connection; [None] where the
    connection is not served. What a refused peer can read is the error frame. *)
Definition accept (srv : Server S) : Server S * option Connection * list Z :=
  if srv_stopping srv then (srv, None, [])
  else if srv_max_sessions srv <=? session_size (srv_sessions srv)
  then (count srv count_rejected, None,
        cn_unread (send_error srv new_connection 0 1 ErrorCode.SESSION_LIMIT
                     ReasonCode.SESSION_LIMIT_REACHED "session limit reached"))
  else (count srv count_connection, Some new_connection, []).

(** [PlanningServer::start], once the listener is bound. *)
Definition server_start (service : S) (epoch : Epoch) (boot : BootId) (max_sessions : Z) : Server S :=
  mkServer service max_sessions default_protocol_limits epoch boot false
    (new_registry (if max_sessions =? 0 then 1 else max_sessions)) (mkServerStats 0 0 0 0 0).

(** [PlanningServer::shutdown]: the flag, and every socket shut down. *)
Definition server_stop (srv : Server S) : Server S :=
  mkServer (srv_service srv) (srv_max_sessions srv) (srv_limits srv) (srv_epoch srv) (srv_boot srv)
    true (srv_sessions srv) (srv_stats srv).
End Server.

(** ** The service behind the interface

    [PlannerService::plan] and [validate] when no other call is in progress: the
    job is queued, one worker takes the queue's jobs to their end, and the wait
    of the caller ends with its own. *)
Fixpoint run_job (fuel : nat) (io : Io) (sv : Service) (w : Worker) : option Service :=
  match fuel with
  | O => None
  | S fuel =>
      match worker_step io sv w with
      | Some (Returned (Idle, sv)) => Some sv
      | Some (Returned (w, sv)) => run_job fuel io sv w
      | _ => None
      end
  end.

Fixpoint await {A} (fuel : nat) (io : Io) (wait : Service -> option (result Status A)) (sv : Service)
  : option (result Status A * Service) :=
  match wait sv, fuel with
  | Some r, _ => Some (r, sv)
  | None, O => None
  | None, S fuel => sv ← run_job 4 io sv Idle; await fuel io wait sv
  end.

Definition service_call {A} (io : Io) (call : Call) (wait : nat -> Service -> option (result Status A))
  (sv : Service) : option (result Status A * Service) :=
  match submit call sv with
  | (Err s, sv) => Some (Err s, sv)
  | (Ok id, sv) => await (length (sv_queue sv)) io (wait id) sv
  end.

(** The planner service as the service behind the server, for calls that are served
    alone: from the submission on, one idle worker runs the call to its end. The
    calls of several connections interleave in [Threads.v]. *)
Definition service_backend (io : Io) : Backend Service := {|
  be_plan request := service_call io (CallPlan request) wait_plan;
  be_validate request p := service_call io (CallValidate request p) wait_validate;
  be_stats := sv_stats;
  be_last_durable := sv_last_durable
|}.
