(* ===== verification/Client.v ===== *)
(** * The client, and a conversation with the server

    Models [PlanningClient] of [src/runtime_client.cpp]: the handshake, requests,
    the check of every response. The second part connects a client to a server's
    connection: what the client sends arrives in chunks of any size, what the
    server sends is read from the front of the connection's unread bytes. *)
From S2P Require Import Prelude Ids Canonical Model Objective Domain DefinitionCheck Plan Fixture.
From S2P Require Import Codec Crc32 Journal Store Planner Validate Protocol Session Service Server.

Record Client := mkClient {
  cl_limits : ProtocolLimits;
  cl_session : SessionId;
  cl_epoch : Epoch;
  cl_boot : BootId;
  cl_sequence : Sequence;
  cl_server_sequence : Sequence;
  cl_handshake : bool;
  cl_closed : bool
}.

(** A client whose socket is connected. *)
Definition fresh_client (limits : ProtocolLimits) : Client := mkClient limits 0 0 0 1 0 false false.

Definition set_client_sequence (cl : Client) (sequence : Sequence) : Client :=
  mkClient (cl_limits cl) (cl_session cl) (cl_epoch cl) (cl_boot cl) sequence
    (cl_server_sequence cl) (cl_handshake cl) (cl_closed cl).

Definition set_server_sequence (cl : Client) (sequence : Sequence) : Client :=
  mkClient (cl_limits cl) (cl_session cl) (cl_epoch cl) (cl_boot cl) (cl_sequence cl) sequence
    (cl_handshake cl) (cl_closed cl).

(** ** Reading *)

(** [recv_exact_or_eof] on what has arrived; [None] while it blocks. The flag
    says that nothing more will arrive. *)
Definition recv_exact (size : Z) (eof : bool) (wire : list Z) : option (bool * list Z * list Z) :=
  if size <=? sizez wire
  then Some (false, take (Z.to_nat size) wire, drop (Z.to_nat size) wire)
  else if eof then Some (true, wire, []) else None.

Definition read_frame_bytes (limits : ProtocolLimits) (eof : bool) (wire : list Z)
  : option (result Status (list Z) * list Z) :=
  '(ended, header, wire) ← recv_exact kFrameHeaderSize eof wire;
  if (ended : bool)
  then Some (Err (mkStatus StatusCode.CLOSED "peer closed before a frame header arrived"), wire)
  else
    match decode_frame_header header with
    | Err s => Some (Err s, wire)
    | Ok h =>
        if max_payload_bytes limits <? fh_payload_length h
        then Some (Err (mkStatus StatusCode.OUT_OF_RANGE
                          "declared payload exceeds the frame bound"), wire)
        else if 0 <? fh_payload_length h
        then
          '(ended, payload, wire) ← recv_exact (fh_payload_length h) eof wire;
          Some (if (ended : bool)
                then Err (mkStatus StatusCode.CLOSED "peer closed inside a frame payload")
                else Ok (header ++ payload), wire)
        else Some (Ok header, wire)
    end.

(** ** Handshake *)

Definition hello_bytes (nonce : Z) : list Z :=
  encode_frame FrameType.HELLO 0 0 0 1 (encode_hello nonce 1).

(** [connect] from the answer on. *)
Definition accept_ack (cl : Client) (raw : list Z) : result Status Client :=
  let* (frame, _) := decode_frame (cl_limits cl) raw in
  if negb (bool_decide (FrameType.of_u16 (fh_type (frame_header frame)) = FrameType.HELLO_ACK))
  then Err (mkStatus StatusCode.PROTOCOL_ERROR "server did not answer HELLO with HELLO_ACK")
  else
    let* ack := decode_hello_ack (frame_payload frame) in
    Ok (mkClient (cl_limits cl) (ack_session ack) (ack_epoch ack) (ack_boot ack) (cl_sequence cl)
          0 true (cl_closed cl)).

(** ** Requests *)

(** The bytes to send, and the client once they are sent. *)
Definition send_request (cl : Client) (type : FrameType.t) (payload : list Z)
  : result Status (list Z * Client) :=
  if cl_closed cl then Err (mkStatus StatusCode.CLOSED "client is closed")
  else if negb (cl_handshake cl)
  then Err (mkStatus StatusCode.STATE_MISMATCH "handshake has not completed")
  else Ok (encode_frame type (cl_session cl) (cl_epoch cl) (cl_boot cl) (cl_sequence cl) payload,
           set_client_sequence cl (u64 (cl_sequence cl + 1))).

(** [read_response], on the bytes of one frame. *)
Definition check_response (cl : Client) (expected : FrameType.t) (raw : list Z)
  : result Status (list Z) * Client :=
  match decode_frame (cl_limits cl) raw with
  | Err s => (Err s, cl)
  | Ok (frame, _) =>
      let h := frame_header frame in
      if negb ((fh_session h =? cl_session cl) && (fh_epoch h =? cl_epoch cl) &&
               (fh_boot h =? cl_boot cl))
      then (Err (mkStatus StatusCode.STATE_MISMATCH
                   "response frame carries a different session authority"), cl)
      else if fh_sequence h <=? cl_server_sequence cl
      then (Err (mkStatus StatusCode.STATE_MISMATCH
                   "response sequence is not strictly increasing"), cl)
      else
        let cl := set_server_sequence cl (fh_sequence h) in
        let type := FrameType.of_u16 (fh_type h) in
        if bool_decide (type = FrameType.ERROR_FRAME) then
          match decode_error_payload (frame_payload frame) with
          | Err s => (Err s, cl)
          | Ok e =>
              (Err (mkStatus StatusCode.STATE_MISMATCH
                      ("server error " +:+ ErrorCode.to_string (err_code e) +:+ " (" +:+
                       ReasonCode.to_string (err_reason e) +:+ "): " +:+ err_text e)), cl)
          end
        else if negb (bool_decide (type = expected))
        then (Err (mkStatus StatusCode.PROTOCOL_ERROR "unexpected response frame type"), cl)
        else (Ok (frame_payload frame), cl)
  end.

Definition read_response (cl : Client) (expected : FrameType.t) (eof : bool) (wire : list Z)
  : option (result Status (list Z) * Client * list Z) :=
  '(raw, wire) ← read_frame_bytes (cl_limits cl) eof wire;
  match raw with
  | Err s => Some (Err s, cl, wire)
  | Ok raw => let '(r, cl) := check_response cl expected raw in Some (r, cl, wire)
  end.

(** [close]: the farewell, if any. *)
Definition client_close (cl : Client) : list Z * Client :=
  if cl_closed cl then ([], cl)
  else
    (if cl_handshake cl
     then encode_frame FrameType.BYE (cl_session cl) (cl_epoch cl) (cl_boot cl) (cl_sequence cl) []
     else [],
     mkClient (cl_limits cl) (cl_session cl) (cl_epoch cl) (cl_boot cl) (cl_sequence cl)
       (cl_server_sequence cl) (cl_handshake cl) true).

(** ** A conversation *)

Record Link (S : Type) := mkLink {
  lk_server : Server S;
  lk_connection : Connection;
  lk_client : Client
}.
Arguments mkLink {S} _ _ _.
Arguments lk_server {S} l. Arguments lk_connection {S} l. Arguments lk_client {S} l.

Section Conversation.
Context {S : Type} `{!Backend S}.

(** How the network cuts what is sent into the chunks that are received. *)
Context (cut : list Z -> list (list Z)).

(** The server works on what the client sent until it waits again. *)
Definition transmit (link : Link S) (cl : Client) (bytes : list Z) : result Stop (Link S) :=
  let* (srv, cn) := receive_all (lk_server link) (lk_connection link) (cut bytes) in
  Ok (mkLink srv cn cl).

(** The client then reads; nothing more arrives once the connection has ended. *)
Definition read_link (link : Link S) (expected : FrameType.t)
  : result Stop (result Status (list Z) * Link S) :=
  match read_response (lk_client link) expected (negb (cn_open (lk_connection link)))
          (cn_unread (lk_connection link)) with
  | None => Err Blocked
  | Some (r, cl, wire) => Ok (r, mkLink (lk_server link) (set_unread (lk_connection link) wire) cl)
  end.

(** A request and its response. *)
Definition exchange (link : Link S) (type expected : FrameType.t) (payload : list Z)
  : result Stop (result Status (list Z) * Link S) :=
  match send_request (lk_client link) type payload with
  | Err s => Ok (Err s, link)
  | Ok (bytes, cl) => let* link := transmit link cl bytes in read_link link expected
  end.

Definition client_plan (link : Link S) (request : PlanRequest)
  : result Stop (result Status PlanningResult * Link S) :=
  let* (r, link) :=
    exchange link FrameType.PLAN_REQUEST FrameType.PLAN_RESPONSE (encode_request request) in
  Ok (let* payload := r in decode_plan_response_payload payload (cl_limits (lk_client link)), link).

Definition client_validate (link : Link S) (request : PlanRequest) (p : RecoveryPlan)
  : result Stop (result Status ValidationReport * Link S) :=
  let* (r, link) :=
    exchange link FrameType.VALIDATE_REQUEST FrameType.VALIDATE_RESPONSE
      (encode_validate_request_payload request p) in
  Ok (let* payload := r in decode_validate_response_payload payload, link).

Definition client_ping (link : Link S) : result Stop (result Status unit * Link S) :=
  let* (r, link) := exchange link FrameType.STATUS_REQUEST FrameType.STATUS_RESPONSE [] in
  Ok (let* _ := r in Ok tt, link).

(** [connect], on a connection the server accepted. *)
Definition client_connect (srv : Server S) (limits : ProtocolLimits) (nonce : Z)
  : result Stop (result Status (Link S) * Server S) :=
  let* link := transmit (mkLink srv new_connection (fresh_client limits)) (fresh_client limits)
                 (hello_bytes nonce) in
  let cn := lk_connection link in
  match read_frame_bytes limits (negb (cn_open cn)) (cn_unread cn) with
  | None => Err Blocked
  | Some (raw, wire) =>
      Ok (let* raw := raw in
          let* cl := accept_ack (fresh_client limits) raw in
          Ok (mkLink (lk_server link) (set_unread cn wire) cl), lk_server link)
  end.
End Conversation.
