(* ===== verification/ServerCorrect.v ===== *)
(** * What the server does with a byte stream

    The receive loop hands exactly the frames of the stream to [serve_frame],
    however the stream is cut into chunks; live sessions belong to open
    connections, one each. *)
From S2P Require Import Prelude Ids Canonical Model Objective Domain DefinitionCheck Plan Fixture.
From S2P Require Import Codec Crc32 Journal Store Planner Validate Protocol ProtocolCorrect.
From S2P Require Import Session Service Server.

(** ** Frames in the buffer *)

Section Buffer.
Context (limits : ProtocolLimits) (Hlimits : in_u32 (max_payload_bytes limits)).

Lemma length_frame_bytes f : length (frame_bytes f) = (56 + length (frame_payload f))%nat.
Proof. unfold frame_bytes. by rewrite length_app, length_encode_header. Qed.

Lemma inspect_head f tail : frame_fits limits f ->
  inspect limits (encode_frame_header (frame_header f) ++ tail) =
    if sizez (frame_payload f) <=? sizez tail then Whole else Partial.
Proof.
  intros Hf. unfold inspect. rewrite (decode_header_encode limits f tail Hlimits Hf).
  rewrite (ff_length _ _ Hf). pose proof (ff_bound _ _ Hf) as Hb.
  assert (Hl : sizez (encode_frame_header (frame_header f) ++ tail) = 56 + sizez tail)
    by (unfold sizez; rewrite length_app, length_encode_header; lia).
  rewrite Hl. unfold kFrameHeaderSize. clear -Hb.
  destruct (Z.ltb_spec (56 + sizez tail) 56); [unfold sizez in *; lia|].
  destruct (Z.ltb_spec (max_payload_bytes limits) (sizez (frame_payload f))); [lia|].
  destruct (Z.leb_spec (56 + sizez (frame_payload f)) (56 + sizez tail)),
    (Z.leb_spec (sizez (frame_payload f)) (sizez tail)); (done || lia).
Qed.

Lemma inspect_whole f rest : frame_fits limits f -> inspect limits (frame_bytes f ++ rest) = Whole.
Proof.
  intros Hf. unfold frame_bytes. rewrite <- app_assoc, inspect_head by done.
  destruct (Z.leb_spec (sizez (frame_payload f)) (sizez (frame_payload f ++ rest))); [done|].
  unfold sizez in *. rewrite length_app in *. lia.
Qed.

Lemma inspect_short b : (length b < 56)%nat -> inspect limits b = Partial.
Proof.
  intros Hb. unfold inspect, kFrameHeaderSize. destruct (Z.ltb_spec (sizez b) 56); [done|].
  unfold sizez in *. lia.
Qed.

(** What has arrived of a frame that is not complete. *)
Definition unfinished (b : list Z) : Prop :=
  exists f rest, frame_fits limits f /\ rest <> [] /\ frame_bytes f = b ++ rest.

Lemma unfinished_partial b : unfinished b -> inspect limits b = Partial.
Proof.
  intros (f & rest & Hf & Hr & Hb). destruct (Nat.lt_ge_cases (length b) 56) as [|Hge];
    [by apply inspect_short|].
  assert (He : b = encode_frame_header (frame_header f) ++ drop 56 b).
  { rewrite <- (take_drop 56 b) at 1. f_equal. unfold frame_bytes in Hb.
    apply (f_equal (take 56)) in Hb. rewrite (take_app_le b rest) in Hb by done.
    rewrite <- Hb. reflexivity. }
  rewrite He, inspect_head by done.
  apply (f_equal length) in Hb. rewrite length_frame_bytes, length_app in Hb.
  destruct (Z.leb_spec (sizez (frame_payload f)) (sizez (drop 56 b))) as [Hz|]; [|done].
  unfold sizez in Hz. rewrite length_drop in Hz. destruct rest; [done|simpl in Hb; lia].
Qed.

Lemma unfinished_length b : unfinished b -> sizez b < 56 + max_payload_bytes limits.
Proof.
  intros (f & rest & Hf & Hr & Hb). pose proof (ff_bound _ _ Hf).
  apply (f_equal length) in Hb. rewrite length_frame_bytes, length_app in Hb.
  unfold sizez in *. destruct rest; [done|simpl in Hb; lia].
Qed.

Lemma unfinished_nil : (exists f, frame_fits limits f) -> unfinished [].
Proof.
  intros [f Hf]. exists f, (frame_bytes f). split_and!; [done| |done].
  intros H. apply (f_equal length) in H. rewrite length_frame_bytes in H. simpl in H. lia.
Qed.
End Buffer.

(** ** A frame is served whatever is behind it in the buffer *)

Section Serve.
Context {S : Type} `{!Backend S}.
Implicit Types (srv : Server S) (cn : Connection).

Lemma send_all_buffer cn bytes b :
  send_all (set_buffer cn b) bytes =
    ((send_all cn bytes).1, set_buffer (send_all cn bytes).2 b).
Proof. unfold send_all. simpl. by destruct (cn_writable cn). Qed.

Lemma send_error_buffer srv cn b session sequence code reason text :
  send_error srv (set_buffer cn b) session sequence code reason text =
    set_buffer (send_error srv cn session sequence code reason text) b.
Proof. unfold send_error, send_frame. by rewrite send_all_buffer. Qed.

Lemma serve_hello_buffer srv cn b f :
  serve_hello srv (set_buffer cn b) f =
    ((serve_hello srv cn f).1, set_buffer (serve_hello srv cn f).2 b).
Proof.
  unfold serve_hello. destruct (negb _); [by rewrite send_error_buffer|].
  destruct (decode_hello _); [|by rewrite send_error_buffer].
  destruct (session_create _ _ _ _) as [[r|s] reg]; [|by rewrite send_error_buffer].
  unfold send_frame.
  change (establish (set_buffer cn b) (sr_id r)) with (set_buffer (establish cn (sr_id r)) b).
  rewrite send_all_buffer. cbn [set_buffer cn_session cn_server_sequence].
  by destruct (send_all _ _) as [[u|s] cn'].
Qed.

Lemma respond_buffer {A} srv cn b type (encode : A -> list Z) r :
  respond srv (set_buffer cn b) type encode r = set_buffer (respond srv cn type encode r) b.
Proof.
  unfold respond, send_error, send_frame. cbn [set_buffer cn_session response_sequence].
  by destruct r; rewrite send_all_buffer.
Qed.

Lemma serve_request_buffer srv cn b f :
  serve_request srv (set_buffer cn b) f =
    (let* (srv, cn) := serve_request srv cn f in Ok (srv, set_buffer cn b)).
Proof.
  unfold serve_request, reject_request. destruct (FrameType.of_u16 _); cbn [rbind]; try
    (change (cn_session (set_buffer cn b)) with (cn_session cn);
     change (response_sequence (set_buffer cn b)) with (response_sequence cn);
     by rewrite send_error_buffer).
  - destruct (decode_plan_request_payload _ _); cbn [rbind].
    + destruct (returned _) as [[r s]|]; cbn [rbind]; [|done]. by rewrite respond_buffer.
    + by rewrite send_error_buffer.
  - destruct (decode_validate_request_payload _ _) as [[q p]|]; cbn [rbind].
    + destruct (returned _) as [[r s]|]; cbn [rbind]; [|done]. by rewrite respond_buffer.
    + by rewrite send_error_buffer.
  - unfold send_frame. by rewrite send_all_buffer.
  - done.
Qed.

Lemma serve_frame_buffer srv cn b f :
  serve_frame srv (set_buffer cn b) f =
    (let* (srv, cn) := serve_frame srv cn f in Ok (srv, set_buffer cn b)).
Proof.
  unfold serve_frame. cbn [set_buffer cn_handshake]. destruct (negb _); cbn [rbind].
  - change (mkConnection _ _ _ _ _ _ _) with (set_buffer cn b).
    rewrite serve_hello_buffer. by destruct (serve_hello _ _ _).
  - destruct (session_accept _ _ _ _ _) as [[u|s] reg].
    + apply serve_request_buffer.
    + cbn [rbind]. change (mkConnection _ _ _ _ _ _ _) with (set_buffer cn b).
      by rewrite send_error_buffer.
Qed.

(** What serving a frame leaves alone. *)
Record steady (srv srv' : Server S) (cn cn' : Connection) : Prop := {
  steady_limits : srv_limits srv' = srv_limits srv;
  steady_max : srv_max_sessions srv' = srv_max_sessions srv;
  steady_epoch : srv_epoch srv' = srv_epoch srv;
  steady_boot : srv_boot srv' = srv_boot srv;
  steady_stopping : srv_stopping srv' = srv_stopping srv;
  steady_buffer : cn_buffer cn' = cn_buffer cn;
  steady_writable : cn_writable cn' = cn_writable cn
}.

Lemma send_all_steady cn bytes :
  let cn' := (send_all cn bytes).2 in
  cn_buffer cn' = cn_buffer cn /\ cn_writable cn' = cn_writable cn /\ cn_open cn' = cn_open cn /\
  cn_session cn' = cn_session cn /\ cn_handshake cn' = cn_handshake cn /\
  cn_server_sequence cn' = cn_server_sequence cn.
Proof. unfold send_all. by destruct (cn_writable cn) eqn:H. Qed.

Lemma respond_steady {A} srv cn type (encode : A -> list Z) r :
  let cn' := respond srv cn type encode r in
  cn_buffer cn' = cn_buffer cn /\ cn_writable cn' = cn_writable cn /\ cn_open cn' = cn_open cn /\
  cn_session cn' = cn_session cn /\ cn_handshake cn' = cn_handshake cn.
Proof.
  unfold respond, send_error, send_frame.
  destruct r; cbn [next_server_sequence cn_buffer cn_writable cn_open cn_session cn_handshake];
    match goal with |- context [send_all cn ?b] => pose proof (send_all_steady cn b) as H end;
    cbv zeta in H; tauto.
Qed.

Ltac solve_steady :=
  intros [= <- <-]; unfold send_error, send_frame;
  repeat match goal with
  | |- context [send_all ?c ?b] =>
      lazymatch goal with
      | H : _ = cn_buffer c /\ _ |- _ => fail
      | _ => let H := fresh in pose proof (send_all_steady c b) as H; cbv zeta in H
      end
  | |- context [respond ?a ?b ?c ?d ?e] =>
      lazymatch goal with
      | H : _ = cn_buffer b /\ _ |- _ => fail
      | _ => let H := fresh in pose proof (respond_steady a b c d e) as H; cbv zeta in H
      end
  end;
  destruct_and?; split; first [reflexivity|assumption].

Lemma serve_hello_steady srv cn f srv' cn' :
  serve_hello srv cn f = (srv', cn') -> steady srv srv' cn cn'.
Proof.
  unfold serve_hello. destruct (negb _); [solve_steady|].
  destruct (decode_hello _); [|solve_steady].
  destruct (session_create _ _ _ _) as [[r|s] reg]; [|solve_steady].
  intros [= <- <-]. unfold send_frame.
  match goal with |- context [send_all ?c ?b] =>
    pose proof (send_all_steady c b) as H; cbv zeta in H; destruct (send_all c b) as [[u|s] cn1] end;
    destruct_and! H; split; first [reflexivity|assumption].
Qed.

Lemma serve_request_steady srv cn f srv' cn' :
  serve_request srv cn f = Ok (srv', cn') -> steady srv srv' cn cn'.
Proof.
  unfold serve_request, reject_request. destruct (FrameType.of_u16 _); try solve_steady.
  - destruct (decode_plan_request_payload _ _); [|solve_steady].
    destruct (returned _) as [[r s]|]; cbn [rbind]; [solve_steady|done].
  - destruct (decode_validate_request_payload _ _) as [[q p]|]; [|solve_steady].
    destruct (returned _) as [[r s]|]; cbn [rbind]; [solve_steady|done].
Qed.

Lemma serve_frame_steady srv cn f srv' cn' :
  serve_frame srv cn f = Ok (srv', cn') -> steady srv srv' cn cn'.
Proof.
  unfold serve_frame. destruct (negb _).
  - intros [= H]. apply serve_hello_steady in H as []. by split.
  - destruct (session_accept _ _ _ _ _) as [[u|s] reg]; [|solve_steady].
    intros H. apply serve_request_steady in H as []. by split.
Qed.
End Serve.

(** ** The stream *)

Section Stream.
Context {S : Type} `{!Backend S}.
Implicit Types (srv : Server S) (cn : Connection).

(** The frames of a stream, one after the other. *)
Fixpoint serve_all srv cn (fs : list Frame) : result Stop (Server S * Connection) :=
  match fs with
  | [] => Ok (srv, cn)
  | f :: fs =>
      if cn_open cn then
        let* r := serve_frame srv cn f in
        serve_all (settle r).1 (settle r).2 fs
      else Ok (srv, cn)
  end.

(** A connection that still reads holds [tail]; one that has ended, nothing of interest. *)
Definition holding (tail : list Z) (r : Server S * Connection) : Server S * Connection :=
  (r.1, set_buffer r.2 (if cn_open r.2 then tail else [])).

Definition forget (r : Server S * Connection) : Server S * Connection :=
  holding (cn_buffer r.2) r.

Lemma serve_all_closed srv cn fs : cn_open cn = false -> serve_all srv cn fs = Ok (srv, cn).
Proof. destruct fs; simpl; [done|]. by intros ->. Qed.

Lemma settle_open (r : Server S * Connection) : cn_open (settle r).2 = cn_open r.2.
Proof. destruct r as [srv cn]. unfold settle, end_connection. simpl. by destruct (cn_open cn) eqn:H, (cn_handshake cn). Qed.

Lemma settle_buffer (r : Server S * Connection) b :
  settle (r.1, set_buffer r.2 b) = ((settle r).1, set_buffer (settle r).2 b).
Proof. destruct r as [srv cn]. unfold settle, end_connection. simpl. by destruct (cn_open cn), (cn_handshake cn). Qed.

Lemma settle_conn (r : Server S * Connection) : (settle r).2 = r.2.
Proof. destruct r as [srv cn]. unfold settle, end_connection. simpl. by destruct (cn_open cn), (cn_handshake cn). Qed.

Lemma settle_same (r : Server S * Connection) : cn_open r.2 = true -> settle r = r.
Proof. destruct r as [srv cn]. simpl. by intros ->. Qed.

Context (limits : ProtocolLimits) (Hlimits : in_u32 (max_payload_bytes limits)).

Lemma pump_partial fuel srv cn :
  srv_limits srv = limits -> srv_stopping srv = false -> cn_open cn = true ->
  inspect limits (cn_buffer cn) = Partial -> pump (Datatypes.S fuel) srv cn = Ok (srv, cn).
Proof. intros Hl Hs Ho Hi. simpl. by rewrite Hl, Hs, Ho, Hi. Qed.

Lemma pump_whole fuel srv cn f rest :
  srv_limits srv = limits -> srv_stopping srv = false -> cn_open cn = true ->
  frame_fits limits f -> cn_buffer cn = frame_bytes f ++ rest ->
  pump (Datatypes.S fuel) srv cn =
    (let* r := serve_frame srv (set_buffer cn rest) f in pump fuel r.1 r.2).
Proof.
  intros Hl Hs Ho Hf Hb. simpl.
  rewrite Hl, Hs, Ho, Hb, inspect_whole, (decode_frame_bytes limits Hlimits f rest Hf) by done.
  cbn [orb negb].
  replace (drop (Z.to_nat (kFrameHeaderSize + sizez (frame_payload f))) (frame_bytes f ++ rest))
    with rest.
  - by destruct (serve_frame _ _ _) as [[? ?]|].
  - symmetry. apply drop_app_length'. rewrite length_frame_bytes. unfold kFrameHeaderSize, sizez. lia.
Qed.

Lemma pump_closed fuel srv cn :
  cn_open cn = false -> pump (Datatypes.S fuel) srv cn = Ok (srv, hang_up cn).
Proof. intros Ho. simpl. by rewrite Ho, orb_true_r. Qed.

(** The loop serves the frames of its buffer and keeps the rest. *)
Lemma pump_frames fs : forall fuel srv cn tail,
  srv_limits srv = limits -> srv_stopping srv = false -> cn_open cn = true -> cn_buffer cn = [] ->
  Forall (frame_fits limits) fs -> inspect limits tail = Partial -> (length fs < fuel)%nat ->
  (let* r := pump fuel srv (set_buffer cn (concat (map frame_bytes fs) ++ tail)) in
   Ok (forget (settle r))) =
  (let* r := serve_all srv cn fs in Ok (holding tail r)).
Proof.
  induction fs as [|f fs IH]; intros fuel srv cn tail Hl Hs Ho Hb Hfs Ht Hfuel;
    (destruct fuel as [|fuel]; [simpl in Hfuel; lia|]).
  - rewrite pump_partial by done. cbn [rbind serve_all]. rewrite settle_same by done.
    unfold forget, holding. cbn [fst snd]. by destruct cn; simpl in *; subst.
  - apply Forall_cons in Hfs as [Hf Hfs]. cbn [map concat]. rewrite <- app_assoc.
    erewrite pump_whole by done. cbn [serve_all]. rewrite Ho.
    change (set_buffer (set_buffer cn _) ?b) with (set_buffer cn b). rewrite serve_frame_buffer.
    destruct (serve_frame srv cn f) as [[srv1 cn1]|e] eqn:Hserve; cbn [rbind fst snd]; [|done].
    apply serve_frame_steady in Hserve as [Hl1 _ _ _ Hs1 Hb1 _].
    destruct (cn_open cn1) eqn:Ho1.
    + rewrite settle_same by done. cbn [fst snd].
      apply IH; try done; [congruence..|]. simpl in Hfuel. lia.
    + destruct fuel as [|fuel]; [simpl in Hfuel; lia|].
      rewrite pump_closed by done. cbn [rbind].
      rewrite serve_all_closed by (rewrite settle_conn; done). cbn [rbind].
      unfold forget, holding. rewrite !settle_conn. cbn [fst snd]. rewrite Ho1. cbn [hang_up cn_open].
      f_equal. f_equal.
      * unfold settle, end_connection. cbn [hang_up cn_open cn_handshake]. rewrite Ho1. simpl.
        by destruct (cn_handshake cn1).
      * by destruct cn1; simpl in *; subst.
Qed.

(** How much of the frames of these sizes is left in the buffer, and which of
    them are still to come, when [held] bytes are there. *)
Fixpoint arrived (held : Z) (sizes : list Z) : Z * list Z :=
  match sizes with
  | s :: rest => if s <=? held then arrived (held - s) rest else (held, sizes)
  | [] => (held, [])
  end.

(** No chunk makes the buffer exceed the bound. *)
Fixpoint roomy (bound held : Z) (sizes : list Z) (chunks : list (list Z)) : bool :=
  match chunks with
  | [] => true
  | c :: cs =>
      let '(kept, coming) := arrived (held + sizez c) sizes in
      (held + sizez c <=? bound) && roomy bound kept coming cs
  end.

Definition frame_size (f : Frame) : Z := kFrameHeaderSize + sizez (frame_payload f).
Definition buffer_bound : Z := max_payload_bytes limits + 4 * kFrameHeaderSize.

Lemma frame_size_bytes f : frame_size f = sizez (frame_bytes f).
Proof. unfold frame_size, kFrameHeaderSize, sizez. rewrite length_frame_bytes. lia. Qed.

(** What has arrived of a stream: whole frames and the beginning of the next one. *)
Lemma split_stream fs : forall p q,
  Forall (frame_fits limits) fs -> p ++ q = concat (map frame_bytes fs) ->
  exists fs1 fs2 tail, fs = fs1 ++ fs2 /\ p = concat (map frame_bytes fs1) ++ tail /\
    tail ++ q = concat (map frame_bytes fs2) /\ inspect limits tail = Partial /\
    arrived (sizez p) (map frame_size fs) = (sizez tail, map frame_size fs2).
Proof.
  induction fs as [|f fs IH]; intros p q Hfs Hpq.
  - apply app_nil in Hpq as [-> ->]. by exists [], [], [].
  - apply Forall_cons in Hfs as [Hf Hfs]. cbn [map concat] in Hpq. cbn [map arrived].
    rewrite frame_size_bytes. destruct (Z.leb_spec (sizez (frame_bytes f)) (sizez p)) as [Hle|Hlt].
    + assert (Hp : p = frame_bytes f ++ drop (length (frame_bytes f)) p).
      { rewrite <- (take_drop (length (frame_bytes f)) p) at 1. f_equal.
        apply (f_equal (take (length (frame_bytes f)))) in Hpq.
        rewrite take_app_length, take_app_le in Hpq by (unfold sizez in Hle; lia). done. }
      set (p' := drop _ _) in *. clearbody p'. subst p. rewrite <- app_assoc in Hpq.
      apply app_inv_head in Hpq. destruct (IH p' q Hfs Hpq) as (fs1 & fs2 & tail & -> & -> & Ht & Hi & Ha).
      exists (f :: fs1), fs2, tail.
      split_and!; [done|cbn [map concat]; by rewrite <- app_assoc|done|done|].
      rewrite <- Ha. f_equal. unfold sizez. rewrite length_app. lia.
    + exists [], (f :: fs), p. cbn [map]. rewrite frame_size_bytes. split_and!; try done.
      apply (unfinished_partial limits Hlimits). exists f, (drop (length p) (frame_bytes f)).
      split_and!; [done| |].
      * intros H. apply (f_equal length) in H. rewrite length_drop in H. unfold sizez in Hlt.
        change (length []) with 0%nat in H. lia.
      * apply (f_equal (take (length p))) in Hpq. rewrite take_app_length in Hpq.
        rewrite take_app_le in Hpq by (unfold sizez in Hlt; lia). rewrite Hpq at 1.
        by rewrite take_drop.
Qed.

Lemma serve_all_app fs1 : forall srv cn fs2,
  serve_all srv cn (fs1 ++ fs2) = (let* r := serve_all srv cn fs1 in serve_all r.1 r.2 fs2).
Proof.
  induction fs1 as [|f fs1 IH]; intros srv cn fs2; [done|]. cbn [app serve_all].
  destruct (cn_open cn) eqn:Ho; [|cbn [rbind]; by rewrite serve_all_closed].
  destruct (serve_frame srv cn f) as [r|]; cbn [rbind]; [|done]. apply IH.
Qed.

Lemma serve_all_steady fs : forall srv cn srv' cn',
  serve_all srv cn fs = Ok (srv', cn') ->
  srv_limits srv' = srv_limits srv /\ srv_stopping srv' = srv_stopping srv /\
  cn_buffer cn' = cn_buffer cn.
Proof.
  induction fs as [|f fs IH]; intros srv cn srv' cn'; cbn [serve_all]; [by intros [= <- <-]|].
  destruct (cn_open cn); [|by intros [= <- <-]].
  destruct (serve_frame srv cn f) as [[srv1 cn1]|] eqn:Hf; cbn [rbind]; [|done].
  intros H. apply IH in H as (-> & -> & ->). apply serve_frame_steady in Hf as [].
  rewrite settle_conn. unfold settle, end_connection. by destruct (cn_open cn1), (cn_handshake cn1).
Qed.

Lemma receive_all_closed chunks : forall srv cn,
  cn_open cn = false -> receive_all srv cn chunks = Ok (srv, cn).
Proof.
  induction chunks as [|c chunks IH]; intros srv cn Ho; simpl; [done|].
  unfold receive. rewrite Ho. simpl. by apply IH.
Qed.

Lemma length_stream fs : (56 * length fs <= length (concat (map frame_bytes fs)))%nat.
Proof.
  induction fs as [|f fs IH]; [done|]. cbn [map concat length].
  rewrite length_app, length_frame_bytes. lia.
Qed.

(** One chunk, of which [fs] is complete. *)
Lemma receive_frames srv cn b chunk fs tail :
  srv_limits srv = limits -> srv_stopping srv = false -> cn_open cn = true -> cn_buffer cn = b ->
  chunk <> [] -> b ++ chunk = concat (map frame_bytes fs) ++ tail -> inspect limits tail = Partial ->
  Forall (frame_fits limits) fs -> sizez b + sizez chunk <= buffer_bound ->
  (let* r := receive srv cn chunk in Ok (forget r)) =
  (let* r := serve_all srv (set_buffer cn []) fs in Ok (holding tail r)).
Proof.
  intros Hl Hs Ho Hb Hc He Ht Hfs Hroom.
  rewrite <- (pump_frames fs (pump_fuel (set_buffer cn (b ++ chunk))) srv (set_buffer cn []) tail)
    by (done || (unfold pump_fuel; cbn [set_buffer cn_buffer]; rewrite He, length_app;
                 pose proof (length_stream fs); lia)).
  rewrite <- He. change (set_buffer (set_buffer cn []) (b ++ chunk)) with (set_buffer cn (b ++ chunk)).
  unfold receive. rewrite Ho, Hb. cbn [negb]. destruct chunk as [|x chunk]; [done|].
  cbn [set_buffer cn_buffer]. rewrite Hl.
  assert (Hz : (buffer_bound <? sizez (b ++ x :: chunk)) = false).
  { apply Z.ltb_ge. revert Hroom. unfold sizez. rewrite length_app. lia. }
  unfold buffer_bound in Hz. rewrite Hz. change (mkConnection _ _ _ ?bb _ _ _) with (set_buffer cn bb).
  by destruct (pump _ _ _).
Qed.

(** The chunks of a stream of frames. *)
Lemma receive_stream chunks : forall srv cn fs,
  srv_limits srv = limits -> srv_stopping srv = false -> cn_open cn = true ->
  inspect limits (cn_buffer cn) = Partial -> Forall (frame_fits limits) fs ->
  Forall (fun c => c <> []) chunks -> cn_buffer cn ++ concat chunks = concat (map frame_bytes fs) ->
  roomy buffer_bound (sizez (cn_buffer cn)) (map frame_size fs) chunks = true ->
  (let* r := receive_all srv cn chunks in Ok (forget r)) =
  (let* r := serve_all srv (set_buffer cn []) fs in Ok (holding [] r)).
Proof.
  induction chunks as [|c chunks IH]; intros srv cn fs Hl Hs Ho Hi Hfs Hne He Hroom.
  - cbn [concat] in He. rewrite app_nil_r in He. destruct fs as [|f fs].
    + cbn [map concat] in He. simpl. unfold forget, holding. simpl. by rewrite He, Ho.
    + apply Forall_cons in Hfs as [Hf _]. cbn [map concat] in He.
      rewrite He, inspect_whole in Hi by done. done.
  - apply Forall_cons in Hne as [Hc Hne]. cbn [concat] in He. rewrite app_assoc in He.
    destruct (split_stream fs _ _ Hfs He) as (fs1 & fs2 & tail & -> & Hp & Ht & Hit & Ha).
    cbn [roomy] in Hroom.
    replace (sizez (cn_buffer cn) + sizez c) with (sizez (cn_buffer cn ++ c)) in Hroom
      by (unfold sizez; rewrite length_app; lia).
    rewrite Ha in Hroom. apply andb_true_iff in Hroom as [Hbound Hroom]. apply Z.leb_le in Hbound.
    apply Forall_app in Hfs as [Hfs1 Hfs2].
    pose proof (receive_frames srv cn _ c fs1 tail Hl Hs Ho eq_refl Hc Hp Hit Hfs1) as Hrec.
    rewrite serve_all_app. cbn [receive_all].
    destruct (serve_all srv (set_buffer cn []) fs1) as [[srv1 cn1]|e] eqn:Hall;
      (destruct (receive srv cn c) as [[srv2 cn2]|e2]; cbn [rbind] in *;
       (specialize (Hrec ltac:(revert Hbound; unfold sizez; rewrite length_app; lia)); try discriminate)).
    + assert (Heq : forget (srv2, cn2) = holding tail (srv1, cn1)) by congruence. clear Hrec.
      assert (srv2 = srv1) as -> by exact (f_equal fst Heq).
      assert (Hrec := f_equal snd Heq). cbn [fst snd forget holding] in *. clear Heq.
      assert (Hopen : cn_open cn2 = cn_open cn1) by exact (f_equal cn_open Hrec).
      apply serve_all_steady in Hall as (Hl1 & Hs1 & Hb1). cbn [set_buffer cn_buffer] in Hb1.
      destruct (cn_open cn1) eqn:Ho1.
      * rewrite Hopen in Hrec. assert (Hcn : cn2 = set_buffer cn1 tail) by (rewrite <- Hrec; by destruct cn2).
        assert (Hcn1 : set_buffer cn1 [] = cn1) by (rewrite <- Hb1; by destruct cn1).
        rewrite Hcn, (IH srv1 (set_buffer cn1 tail) fs2); try done; try congruence.
        change (set_buffer (set_buffer cn1 tail) []) with (set_buffer cn1 []). by rewrite Hcn1.
      * rewrite receive_all_closed, serve_all_closed by congruence. cbn [rbind].
        unfold forget, holding in *. cbn [fst snd] in *. rewrite Hopen, Ho1 in *. by rewrite Hrec.
    + by injection Hrec as ->.
Qed.
End Stream.

(** Frames sent one at a time never overflow the buffer, however they are cut. *)
Lemma roomy_one bound s chunks : forall held,
  0 <= held -> held + sizez (concat chunks) = s -> s <= bound -> Forall (fun c => c <> []) chunks ->
  roomy bound held [s] chunks = true.
Proof.
  induction chunks as [|c chunks IH]; intros held Hh Hs Hb Hne; [done|].
  apply Forall_cons in Hne as [Hc Hne]. cbn [concat] in Hs.
  assert (Hz : 0 < sizez c) by (destruct c; [done|unfold sizez; simpl; lia]).
  assert (Hsum : held + sizez c + sizez (concat chunks) = s)
    by (unfold sizez in *; rewrite length_app in Hs; lia).
  pose proof (Nat2Z.is_nonneg (length (concat chunks))) as Hp. fold (sizez (concat chunks)) in Hp.
  cbn [roomy arrived]. destruct (Z.leb_spec s (held + sizez c)).
  - assert (sizez (concat chunks) = 0) as H0 by lia. destruct chunks as [|c' chunks].
    + cbn [roomy]. rewrite andb_true_r. apply Z.leb_le. lia.
    + apply Forall_cons in Hne as [Hc' _]. destruct c'; [done|]. unfold sizez in H0. simpl in H0. lia.
  - rewrite IH by (done || lia). rewrite andb_true_r. apply Z.leb_le. lia.
Qed.

Section Delivery.
Context {S : Type} `{!Backend S}.
Implicit Types (srv : Server S) (cn : Connection).

Lemma serve_all_holding srv cn fs r :
  serve_all srv cn fs = Ok r -> cn_buffer cn = [] -> holding [] r = r.
Proof.
  destruct r as [srv' cn']. intros (_ & _ & Hb)%serve_all_steady He. unfold holding. simpl.
  rewrite He in Hb. rewrite <- Hb. destruct cn' as [[] ? ? ? ? ? ?]; simpl in *; by rewrite ?Hb.
Qed.

(** A connection that still reads has forgotten nothing. *)
Lemma forget_served r r' :
  Ok (forget r) = Ok r' :> result Stop _ -> cn_open r'.2 = true -> r = r' :> Server S * Connection.
Proof.
  intros H Ho. assert (Hr : forget r = r') by congruence. clear H. destruct r as [srv cn].
  assert (Hopen : cn_open cn = true) by (rewrite <- Ho, <- Hr; done).
  rewrite <- Hr. unfold forget, holding. cbn [fst snd]. rewrite Hopen. by destruct cn.
Qed.

(** One frame, in any chunks, to a connection that waits for it. *)
Lemma deliver_frame srv cn f chunks :
  in_u32 (max_payload_bytes (srv_limits srv)) -> srv_stopping srv = false -> cn_open cn = true ->
  cn_buffer cn = [] -> frame_fits (srv_limits srv) f ->
  Forall (fun c => c <> []) chunks -> concat chunks = frame_bytes f ->
  (let* r := receive_all srv cn chunks in Ok (forget r)) =
  (let* r := serve_frame srv cn f in Ok (settle r)).
Proof.
  intros Hu Hs Ho Hb Hf Hne Hc.
  rewrite (receive_stream (srv_limits srv) Hu chunks srv cn [f]); try done.
  - replace (set_buffer cn []) with cn by (rewrite <- Hb; by destruct cn).
    cbn [serve_all]. rewrite Ho. destruct (serve_frame srv cn f) as [r|] eqn:Hr; [|done].
    cbn [rbind serve_all]. pose proof (serve_all_holding srv cn [f] (settle r)) as H.
    cbn [serve_all] in H. rewrite Ho, Hr in H. cbn [rbind serve_all] in H.
    rewrite <- surjective_pairing in H. by rewrite <- surjective_pairing, H.
  - by rewrite Hb.
  - by apply Forall_singleton.
  - cbn [map concat]. by rewrite Hb, app_nil_r.
  - rewrite Hb. cbn [map]. apply roomy_one; try done.
    + rewrite Hc, frame_size_bytes. unfold sizez. simpl. lia.
    + unfold frame_size, buffer_bound, kFrameHeaderSize. pose proof (ff_bound _ _ Hf). lia.
Qed.

(** More than the buffer may hold ends the connection, without an error frame. *)
Lemma overfull_buffer_drops srv cn chunk :
  cn_open cn = true -> chunk <> [] ->
  buffer_bound (srv_limits srv) < sizez (cn_buffer cn ++ chunk) ->
  exists srv' cn', receive srv cn chunk = Ok (srv', cn') /\ cn_open cn' = false /\
    cn_unread cn' = cn_unread cn.
Proof.
  intros Ho Hc Hb. unfold receive. rewrite Ho. destruct chunk as [|x chunk]; [done|].
  cbn [negb set_buffer cn_buffer]. unfold buffer_bound in Hb. apply Z.ltb_lt in Hb. rewrite Hb.
  cbn [rbind]. unfold settle, end_connection. cbn [hang_up set_buffer cn_open cn_handshake].
  destruct (cn_handshake cn); eexists _, _; (split; [reflexivity|done]).
Qed.

(** ** Any bytes at all *)

Lemma serve_frame_stop srv cn f e : serve_frame srv cn f = Err e -> e = ProcessDied.
Proof.
  unfold serve_frame. destruct (negb _); [done|].
  destruct (session_accept _ _ _ _ _) as [[u|s] reg]; [|done].
  unfold serve_request, returned. destruct (FrameType.of_u16 _); try done.
  - destruct (decode_plan_request_payload _ _); [|done].
    destruct (be_plan _ _) as [[r s]|]; cbn [rbind]; [done|congruence].
  - destruct (decode_validate_request_payload _ _) as [[q p]|]; [|done].
    destruct (be_validate _ _ _) as [[r s]|]; cbn [rbind]; [done|congruence].
Qed.

(** Where the loop stops: at a read, or for good. *)
Lemma pump_total fuel : forall srv cn,
  in_u32 (max_payload_bytes (srv_limits srv)) -> Forall in_u8 (cn_buffer cn) ->
  (length (cn_buffer cn) < fuel)%nat ->
  match pump fuel srv cn with
  | Ok (srv', cn') => cn_open cn' = true ->
      inspect (srv_limits srv) (cn_buffer cn') = Partial /\
      (exists done, cn_buffer cn = done ++ cn_buffer cn')
  | Err e => e = ProcessDied
  end.
Proof.
  induction fuel as [|fuel IH]; intros srv cn Hu Hb Hl; [lia|]. cbn [pump].
  destruct (_ || _) eqn:Hstop; [done|].
  destruct (inspect _ _) as [| |m text] eqn:Hi; [|clear Hi|done].
  { intros _. split; [done|]. by exists []. }
  destruct (decode_frame _ _) as [[f n]|s] eqn:Hd; [|done].
  apply decode_frame_inv in Hd as (Hf & -> & rest & Hr); [|done..].
  assert (Hdrop : drop (Z.to_nat (kFrameHeaderSize + sizez (frame_payload f))) (cn_buffer cn) = rest).
  { rewrite Hr. apply drop_app_length'. rewrite length_frame_bytes. unfold kFrameHeaderSize, sizez. lia. }
  rewrite Hdrop. clear Hdrop.
  destruct (serve_frame _ _ f) as [[srv1 cn1]|e] eqn:Hserve; cbn [rbind]; [|by eapply serve_frame_stop].
  apply serve_frame_steady in Hserve as [Hl1 _ _ _ _ Hb1 _]. cbn [set_buffer cn_buffer] in Hb1.
  specialize (IH srv1 cn1). rewrite Hl1, Hb1 in IH. rewrite Hr in Hb, Hl.
  rewrite length_app, length_frame_bytes in Hl. apply Forall_app in Hb as [_ Hb].
  specialize (IH Hu Hb ltac:(lia)). destruct (pump fuel srv1 cn1) as [[srv2 cn2]|]; [|done].
  intros Ho. destruct (IH Ho) as [Hi [d Hd]]. split; [done|]. exists (frame_bytes f ++ d).
  rewrite Hr, Hd. by rewrite <- app_assoc.
Qed.
End Delivery.

(** ** Sessions and connections *)

Record Net (S : Type) := mkNet { net_server : Server S; net_connections : list Connection }.
Arguments mkNet {S} _ _.
Arguments net_server {S} n. Arguments net_connections {S} n.

Section Net.
Context {S : Type} `{!Backend S}.
Implicit Types (srv : Server S) (cn : Connection).

(** What can happen on the network: a connection is accepted or turned away, bytes
    or the end of a stream arrive at one, a peer reads or goes away; and the server
    may be told to stop. *)
Inductive net_event : Net S -> Net S -> Prop :=
| net_accept srv conns srv' cn out :
    accept srv = (srv', Some cn, out) -> net_event (mkNet srv conns) (mkNet srv' (conns ++ [cn]))
| net_refuse srv conns srv' out :
    accept srv = (srv', None, out) -> net_event (mkNet srv conns) (mkNet srv' conns)
| net_receive srv pre cn post chunk srv' cn' :
    receive srv cn chunk = Ok (srv', cn') ->
    net_event (mkNet srv (pre ++ cn :: post)) (mkNet srv' (pre ++ cn' :: post))
| net_peer srv pre cn post writable unread :
    net_event (mkNet srv (pre ++ cn :: post))
      (mkNet srv (pre ++ mkConnection (cn_open cn) writable unread (cn_buffer cn) (cn_session cn)
                          (cn_server_sequence cn) (cn_handshake cn) :: post))
| net_stop srv conns : net_event (mkNet srv conns) (mkNet (server_stop srv) conns).

(** ... or other callers use the service. *)
Inductive net_step : Net S -> Net S -> Prop :=
| net_happens net net' : net_event net net' -> net_step net net'
| net_service srv conns s : net_step (mkNet srv conns) (mkNet (replace_service srv s) conns).

(** The sessions of the connections in service. *)
Definition session_of cn : list SessionId :=
  if cn_open cn && cn_handshake cn then [cn_session cn] else [].
Definition sessions (conns : list Connection) : list SessionId := concat (map session_of conns).

Definition greeting cn : Z := if cn_handshake cn then 0 else 1.
Definition greetings (conns : list Connection) : Z := foldr Z.add 0 (map greeting conns).

(** The table, as far as one connection and the sessions of all others go. *)
Record Share srv (held : gset SessionId) (owned : list SessionId) : Prop := {
  share_inv : SessionInv (srv_sessions srv);
  share_dom : dom (live (srv_sessions srv)) = held ∪ list_to_set owned;
  share_fresh : forall id, id ∈ owned -> id ∉ held;
  share_authority : forall id e b last, live (srv_sessions srv) !! id = Some (e, b, last) ->
    e = srv_epoch srv /\ b = srv_boot srv
}.

Definition handshaken cn : list SessionId := if cn_handshake cn then [cn_session cn] else [].

Lemma send_error_handshaken srv cn session sequence code reason text :
  handshaken (send_error srv cn session sequence code reason text) = handshaken cn.
Proof. unfold send_error, send_frame, send_all, handshaken. by destruct (cn_writable cn). Qed.

Lemma respond_handshaken {A} srv cn type (encode : A -> list Z) r :
  handshaken (respond srv cn type encode r) = handshaken cn.
Proof.
  pose proof (respond_steady srv cn type encode r) as H. cbv zeta in H. destruct_and! H.
  unfold handshaken. by repeat match goal with E : _ = _ |- _ => rewrite E; clear E end.
Qed.

(** Serving a frame opens at most the connection's own session. *)
Lemma serve_hello_share srv cn f srv' cn' held n :
  serve_hello srv cn f = (srv', cn') -> cn_handshake cn = false -> Share srv held [] ->
  rg_next_id (srv_sessions srv) + greeting cn <= n -> n <= UINT64_MAX ->
  Share srv' held (handshaken cn') /\ rg_next_id (srv_sessions srv') + greeting cn' <= n.
Proof.
  intros Hserve Hh Hs Hn Hmax. unfold serve_hello in Hserve.
  assert (Hg : greeting cn = 1) by (unfold greeting; by rewrite Hh).
  assert (Hclosed : forall cn1, handshaken cn1 = handshaken cn ->
            handshaken (hang_up cn1) = [] /\ greeting (hang_up cn1) = 1).
  { intros cn1 H1. unfold handshaken, greeting in *. cbn [hang_up cn_handshake cn_session].
    rewrite Hh in H1. by destruct (cn_handshake cn1). }
  destruct (negb _); [|destruct (decode_hello _) as [nonce|s];
    [pose proof (create_spec (srv_sessions srv) (srv_epoch srv) (srv_boot srv) nonce
                   (share_inv _ _ _ Hs)) as Hc;
     destruct (session_create _ _ _ _) as [[r|s] reg]|]].
  - injection Hserve as <- <-.
    destruct (Hclosed (send_error srv cn 0 1 ErrorCode.SESSION_MISMATCH
      ReasonCode.PROTOCOL_SESSION_MISMATCH "the first frame of a connection must be HELLO")) as [-> ->];
      [apply send_error_handshaken|]. split; [destruct Hs; by split|]. cbn [count srv_sessions]. lia.
  - destruct (Hc ltac:(lia)) as (-> & Hnext & Hi & Hnone & Hl). cbn [opened sr_id] in *.
    assert (Hcn : handshaken cn' = [rg_next_id (srv_sessions srv)] /\ greeting cn' = 0 /\
              srv' = set_registry srv reg).
    { unfold send_frame, send_all in Hserve. cbn [establish cn_writable] in Hserve.
      destruct (cn_writable cn); injection Hserve as <- <-; done. }
    destruct Hcn as (-> & -> & ->). cbn [set_registry srv_sessions]. split; [|lia].
    destruct Hs as [_ Hd _ Hauth]. split; cbn [set_registry srv_sessions srv_epoch srv_boot].
    + done.
    + rewrite Hl, dom_insert_L, Hd. simpl. set_solver.
    + intros id ->%list_elem_of_singleton Hin. apply not_elem_of_dom in Hnone. rewrite Hd in Hnone.
      set_solver.
    + intros id e b last. rewrite Hl. intros [[<- [= <- <- <-]]|[_ H]]%lookup_insert_Some; [done|].
      by eapply Hauth.
  - destruct (Hc ltac:(lia)) as (-> & -> & _). injection Hserve as <- <-.
    match goal with |- context [hang_up ?c] => destruct (Hclosed c) as [-> ->] end;
      [apply send_error_handshaken|]. split; [destruct Hs; by split|].
    cbn [count set_registry srv_sessions]. lia.
  - injection Hserve as <- <-.
    match goal with |- context [hang_up ?c] => destruct (Hclosed c) as [-> ->] end;
      [apply send_error_handshaken|]. split; [destruct Hs; by split|]. cbn [count srv_sessions]. lia.
Qed.

Lemma serve_request_sessions srv cn f srv' cn' :
  serve_request srv cn f = Ok (srv', cn') ->
  srv_sessions srv' = srv_sessions srv /\ handshaken cn' = handshaken cn /\
  cn_handshake cn' = cn_handshake cn.
Proof.
  assert (Hs : forall bytes, handshaken (send_all cn bytes).2 = handshaken cn /\
                             cn_handshake (send_all cn bytes).2 = cn_handshake cn).
  { intros. pose proof (send_all_steady cn bytes) as H. cbv zeta in H. destruct_and! H.
    unfold handshaken. by repeat match goal with E : _ = _ |- _ => rewrite E; clear E end. }
  assert (Hr : forall A type (e : A -> list Z) r,
            cn_handshake (respond srv cn type e r) = cn_handshake cn).
  { intros. pose proof (respond_steady srv cn type e r) as H. cbv zeta in H. by destruct_and! H. }
  unfold serve_request, reject_request, send_error, send_frame.
  destruct (FrameType.of_u16 _); try (intros [= <- <-]; apply (conj eq_refl), Hs).
  - destruct (decode_plan_request_payload _ _); [|intros [= <- <-]; apply (conj eq_refl), Hs].
    destruct (returned _) as [[r s]|]; cbn [rbind]; [|done]. intros [= <- <-].
    by rewrite respond_handshaken, Hr.
  - destruct (decode_validate_request_payload _ _) as [[q p]|];
      [|intros [= <- <-]; apply (conj eq_refl), Hs].
    destruct (returned _) as [[r s]|]; cbn [rbind]; [|done]. intros [= <- <-].
    by rewrite respond_handshaken, Hr.
  - by intros [= <- <-].
Qed.

Lemma serve_frame_share srv cn f srv' cn' held n :
  serve_frame srv cn f = Ok (srv', cn') -> Share srv held (handshaken cn) ->
  rg_next_id (srv_sessions srv) + greeting cn <= n -> n <= UINT64_MAX ->
  Share srv' held (handshaken cn') /\ rg_next_id (srv_sessions srv') + greeting cn' <= n.
Proof.
  unfold serve_frame. destruct (cn_handshake cn) eqn:Hh; cbn [negb].
  2:{ intros [= H] Hs Hn Hmax. apply (serve_hello_share _ _ _ _ _ held n) in H; [exact H|done| |exact Hn|done].
      unfold handshaken in Hs. rewrite Hh in Hs. destruct Hs. by split. }
  intros Hserve [Hi Hd Hf Ha] Hn Hmax. unfold greeting in *. rewrite Hh in Hn.
  pose proof (accept_refines (srv_sessions srv) (fh_session (frame_header f))
    (fh_epoch (frame_header f)) (fh_boot (frame_header f)) (fh_sequence (frame_header f)) Hi) as Hacc.
  assert (Hnext : forall res reg, session_accept (srv_sessions srv) (fh_session (frame_header f))
    (fh_epoch (frame_header f)) (fh_boot (frame_header f)) (fh_sequence (frame_header f)) = (res, reg) ->
    rg_next_id reg = rg_next_id (srv_sessions srv)).
  { intros res reg. unfold session_accept. destruct (find_index _ _); [|by intros [= _ <-]].
    destruct (negb _); [by intros [= _ <-]|]. by destruct (_ <=? _); intros [= _ <-]. }
  unfold count in Hserve at 1 2 3 4. cbn [srv_sessions] in Hserve.
  destruct (session_accept _ _ _ _ _) as [res reg]. destruct Hacc as [Hi' Hacc].
  specialize (Hnext _ _ eq_refl).
  assert (Hshare : forall srv1, srv_sessions srv1 = reg -> srv_epoch srv1 = srv_epoch srv ->
            srv_boot srv1 = srv_boot srv -> Share srv1 held (handshaken cn)).
  { intros srv1 E1 E2 E3. unfold accept_spec in Hacc.
    destruct (live (srv_sessions srv) !! fh_session (frame_header f)) as [[[e b] last]|] eqn:Hl.
    - destruct (negb _); [|destruct (_ <=? _)]; injection Hacc as -> Hlive;
        split; rewrite ?E1, ?E2, ?E3, ?Hlive; try done.
      + rewrite dom_insert_L, Hd. apply elem_of_dom_2 in Hl. rewrite Hd in Hl. set_solver.
      + intros id e' b' last'. rewrite lookup_insert_Some. intros [[<- [= <- <- <-]]|[_ H]];
          [by eapply Ha|by eapply Ha].
    - injection Hacc as -> Hlive. split; rewrite ?E1, ?E2, ?E3, ?Hlive; done. }
  destruct res as [u|s].
  - pose proof Hserve as Hst. apply serve_request_steady in Hst as [_ _ He Hb _ _ _].
    apply serve_request_sessions in Hserve as (E1 & E2 & E3).
    cbn [set_registry srv_sessions count srv_epoch srv_boot] in *. rewrite E2, E3, E1, Hh, Hnext.
    split; [by apply Hshare|lia].
  - injection Hserve as <- <-. cbn [hang_up cn_handshake count set_registry srv_sessions].
    match goal with |- context [hang_up ?c] => change (handshaken (hang_up c)) with (handshaken c);
      assert (Hc : cn_handshake c = cn_handshake cn) end.
    { unfold send_error, send_frame, send_all. by destruct (cn_writable cn). }
    rewrite send_error_handshaken. rewrite Hc, Hh, Hnext. split; [by apply Hshare|lia].
Qed.

Lemma pump_share fuel : forall srv cn srv' cn' held n,
  pump fuel srv cn = Ok (srv', cn') -> Share srv held (handshaken cn) ->
  rg_next_id (srv_sessions srv) + greeting cn <= n -> n <= UINT64_MAX ->
  Share srv' held (handshaken cn') /\ rg_next_id (srv_sessions srv') + greeting cn' <= n.
Proof.
  induction fuel as [|fuel IH]; intros srv cn srv' cn' held n Hp Hs Hn Hmax; [done|].
  assert (Hrej : forall m text, reject_frame srv cn m text = (srv', cn') ->
    Share srv' held (handshaken cn') /\ rg_next_id (srv_sessions srv') + greeting cn' <= n).
  { intros m text [= <- <-]. unfold greeting in *. cbn [count srv_sessions hang_up cn_handshake].
    match goal with |- context [hang_up ?c] => change (handshaken (hang_up c)) with (handshaken c);
      assert (Hc : cn_handshake c = cn_handshake cn) end.
    { unfold send_error, send_frame, send_all. by destruct (cn_writable cn). }
    rewrite send_error_handshaken, Hc. split; [destruct Hs; by split|done]. }
  cbn [pump] in Hp. destruct (_ || _).
  { injection Hp as <- <-. by split. }
  destruct (inspect _ _) as [| |m text]; [by injection Hp as <- <-| |].
  2:{ apply (Hrej m text). congruence. }
  destruct (decode_frame _ _) as [[f k]|s].
  2:{ apply (Hrej (map_status s) (status_message s)). congruence. }
  destruct (serve_frame _ _ f) as [[srv1 cn1]|] eqn:Hserve; cbn [rbind] in Hp; [|done].
  eapply serve_frame_share in Hserve as [Hs1 Hn1]; [|done..]. by eapply IH.
Qed.

Lemma settle_share srv cn srv' cn' held :
  settle (srv, cn) = (srv', cn') -> Share srv held (handshaken cn) ->
  Share srv' held (session_of cn') /\ rg_next_id (srv_sessions srv') = rg_next_id (srv_sessions srv) /\
  cn' = cn.
Proof.
  unfold settle, end_connection, session_of, handshaken. intros H [Hi Hd Hf Ha].
  destruct (cn_open cn) eqn:Ho; [injection H as <- <-; rewrite Ho; by split_and!|].
  destruct (cn_handshake cn) eqn:Hh; injection H as <- <-; rewrite Ho; cbn [andb]; [|by split_and!].
  pose proof (release_refines (srv_sessions srv) (cn_session cn) Hi) as Hr.
  assert (Hn : rg_next_id (session_release (srv_sessions srv) (cn_session cn)).2 =
               rg_next_id (srv_sessions srv)).
  { unfold session_release. by destruct (find_index _ _). }
  destruct (session_release _ _) as [res reg]. destruct Hr as (Hi' & Hl & _).
  split; [|done]. split; cbn [set_registry srv_sessions srv_epoch srv_boot snd].
  - done.
  - rewrite Hl, dom_delete_L, Hd. specialize (Hf (cn_session cn)). set_solver.
  - intros id []%not_elem_of_nil.
  - intros id e b last. rewrite Hl. intros [_ H]%lookup_delete_Some. by eapply Ha.
Qed.

Lemma receive_share srv cn chunk srv' cn' held n :
  receive srv cn chunk = Ok (srv', cn') -> Share srv held (session_of cn) ->
  rg_next_id (srv_sessions srv) + greeting cn <= n -> n <= UINT64_MAX ->
  Share srv' held (session_of cn') /\ rg_next_id (srv_sessions srv') + greeting cn' <= n.
Proof.
  unfold receive. intros Hr Hs Hn Hmax. destruct (cn_open cn) eqn:Ho; cbn [negb] in Hr.
  2:{ by injection Hr as <- <-. }
  assert (Hs' : Share srv held (handshaken cn)) by (unfold session_of in Hs; by rewrite Ho in Hs).
  assert (Hend : forall srv1 cn1, Share srv1 held (handshaken cn1) ->
    rg_next_id (srv_sessions srv1) + greeting cn1 <= n -> settle (srv1, cn1) = (srv', cn') ->
    Share srv' held (session_of cn') /\ rg_next_id (srv_sessions srv') + greeting cn' <= n).
  { intros srv1 cn1 H1 H2 H3. apply (settle_share _ _ _ _ held) in H3 as (? & -> & ->); done. }
  destruct chunk as [|x chunk]; cbn [rbind] in Hr.
  - apply (Hend srv (hang_up cn)); [done|done|congruence].
  - destruct (_ <? _); cbn [rbind] in Hr.
    + apply (Hend (count (count srv count_bad_frame) count_sticky)
               (hang_up (set_buffer cn (cn_buffer cn ++ x :: chunk))));
        [destruct Hs'; by split|done|congruence].
    + destruct (pump _ _ _) as [[srv1 cn1]|] eqn:Hp; cbn [rbind] in Hr; [|done].
      eapply pump_share in Hp as [H1 H2]; [|done..]. by apply (Hend srv1 cn1); [..|congruence].
Qed.

Record NetInv (net : Net S) : Prop := {
  net_share : Share (net_server net) (list_to_set (sessions (net_connections net))) [];
  net_once : NoDup (sessions (net_connections net));
  net_ids : rg_next_id (srv_sessions (net_server net)) + greetings (net_connections net) <=
            1 + sizez (net_connections net)
}.

Lemma sessions_app l1 l2 : sessions (l1 ++ l2) = sessions l1 ++ sessions l2.
Proof. unfold sessions. by rewrite map_app, concat_app. Qed.

Lemma greetings_app l1 l2 : greetings (l1 ++ l2) = greetings l1 + greetings l2.
Proof.
  induction l1 as [|cn l1 IH]; [done|].
  change (greetings ((cn :: l1) ++ l2)) with (greeting cn + greetings (l1 ++ l2)).
  change (greetings (cn :: l1)) with (greeting cn + greetings l1). rewrite IH. lia.
Qed.

Lemma greetings_nonneg l : 0 <= greetings l.
Proof.
  induction l as [|cn l IH]; [done|]. change (greetings (cn :: l)) with (greeting cn + greetings l).
  assert (0 <= greeting cn) by (unfold greeting; destruct (cn_handshake cn); lia). lia.
Qed.

(** Moving a connection's sessions between the two sides. *)
Lemma share_split srv pre cn post :
  Share srv (list_to_set (sessions (pre ++ cn :: post))) [] ->
  NoDup (sessions (pre ++ cn :: post)) ->
  Share srv (list_to_set (sessions (pre ++ post))) (session_of cn) /\ NoDup (sessions (pre ++ post)).
Proof.
  rewrite !sessions_app. change (sessions (cn :: post)) with (session_of cn ++ sessions post).
  intros [Hi Hd _ Ha] Hnd. split.
  - split; [done| | |done].
    + rewrite Hd. rewrite !list_to_set_app_L. set_solver.
    + intros id Hid. rewrite elem_of_list_to_set, elem_of_app.
      rewrite Permutation_app_swap_app in Hnd. apply NoDup_app in Hnd as (_ & Hnd & _).
      intros Hin. apply (Hnd id Hid). by apply elem_of_app.
  - rewrite Permutation_app_swap_app in Hnd. by apply NoDup_app in Hnd as (_ & _ & ?).
Qed.

Lemma share_join srv pre cn post :
  Share srv (list_to_set (sessions (pre ++ post))) (session_of cn) -> NoDup (sessions (pre ++ post)) ->
  Share srv (list_to_set (sessions (pre ++ cn :: post))) [] /\ NoDup (sessions (pre ++ cn :: post)).
Proof.
  rewrite !sessions_app. change (sessions (cn :: post)) with (session_of cn ++ sessions post).
  intros [Hi Hd Hf Ha] Hnd. split.
  - split; [done| |set_solver|done]. rewrite Hd, !list_to_set_app_L. set_solver.
  - rewrite Permutation_app_swap_app. apply NoDup_app. split_and!; [| |done].
    + unfold session_of. destruct (_ && _); [apply NoDup_singleton|constructor].
    + intros id Hid Hin. apply (Hf id Hid). by apply elem_of_list_to_set.
Qed.

Lemma net_step_inv net net' :
  net_step net net' -> sizez (net_connections net') < UINT64_MAX -> NetInv net -> NetInv net'.
Proof.
  assert (Hsrv : forall srv srv' conns, srv_sessions srv' = srv_sessions srv ->
            srv_epoch srv' = srv_epoch srv -> srv_boot srv' = srv_boot srv ->
            NetInv (mkNet srv conns) -> NetInv (mkNet srv' conns)).
  { intros srv srv' conns E1 E2 E3 [[Hi Hd Hf Ha] Hnd Hn]. cbn [net_server net_connections] in *.
    split; cbn [net_server net_connections]; [split; by rewrite ?E1, ?E2, ?E3|done|by rewrite E1]. }
  assert (Haccept : forall srv srv' o out, accept srv = (srv', o, out) ->
            srv_sessions srv' = srv_sessions srv /\ srv_epoch srv' = srv_epoch srv /\
            srv_boot srv' = srv_boot srv /\ (forall cn, o = Some cn -> cn = new_connection)).
  { intros srv srv' o out. unfold accept.
    destruct (srv_stopping srv); [|destruct (_ <=? _)]; intros [= <- <- _];
      split_and!; (done || intros cn [= <-]; done). }
  intros [? ? Hev|srv conns sv] Hlen Hinv; [|by apply (Hsrv srv)].
  destruct Hev as [srv conns srv' cn out Hacc|srv conns srv' out Hacc|srv pre cn post chunk srv' cn' Hr
         |srv pre cn post w u|srv conns].
  - apply Haccept in Hacc as (E1 & E2 & E3 & Hcn). specialize (Hcn _ eq_refl) as ->.
    apply (Hsrv srv); [done..|]. destruct Hinv as [Hs Hnd Hn]. cbn [net_server net_connections] in *.
    split; cbn [net_server net_connections].
    + rewrite sessions_app. simpl. by rewrite app_nil_r.
    + rewrite sessions_app. simpl. by rewrite app_nil_r.
    + rewrite greetings_app. unfold sizez in *. rewrite length_app.
      change (greetings [new_connection]) with 1. change (length [new_connection]) with 1%nat. lia.
  - apply Haccept in Hacc as (E1 & E2 & E3 & _). by apply (Hsrv srv).
  - destruct Hinv as [Hs Hnd Hn]. cbn [net_server net_connections] in *.
    destruct (share_split _ _ _ _ Hs Hnd) as [Hs1 Hnd1].
    rewrite greetings_app in Hn. change (greetings (cn :: post)) with (greeting cn + greetings post) in Hn.
    assert (Hl : sizez (pre ++ cn' :: post) = sizez (pre ++ cn :: post))
      by (unfold sizez; by rewrite !length_app).
    pose proof (greetings_nonneg pre). pose proof (greetings_nonneg post).
    set (n := 1 + sizez (pre ++ cn :: post) - greetings pre - greetings post).
    assert (Hle : rg_next_id (srv_sessions srv) + greeting cn <= n) by (unfold n; lia).
    assert (Hmax : n <= UINT64_MAX) by (unfold n; lia).
    destruct (receive_share srv cn chunk srv' cn' _ n Hr Hs1 Hle Hmax) as [Hs2 Hn2]. unfold n in Hn2.
    destruct (share_join _ _ _ _ Hs2 Hnd1) as [Hs3 Hnd3].
    split; cbn [net_server net_connections]; [done..|].
    rewrite Hl, greetings_app. change (greetings (cn' :: post)) with (greeting cn' + greetings post). lia.
  - destruct Hinv as [Hs Hnd Hn]. cbn [net_server net_connections] in *.
    split; cbn [net_server net_connections].
    + rewrite sessions_app in *. exact Hs.
    + rewrite sessions_app in *. exact Hnd.
    + rewrite greetings_app in *. unfold sizez in *. rewrite length_app in *. exact Hn.
  - by apply (Hsrv srv).
Qed.

Lemma net_step_grows net net' :
  net_step net net' -> sizez (net_connections net) <= sizez (net_connections net').
Proof. unfold sizez. intros [? ? []|]; cbn [net_connections]; rewrite ?length_app; simpl; lia. Qed.

Lemma net_reachable net net' :
  rtc net_step net net' -> sizez (net_connections net') < UINT64_MAX -> NetInv net -> NetInv net'.
Proof.
  intros Hrtc Hlen. revert Hlen. induction Hrtc as [net|net1 net2 net3 Hstep Hrtc IH]; [done|].
  intros Hlen Hinv. apply IH; [done|]. apply (net_step_inv net1); [done| |done].
  assert (sizez (net_connections net2) <= sizez (net_connections net3)); [|lia].
  clear -Hrtc. induction Hrtc as [|a b c Hab _ IH]; [done|]. apply net_step_grows in Hab. lia.
Qed.
End Net.

(** ** The handshake *)

(** The frame a client opens with. *)
Definition hello_frame (nonce : Z) : Frame := sent_frame FrameType.HELLO 0 0 0 1 (encode_hello nonce 1).

Lemma encode_hello_u8 nonce : Forall in_u8 (encode_hello nonce 1).
Proof. unfold encode_hello. encoder_bytes. Qed.

Lemma hello_frame_fits limits nonce :
  in_u32 (max_payload_bytes limits) -> 12 <= max_payload_bytes limits ->
  frame_fits limits (hello_frame nonce).
Proof.
  intros Hu H12. apply sent_frame_fits; try done; try (unfold in_u64; lia). apply encode_hello_u8.
Qed.

Section Handshake.
Context {S : Type} `{!Backend S}.

(** The connection after its greeting was answered. *)
Definition greeted (srv : Server S) (session : SessionId) (unread : list Z) : Connection :=
  mkConnection true true
    (unread ++ encode_frame FrameType.HELLO_ACK session (srv_epoch srv) (srv_boot srv) 1
                 (encode_hello_ack (mkHelloAck session (srv_epoch srv) (srv_boot srv) 1 2)))
    [] session 2 true.

Lemma serve_greeting (srv : Server S) nonce r reg :
  in_u64 nonce -> nonce <> 0 ->
  session_create (srv_sessions srv) (srv_epoch srv) (srv_boot srv) nonce = (Ok r, reg) ->
  serve_frame srv new_connection (hello_frame nonce) =
    Ok (set_registry (count srv count_frame) reg, greeted srv (sr_id r) []).
Proof.
  intros Hn H0 Hc. unfold serve_frame, serve_hello. cbn [new_connection cn_handshake negb].
  change (FrameType.of_u16 (fh_type (frame_header (hello_frame nonce)))) with FrameType.HELLO.
  rewrite bool_decide_true by done. cbn [negb].
  change (frame_payload (hello_frame nonce)) with (encode_hello nonce 1).
  rewrite decode_hello_encode by (done || (unfold in_u32; lia)).
  cbn [count srv_sessions srv_epoch srv_boot]. rewrite Hc. reflexivity.
Qed.

(** A connection, accepted and greeted, whatever chunks the greeting came in. *)
Lemma greeting_received (srv : Server S) nonce r reg chunks :
  in_u32 (max_payload_bytes (srv_limits srv)) -> 12 <= max_payload_bytes (srv_limits srv) ->
  srv_stopping srv = false -> in_u64 nonce -> nonce <> 0 ->
  session_create (srv_sessions srv) (srv_epoch srv) (srv_boot srv) nonce = (Ok r, reg) ->
  Forall (fun c => c <> []) chunks -> concat chunks = frame_bytes (hello_frame nonce) ->
  receive_all srv new_connection chunks =
    Ok (set_registry (count srv count_frame) reg, greeted srv (sr_id r) []).
Proof.
  intros Hu H12 Hs Hn H0 Hc Hne Hcat.
  pose proof (deliver_frame srv new_connection (hello_frame nonce) chunks Hu Hs eq_refl eq_refl
                (hello_frame_fits _ nonce Hu H12) Hne Hcat) as H.
  rewrite (serve_greeting srv nonce r reg Hn H0 Hc) in H. cbn [rbind settle greeted cn_open] in H.
  destruct (receive_all _ _ _) as [[srv' cn']|e]; cbn [rbind] in H; [|discriminate].
  apply forget_served in H; [by rewrite H|done].
Qed.
End Handshake.

(** ** What the server promises *)

(** C19: the server acts on the frames of a stream, not on its chunks. However the
    network cuts a stream of legal frames into chunks, as long as no chunk makes
    the receive buffer exceed its bound, the server and the connection end up as
    if every frame had been handed to [serve_frame] on its own, in order, up to
    the one that ends the connection; no byte of a partial frame is lost,
    duplicated or taken for another frame. *)
Theorem stream_is_frames {S} `{!Backend S} (srv : Server S) cn fs chunks :
  in_u32 (max_payload_bytes (srv_limits srv)) -> srv_stopping srv = false ->
  cn_open cn = true -> cn_buffer cn = [] ->
  Forall (frame_fits (srv_limits srv)) fs -> Forall (fun c => c <> []) chunks ->
  concat chunks = concat (map frame_bytes fs) ->
  roomy (buffer_bound (srv_limits srv)) 0 (map frame_size fs) chunks = true ->
  (let* r := receive_all srv cn chunks in Ok (forget r)) = serve_all srv cn fs.
Proof.
  intros Hu Hs Ho Hb Hfs Hne Hc Hroom.
  rewrite (receive_stream (srv_limits srv) Hu chunks srv cn fs) by (rewrite ?Hb; done).
  replace (set_buffer cn []) with cn by (rewrite <- Hb; by destruct cn).
  destruct (serve_all srv cn fs) as [r|e] eqn:Hr; cbn [rbind]; [|done].
  f_equal. by eapply serve_all_holding.
Qed.

(** C25: the receive loop ends on every input. Whatever bytes arrive, handling them
    comes to an end (unless the process dies in a call of the service); then
    the connection either is over, or waits for the rest of a frame and holds no
    more than the bound allows. *)
Theorem receive_total {S} `{!Backend S} (srv : Server S) cn chunk :
  in_u32 (max_payload_bytes (srv_limits srv)) -> Forall in_u8 (cn_buffer cn ++ chunk) ->
  sizez (cn_buffer cn) <= buffer_bound (srv_limits srv) ->
  match receive srv cn chunk with
  | Ok (srv', cn') => cn_open cn' = true ->
      inspect (srv_limits srv) (cn_buffer cn') = Partial /\
      sizez (cn_buffer cn') <= buffer_bound (srv_limits srv)
  | Err e => e = ProcessDied
  end.
Proof.
  intros Hu Hb Hz. unfold receive. destruct (cn_open cn) eqn:Ho; cbn [negb].
  2:{ intros Hopen. congruence. }
  destruct chunk as [|x chunk]; cbn [rbind].
  { pose proof (settle_open (srv, hang_up cn)) as Hopen. destruct (settle _) as [srv' cn'].
    cbn [snd hang_up cn_open] in Hopen. congruence. }
  destruct (Z.ltb_spec (max_payload_bytes (srv_limits srv) + 4 * kFrameHeaderSize)
              (sizez (cn_buffer (set_buffer cn (cn_buffer cn ++ x :: chunk))))) as [|Hle]; cbn [rbind].
  { pose proof (settle_open (count (count srv count_bad_frame) count_sticky,
      hang_up (set_buffer cn (cn_buffer cn ++ x :: chunk)))) as Hopen. destruct (settle _) as [srv' cn'].
    cbn [snd hang_up cn_open] in Hopen. congruence. }
  pose proof (pump_total (pump_fuel (set_buffer cn (cn_buffer cn ++ x :: chunk))) srv
                (set_buffer cn (cn_buffer cn ++ x :: chunk)) Hu Hb ltac:(unfold pump_fuel; lia)) as Hp.
  destruct (pump _ _ _) as [[srv1 cn1]|e]; cbn [rbind]; [|done].
  pose proof (settle_open (srv1, cn1)) as Hso. pose proof (settle_conn (srv1, cn1)) as Hsc.
  destruct (settle _) as [srv' cn']. cbn [snd] in *. subst cn'. intros Ho1.
  destruct (Hp Ho1) as [Hi [done Hd]]. split; [done|]. cbn [set_buffer cn_buffer] in *.
  unfold buffer_bound. rewrite Hd in Hle. unfold sizez in *. rewrite length_app in Hle. lia.
Qed.

Lemma session_listed (conns : list Connection) i cn :
  conns !! i = Some cn -> cn_open cn = true -> cn_handshake cn = true ->
  cn_session cn ∈ sessions conns.
Proof.
  intros Hi Ho Hh. apply list_elem_of_lookup_2 in Hi. unfold sessions.
  apply list_elem_of_In, in_concat. exists (session_of cn). split.
  - by apply in_map, list_elem_of_In.
  - unfold session_of. rewrite Ho, Hh. by left.
Qed.

Lemma listed_session (conns : list Connection) id :
  id ∈ sessions conns -> exists i cn, conns !! i = Some cn /\ cn_open cn = true /\
    cn_handshake cn = true /\ cn_session cn = id.
Proof.
  unfold sessions. intros (l & Hl & Hid)%list_elem_of_In%in_concat.
  apply in_map_iff in Hl as (cn & <- & Hcn).
  apply list_elem_of_In, list_elem_of_lookup_1 in Hcn as [i Hi].
  unfold session_of in Hid. destruct (cn_open cn) eqn:Ho, (cn_handshake cn) eqn:Hh; cbn [andb] in Hid;
    try by destruct Hid.
  destruct Hid as [<-|[]]. by exists i, cn.
Qed.

Lemma start_inv {S} `{!Backend S} (service : S) epoch boot max_sessions :
  in_u32 max_sessions -> NetInv (mkNet (server_start service epoch boot max_sessions) []).
Proof.
  intros Hm. split; cbn [net_server net_connections]; [|constructor|done].
  split; cbn [server_start srv_sessions].
  - apply new_registry_inv. destruct (Z.eqb_spec max_sessions 0); [unfold in_u32; lia|done].
  - reflexivity.
  - intros id []%not_elem_of_nil.
  - intros id e b last Hl. exfalso. revert Hl. unfold live. simpl. by rewrite lookup_empty.
Qed.

(** C20: sessions and connections correspond. In every state the server can reach,
    through any interleaving of connections, chunks, peers that go away and other
    callers of the service, the live sessions are exactly the sessions of the open
    connections that have shaken hands, one each, under the server's epoch and
    boot identity: none leaks when a connection ends, and none is shared. *)
Theorem sessions_follow_connections {S} `{!Backend S} (service : S) epoch boot max_sessions net :
  in_u32 max_sessions -> sizez (net_connections net) < UINT64_MAX ->
  rtc net_step (mkNet (server_start service epoch boot max_sessions) []) net ->
  let srv := net_server net in
  let conns := net_connections net in
  (forall id e b last, live (srv_sessions srv) !! id = Some (e, b, last) ->
     e = srv_epoch srv /\ b = srv_boot srv /\
     exists i cn, conns !! i = Some cn /\ cn_open cn = true /\ cn_handshake cn = true /\
       cn_session cn = id) /\
  (forall i cn, conns !! i = Some cn -> cn_open cn = true -> cn_handshake cn = true ->
     is_Some (live (srv_sessions srv) !! cn_session cn)) /\
  (forall i j cn cn', conns !! i = Some cn -> conns !! j = Some cn' ->
     cn_open cn = true -> cn_handshake cn = true -> cn_open cn' = true -> cn_handshake cn' = true ->
     cn_session cn = cn_session cn' -> i = j) /\
  session_size (srv_sessions srv) = sizez (sessions conns).
Proof.
  intros Hm Hlen Hrtc srv conns. apply net_reachable in Hrtc as [[Hi Hd _ Ha] Hnd _];
    [|done|by apply start_inv]. fold srv conns in Hi, Hd, Ha, Hnd.
  simpl in Hd. rewrite union_empty_r_L in Hd. split_and!.
  - intros id e b last Hl. destruct (Ha _ _ _ _ Hl) as [-> ->]. split_and!; [done..|].
    apply listed_session. apply elem_of_dom_2 in Hl. rewrite Hd in Hl. by apply elem_of_list_to_set in Hl.
  - intros i cn Hcn Ho Hh. apply elem_of_dom. rewrite Hd. apply elem_of_list_to_set.
    by eapply session_listed.
  - intros i j cn cn' Hcn Hcn' Ho Hh Ho' Hh' Heq. destruct (decide (i = j)) as [|Hne]; [done|exfalso].
    assert (Hsplit : conns = take i conns ++ cn :: drop (Datatypes.S i) conns) by (by rewrite take_drop_middle).
    rewrite Hsplit, sessions_app in Hnd. change (sessions (cn :: ?l)) with (session_of cn ++ sessions l) in Hnd.
    rewrite Permutation_app_swap_app in Hnd. apply NoDup_app in Hnd as (_ & Hnd & _).
    apply (Hnd (cn_session cn)).
    { unfold session_of. rewrite Ho, Hh. by constructor. }
    rewrite Heq, <- sessions_app. apply (session_listed _ (if decide (j < i)%nat then j else j - 1)); [|done..].
    assert (Hlt : (i < length conns)%nat) by by eapply lookup_lt_Some.
    destruct (decide (j < i)%nat).
    + rewrite lookup_app_l by (rewrite length_take; lia). by rewrite lookup_take_lt by lia.
    + rewrite lookup_app_r by (rewrite length_take; lia). rewrite length_take, lookup_drop.
      rewrite <- Hcn'. f_equal. lia.
  - rewrite session_size_live by done. unfold sizez. f_equal. rewrite <- size_dom, Hd.
    by rewrite size_list_to_set.
Qed.

Lemma serve_frame_refused {S} `{!Backend S} (srv : Server S) cn f last :
  SessionInv (srv_sessions srv) -> cn_handshake cn = true ->
  live (srv_sessions srv) !! fh_session (frame_header f) = Some (srv_epoch srv, srv_boot srv, last) ->
  fh_sequence (frame_header f) <= last ->
  exists srv' cn', serve_frame srv cn f = Ok (srv', cn') /\ cn_open cn' = false.
Proof.
  intros Hi Hh Hl Hle. unfold serve_frame. rewrite Hh. cbn [negb count srv_sessions].
  pose proof (accept_refines (srv_sessions srv) (fh_session (frame_header f))
    (fh_epoch (frame_header f)) (fh_boot (frame_header f)) (fh_sequence (frame_header f)) Hi) as Hacc.
  destruct (session_accept _ _ _ _ _) as [[u|s] reg]; [exfalso|by eexists _, _].
  destruct Hacc as [_ Hacc]. unfold accept_spec in Hacc. rewrite Hl in Hacc.
  destruct (negb _); [discriminate|]. destruct (Z.leb_spec (fh_sequence (frame_header f)) last);
    [discriminate|lia].
Qed.

(** A connection can act under the session of another one. A frame is checked
    against the session it names, never against the session of the connection it
    arrives on: a client with a session of its own that names another live session
    is answered, and uses up that session's sequence numbers; the next frame of
    the session's own client, legal until then, is refused and its connection
    closed. *)
Theorem foreign_session_accepted {S} `{!Backend S} (srv : Server S) cn victim last f g :
  SessionInv (srv_sessions srv) ->
  cn_open cn = true -> cn_handshake cn = true -> cn_handshake victim = true ->
  cn_session cn <> cn_session victim ->
  live (srv_sessions srv) !! cn_session victim = Some (srv_epoch srv, srv_boot srv, last) ->
  let own h := fh_session h = cn_session victim /\ fh_epoch h = srv_epoch srv /\
               fh_boot h = srv_boot srv /\ last < fh_sequence h in
  own (frame_header f) -> own (frame_header g) ->
  fh_type (frame_header f) = FrameType.to_u16 FrameType.STATUS_REQUEST ->
  fh_sequence (frame_header g) <= fh_sequence (frame_header f) ->
  exists srv1 cn1, serve_frame srv cn f = Ok (srv1, cn1) /\ cn_open cn1 = true /\
    cn_session cn1 = cn_session cn /\
    live (srv_sessions srv1) !! cn_session victim =
      Some (srv_epoch srv, srv_boot srv, fh_sequence (frame_header f)) /\
    exists srv2 victim2, serve_frame srv1 victim g = Ok (srv2, victim2) /\ cn_open victim2 = false.
Proof.
  intros Hi Ho Hh Hv Hne Hl own (Fs & Fe & Fb & Fq) (Gs & Ge & Gb & Gq) Ht Hle.
  pose proof (accept_refines (srv_sessions srv) (fh_session (frame_header f))
    (fh_epoch (frame_header f)) (fh_boot (frame_header f)) (fh_sequence (frame_header f)) Hi) as Hacc.
  unfold serve_frame at 1. rewrite Hh. cbn [negb count srv_sessions].
  destruct (session_accept _ _ _ _ _) as [res reg]. destruct Hacc as [Hi' Hacc].
  unfold accept_spec in Hacc. rewrite Fs, Hl, Fe, Fb, !Z.eqb_refl in Hacc. cbn [andb negb] in Hacc.
  destruct (Z.leb_spec (fh_sequence (frame_header f)) last); [lia|].
  injection Hacc as -> Hlive. unfold serve_request. rewrite Ht.
  change (FrameType.of_u16 (FrameType.to_u16 FrameType.STATUS_REQUEST)) with FrameType.STATUS_REQUEST.
  cbv iota. unfold send_frame.
  match goal with |- context [send_all cn ?b] => pose proof (send_all_steady cn b) as Hs end.
  cbv zeta in Hs. destruct_and! Hs. eexists _, _. split; [reflexivity|].
  cbn [next_server_sequence cn_open cn_session set_registry count srv_sessions].
  split; [congruence|]. split; [done|]. rewrite Hlive. split; [by rewrite lookup_insert_eq|].
  eapply serve_frame_refused; cbn [set_registry count srv_sessions srv_epoch srv_boot]; try done.
  rewrite Hlive, Gs. apply lookup_insert_eq.
Qed.

(** ** A concrete server *)

(** The service without a store, nobody else calling it. *)
Definition plain_config : ServiceConfig :=
  mkConfig default_model_limits default_protocol_limits default_store_limits 1 4 4 CrashPoint.NONE false.
Definition plain_service : Service :=
  mkService plain_config None (mkDisk None None) 1 1 0 [] false zero_service_stats ∅ [] [].

#[export] Instance plain_backend : Backend Service := service_backend io_ok.

Definition plain_server : Server Service := server_start plain_service 1 1 4.

Lemma plain_limits : in_u32 (max_payload_bytes (srv_limits plain_server)).
Proof. exact protocol_limits_ok. Qed.

(** A greeting and a farewell behind it, cut inside the first header. *)
Lemma stream_is_frames_witness :
  let fs := [hello_frame 77; sent_frame FrameType.BYE 1 1 1 1 []] in
  let stream := concat (map frame_bytes fs) in
  (let* r := receive_all plain_server new_connection [take 30 stream; drop 30 stream] in
   Ok (forget r)) = serve_all plain_server new_connection fs.
Proof.
  intros fs stream.
  apply (stream_is_frames plain_server new_connection fs _ plain_limits eq_refl eq_refl eq_refl).
  - apply Forall_cons. split; [apply hello_frame_fits; [exact plain_limits|vm_compute; discriminate]|].
    apply Forall_cons. split; [|apply Forall_nil; exact I].
    apply sent_frame_fits; [exact plain_limits|discriminate|unfold in_u64; lia|unfold in_u64; lia|
      unfold in_u64; lia|unfold in_u64; lia|constructor|vm_compute; discriminate].
  - repeat constructor; discriminate.
  - cbn [concat]. rewrite app_nil_r. apply take_drop.
  - reflexivity.
Defined.

(** Garbage. *)
Lemma receive_total_witness :
  match receive plain_server new_connection [1; 2; 3] with
  | Ok (_, cn) => cn_open cn = true -> sizez (cn_buffer cn) <= buffer_bound default_protocol_limits
  | Err e => e = ProcessDied
  end.
Proof.
  assert (Hb : Forall in_u8 (cn_buffer new_connection ++ [1; 2; 3])) by concrete_bytes.
  assert (Hz : sizez (cn_buffer new_connection) <= buffer_bound (srv_limits plain_server))
    by (vm_compute; discriminate).
  pose proof (receive_total plain_server new_connection [1; 2; 3] plain_limits Hb Hz) as H.
  destruct (receive _ _ _) as [[srv cn]|e]; [intros Ho; exact (proj2 (H Ho))|exact H].
Defined.

Lemma receive_all_one {S} `{!Backend S} (srv : Server S) cn chunk :
  receive_all srv cn [chunk] = receive srv cn chunk.
Proof. cbn [receive_all]. by destruct (receive srv cn chunk) as [[srv' cn']|e]. Qed.

(** One client connected and greeted. *)
Definition first_session : SessionRecord * SessionRegistry :=
  (opened 1 1 1 77, mkRegistry [opened 1 1 1 77] 4 1 2).

Definition greeted_server : Server Service :=
  set_registry (count (count plain_server count_connection) count_frame) (first_session.2).

Lemma greeting_chunk :
  receive (count plain_server count_connection) new_connection (frame_bytes (hello_frame 77)) =
  Ok (greeted_server, greeted plain_server 1 []).
Proof.
  rewrite <- receive_all_one.
  apply (greeting_received (count plain_server count_connection) 77 (opened 1 1 1 77)
           (mkRegistry [opened 1 1 1 77] 4 1 2)).
  - exact plain_limits.
  - vm_compute. discriminate.
  - reflexivity.
  - unfold in_u64. lia.
  - discriminate.
  - reflexivity.
  - apply Forall_singleton. discriminate.
  - cbn [concat]. by rewrite app_nil_r.
Qed.

Lemma sessions_follow_connections_witness :
  exists net, rtc net_step (mkNet plain_server []) net /\
    net_connections net = [greeted plain_server 1 []] /\
    is_Some (live (srv_sessions (net_server net)) !! 1) /\
    session_size (srv_sessions (net_server net)) = 1.
Proof.
  set (net := mkNet greeted_server [greeted plain_server 1 []]).
  assert (Hrtc : rtc net_step (mkNet plain_server []) net).
  { eapply rtc_l; [by apply net_happens, (net_accept plain_server [] (count plain_server count_connection) new_connection [])|].
    apply rtc_once, net_happens. apply (net_receive _ [] new_connection [] (frame_bytes (hello_frame 77))).
    exact greeting_chunk. }
  exists net. split; [exact Hrtc|]. split; [reflexivity|].
  destruct (sessions_follow_connections plain_service 1 1 4 net) as (_ & Hlive & _ & Hsize).
  - unfold in_u32; lia.
  - reflexivity.
  - exact Hrtc.
  - split; [|exact Hsize].
    exact (Hlive 0%nat (greeted plain_server 1 []) eq_refl eq_refl eq_refl).
Defined.

(** Two clients; the second one names the session of the first. *)
Definition two_sessions : SessionRegistry :=
  (session_create (session_create (new_registry 4) 1 1 77).2 1 1 78).2.

Lemma two_sessions_inv : SessionInv two_sessions.
Proof.
  assert (H0 : SessionInv (new_registry 4)) by (apply new_registry_inv; unfold in_u32; lia).
  pose proof (create_spec (new_registry 4) 1 1 77 H0 eq_refl) as H1.
  destruct (session_create (new_registry 4) 1 1 77) as [[r1|s1] reg1] eqn:E1; [|done].
  destruct H1 as (_ & Hn & H1 & _). pose proof (create_spec reg1 1 1 78 H1) as H2.
  unfold two_sessions. rewrite E1. cbn [snd]. cbn in E1. injection E1 as _ <-. apply H2. done.
Qed.

Definition status_frame (session sequence : Z) : Frame :=
  sent_frame FrameType.STATUS_REQUEST session 1 1 sequence [].

Lemma foreign_session_accepted_witness :
  let srv := set_registry plain_server two_sessions in
  exists srv1 cn1,
    serve_frame srv (greeted srv 2 []) (status_frame 1 9) = Ok (srv1, cn1) /\ cn_open cn1 = true /\
    exists srv2 victim, serve_frame srv1 (greeted srv 1 []) (status_frame 1 1) = Ok (srv2, victim) /\
      cn_open victim = false.
Proof.
  intros srv.
  destruct (foreign_session_accepted srv (greeted srv 2 []) (greeted srv 1 []) 0
              (status_frame 1 9) (status_frame 1 1)) as (srv1 & cn1 & H1 & Ho & _ & _ & Hv).
  - exact two_sessions_inv.
  - reflexivity.
  - reflexivity.
  - reflexivity.
  - discriminate.
  - reflexivity.
  - repeat split; reflexivity.
  - repeat split; reflexivity.
  - reflexivity.
  - discriminate.
  - exists srv1, cn1. split; [exact H1|]. split; [exact Ho|exact Hv].
Defined.
