(* ===== verification/ClientCorrect.v ===== *)
(** * A remote call is a local call

    A client connected to the server gets from [plan], [validate] and [ping] what
    the planning service answers, however the network cuts the bytes: framing,
    session table, payload codecs and sequence numbers of both sides fit
    together. *)
From S2P Require Import Prelude Ids Canonical Model Objective Domain DefinitionCheck Plan Fixture.
From S2P Require Import Codec Crc32 Journal Store Planner Validate Protocol ProtocolCorrect.
From S2P Require Import Session Service ServiceCorrect Server ServerCorrect Client.

(** ** Reading one frame *)

Section Reading.
Context (limits : ProtocolLimits) (Hlimits : in_u32 (max_payload_bytes limits)).

Lemma recv_exact_app n eof a rest :
  n = sizez a -> recv_exact n eof (a ++ rest) = Some (false, a, rest).
Proof.
  intros ->. unfold recv_exact, sizez. rewrite length_app.
  destruct (Z.leb_spec (Z.of_nat (length a)) (Z.of_nat (length a + length rest))); [|lia].
  by rewrite Nat2Z.id, take_app_length, drop_app_length.
Qed.

(** The client takes exactly the frame from its stream. *)
Lemma read_frame_sent f eof rest : frame_fits limits f ->
  read_frame_bytes limits eof (frame_bytes f ++ rest) = Some (Ok (frame_bytes f), rest).
Proof.
  intros Hf. unfold read_frame_bytes, frame_bytes. rewrite <- app_assoc, recv_exact_app by done.
  cbn [mbind option_bind]. pose proof (decode_header_encode limits f [] Hlimits Hf) as Hd.
  rewrite app_nil_r in Hd. rewrite Hd, (ff_length _ _ Hf). pose proof (ff_bound _ _ Hf).
  destruct (Z.ltb_spec (max_payload_bytes limits) (sizez (frame_payload f))); [lia|].
  destruct (Z.ltb_spec 0 (sizez (frame_payload f))) as [|Hz].
  - rewrite recv_exact_app by done. done.
  - assert (frame_payload f = []) as ->; [|by rewrite app_nil_r].
    destruct (frame_payload f); [done|unfold sizez in Hz; simpl in Hz; lia].
Qed.

Lemma decode_frame_sent f : frame_fits limits f ->
  decode_frame limits (frame_bytes f) = Ok (f, kFrameHeaderSize + sizez (frame_payload f)).
Proof. intros Hf. rewrite <- (app_nil_r (frame_bytes f)). by apply decode_frame_bytes. Qed.
End Reading.

Lemma decode_error_encode e : error_fits e -> decode_error_payload (encode_error_payload e) = Ok e.
Proof.
  intros He. refine (proj2 (decode_all_iff decode_error_body _ e _) (conj He eq_refl)).
  unfold encode_error_payload. encoder_bytes.
Qed.

(** What crosses the wire is bytes. *)
Lemma w_option_bytes {A} (w : A -> list Z) x :
  (forall a, Forall in_u8 (w a)) -> Forall in_u8 (w_option w x).
Proof. intros Hw. unfold w_option. destruct x; [apply Forall_app_2; [apply w_boolean_bytes|apply Hw]|apply w_boolean_bytes]. Qed.

Lemma encode_digested_plan_bytes p : Forall in_u8 (encode_digested_plan p).
Proof. unfold encode_digested_plan, encode_digest. apply Forall_app_2; [apply encode_plan_bytes|encoder_bytes]. Qed.

Lemma encode_plan_response_bytes r : Forall in_u8 (encode_plan_response_payload r).
Proof.
  unfold encode_plan_response_payload.
  repeat (apply Forall_app_2; [solve [encoder_bytes |
    apply w_option_bytes, encode_digested_plan_bytes |
    apply w_option_bytes; intros c; unfold encode_certificate, encode_digest, encode_explanation, encode_subject; encoder_bytes |
    unfold encode_stats; encoder_bytes |
    unfold encode_subject, encode_explanation; encoder_bytes]|]).
  unfold encode_digest. encoder_bytes.
Qed.

Lemma encode_validate_response_bytes r : Forall in_u8 (encode_validate_response_payload r).
Proof.
  unfold encode_validate_response_payload, encode_objective, encode_digest, encode_finding, encode_subject.
  encoder_bytes. apply concat_bytes. intros ?. apply w_u64_bytes.
Qed.

Lemma encode_validate_request_bytes q p : Forall in_u8 (encode_validate_request_payload q p).
Proof.
  unfold encode_validate_request_payload. apply Forall_app_2;
    [apply encode_request_bytes|apply encode_digested_plan_bytes].
Qed.

(** ** What a connected client sees *)

(** A refusal of the service, as [read_response] reports it. *)
Definition server_error (s : Status) : Status :=
  mkStatus StatusCode.STATE_MISMATCH
    ("server error " +:+ ErrorCode.to_string (map_code (map_status s)) +:+ " (" +:+
     ReasonCode.to_string (map_reason (map_status s)) +:+ "): " +:+ status_message s).

Definition remote {A} (r : result Status A) : result Status A :=
  match r with Ok a => Ok a | Err s => Err (server_error s) end.

Definition error_of (s : Status) : ErrorPayload :=
  mkErrorPayload (map_code (map_status s)) (map_reason (map_status s)) (status_message s).

(** An answer the client can read. *)
Definition answer_fits {A} (limits : ProtocolLimits) (encode : A -> list Z) (fits : A -> Prop)
  (r : result Status A) : Prop :=
  match r with
  | Ok a => fits a /\ sizez (encode a) <= max_payload_bytes limits
  | Err s => error_fits (error_of s) /\ sizez (encode_error_payload (error_of s)) <= max_payload_bytes limits
  end.

Section Calls.
Context {S : Type} `{!Backend S}.
Implicit Types (srv : Server S) (cn : Connection) (cl : Client) (link : Link S).

(** Both sides of a conversation between two requests. *)
Record linked link : Prop := {
  linked_open : cn_open (lk_connection link) = true;
  linked_writable : cn_writable (lk_connection link) = true;
  linked_buffer : cn_buffer (lk_connection link) = [];
  linked_unread : cn_unread (lk_connection link) = [];
  linked_greeted : cn_handshake (lk_connection link) = true;
  linked_running : srv_stopping (lk_server link) = false;
  linked_server_limits : in_u32 (max_payload_bytes (srv_limits (lk_server link)));
  linked_client_limits : in_u32 (max_payload_bytes (cl_limits (lk_client link)));
  linked_session : cl_session (lk_client link) = cn_session (lk_connection link);
  linked_epoch : cl_epoch (lk_client link) = srv_epoch (lk_server link);
  linked_boot : cl_boot (lk_client link) = srv_boot (lk_server link);
  linked_ids : in_u64 (cn_session (lk_connection link)) /\ in_u64 (srv_epoch (lk_server link)) /\
    in_u64 (srv_boot (lk_server link));
  linked_ready : cl_handshake (lk_client link) = true /\ cl_closed (lk_client link) = false;
  linked_sequence : 0 <= cl_server_sequence (lk_client link) <= cn_server_sequence (lk_connection link);
  linked_inv : SessionInv (srv_sessions (lk_server link));
  linked_live : exists last, live (srv_sessions (lk_server link)) !! cn_session (lk_connection link) =
      Some (srv_epoch (lk_server link), srv_boot (lk_server link), last) /\
    0 <= last < cl_sequence (lk_client link)
}.

(** Sequence numbers left for one more request. *)
Definition has_room link : Prop :=
  cl_sequence (lk_client link) < UINT64_MAX /\ cn_server_sequence (lk_connection link) < UINT64_MAX.

(** The response [respond] sends. *)
Definition answer_frame {A} srv cn (type : FrameType.t) (encode : A -> list Z) (r : result Status A)
  : Frame :=
  match r with
  | Ok a => sent_frame type (cn_session cn) (srv_epoch srv) (srv_boot srv) (response_sequence cn) (encode a)
  | Err s => sent_frame FrameType.ERROR_FRAME (cn_session cn) (srv_epoch srv) (srv_boot srv)
               (response_sequence cn) (encode_error_payload (error_of s))
  end.

Lemma respond_sends {A} srv cn type (encode : A -> list Z) r :
  cn_writable cn = true ->
  respond srv cn type encode r =
    next_server_sequence (set_unread cn (cn_unread cn ++ frame_bytes (answer_frame srv cn type encode r))).
Proof.
  intros Hw. unfold respond, send_error, send_frame, send_all. rewrite Hw. by destruct r.
Qed.

Lemma answer_frame_fits {A} limits srv cn type (encode : A -> list Z) fits r :
  in_u32 (max_payload_bytes limits) -> type <> FrameType.COUNT ->
  in_u64 (cn_session cn) -> in_u64 (srv_epoch srv) -> in_u64 (srv_boot srv) ->
  in_u64 (response_sequence cn) -> (forall a, Forall in_u8 (encode a)) ->
  answer_fits limits encode fits r -> frame_fits limits (answer_frame srv cn type encode r).
Proof.
  intros Hu Ht Hs He Hb Hq Hbytes Hr. destruct r as [a|s]; destruct Hr as [_ Hz];
    apply sent_frame_fits; try done.
  unfold encode_error_payload. encoder_bytes.
Qed.

(** The client's checks pass on the response of its own connection. *)
Lemma check_answer {A} srv cn cl type (encode : A -> list Z) fits r :
  in_u32 (max_payload_bytes (cl_limits cl)) ->
  frame_fits (cl_limits cl) (answer_frame srv cn type encode r) ->
  answer_fits (cl_limits cl) encode fits r -> type <> FrameType.ERROR_FRAME ->
  FrameType.of_u16 (FrameType.to_u16 type) = type ->
  cl_session cl = cn_session cn -> cl_epoch cl = srv_epoch srv -> cl_boot cl = srv_boot srv ->
  cl_server_sequence cl < response_sequence cn ->
  check_response cl type (frame_bytes (answer_frame srv cn type encode r)) =
    (match r with Ok a => Ok (encode a) | Err s => Err (server_error s) end,
     set_server_sequence cl (response_sequence cn)).
Proof.
  intros Hu Hf Hr Hte Hty Hs He Hb Hq. unfold check_response. rewrite decode_frame_sent by done.
  destruct r as [a|s]; cbn [answer_frame sent_frame frame_header frame_payload new_header fh_session
    fh_epoch fh_boot fh_sequence fh_type]; rewrite Hs, He, Hb, !Z.eqb_refl; cbn [andb negb];
    (destruct (Z.leb_spec (response_sequence cn) (cl_server_sequence cl)); [lia|]).
  - rewrite Hty, bool_decide_false, bool_decide_true by done. done.
  - change (FrameType.of_u16 (FrameType.to_u16 FrameType.ERROR_FRAME)) with FrameType.ERROR_FRAME.
    rewrite bool_decide_true by done. destruct Hr as [Hr _]. by rewrite decode_error_encode.
Qed.

(** The session table lets the client's next frame pass. *)
Lemma accept_own link :
  linked link ->
  let srv := lk_server link in
  let n := cl_sequence (lk_client link) in
  exists reg, session_accept (srv_sessions srv) (cn_session (lk_connection link)) (srv_epoch srv)
                (srv_boot srv) n = (Ok tt, reg) /\
    SessionInv reg /\
    live reg !! cn_session (lk_connection link) = Some (srv_epoch srv, srv_boot srv, n).
Proof.
  intros Hl srv n. destruct (linked_live _ Hl) as (last & Hlast & Hlt).
  pose proof (accept_refines (srv_sessions srv) (cn_session (lk_connection link)) (srv_epoch srv)
                (srv_boot srv) n (linked_inv _ Hl)) as Hacc.
  destruct (session_accept _ _ _ _ _) as [res reg]. destruct Hacc as [Hi Hacc].
  unfold accept_spec in Hacc. fold srv in Hlast. rewrite Hlast, !Z.eqb_refl in Hacc. cbn [andb negb] in Hacc.
  destruct (Z.leb_spec n last); [unfold n in *; lia|]. injection Hacc as -> Hlive.
  exists reg. split_and!; [done|done|]. rewrite Hlive. by rewrite lookup_insert_eq.
Qed.

Context (cut : list Z -> list (list Z)).
Context (Hcut : forall bytes, concat (cut bytes) = bytes /\ Forall (fun c => c <> []) (cut bytes)).

(** A request of the client reaches [serve_request], and what that sends reaches
    the client. *)
Lemma exchange_served link type expected payload reg srv' cn' :
  linked link -> has_room link -> type <> FrameType.COUNT -> Forall in_u8 payload ->
  sizez payload <= max_payload_bytes (srv_limits (lk_server link)) ->
  let srv := lk_server link in
  let cn := lk_connection link in
  let cl := lk_client link in
  session_accept (srv_sessions srv) (cn_session cn) (srv_epoch srv) (srv_boot srv)
    (cl_sequence cl) = (Ok tt, reg) ->
  serve_request (set_registry (count srv count_frame) reg) cn
    (sent_frame type (cn_session cn) (srv_epoch srv) (srv_boot srv) (cl_sequence cl) payload) =
    Ok (srv', cn') ->
  cn_open cn' = true ->
  exchange cut link type expected payload =
    read_link (mkLink srv' cn' (set_client_sequence cl (u64 (cl_sequence cl + 1)))) expected.
Proof.
  intros Hl [Hroom _] Ht Hp Hz srv cn cl Hacc Hserve Hopen.
  destruct (linked_ready _ Hl) as [Hr Hc]. destruct (linked_ids _ Hl) as (Hi1 & Hi2 & Hi3).
  destruct (linked_live _ Hl) as (last & _ & Hlast).
  unfold exchange, send_request. rewrite Hr, Hc. cbn [negb].
  rewrite (linked_session _ Hl), (linked_epoch _ Hl), (linked_boot _ Hl), sent_frame_bytes.
  fold srv cn cl. set (f := sent_frame _ _ _ _ _ _) in *.
  destruct (Hcut (frame_bytes f)) as [Hcat Hne].
  assert (Hf : frame_fits (srv_limits srv) f).
  { apply sent_frame_fits; try done; [apply (linked_server_limits _ Hl)|].
    unfold in_u64, UINT64_MAX in *. fold cl in Hlast, Hroom. lia. }
  pose proof (deliver_frame srv cn f (cut (frame_bytes f)) (linked_server_limits _ Hl)
    (linked_running _ Hl) (linked_open _ Hl) (linked_buffer _ Hl) Hf Hne Hcat) as Hd.
  assert (Hsf : serve_frame srv cn f = Ok (srv', cn')).
  { unfold serve_frame. replace (cn_handshake cn) with true by (symmetry; apply (linked_greeted _ Hl)).
    cbn [negb count srv_sessions].
    change (fh_session (frame_header f)) with (cn_session cn).
    change (fh_epoch (frame_header f)) with (srv_epoch srv).
    change (fh_boot (frame_header f)) with (srv_boot srv).
    change (fh_sequence (frame_header f)) with (cl_sequence cl). by rewrite Hacc. }
  rewrite Hsf in Hd. cbn [rbind] in Hd. rewrite settle_same in Hd by done.
  unfold transmit. fold srv cn. destruct (receive_all srv cn _) as [r|e]; cbn [rbind] in Hd; [|discriminate].
  apply forget_served in Hd as ->; [|done]. done.
Qed.

Lemma response_sequence_next cn :
  0 <= cn_server_sequence cn < UINT64_MAX -> response_sequence cn = cn_server_sequence cn + 1.
Proof.
  intros H. unfold response_sequence. apply u64_small. unfold in_u64, UINT64_MAX in *. lia.
Qed.

(** A request that the service answers. *)
Lemma exchange_answered {A} link type expected payload reg s (encode : A -> list Z) fits r :
  linked link -> has_room link -> type <> FrameType.COUNT -> Forall in_u8 payload ->
  sizez payload <= max_payload_bytes (srv_limits (lk_server link)) ->
  let srv := lk_server link in
  let cn := lk_connection link in
  let cl := lk_client link in
  SessionInv reg ->
  live reg !! cn_session cn = Some (srv_epoch srv, srv_boot srv, cl_sequence cl) ->
  session_accept (srv_sessions srv) (cn_session cn) (srv_epoch srv) (srv_boot srv)
    (cl_sequence cl) = (Ok tt, reg) ->
  let srv1 := set_registry (count srv count_frame) reg in
  serve_request srv1 cn
    (sent_frame type (cn_session cn) (srv_epoch srv) (srv_boot srv) (cl_sequence cl) payload) =
    Ok (replace_service srv1 s, respond srv1 cn expected encode r) ->
  expected <> FrameType.COUNT -> expected <> FrameType.ERROR_FRAME ->
  FrameType.of_u16 (FrameType.to_u16 expected) = expected ->
  (forall a, Forall in_u8 (encode a)) -> answer_fits (cl_limits cl) encode fits r ->
  exists link', exchange cut link type expected payload =
      Ok (match r with Ok a => Ok (encode a) | Err st => Err (server_error st) end, link') /\
    linked link' /\ srv_service (lk_server link') = s /\ cl_limits (lk_client link') = cl_limits cl.
Proof.
  intros Hl Hroom Ht Hp Hz srv cn cl Hi Hlive Hacc srv1 Hserve He1 He2 He3 Hbytes Hr.
  pose proof (linked_writable _ Hl) as Hw. fold cn in Hw. rewrite respond_sends in Hserve by done.
  pose proof Hroom as [Hroom1 Hroom2]. pose proof (linked_sequence _ Hl) as Hseq. fold cl cn in Hseq, Hroom2.
  destruct (linked_ids _ Hl) as (Hi1 & Hi2 & Hi3).
  pose proof (response_sequence_next cn ltac:(lia)) as Hnext.
  rewrite (exchange_served link type expected payload reg _ _ Hl Hroom Ht Hp Hz Hacc Hserve)
    by apply (linked_open _ Hl).
  assert (Hf : frame_fits (cl_limits cl) (answer_frame srv1 cn expected encode r)).
  { eapply answer_frame_fits; try done; [apply (linked_client_limits _ Hl)|].
    rewrite Hnext. unfold in_u64, UINT64_MAX in *. lia. }
  unfold read_link, read_response. cbn [lk_client lk_connection lk_server].
  change (cn_unread (next_server_sequence (set_unread cn ?b))) with b.
  change (cl_limits (set_client_sequence cl ?n)) with (cl_limits cl).
  replace (cn_unread cn) with (@nil Z) by (symmetry; apply (linked_unread _ Hl)). rewrite app_nil_l.
  rewrite <- (app_nil_r (frame_bytes (answer_frame srv1 cn expected encode r))).
  rewrite (read_frame_sent (cl_limits cl) (linked_client_limits _ Hl)) by done.
  cbn [mbind option_bind].
  assert (Hlt : cl_server_sequence cl < response_sequence cn) by lia. fold cl.
  rewrite (check_answer srv1 cn (set_client_sequence cl (u64 (cl_sequence cl + 1))) expected encode fits r
             (linked_client_limits _ Hl) Hf Hr He2 He3 (linked_session _ Hl) (linked_epoch _ Hl)
             (linked_boot _ Hl) Hlt).
  eexists. split; [reflexivity|]. split; [|done].
  split; cbn [lk_connection lk_client lk_server set_unread next_server_sequence set_server_sequence
    set_client_sequence replace_service set_registry count cn_open cn_writable cn_buffer cn_unread
    cn_handshake cn_session cn_server_sequence cl_limits cl_session cl_epoch cl_boot cl_handshake
    cl_closed cl_server_sequence cl_sequence srv_stopping srv_limits srv_epoch srv_boot srv_sessions];
    try apply Hl; try done.
  - rewrite Hnext, u64_small by (unfold in_u64, UINT64_MAX in *; lia). lia.
  - exists (cl_sequence cl). split; [exact Hlive|].
    destruct (linked_live _ Hl) as (last & _ & Hlast). fold cl in Hlast, Hroom1.
    rewrite u64_small by (unfold in_u64, UINT64_MAX in *; lia). lia.
Qed.
End Calls.

(** ** Calls *)

Section Remote.
Context {S : Type} `{!Backend S}.
Context (cut : list Z -> list (list Z)).
Context (Hcut : forall bytes, concat (cut bytes) = bytes /\ Forall (fun c => c <> []) (cut bytes)).

(** A request the server's protocol accepts. *)
Definition servable (limits : ProtocolLimits) (q : PlanRequest) : Prop :=
  request_fits (limits_model limits) q /\
  fst (validate_definition (req_definition q) (limits_model limits) (new_log 16)) = Ok tt /\
  sizez (actions (req_definition q)) <= max_records_per_message limits /\
  sizez (encode_request q) <= max_payload_bytes limits.

Lemma servable_decodes limits q :
  servable limits q -> decode_plan_request_payload (encode_request q) limits = Ok q.
Proof.
  intros (Hf & Hv & Ha & _). unfold decode_plan_request_payload.
  rewrite (proj2 (decode_all_iff (decode_plan_request_body (limits_model limits)) (encode_request q) q
             (encode_request_bytes q)) (conj Hf eq_refl)).
  cbn [rbind]. rewrite Hv. cbn [rbind].
  destruct (Z.ltb_spec (max_records_per_message limits) (sizez (actions (req_definition q)))); [lia|done].
Qed.

Lemma plan_call (link : Link S) q r s :
  linked link -> has_room link -> servable (srv_limits (lk_server link)) q ->
  be_plan q (srv_service (lk_server link)) = Some (r, s) ->
  answer_fits (cl_limits (lk_client link)) encode_plan_response_payload
    (result_fits (limits_model (cl_limits (lk_client link)))) r ->
  exists link', client_plan cut link q = Ok (remote r, link') /\ linked link' /\
    srv_service (lk_server link') = s.
Proof.
  intros Hl Hroom Hq Hbe Hr. destruct (accept_own link Hl) as (reg & Hacc & Hi & Hlive).
  destruct (exchange_answered cut Hcut link FrameType.PLAN_REQUEST FrameType.PLAN_RESPONSE
    (encode_request q) reg s encode_plan_response_payload
    (result_fits (limits_model (cl_limits (lk_client link)))) r Hl Hroom) as (link' & He & Hl' & Hs & Hc);
    try done.
  - apply encode_request_bytes.
  - apply Hq.
  - unfold serve_request.
    change (FrameType.of_u16 (fh_type (frame_header (sent_frame FrameType.PLAN_REQUEST _ _ _ _ _))))
      with FrameType.PLAN_REQUEST. cbv iota.
    change (frame_payload (sent_frame _ _ _ _ _ ?p)) with p.
    cbn [set_registry count srv_limits srv_service]. rewrite servable_decodes by done.
    rewrite Hbe. reflexivity.
  - apply encode_plan_response_bytes.
  - exists link'. split; [|done]. unfold client_plan. rewrite He. cbn [rbind]. rewrite Hc.
    destruct r as [a|st]; cbn [rbind remote]; [|done]. destruct Hr as [Hr _].
    unfold decode_plan_response_payload.
    rewrite (proj2 (decode_all_iff (decode_plan_response_body (limits_model (cl_limits (lk_client link))))
      (encode_plan_response_payload a) a (encode_plan_response_bytes a)) (conj Hr eq_refl)). done.
Qed.

Lemma validate_call (link : Link S) q p r s :
  linked link -> has_room link -> request_fits (limits_model (srv_limits (lk_server link))) q ->
  digested_plan_fits (limits_model (srv_limits (lk_server link))) p ->
  sizez (encode_validate_request_payload q p) <= max_payload_bytes (srv_limits (lk_server link)) ->
  be_validate q p (srv_service (lk_server link)) = Some (r, s) ->
  answer_fits (cl_limits (lk_client link)) encode_validate_response_payload report_fits r ->
  exists link', client_validate cut link q p = Ok (remote r, link') /\ linked link' /\
    srv_service (lk_server link') = s.
Proof.
  intros Hl Hroom Hq Hp Hz Hbe Hr. destruct (accept_own link Hl) as (reg & Hacc & Hi & Hlive).
  destruct (exchange_answered cut Hcut link FrameType.VALIDATE_REQUEST FrameType.VALIDATE_RESPONSE
    (encode_validate_request_payload q p) reg s encode_validate_response_payload report_fits r Hl Hroom)
    as (link' & He & Hl' & Hs & Hc); try done.
  - apply encode_validate_request_bytes.
  - unfold serve_request.
    change (FrameType.of_u16 (fh_type (frame_header (sent_frame FrameType.VALIDATE_REQUEST _ _ _ _ _))))
      with FrameType.VALIDATE_REQUEST. cbv iota.
    change (frame_payload (sent_frame _ _ _ _ _ ?b)) with b.
    cbn [set_registry count srv_limits srv_service]. unfold decode_validate_request_payload.
    rewrite (proj2 (decode_all_iff (decode_validate_request_body (limits_model (srv_limits (lk_server link))))
      (encode_validate_request_payload q p) (q, p) (encode_validate_request_bytes q p))
      (conj (conj Hq Hp) eq_refl)).
    rewrite Hbe. reflexivity.
  - apply encode_validate_response_bytes.
  - exists link'. split; [|done]. unfold client_validate. rewrite He. cbn [rbind].
    destruct r as [a|st]; cbn [rbind remote]; [|done]. destruct Hr as [Hr _].
    unfold decode_validate_response_payload.
    rewrite (proj2 (decode_all_iff decode_validate_response_body
      (encode_validate_response_payload a) a (encode_validate_response_bytes a)) (conj Hr eq_refl)). done.
Qed.

Lemma ping_call (link : Link S) :
  linked link -> has_room link -> 0 <= max_payload_bytes (srv_limits (lk_server link)) ->
  48 <= max_payload_bytes (cl_limits (lk_client link)) ->
  exists link', client_ping cut link = Ok (Ok tt, link') /\ linked link' /\
    srv_service (lk_server link') = srv_service (lk_server link).
Proof.
  intros Hl Hroom H0 H48. destruct (accept_own link Hl) as (reg & Hacc & Hi & Hlive).
  set (srv1 := set_registry (count (lk_server link) count_frame) reg).
  destruct (exchange_answered cut Hcut link FrameType.STATUS_REQUEST FrameType.STATUS_RESPONSE
    [] reg (srv_service (lk_server link)) (fun _ : unit => status_payload srv1) (fun _ => True) (Ok tt)
    Hl Hroom) as (link' & He & Hl' & Hs & Hc); try done.
  - intros _. unfold status_payload, encode_status_response_payload. encoder_bytes.
  - exists link'. split; [|done]. unfold client_ping. by rewrite He.
Qed.

(** ** Connecting *)

Lemma hello_bytes_frame nonce : hello_bytes nonce = frame_bytes (hello_frame nonce).
Proof. unfold hello_bytes, hello_frame. exact (sent_frame_bytes _ _ _ _ _ _). Qed.

Lemma connect_call (srv : Server S) limits nonce r reg :
  in_u32 (max_payload_bytes (srv_limits srv)) -> 12 <= max_payload_bytes (srv_limits srv) ->
  in_u32 (max_payload_bytes limits) -> 40 <= max_payload_bytes limits ->
  srv_stopping srv = false -> in_u64 nonce -> nonce <> 0 ->
  in_u64 (srv_epoch srv) -> in_u64 (srv_boot srv) ->
  SessionInv (srv_sessions srv) -> rg_next_id (srv_sessions srv) < UINT64_MAX ->
  session_create (srv_sessions srv) (srv_epoch srv) (srv_boot srv) nonce = (Ok r, reg) ->
  exists link, client_connect cut srv limits nonce = Ok (Ok link, lk_server link) /\ linked link /\
    has_room link /\ srv_service (lk_server link) = srv_service srv /\
    srv_limits (lk_server link) = srv_limits srv /\ cl_limits (lk_client link) = limits.
Proof.
  intros Hu H12 Hul H40 Hrun Hn H0 He Hb Hi Hnext Hc. destruct (Hcut (frame_bytes (hello_frame nonce))) as [Hcat Hne].
  pose proof (greeting_received srv nonce r reg _ Hu H12 Hrun Hn H0 Hc Hne Hcat) as Hrec.
  pose proof (create_spec _ (srv_epoch srv) (srv_boot srv) nonce Hi Hnext) as Hspec.
  rewrite Hc in Hspec. destruct Hspec as (-> & Hnext' & Hi' & _ & Hlive). cbn [opened sr_id] in *.
  pose proof (session_next _ Hi) as Hpos. set (id := rg_next_id (srv_sessions srv)) in *.
  assert (Hid : in_u64 id) by (unfold in_u64, UINT64_MAX in *; lia).
  set (ack := mkHelloAck id (srv_epoch srv) (srv_boot srv) 1 2).
  set (f := sent_frame FrameType.HELLO_ACK id (srv_epoch srv) (srv_boot srv) 1 (encode_hello_ack ack)).
  assert (Hf : frame_fits limits f).
  { apply sent_frame_fits; try done. unfold encode_hello_ack. encoder_bytes. }
  assert (Hack : accept_ack (fresh_client limits) (frame_bytes f) =
    Ok (mkClient limits id (srv_epoch srv) (srv_boot srv) 1 0 true false)).
  { unfold accept_ack. cbn [fresh_client cl_limits]. rewrite decode_frame_sent by done. cbn [rbind].
    change (FrameType.of_u16 (fh_type (frame_header f))) with FrameType.HELLO_ACK.
    rewrite bool_decide_true by done. cbn [negb].
    change (frame_payload f) with (encode_hello_ack ack).
    rewrite decode_hello_ack_encode by (done || (cbn; unfold in_u64; lia)). done. }
  unfold client_connect, transmit. cbn [lk_server lk_connection].
  rewrite hello_bytes_frame, Hrec. cbn [rbind lk_connection].
  assert (Hur : cn_unread (greeted srv id []) = frame_bytes f)
    by (unfold greeted, f; cbn [cn_unread]; rewrite <- sent_frame_bytes; reflexivity).
  rewrite Hur, <- (app_nil_r (frame_bytes f)), (read_frame_sent limits Hul) by done. cbn [rbind].
  rewrite Hack. cbn [rbind lk_server].
  exists (mkLink (set_registry (count srv count_frame) reg) (set_unread (greeted srv id []) [])
    (mkClient limits id (srv_epoch srv) (srv_boot srv) 1 0 true false)). split; [reflexivity|].
  split; [|split; [split; reflexivity|split_and!; reflexivity]].
  split; [reflexivity|reflexivity|reflexivity|reflexivity|reflexivity|exact Hrun|exact Hu|exact Hul
         |reflexivity|reflexivity|reflexivity|exact (conj Hid (conj He Hb))|split; reflexivity
         |split; discriminate|exact Hi'|].
  exists 0. split; [|split; [discriminate|reflexivity]].
  cbn [lk_server lk_connection set_registry srv_sessions set_unread greeted cn_session]. rewrite Hlive.
  apply lookup_insert_eq.
Qed.
End Remote.

(** ** The service itself behind the server *)

Definition same_slots (sv sv' : Service) : Prop :=
  sv_slots sv' = sv_slots sv /\ sv_config sv' = sv_config sv.

Lemma append_durable_slots io type payload sv :
  same_slots sv (append_durable io type payload sv).2.
Proof.
  unfold append_durable. destruct (sv_store sv) as [st|]; [|done].
  by destruct (append _ _ _ _ _ _) as [[[u|s] st'] d].
Qed.

Lemma begin_plan_slots io q sv res sv' :
  begin_plan io q sv = Returned (res, sv') -> same_slots sv sv'.
Proof.
  unfold begin_plan. destruct (negb _); [by intros [= _ <-]|].
  pose proof (append_durable_slots io RecordType.ATTEMPT (attempt_payload q) sv) as H.
  destruct (sv_store sv), (cfg_crash_point (sv_config sv));
    try (by destruct (append _ _ _ _ _ _) as [[? ?] ?]);
    destruct (append_durable _ _ _ _) as [[u|s0] sv1]; by intros [= _ <-].
Qed.

Lemma commit_plan_slots io r sv res sv' :
  commit_plan io r sv = Returned (res, sv') -> same_slots sv sv'.
Proof.
  unfold commit_plan. destruct (outcome_record r) as [type payload].
  pose proof (append_durable_slots io type payload sv) as H.
  destruct (append_durable _ _ _ _) as [[u|s] sv1]; [|by intros [= _ <-]].
  by destruct (cfg_crash_point (sv_config sv1)); intros [= _ <-].
Qed.

Lemma run_job_S fuel io sv w :
  run_job (S fuel) io sv w =
    match worker_step io sv w with
    | Some (Returned (Idle, sv)) => Some sv
    | Some (Returned (w, sv)) => run_job fuel io sv w
    | _ => None
    end.
Proof. done. Qed.

Lemma run_job_more fuel io sv w sv' :
  run_job 1 io sv w = Some sv' -> run_job (S fuel) io sv w = Some sv'.
Proof. rewrite !run_job_S. by destruct (worker_step io sv w) as [[[[] ?]|]|]. Qed.

(** When nobody else uses the service, [plan] is [run_plan] on the queued job. *)
Lemma service_plan_runs io q sv r sv1 :
  sv_stopping sv = false -> sv_queue sv = [] -> 0 < cfg_max_queue_depth (sv_config sv) ->
  cfg_crash_point (sv_config sv) <> CrashPoint.AFTER_PUBLISH_BEFORE_ACK ->
  run_plan io io q (set_queue (submit (CallPlan q) sv).2 [] false) = Some (Returned (r, sv1)) ->
  exists sv', service_call io (CallPlan q) wait_plan sv = Some (Ok r, sv').
Proof.
  intros Hs Hq Hd Hcp. set (id := length (sv_submitted sv)).
  assert (Hsub : exists sv0, submit (CallPlan q) sv = (Ok id, sv0) /\
    sv_queue sv0 = [job_of (CallPlan q) id] /\ sv_stopping sv0 = false /\
    sv_slots sv0 !! id = Some empty_slot /\ sv_config sv0 = sv_config sv).
  { unfold submit, enqueue. rewrite Hs, Hq.
    destruct (Z.leb_spec (cfg_max_queue_depth (sv_config sv)) (sizez (@nil Job))); [unfold sizez in *; simpl in *; lia|].
    eexists. split; [reflexivity|]. split_and!; try reflexivity; try done.
    simpl. apply lookup_insert_eq. }
  destruct Hsub as (sv0 & Hsub & Hq0 & Hs0 & Hslot & Hcfg). unfold service_call. rewrite Hsub.
  cbn [snd]. intros Hrun. rewrite Hq0. cbn [length await].
  unfold wait_plan at 1. rewrite Hslot. cbn [mbind option_bind js_done empty_slot].
  set (svb := set_queue sv0 [] false) in *.
  assert (Hslotb : sv_slots svb !! id = Some empty_slot) by exact Hslot.
  assert (Hcfgb : sv_config svb = sv_config sv) by exact Hcfg.
  assert (Hpub : forall sv2, sv_slots sv2 !! id = Some empty_slot -> sv_config sv2 = sv_config sv ->
    exists sv', run_job 1 io sv2 (Publishing (job_of (CallPlan q) id) r) = Some sv' /\
      wait_plan id sv' = Some (Ok r)).
  { intros sv2 H1 H2. cbn [run_job worker_step].
    change (sv_config (complete _ _ _)) with (sv_config sv2). rewrite H2.
    destruct (cfg_crash_point (sv_config sv)); try congruence; (eexists; split; [reflexivity|]);
      unfold wait_plan; cbn; rewrite lookup_alter_eq, H1; done. }
  set (job := job_of (CallPlan q) id) in *.
  assert (Hidle : worker_step io sv0 Idle = Some (Returned (Busy job, svb))).
  { cbn [worker_step]. by rewrite Hq0, Hs0. }
  rewrite run_job_S, Hidle. clearbody svb.
  unfold run_plan in Hrun.
  destruct (begin_plan io q svb) as [[[u|r0] sv2]|d] eqn:Hb; [| |discriminate];
    pose proof (begin_plan_slots _ _ _ _ _ Hb) as [Hj1 Hj2].
  - destruct (plan _ q) as [r0|] eqn:Hp; [|discriminate]. injection Hrun as Hc.
    pose proof (commit_plan_slots _ _ _ _ _ Hc) as [Hj3 Hj4].
    destruct (Hpub sv1) as (sv' & Hrun & Hwait); [by rewrite Hj3, Hj1|congruence|].
    assert (H1 : worker_step io svb (Busy job) = Some (Returned (Attempted job, sv2)))
      by (simpl; by rewrite Hb).
    assert (H2 : worker_step io sv2 (Attempted job) = Some (Returned (Publishing job r, sv1)))
      by (simpl; by rewrite Hp, Hc).
    rewrite run_job_S, H1, run_job_S, H2, Hrun. cbn [mbind option_bind]. rewrite Hwait.
    by exists sv'.
  - injection Hrun as -> ->. destruct (Hpub sv1) as (sv' & Hrun & Hwait); [by rewrite Hj1|congruence|].
    assert (H1 : worker_step io svb (Busy job) = Some (Returned (Publishing job r, sv1)))
      by (simpl; by rewrite Hb).
    rewrite run_job_S, H1, (run_job_more _ _ _ _ _ Hrun). cbn [mbind option_bind]. rewrite Hwait. by exists sv'.
Qed.

(** ** What a conversation promises *)

(** C13: a remote call is a local call. For every service behind the server and every
    way the network cuts the bytes: connecting, with a nonzero nonce and payload
    bounds that hold the handshake, to a running server whose table has room yields
    a conversation. In a conversation, as long as sequence numbers are
    left, for a request (and a plan) that fits the wire format and the limits of the
    server, and if the service's answer fits the decoder of the client (a report of
    at most 512 findings, for one): [plan] and [validate] return what the service
    answers to the very same request (its refusal as the error the client makes of
    an error frame), the service is called exactly once, and the conversation goes
    on. [ping] succeeds without a call. *)
Theorem remote_calls_are_local {S} `{!Backend S} (cut : list Z -> list (list Z)) :
  (forall bytes, concat (cut bytes) = bytes /\ Forall (fun c => c <> []) (cut bytes)) ->
  (forall (srv : Server S) limits nonce r reg,
     in_u32 (max_payload_bytes (srv_limits srv)) -> 12 <= max_payload_bytes (srv_limits srv) ->
     in_u32 (max_payload_bytes limits) -> 40 <= max_payload_bytes limits ->
     srv_stopping srv = false -> in_u64 nonce -> nonce <> 0 ->
     in_u64 (srv_epoch srv) -> in_u64 (srv_boot srv) ->
     SessionInv (srv_sessions srv) -> rg_next_id (srv_sessions srv) < UINT64_MAX ->
     session_create (srv_sessions srv) (srv_epoch srv) (srv_boot srv) nonce = (Ok r, reg) ->
     exists link, client_connect cut srv limits nonce = Ok (Ok link, lk_server link) /\
       linked link /\ has_room link /\ srv_service (lk_server link) = srv_service srv /\
       srv_limits (lk_server link) = srv_limits srv /\ cl_limits (lk_client link) = limits) /\
  (forall link : Link S, linked link -> has_room link ->
     let service := srv_service (lk_server link) in
     let client_limits := cl_limits (lk_client link) in
     (forall q r s', servable (srv_limits (lk_server link)) q -> be_plan q service = Some (r, s') ->
        answer_fits client_limits encode_plan_response_payload
          (result_fits (limits_model client_limits)) r ->
        exists link', client_plan cut link q = Ok (remote r, link') /\ linked link' /\
          srv_service (lk_server link') = s') /\
     (forall q p r s', request_fits (limits_model (srv_limits (lk_server link))) q ->
        digested_plan_fits (limits_model (srv_limits (lk_server link))) p ->
        sizez (encode_validate_request_payload q p) <= max_payload_bytes (srv_limits (lk_server link)) ->
        be_validate q p service = Some (r, s') ->
        answer_fits client_limits encode_validate_response_payload report_fits r ->
        exists link', client_validate cut link q p = Ok (remote r, link') /\ linked link' /\
          srv_service (lk_server link') = s') /\
     (0 <= max_payload_bytes (srv_limits (lk_server link)) -> 48 <= max_payload_bytes client_limits ->
        exists link', client_ping cut link = Ok (Ok tt, link') /\ linked link' /\
          srv_service (lk_server link') = service)).
Proof.
  intros Hcut. split; [intros; by eapply connect_call|]. intros link Hl Hroom service client_limits.
  split_and!; intros; [by eapply plan_call|by eapply validate_call|by apply ping_call].
Qed.

(** A network that delivers single bytes. *)
Definition bytewise (bytes : list Z) : list (list Z) := map (fun x => [x]) bytes.

Lemma bytewise_cuts bytes :
  concat (bytewise bytes) = bytes /\ Forall (fun c => c <> []) (bytewise bytes).
Proof.
  split; [|apply Forall_fmap, Forall_forall; done].
  induction bytes as [|x bytes IH]; [done|]. simpl. by rewrite IH.
Qed.

Lemma first_request_servable : servable default_protocol_limits first_request.
Proof.
  split.
  { refine (proj1 (proj1 (decode_all_iff (decode_plan_request_body default_model_limits)
      (encode_request first_request) first_request (encode_request_bytes _)) _)).
    vm_compute. reflexivity. }
  split; [vm_compute; reflexivity|]. split; vm_compute; discriminate.
Qed.

(** The plan of the first request, as it crosses the wire. *)
Lemma first_answer :
  exists r, plan default_model_limits first_request = Some r /\ is_Some (pr_plan r) /\
    result_fits default_model_limits r /\
    sizez (encode_plan_response_payload r) <= max_payload_bytes default_protocol_limits.
Proof.
  assert (H : match plan default_model_limits first_request with
    | Some r => decode_plan_response_payload (encode_plan_response_payload r) default_protocol_limits = Ok r /\
        (sizez (encode_plan_response_payload r) <=? max_payload_bytes default_protocol_limits) = true /\
        is_Some (pr_plan r)
    | None => False
    end) by (vm_compute; split; [reflexivity|split; [reflexivity|by eexists]]).
  destruct (plan _ _) as [r|]; [|done]. destruct H as (Hd & Hz & Hp). exists r.
  split; [done|]. split; [done|]. split; [|by apply Z.leb_le].
  exact (proj1 (proj1 (decode_all_iff (decode_plan_response_body default_model_limits) _ r
    (encode_plan_response_bytes r)) Hd)).
Qed.

Lemma plain_service_answers r :
  plan default_model_limits first_request = Some r ->
  exists s', be_plan first_request plain_service = Some (Ok r, s').
Proof.
  intros Hp. destruct (pr_plan r) as [p|] eqn:Hplan;
    (eapply service_plan_runs; [done|done|done|done|]); unfold run_plan;
    set (sv := set_queue _ _ _);
    (assert (Hb : begin_plan io_ok first_request sv = Returned (Ok tt, sv)) by reflexivity);
    rewrite Hb; change (cfg_model_limits (sv_config sv)) with default_model_limits; rewrite Hp;
    unfold commit_plan, outcome_record; rewrite Hplan; reflexivity.
Qed.

(** A client connects and has a recovery planned. *)
Lemma remote_calls_are_local_witness :
  exists link r link',
    client_connect bytewise plain_server default_protocol_limits 77 = Ok (Ok link, lk_server link) /\
    plan default_model_limits first_request = Some r /\ is_Some (pr_plan r) /\
    client_plan bytewise link first_request = Ok (Ok r, link').
Proof.
  destruct first_answer as (r & Hplan & Hp & Hf & Hz).
  destruct (plain_service_answers r Hplan) as [s' Hbe].
  destruct (remote_calls_are_local (S := Service) bytewise bytewise_cuts) as [Hconnect Hcalls].
  destruct (Hconnect plain_server default_protocol_limits 77 (opened 1 1 1 77)
              (mkRegistry [opened 1 1 1 77] 4 1 2)) as (link & Hc & Hl & Hroom & Hs & Hls & Hlc);
    [exact plain_limits|vm_compute; discriminate|exact protocol_limits_ok|vm_compute; discriminate
    |reflexivity|unfold in_u64; lia|discriminate|split; [discriminate|reflexivity]|split; [discriminate|reflexivity]
    |refine (new_registry_inv 4 _); unfold in_u32; lia|reflexivity|reflexivity|].
  destruct (Hcalls link Hl Hroom) as [Hcall _].
  destruct (Hcall first_request (Ok r) s') as (link' & He & _ & _).
  - rewrite Hls. exact first_request_servable.
  - rewrite Hs. exact Hbe.
  - rewrite Hlc. split; [exact Hf|exact Hz].
  - exists link, r, link'. exact (conj Hc (conj Hplan (conj Hp He))).
Defined.
