(* ===== verification/Reference.v ===== *)
(** * The exhaustive reference solver

    Models [src/reference_solver.cpp]: its own lookup tables, its own state and
    evidence handling, the check of one explicit sequence and the enumeration of
    every sequence within the limits. It shares no definition with the planner
    or with the validator beyond the data model. *)
From S2P Require Import Prelude Ids Canonical Model Objective Domain DefinitionCheck Plan Fixture.

(** ** [Lookup] *)

Record Lookup := mkLookup {
  lk_node : gmap Z nat;
  lk_link : gmap Z nat;
  lk_service : gmap Z nat;
  lk_resource : gmap Z nat;
  lk_action : gmap Z nat;
  lk_group : gmap Z nat
}.

(** [for (i ...) table[id(l[i])] = i]: a later entry replaces an earlier one. *)
Definition enter_ids {A} `{Inhabited A} (id : A -> Z) (l : list A) : gmap Z nat :=
  fold_left (fun table i => <[id (l !!! i) := i]> table) (seq 0 (length l)) ∅.

Definition lookup_build (d : FabricDefinition) : Lookup :=
  mkLookup (enter_ids node_id (nodes d)) (enter_ids link_id (links d))
    (enter_ids service_id (services d)) (enter_ids resource_id (resources d))
    (enter_ids action_id (actions d)) (enter_ids group_id (groups d)).

Definition lookup_subject (lk : Lookup) (s : Subject) : option nat :=
  match subject_kind s with
  | SubjectKind.NODE => lk_node lk !! subject_id s
  | SubjectKind.LINK => lk_link lk !! subject_id s
  | SubjectKind.SERVICE => lk_service lk !! subject_id s
  | SubjectKind.RESOURCE => lk_resource lk !! subject_id s
  | SubjectKind.ACTION => lk_action lk !! subject_id s
  | SubjectKind.NONE | SubjectKind.FABRIC => None
  end.

(** ** [RefState] *)

Record RefState := mkRefState {
  rs_node_up : list Z;
  rs_link_up : list Z;
  rs_restored : list Z;
  rs_node_known : list Z;
  rs_link_known : list Z;
  rs_resource_known : list Z;
  rs_service_known : list Z;
  rs_available : list Z;
  rs_reachable : list Z;
  rs_occurrences : list Z
}.

Definition ref_set_link (s : RefState) (i : nat) (v : Z) : RefState :=
  mkRefState (rs_node_up s) (<[i:=v]> (rs_link_up s)) (rs_restored s) (rs_node_known s)
    (<[i:=1]> (rs_link_known s)) (rs_resource_known s) (rs_service_known s) (rs_available s)
    (rs_reachable s) (rs_occurrences s).

Definition ref_set_node (s : RefState) (i : nat) (v : Z) : RefState :=
  mkRefState (<[i:=v]> (rs_node_up s)) (rs_link_up s) (rs_restored s) (<[i:=1]> (rs_node_known s))
    (rs_link_known s) (rs_resource_known s) (rs_service_known s) (rs_available s)
    (rs_reachable s) (rs_occurrences s).

Definition ref_set_service (s : RefState) (i : nat) (v : Z) : RefState :=
  mkRefState (rs_node_up s) (rs_link_up s) (rs_restored s) (rs_node_known s) (rs_link_known s)
    (rs_resource_known s) (<[i:=1]> (rs_service_known s)) (rs_available s)
    (<[i:=v]> (rs_reachable s)) (rs_occurrences s).

(** [state.reachable[index] = ...] alone, as a delta leaves it. *)
Definition ref_move_service (s : RefState) (i : nat) (v : Z) : RefState :=
  mkRefState (rs_node_up s) (rs_link_up s) (rs_restored s) (rs_node_known s) (rs_link_known s)
    (rs_resource_known s) (rs_service_known s) (rs_available s) (<[i:=v]> (rs_reachable s))
    (rs_occurrences s).

Definition ref_set_available (s : RefState) (i : nat) (v : Z) : RefState :=
  mkRefState (rs_node_up s) (rs_link_up s) (rs_restored s) (rs_node_known s) (rs_link_known s)
    (<[i:=1]> (rs_resource_known s)) (rs_service_known s) (<[i:=v]> (rs_available s))
    (rs_reachable s) (rs_occurrences s).

(** [state.available[index] -= ...] *)
Definition ref_draw (s : RefState) (i : nat) (v : Z) : RefState :=
  mkRefState (rs_node_up s) (rs_link_up s) (rs_restored s) (rs_node_known s) (rs_link_known s)
    (rs_resource_known s) (rs_service_known s) (<[i:=v]> (rs_available s)) (rs_reachable s)
    (rs_occurrences s).

Definition ref_set_restored (s : RefState) (i : nat) (v : Z) : RefState :=
  mkRefState (rs_node_up s) (rs_link_up s) (<[i:=v]> (rs_restored s)) (rs_node_known s)
    (rs_link_known s) (<[i:=1]> (rs_resource_known s)) (rs_service_known s) (rs_available s)
    (rs_reachable s) (rs_occurrences s).

(** [state.occurrences[index] += 1] *)
Definition ref_count (s : RefState) (i : nat) : RefState :=
  mkRefState (rs_node_up s) (rs_link_up s) (rs_restored s) (rs_node_known s) (rs_link_known s)
    (rs_resource_known s) (rs_service_known s) (rs_available s) (rs_reachable s)
    (<[i:=u32 (rs_occurrences s !!! i + 1)]> (rs_occurrences s)).

Definition ref_shortfall (d : FabricDefinition) (s : RefState) (targets : bool) : Z :=
  fold_left (fun total index =>
    let service := services d !!! index in
    let reference := if targets then target_reachable service else required_reachable service in
    if reference =? 0 then total
    else if rs_service_known s !!! index =? 0 then u64 (total + reference)
    else if rs_reachable s !!! index <? reference
         then u64 (total + u32 (reference - rs_reachable s !!! index))
         else total) (seq 0 (length (services d))) 0.

Definition ref_domain (kind : EvidenceKind.t) : AuthorityDomain.t :=
  match kind with
  | EvidenceKind.RESOURCE_AVAILABLE_UNITS | EvidenceKind.RESOURCE_RESTORED =>
      AuthorityDomain.RESOURCE_LEASE
  | _ => AuthorityDomain.FABRIC_STATE
  end.

(** ** [ref_initial] *)

Definition ref_empty (d : FabricDefinition) : RefState :=
  mkRefState (replicate (length (nodes d)) 0) (replicate (length (links d)) 0)
    (replicate (length (resources d)) 0) (replicate (length (nodes d)) 0)
    (replicate (length (links d)) 0) (replicate (length (resources d)) 0)
    (replicate (length (services d)) 0) (map capacity (resources d))
    (replicate (length (services d)) 0) (replicate (length (actions d)) 0).

Section Initial.
Context (d : FabricDefinition) (lk : Lookup) (auth : AuthorityVector) (facts : list EvidenceFact).

(** The checks before the comparison with the other facts: the subject's index. *)
Definition ref_admits (f : EvidenceFact) : option nat :=
  if negb (EvidenceKind.is_valid (fact_kind f)) then None
  else if negb (bool_decide (subject_kind (fact_subject f) = evidence_expected_subject (fact_kind f)))
  then None
  else if negb (bool_decide (fact_source_domain f = ref_domain (fact_kind f))) then None
  else if negb (bool_decide (fact_label f = TrustLabel.REAL)) &&
          negb (bool_decide (fact_label f = TrustLabel.SYNTHETIC)) then None
  else
    match authority_find auth (fact_source_domain f) with
    | None => None
    | Some b =>
        if negb (fact_generation f =? bind_granted b) then None
        else lookup_subject lk (fact_subject f)
    end.

(** [superseded || conflicting], over all facts, admissible or not. *)
Definition ref_overruled (f : EvidenceFact) : bool :=
  existsb (fun other =>
    bool_decide (fact_kind other = fact_kind f) &&
    bool_decide (fact_subject other = fact_subject f) &&
    ((fact_sequence f <? fact_sequence other) ||
     ((fact_sequence other =? fact_sequence f) && negb (fact_value other =? fact_value f)))) facts.

(** The [switch] that stores the value of a fact. *)
Definition ref_store (s : RefState) (kind : EvidenceKind.t) (i : nat) (value : Z) : RefState :=
  match kind with
  | EvidenceKind.LINK_OPERATIONAL => if 1 <? value then s else ref_set_link s i (u8 value)
  | EvidenceKind.NODE_OPERATIONAL => if 1 <? value then s else ref_set_node s i (u8 value)
  | EvidenceKind.SERVICE_REACHABLE_ENDPOINTS =>
      if max_reachable (services d !!! i) <? value then s else ref_set_service s i (u32 value)
  | EvidenceKind.RESOURCE_AVAILABLE_UNITS =>
      if capacity (resources d !!! i) <? value then s else ref_set_available s i (u32 value)
  | EvidenceKind.RESOURCE_RESTORED => if 1 <? value then s else ref_set_restored s i (u8 value)
  | EvidenceKind.COUNT => s
  end.

Definition ref_observe (s : RefState) (f : EvidenceFact) : RefState :=
  match ref_admits f with
  | None => s
  | Some i => if ref_overruled f then s else ref_store s (fact_kind f) i (fact_value f)
  end.

Definition ref_initial : RefState := fold_left ref_observe facts (ref_empty d).
End Initial.

Definition ref_precondition (lk : Lookup) (s : RefState) (p : Precondition) : bool :=
  match lookup_subject lk (pre_subject p) with
  | None => false
  | Some i =>
      match pre_kind p with
      | PreconditionKind.LINK_OPERATIONAL =>
          negb (rs_link_known s !!! i =? 0) && negb (rs_link_up s !!! i =? 0)
      | PreconditionKind.LINK_NOT_OPERATIONAL =>
          negb (rs_link_known s !!! i =? 0) && (rs_link_up s !!! i =? 0)
      | PreconditionKind.NODE_OPERATIONAL =>
          negb (rs_node_known s !!! i =? 0) && negb (rs_node_up s !!! i =? 0)
      | PreconditionKind.NODE_NOT_OPERATIONAL =>
          negb (rs_node_known s !!! i =? 0) && (rs_node_up s !!! i =? 0)
      | PreconditionKind.SERVICE_REACHABLE_AT_LEAST =>
          negb (rs_service_known s !!! i =? 0) && (pre_value p <=? rs_reachable s !!! i)
      | PreconditionKind.SERVICE_REACHABLE_AT_MOST =>
          negb (rs_service_known s !!! i =? 0) && (rs_reachable s !!! i <=? pre_value p)
      | PreconditionKind.RESOURCE_AVAILABLE_AT_LEAST =>
          negb (rs_resource_known s !!! i =? 0) && (pre_value p <=? rs_available s !!! i)
      | PreconditionKind.ACTION_EXECUTED_AT_LEAST => pre_value p <=? rs_occurrences s !!! i
      | PreconditionKind.COUNT => false
      end
  end.

(** ** [reference_evaluate] *)

Abbreviation RefHolds := (list (list (Z * Z))) (only parsing).

(** The loop variables of the sequence. *)
Record RefRun := mkRefRun {
  rr_state : RefState;
  rr_holds : RefHolds;
  rr_floor : Z;
  rr_completeness : Z;
  rr_objective : list Z;
  rr_position : Z
}.

Section Evaluate.
Context (n : PlanRequest).
Abbreviation d := (req_definition n).
Abbreviation lk := (lookup_build d).

Definition ref_dependency (s : RefState) (dep : ActionDependency) : bool :=
  match lk_action lk !! dep_predecessor dep with
  | None => false
  | Some p => dep_min_occurrences dep <=? rs_occurrences s !!! p
  end.

(** The executed actions that list the group, each once. *)
Definition ref_selected (s : RefState) (group : ExclusionGroupId) : Z :=
  fold_left (fun selected candidate =>
    if rs_occurrences s !!! candidate =? 0 then selected
    else if existsb (fun other => other =? group) (exclusion_groups (actions d !!! candidate))
    then u32 (selected + 1) else selected) (seq 0 (length (actions d))) 0.

Definition ref_exclusion (s : RefState) (group : ExclusionGroupId) : bool :=
  match lk_group lk !! group with
  | None => false
  | Some g => ref_selected s group <? max_selected (groups d !!! g)
  end.

(** The units the step and the holds that still run take, in 32 bits. *)
Definition ref_overlapping (position : Z) (resource : ResourceSpec) (holds : list (Z * Z))
  (units : Z) : Z :=
  fold_left (fun total hold =>
    let distance := u64 (position - hold.1) in
    if (distance <? hold_steps resource) || ((hold_steps resource =? 0) && (distance =? 0))
    then u32 (total + hold.2) else total) holds units.

Definition ref_use (position : Z) (s : RefState) (holds : RefHolds) (use : ResourceUse) : bool :=
  match lk_resource lk !! use_resource use with
  | None => false
  | Some i =>
      let resource := resources d !!! i in
      if bool_decide (resource_kind resource = ResourceKind.CONSUMABLE)
      then negb (rs_resource_known s !!! i =? 0) && (use_units use <=? rs_available s !!! i)
      else ref_overlapping position resource (holds !!! i) (use_units use) <=? capacity resource
  end.

Definition ref_effect (s : RefState) (e : Effect) : option RefState :=
  i ← lookup_subject lk (eff_subject e);
  let bit := if negb (eff_value e =? 0) then 1 else 0 in
  match eff_kind e with
  | EffectKind.SET_LINK_OPERATIONAL => Some (ref_set_link s i bit)
  | EffectKind.SET_NODE_OPERATIONAL => Some (ref_set_node s i bit)
  | EffectKind.SET_SERVICE_REACHABLE =>
      if (eff_value e <? 0) || (max_reachable (services d !!! i) <? u64 (eff_value e)) then None
      else Some (ref_set_service s i (u32 (eff_value e)))
  | EffectKind.SERVICE_REACHABLE_DELTA =>
      if rs_service_known s !!! i =? 0 then
        if 0 <? required_reachable (services d !!! i) then None else Some s
      else
        let updated := i64 (rs_reachable s !!! i + eff_value e) in
        if (updated <? 0) || (max_reachable (services d !!! i) <? u64 updated) then None
        else Some (ref_move_service s i (u32 updated))
  | EffectKind.MARK_RESOURCE_RESTORED => Some (ref_set_restored s i 1)
  | EffectKind.SET_RESOURCE_AVAILABLE =>
      if (eff_value e <? 0) || (capacity (resources d !!! i) <? u64 (eff_value e)) then None
      else Some (ref_set_available s i (u32 (eff_value e)))
  | EffectKind.COUNT => None
  end.

Fixpoint ref_effects (s : RefState) (es : list Effect) : option RefState :=
  match es with
  | [] => Some s
  | e :: es => s ← ref_effect s e; ref_effects s es
  end.

(** The uses after the effects: units drawn, and holds that start here. *)
Fixpoint ref_take (position : Z) (s : RefState) (holds : RefHolds) (uses : list ResourceUse)
  : option (RefState * RefHolds) :=
  match uses with
  | [] => Some (s, holds)
  | use :: uses =>
      i ← lk_resource lk !! use_resource use;
      if bool_decide (resource_kind (resources d !!! i) = ResourceKind.CONSUMABLE)
      then ref_take position (ref_draw s i (u32 (rs_available s !!! i - use_units use))) holds uses
      else ref_take position s (<[i := holds !!! i ++ [(position, use_units use)]]> holds) uses
  end.

(** The components after a step that deepened no floor. *)
Definition ref_account (o : list Z) (a : ActionSpec) (before after : Z) : list Z :=
  [o !!! 0%nat; o !!! 1%nat;
   if before <? after then u64 (o !!! 2%nat + (after - before)) else o !!! 2%nat;
   u64 (o !!! 3%nat + blast_radius a); u64 (o !!! 4%nat + 1); u64 (o !!! 5%nat + disruption a);
   u64 (o !!! 6%nat + cost_units a); u64 (o !!! 7%nat + duration_ticks a)].

(** The checks of a step before its effects. *)
Definition ref_ready (run : RefRun) (k : nat) : bool :=
  let a := actions d !!! k in
  let s := rr_state run in
  (rs_occurrences s !!! k <? max_occurrences a) &&
  forallb (ref_dependency s) (dependencies a) &&
  (if rs_occurrences s !!! k =? 0 then forallb (ref_exclusion s) (exclusion_groups a) else true) &&
  forallb (ref_precondition lk s) (preconditions a) &&
  negb (bool_decide (reversibility a = Reversibility.IRREVERSIBLE) &&
        negb (allow_irreversible_actions (req_policy n))) &&
  forallb (ref_use (rr_position run) s (rr_holds run)) (resource_uses a).

(** The body of the loop over the sequence; [None] is [return evaluation]. *)
Definition ref_step (run : RefRun) (id : ActionId) : option RefRun :=
  k ← lk_action lk !! id;
  if negb (ref_ready run k) then None
  else
    let a := actions d !!! k in
    s ← ref_effects (rr_state run) (effects a);
    '(s, holds) ← ref_take (rr_position run) s (rr_holds run) (resource_uses a);
    let floor_after := ref_shortfall d s false in
    if rr_floor run <? floor_after then None
    else
      let completeness_after := ref_shortfall d s true in
      Some (mkRefRun (ref_count s k) holds floor_after completeness_after
              (ref_account (rr_objective run) a (rr_completeness run) completeness_after)
              (u64 (rr_position run + 1))).

Fixpoint ref_steps (run : RefRun) (ids : list ActionId) : option RefRun :=
  match ids with
  | [] => Some run
  | id :: ids => run ← ref_step run id; ref_steps run ids
  end.

Definition ref_goal (s : RefState) (g : GoalSpec) : bool :=
  match lookup_subject lk (goal_subject g) with
  | None => false
  | Some i =>
      match goal_kind g with
      | GoalKind.LINK_OPERATIONAL =>
          negb ((rs_link_known s !!! i =? 0) || (rs_link_up s !!! i =? 0))
      | GoalKind.NODE_OPERATIONAL =>
          negb ((rs_node_known s !!! i =? 0) || (rs_node_up s !!! i =? 0))
      | GoalKind.RESOURCE_RESTORED =>
          negb ((rs_resource_known s !!! i =? 0) || (rs_restored s !!! i =? 0))
      | GoalKind.SERVICE_REACHABLE_AT_LEAST =>
          if rs_service_known s !!! i =? 0 then false else negb (rs_reachable s !!! i <? goal_value g)
      | GoalKind.COUNT => false
      end
  end.

Definition ref_authorised (a : ActionSpec) : bool :=
  match authority_find (req_authority n) (required_domain a) with
  | None => false
  | Some b =>
      bool_decide (evaluate b = BindingState.CURRENT) &&
      negb (AuthorityLevel.to_u8 (bind_level b) <? AuthorityLevel.to_u8 (required_level a))
  end.

Definition ref_start : RefRun :=
  let s := ref_initial d lk (req_authority n) (ev_facts (req_evidence n)) in
  mkRefRun s (replicate (length (resources d)) []) (ref_shortfall d s false)
    (ref_shortfall d s true) (replicate 8 0) 0.

(** [reference_evaluate] from the normalised request on: the objective of a valid
    sequence. *)
Definition ref_evaluate (encoding : list ActionId) : option ObjectiveVector :=
  if max_plan_steps (req_policy n) <? sizez encoding then None
  else if require_current_authority (req_policy n) && negb (forallb ref_authorised (actions d))
  then None
  else
    run ← ref_steps ref_start encoding;
    if forallb (ref_goal (rr_state run)) (goals d) then Some (mkObjective (rr_objective run))
    else None.
End Evaluate.

(** The private copy; the fences are left as they are. *)
Definition ref_normalise (r : PlanRequest) : PlanRequest :=
  mkRequest (req_id r) (req_epoch r) (req_boot r) (req_attempt r)
    (canonicalise (req_definition r)) (evidence_canonicalise (req_evidence r))
    (authority_canonicalise (req_authority r)) (req_policy r) (req_fences r).

Definition reference_evaluate (r : PlanRequest) (encoding : list ActionId)
  : option ObjectiveVector := ref_evaluate (ref_normalise r) encoding.

Definition reference_check_sequence (r : PlanRequest) (encoding : list ActionId) : bool :=
  bool_decide (is_Some (reference_evaluate r encoding)).

(** ** [reference_solve] *)

Record ReferenceLimits := mkReferenceLimits {
  rl_max_sequences : Z;
  rl_max_plan_steps : Z
}.

Definition default_reference_limits : ReferenceLimits := mkReferenceLimits 40000000 8.

Module ReferenceKind.
Inductive t := COMPLETED | LIMIT_REACHED | INVALID_INPUT.
End ReferenceKind.

Record ReferenceOutcome := mkReferenceOutcome {
  rf_kind : ReferenceKind.t;
  rf_plan_found : bool;
  rf_objective : ObjectiveVector;
  rf_encoding : list ActionId;
  rf_sequences_examined : Z;
  rf_valid_plans : Z
}.

(** The loop over the actions that adds up their occurrence bounds. *)
Fixpoint ref_occurrence_bound (acc : Z) (acts : list ActionSpec) : Z :=
  match acts with
  | [] => acc
  | a :: acts =>
      match add_overflow acc (max_occurrences a) with
      | None => UINT64_MAX
      | Some sum => ref_occurrence_bound sum acts
      end
  end.

(** The variables the two closures share. *)
Record Enumeration := mkEnumeration {
  en_examined : Z;
  en_valid : Z;
  en_aborted : bool;
  en_found : bool;
  en_best : ObjectiveVector;
  en_best_encoding : list ActionId
}.

Definition fresh_enumeration : Enumeration := mkEnumeration 0 0 false false zero_objective [].

Definition en_abort (e : Enumeration) : Enumeration :=
  mkEnumeration (en_examined e) (en_valid e) true (en_found e) (en_best e) (en_best_encoding e).

Section Enumerate.
Context (n : PlanRequest) (limits : ReferenceLimits).
Abbreviation d := (req_definition n).

Definition ref_visit (current : list ActionId) (e : Enumeration) : Enumeration :=
  let examined := u64 (en_examined e + 1) in
  match reference_evaluate n current with
  | None =>
      mkEnumeration examined (en_valid e) (en_aborted e) (en_found e) (en_best e)
        (en_best_encoding e)
  | Some objective =>
      let valid := u64 (en_valid e + 1) in
      let better :=
        negb (en_found e) ||
        (let order := compare_objective objective (en_best e) in
         (order <? 0) || ((order =? 0) && (compare_encoding current (en_best_encoding e) <? 0))) in
      if better then mkEnumeration examined valid (en_aborted e) true objective current
      else mkEnumeration examined valid (en_aborted e) (en_found e) (en_best e) (en_best_encoding e)
  end.

(** [descend], with the steps that are left instead of those taken. *)
Fixpoint descend (depth : nat) (counts : list Z) (current : list ActionId) (e : Enumeration)
  : Enumeration :=
  if en_aborted e then e
  else
    let e := ref_visit current e in
    match depth with
    | O => e
    | S depth =>
        fold_left (fun e index =>
          if en_aborted e then e
          else if max_occurrences (actions d !!! index) <=? counts !!! index then e
          else if rl_max_sequences limits <=? en_examined e then en_abort e
          else descend depth (<[index := u32 (counts !!! index + 1)]> counts)
                 (current ++ [action_id (actions d !!! index)]) e)
          (seq 0 (length (actions d))) e
    end.

Definition ref_depth_bound : Z :=
  Z.min (rl_max_plan_steps limits)
    (Z.min (max_plan_steps (req_policy n)) (ref_occurrence_bound 0 (actions d))).

Definition ref_failed (kind : ReferenceKind.t) : ReferenceOutcome :=
  mkReferenceOutcome kind false zero_objective [] 0 0.

Definition ref_solve : ReferenceOutcome :=
  if (max_plan_steps (req_policy n) =? 0) || (rl_max_plan_steps limits =? 0)
  then ref_failed ReferenceKind.INVALID_INPUT
  else if 12 <? ref_depth_bound then ref_failed ReferenceKind.LIMIT_REACHED
  else
    let e := descend (Z.to_nat ref_depth_bound) (replicate (length (actions d)) 0) []
               fresh_enumeration in
    mkReferenceOutcome
      (if en_aborted e then ReferenceKind.LIMIT_REACHED else ReferenceKind.COMPLETED)
      (en_found e) (en_best e) (en_best_encoding e) (en_examined e) (en_valid e).
End Enumerate.

Definition reference_solve (r : PlanRequest) (limits : ReferenceLimits) : ReferenceOutcome :=
  ref_solve (ref_normalise r) limits.

(** The optimum of the example request among all sequences of at most four steps. *)
Example reference_example :
  let o := reference_solve example_request (mkReferenceLimits 1000 4) in
  rf_kind o = ReferenceKind.COMPLETED /\ rf_plan_found o = true /\ rf_encoding o = [10; 11].
Proof. vm_compute. done. Qed.
