(* ===== verification/ReferenceCorrect.v ===== *)
(** * The reference solver is exact

    What the enumeration of [src/reference_solver.cpp] promises: when it reports
    [COMPLETED] its answer is the minimum over every sequence within the limits,
    and it does complete when the number of sequences fits its bound. *)
From S2P Require Import Prelude Ids Canonical Model Objective Domain DefinitionCheck Plan Fixture.
From S2P Require Import Reconcile Transition Search SearchCorrect Planner Reference.

(** ** Normalisation *)

Lemma canonicalise_action_idemp a : canonicalise_action (canonicalise_action a) = canonicalise_action a.
Proof. unfold canonicalise_action. simpl. by rewrite !sort_by_idemp by apply _. Qed.

Lemma canonicalise_idemp d : canonicalise (canonicalise d) = canonicalise d.
Proof.
  unfold canonicalise. simpl. rewrite !sort_by_idemp by apply _.
  rewrite (sort_by_id (lt_on (fun a => [action_id a])) (map canonicalise_action _)).
  - f_equal. rewrite map_map. apply map_ext, canonicalise_action_idemp.
  - pose proof (sort_by_sorted (lt_on (fun a => [action_id a])) (actions d)) as Hs.
    induction Hs as [|a l Hs IH Ha]; [constructor|]. cbn [map]. constructor; [exact IH|].
    apply Forall_map. exact Ha.
Qed.

Lemma ref_normalise_idemp r : ref_normalise (ref_normalise r) = ref_normalise r.
Proof.
  unfold ref_normalise. cbn [req_id req_epoch req_boot req_attempt req_definition req_evidence
    req_authority req_policy req_fences]. rewrite canonicalise_idemp.
  unfold evidence_canonicalise, authority_canonicalise. simpl.
  by rewrite !sort_by_idemp by apply _.
Qed.

Lemma reference_evaluate_normalise r : reference_evaluate (ref_normalise r) = reference_evaluate r.
Proof. unfold reference_evaluate. by rewrite ref_normalise_idemp. Qed.

(** ** Lookups *)

Lemma enter_ids_Some {A} `{Inhabited A} (id : A -> Z) l v i :
  enter_ids id l !! v = Some i -> (i < length l)%nat /\ id (l !!! i) = v.
Proof.
  unfold enter_ids. set (P := fun m : gmap Z nat => forall v i, m !! v = Some i ->
    (i < length l)%nat /\ id (l !!! i) = v).
  enough (Hg : forall js m, Forall (fun i => (i < length l)%nat) js -> P m ->
    P (fold_left (fun table i => <[id (l !!! i) := i]> table) js m)).
  { apply (Hg (seq 0 (length l)) ∅); [apply Forall_forall; intros j ?%elem_of_seq; lia|].
    intros ? ?. by rewrite lookup_empty. }
  clear v i. intros js. induction js as [|j js IH]; intros m Hi Hm; [exact Hm|].
  apply Forall_cons in Hi as [Hj Hi]. cbn [fold_left]. apply IH; [done|].
  intros v i Hv. apply lookup_insert_Some in Hv as [[<- <-]|[_ Hv]]; [done|by apply Hm].
Qed.

(** ** What a sequence the checker runs looks like *)

Definition counted (k : nat) (path : list nat) : Z := sizez (filter (fun j => j = k) path).

Lemma counted_cons k j path : counted k (j :: path) = (if decide (j = k) then 1 else 0) + counted k path.
Proof. unfold counted, sizez. rewrite filter_cons. case_decide; simpl; lia. Qed.

Lemma counted_nonneg k path : 0 <= counted k path.
Proof. unfold counted, sizez. lia. Qed.

Section Run.
Context (n : PlanRequest).
Abbreviation d := (req_definition n).
Abbreviation id_at k := (action_id (actions d !!! (k : nat))).

Lemma ref_effect_occurrences s e s' :
  ref_effect n s e = Some s' -> rs_occurrences s' = rs_occurrences s.
Proof.
  unfold ref_effect. intros (i & _ & H)%bind_Some.
  destruct (eff_kind e); repeat case_match; try discriminate; by injection H as <-.
Qed.

Lemma ref_effects_occurrences es s s' :
  ref_effects n s es = Some s' -> rs_occurrences s' = rs_occurrences s.
Proof.
  revert s. induction es as [|e es IH]; intros s; cbn [ref_effects]; [by intros [= <-]|].
  intros (s1 & He & Hs)%bind_Some. rewrite (IH _ Hs). by eapply ref_effect_occurrences.
Qed.

Lemma ref_take_occurrences position uses s holds s' holds' :
  ref_take n position s holds uses = Some (s', holds') -> rs_occurrences s' = rs_occurrences s.
Proof.
  revert s holds. induction uses as [|u uses IH]; intros s holds; cbn [ref_take]; [by intros [= <-]|].
  intros (i & _ & H)%bind_Some. case_bool_decide; by apply IH in H.
Qed.

(** A step names a declared action whose bound is not reached, and counts it. *)
Lemma ref_step_inv run id run' :
  ref_step n run id = Some run' ->
  exists k, (k < length (actions d))%nat /\ id_at k = id /\
    rs_occurrences (rr_state run) !!! k < max_occurrences (actions d !!! k) /\
    rs_occurrences (rr_state run') =
      <[k := u32 (rs_occurrences (rr_state run) !!! k + 1)]> (rs_occurrences (rr_state run)) /\
    length (rr_objective run') = 8%nat.
Proof.
  unfold ref_step. intros (k & Hk & H)%bind_Some. apply enter_ids_Some in Hk as [Hlt Hid].
  destruct (ref_ready n run k) eqn:Hready; [|discriminate H]. cbn [negb] in H.
  apply bind_Some in H as (s & Hs & H). apply bind_Some in H as ([s' holds] & Ht & H).
  destruct (rr_floor run <? _); [discriminate H|]. injection H as <-.
  exists k. split; [done|]. split; [done|]. unfold ref_ready in Hready. cbv zeta in Hready.
  rewrite !andb_true_iff in Hready. destruct Hready as [[[[[Hocc _] _] _] _] _].
  split; [by apply Z.ltb_lt|]. split; [|done]. cbn [rr_state ref_count rs_occurrences].
  by rewrite (ref_take_occurrences _ _ _ _ _ _ Ht), (ref_effects_occurrences _ _ _ Hs).
Qed.

Context (Hty : Forall (fun a => in_u32 (max_occurrences a)) (actions d)).

Record counts_ok (occ : list Z) : Prop := {
  cok_length : length occ = length (actions d);
  cok_range k : (k < length (actions d))%nat ->
    0 <= occ !!! k <= max_occurrences (actions d !!! k)
}.

Lemma counts_ok_step occ k :
  counts_ok occ -> (k < length (actions d))%nat -> occ !!! k < max_occurrences (actions d !!! k) ->
  counts_ok (<[k := u32 (occ !!! k + 1)]> occ) /\ u32 (occ !!! k + 1) = occ !!! k + 1.
Proof.
  intros [Hl Hr] Hk Hlt. pose proof (Forall_lookup_total _ _ _ Hty Hk) as [_ Hm].
  pose proof (Hr k Hk) as Hk0.
  assert (Hu : u32 (occ !!! k + 1) = occ !!! k + 1) by (apply u32_small; unfold in_u32; lia).
  split; [|done]. split; [by rewrite length_insert|]. intros j Hj.
  destruct (decide (j = k)) as [->|Hne].
  - rewrite lookup_total_insert_eq by lia. lia.
  - rewrite lookup_total_insert_ne by done. by apply Hr.
Qed.

(** The actions of a sequence that runs are within their bounds. *)
Lemma ref_steps_path ids run run' :
  ref_steps n run ids = Some run' -> counts_ok (rs_occurrences (rr_state run)) ->
  exists path, ids = map (fun k => id_at k) path /\
    Forall (fun k => (k < length (actions d))%nat) path /\
    counts_ok (rs_occurrences (rr_state run')) /\
    (forall k, (k < length (actions d))%nat ->
       rs_occurrences (rr_state run') !!! k = rs_occurrences (rr_state run) !!! k + counted k path) /\
    foldr Z.add 0 (rs_occurrences (rr_state run')) =
      foldr Z.add 0 (rs_occurrences (rr_state run)) + sizez ids.
Proof.
  revert run. induction ids as [|id ids IH]; intros run; cbn [ref_steps].
  { intros [= <-] Hc. exists []. split; [done|]. split; [constructor|]. split; [done|].
    split; [intros k _; change (counted k []) with 0; lia|change (@sizez Z []) with 0; lia]. }
  intros (run1 & H1 & H)%bind_Some Hc.
  apply ref_step_inv in H1 as (k & Hk & Hid & Hlt & Hocc & _).
  destruct (counts_ok_step _ k Hc Hk Hlt) as [Hc1 Hu]. rewrite <- Hocc in Hc1.
  destruct (IH run1 H Hc1) as (path & -> & Hp & Hc' & Hcnt & Hsum).
  exists (k :: path). cbn [map]. split; [by rewrite Hid|]. split; [by constructor|]. split; [done|].
  assert (Hlen : (k < length (rs_occurrences (rr_state run)))%nat) by (by rewrite (cok_length _ Hc)).
  split.
  - intros j Hj. rewrite (Hcnt j Hj), Hocc, Hu, counted_cons.
    case_decide as Hjk; [subst j; rewrite lookup_total_insert_eq by done; lia|].
    rewrite lookup_total_insert_ne by done. lia.
  - rewrite Hsum, Hocc, Hu, insert_sum by done. unfold sizez. cbn [length]. lia.
Qed.

Lemma ref_steps_objective ids run run' :
  ref_steps n run ids = Some run' -> length (rr_objective run) = 8%nat ->
  length (rr_objective run') = 8%nat.
Proof.
  revert run. induction ids as [|id ids IH]; intros run; cbn [ref_steps]; [by intros [= <-]|].
  intros (run1 & H1 & H)%bind_Some _. apply ref_step_inv in H1 as (_ & _ & _ & _ & _ & Hl).
  by eapply IH.
Qed.

Lemma ref_store_occurrences s kind i v : rs_occurrences (ref_store d s kind i v) = rs_occurrences s.
Proof. unfold ref_store. destruct kind; try case_match; done. Qed.

Lemma ref_start_occurrences :
  rs_occurrences (rr_state (ref_start n)) = replicate (length (actions d)) 0.
Proof.
  cbn [ref_start rr_state]. unfold ref_initial.
  change (replicate (length (actions d)) 0) with (rs_occurrences (ref_empty d)).
  generalize (ref_empty d) as s. generalize (ev_facts (req_evidence n)) at 2 as fs.
  induction fs as [|f fs IH]; intros s; [done|]. cbn [fold_left]. rewrite IH. unfold ref_observe.
  destruct (ref_admits _ _ f); [|done]. destruct (ref_overruled _ f); [done|].
  apply ref_store_occurrences.
Qed.

Lemma replicate_counts : counts_ok (replicate (length (actions d)) 0).
Proof.
  split; [apply length_replicate|]. intros k Hk. rewrite lookup_total_replicate_2 by done.
  pose proof (Forall_lookup_total _ _ _ Hty Hk) as [? _]. lia.
Qed.

(** The loop saturates as soon as the sum leaves 64 bits. *)
Lemma occurrence_bound_saturates acts : forall acc occ, in_u64 acc ->
  Forall2 (fun o a => 0 <= o <= max_occurrences a) occ acts ->
  Forall (fun a => in_u32 (max_occurrences a)) acts ->
  UINT64_MAX < acc + foldr Z.add 0 occ -> ref_occurrence_bound acc acts = UINT64_MAX.
Proof.
  induction acts as [|a acts IH]; intros acc occ Ha H Hm Hgt;
    inversion H as [|o ? occ' ? Ho Hr]; subst.
  { simpl in *. unfold in_u64, UINT64_MAX in *. lia. }
  apply Forall_cons in Hm as [Hma Hm]. cbn [foldr ref_occurrence_bound] in *.
  destruct (add_overflow acc (max_occurrences a)) as [sum|] eqn:Hadd; [|done].
  apply add_overflow_Some in Hadd as [-> Hs]; [|done|unfold in_u32, in_u64 in *; lia].
  eapply IH; [done|exact Hr|done|lia].
Qed.

Lemma occurrence_bound_sum acts : forall acc occ,
  Forall2 (fun o a => 0 <= o <= max_occurrences a) occ acts -> in_u64 acc ->
  Forall (fun a => in_u32 (max_occurrences a)) acts -> acc + foldr Z.add 0 occ <= UINT64_MAX ->
  acc + foldr Z.add 0 occ <= ref_occurrence_bound acc acts.
Proof.
  induction acts as [|a acts IH]; intros acc occ H Ha Hm Hle; inversion H as [|o ? occ' ? Ho Hr]; subst.
  { simpl. lia. }
  apply Forall_cons in Hm as [Hma Hm]. cbn [foldr ref_occurrence_bound] in *.
  destruct (add_overflow acc (max_occurrences a)) as [sum|] eqn:Hadd; [|done].
  apply add_overflow_Some in Hadd as [-> Hs]; [|done|unfold in_u32, in_u64 in *; lia].
  destruct (Z.le_gt_cases (acc + max_occurrences a + foldr Z.add 0 occ') UINT64_MAX) as [Hfit|Hbig].
  - pose proof (IH _ _ Hr Hs Hm Hfit). lia.
  - rewrite (occurrence_bound_saturates _ _ _ Hs Hr Hm ltac:(lia)). lia.
Qed.
End Run.

(** ** The sequences *)

Section Sequences.
Context (n : PlanRequest) (limits : ReferenceLimits).
Abbreviation d := (req_definition n).
Abbreviation id_at k := (action_id (actions d !!! (k : nat))).

(** The proper extensions of [current] the recursion visits, in order. *)
Fixpoint following (depth : nat) (counts : list Z) (current : list ActionId)
  : list (list ActionId) :=
  match depth with
  | O => []
  | S depth =>
      concat (map (fun index =>
        if max_occurrences (actions d !!! index) <=? counts !!! index then []
        else (current ++ [id_at index]) ::
          following depth (<[index := u32 (counts !!! index + 1)]> counts) (current ++ [id_at index]))
        (seq 0 (length (actions d))))
  end.

(** One sequence after the first, with the bound in front of it. *)
Definition visit_next (e : Enumeration) (current : list ActionId) : Enumeration :=
  if en_aborted e then e
  else if rl_max_sequences limits <=? en_examined e then en_abort e
  else ref_visit n current e.

Lemma ref_visit_aborted current e : en_aborted (ref_visit n current e) = en_aborted e.
Proof. unfold ref_visit. by repeat case_match. Qed.

Lemma visits_aborted l e : en_aborted e = true -> fold_left visit_next l e = e.
Proof.
  revert e. induction l as [|c l IH]; intros e He; [done|]. cbn [fold_left].
  unfold visit_next at 2. rewrite He. by apply IH.
Qed.

(** The recursion visits the sequences one after the other. *)
Lemma descend_visits depth : forall counts current e, en_aborted e = false ->
  descend n limits depth counts current e =
  fold_left visit_next (following depth counts current) (ref_visit n current e).
Proof.
  induction depth as [|depth IH]; intros counts current e He; cbn [descend following]; rewrite He;
    [done|].
  generalize (ref_visit n current e) as e0. clear e He.
  induction (seq 0 (length (actions d))) as [|index l IHl]; intros e0; [done|].
  cbn [map concat fold_left]. rewrite fold_left_app. rewrite IHl. f_equal.
  destruct (en_aborted e0) eqn:Ha; [by rewrite visits_aborted|].
  destruct (_ <=? counts !!! index); [done|]. cbn [fold_left]. unfold visit_next at 2. rewrite Ha.
  destruct (rl_max_sequences limits <=? en_examined e0).
  { by rewrite visits_aborted. }
  by apply IH.
Qed.

Definition all_sequences : list (list ActionId) :=
  [] :: following (Z.to_nat (ref_depth_bound n limits)) (replicate (length (actions d)) 0) [].

(** ** What the visits add up to *)

Definition valid (c : list ActionId) : Prop := is_Some (reference_evaluate n c).

#[export] Instance valid_dec c : Decision (valid c).
Proof. unfold valid. apply _. Defined.

(** The variables after the sequences [l] have been visited. *)
Record visited_all (l : list (list ActionId)) (e : Enumeration) : Prop := {
  va_running : en_aborted e = false;
  va_examined : en_examined e = sizez l;
  va_valid : en_valid e = sizez (filter valid l);
  va_none : en_found e = false -> forall c, c ∈ l -> reference_evaluate n c = None;
  va_best : en_found e = true ->
    en_best_encoding e ∈ l /\ reference_evaluate n (en_best_encoding e) = Some (en_best e) /\
    forall c o, c ∈ l -> reference_evaluate n c = Some o ->
      scored_plan_less o c (en_best e) (en_best_encoding e) = false
}.

Lemma evaluate_length c o : reference_evaluate n c = Some o -> length (component o) = 8%nat.
Proof.
  unfold reference_evaluate, ref_evaluate. destruct (_ <? _); [done|]. destruct (_ && _); [done|].
  intros (run & Hrun & Ho)%bind_Some. destruct (forallb _ _); [|done]. injection Ho as <-.
  by eapply ref_steps_objective.
Qed.

Lemma better_scored o c o' c' :
  (let order := compare_objective o o' in
   (order <? 0) || ((order =? 0) && (compare_encoding c c' <? 0))) = scored_plan_less o c o' c'.
Proof.
  unfold scored_plan_less. cbv zeta.
  destruct (Z.eqb_spec (compare_objective o o') 0) as [->|Hne]; [done|].
  simpl. by rewrite orb_false_r.
Qed.

Lemma visited_snoc l e c :
  visited_all l e -> sizez l + 1 < 2 ^ 64 -> visited_all (l ++ [c]) (ref_visit n c e).
Proof.
  intros [Hrun Hex Hv Hnone Hbest] Hlt.
  assert (Hv0 : 0 <= sizez (filter valid l) <= sizez l).
  { unfold sizez. pose proof (length_filter valid l). lia. }
  assert (Hsz : sizez (l ++ [c]) = sizez l + 1) by (unfold sizez; rewrite length_app; simpl; lia).
  assert (Hu : u64 (en_examined e + 1) = sizez (l ++ [c])).
  { rewrite Hex, Hsz. apply u64_small. unfold in_u64, sizez in *. lia. }
  unfold ref_visit. rewrite Hu. destruct (reference_evaluate n c) as [o|] eqn:Ho.
  2:{ split; cbn [en_aborted en_examined en_valid en_found en_best en_best_encoding]; try done.
      - rewrite filter_app, Hv. rewrite (filter_cons_False valid c []) by (intros [? Hc]; congruence).
        by rewrite app_nil_r.
      - intros Hf c'. rewrite elem_of_app, list_elem_of_singleton. intros [Hc| ->]; auto.
      - intros Hf. destruct (Hbest Hf) as (Hin & Hb & Hmin). split; [set_solver|]. split; [done|].
        intros c' o'. rewrite elem_of_app, list_elem_of_singleton. intros [Hc| ->] Ho'; [by eapply Hmin|].
        congruence. }
  assert (Hval : u64 (en_valid e + 1) = sizez (filter valid (l ++ [c]))).
  { rewrite Hv, filter_app, (filter_cons_True valid c []) by (by exists o). unfold sizez in *.
    rewrite length_app. simpl. rewrite u64_small by (unfold in_u64; lia). lia. }
  rewrite Hval, better_scored. pose proof (evaluate_length _ _ Ho) as Hlo.
  destruct (en_found e) eqn:Hf; cbn [negb orb].
  2:{ split; cbn [en_aborted en_examined en_valid en_found en_best en_best_encoding]; try done.
      intros _. split; [set_solver|]. split; [done|]. intros c' o'.
      rewrite elem_of_app, list_elem_of_singleton. intros [Hc| ->] Ho'.
      - by rewrite (Hnone eq_refl c' Hc) in Ho'.
      - rewrite Ho in Ho'. injection Ho' as <-. rewrite scored_plan_less_lex by done.
        apply lex_lt_irrefl. }
  destruct (Hbest eq_refl) as (Hin & Hb & Hmin). pose proof (evaluate_length _ _ Hb) as Hlb.
  destruct (scored_plan_less o c (en_best e) (en_best_encoding e)) eqn:Hless;
    (split; cbn [en_aborted en_examined en_valid en_found en_best en_best_encoding]; try done);
    intros _; (split; [set_solver|]); (split; [done|]); intros c' o';
    rewrite elem_of_app, list_elem_of_singleton; intros [Hc| ->] Ho'.
  - specialize (Hmin c' o' Hc Ho'). pose proof (evaluate_length _ _ Ho') as Hlo'.
    rewrite scored_plan_less_lex in * by congruence.
    eapply lex_lt_ntrans; [|exact Hmin]. by apply lex_lt_asym.
  - rewrite Ho in Ho'. injection Ho' as <-. rewrite scored_plan_less_lex by done. apply lex_lt_irrefl.
  - by eapply Hmin.
  - rewrite Ho in Ho'. by injection Ho' as <-.
Qed.

Lemma visits_complete l : forall l0 e,
  visited_all l0 e -> en_aborted (fold_left visit_next l e) = false ->
  rl_max_sequences limits < 2 ^ 64 -> visited_all (l0 ++ l) (fold_left visit_next l e).
Proof.
  induction l as [|c l IH]; intros l0 e Hall Ha Hm; [by rewrite app_nil_r|].
  cbn [fold_left] in *. unfold visit_next at 2 in Ha. unfold visit_next at 2.
  rewrite (va_running _ _ Hall) in *.
  destruct (Z.leb_spec (rl_max_sequences limits) (en_examined e)) as [Hle|Hgt].
  { by rewrite visits_aborted in Ha. }
  rewrite (va_examined _ _ Hall) in Hgt.
  replace (l0 ++ c :: l) with ((l0 ++ [c]) ++ l) by (by rewrite <- app_assoc).
  apply IH; [apply visited_snoc; [done|lia]|done|done].
Qed.

(** With room for every sequence nothing is aborted. *)
Lemma visits_run l : forall l0 e,
  visited_all l0 e -> sizez (l0 ++ l) <= rl_max_sequences limits -> rl_max_sequences limits < 2 ^ 64 ->
  en_aborted (fold_left visit_next l e) = false.
Proof.
  induction l as [|c l IH]; intros l0 e Hall Hle Hm; [apply Hall|]. cbn [fold_left].
  unfold visit_next at 2. rewrite (va_running _ _ Hall), (va_examined _ _ Hall).
  assert (Hsz : sizez (l0 ++ c :: l) = sizez l0 + 1 + sizez l)
    by (unfold sizez; rewrite length_app; simpl; lia).
  assert (0 <= sizez l) by (unfold sizez; lia).
  rewrite (proj2 (Z.leb_gt _ _)) by lia. apply (IH (l0 ++ [c])); [apply visited_snoc; [done|lia]| |done].
  by rewrite <- app_assoc.
Qed.
End Sequences.

(** ** Which sequences are visited *)

Lemma NoDup_concat_map {A B} (f : A -> list B) (l : list A) :
  NoDup l -> (forall x, x ∈ l -> NoDup (f x)) ->
  (forall x y b, b ∈ f x -> b ∈ f y -> x = y) -> NoDup (concat (map f l)).
Proof.
  intros Hl Hf Hd. induction Hl as [|x l Hx Hl IH]; [constructor|]. cbn [map concat].
  apply NoDup_app. split; [apply Hf; left|]. split; [|apply IH; intros; apply Hf; by right].
  intros b Hb Hin. apply list_elem_of_In, in_concat in Hin as (l' & Hl' & Hb').
  apply in_map_iff in Hl' as (y & <- & Hy). apply list_elem_of_In in Hb', Hy.
  by rewrite (Hd x y b Hb Hb') in Hx.
Qed.

Lemma length_concat_bound {A B} (f : A -> list B) (l : list A) (m : Z) :
  (forall x, x ∈ l -> sizez (f x) <= m) -> sizez (concat (map f l)) <= sizez l * m.
Proof.
  induction l as [|x l IH]; intros H; [done|]. cbn [map concat].
  pose proof (H x ltac:(left)). specialize (IH (fun y Hy => H y (list_elem_of_further _ _ _ Hy))).
  unfold sizez in *. rewrite length_app. cbn [length]. lia.
Qed.

(** The sequences of at most [depth] entries over [m] actions. *)
Fixpoint tree_size (m : Z) (depth : nat) : Z :=
  match depth with
  | O => 1
  | S depth => 1 + m * tree_size m depth
  end.

Section Members.
Context (n : PlanRequest).
Abbreviation d := (req_definition n).
Abbreviation id_at k := (action_id (actions d !!! (k : nat))).
Abbreviation following := (following n).
Context (Hty : Forall (fun a => in_u32 (max_occurrences a)) (actions d)).

Lemma following_intro path : forall depth counts current,
  path <> [] -> (length path <= depth)%nat -> Forall (fun k => (k < length (actions d))%nat) path ->
  length counts = length (actions d) ->
  (forall k, (k < length (actions d))%nat ->
     0 <= counts !!! k /\ counts !!! k + counted k path <= max_occurrences (actions d !!! k)) ->
  current ++ map (fun k => id_at k) path ∈ following depth counts current.
Proof.
  induction path as [|k path IH]; intros depth counts current Hne Hd Hk Hl Hc; [done|]. clear Hne.
  destruct depth as [|depth]; [simpl in Hd; lia|]. apply Forall_cons in Hk as [Hk Hks].
  pose proof (Hc k Hk) as [Hc0 Hc1]. rewrite counted_cons, decide_True in Hc1 by done.
  pose proof (counted_nonneg k path). pose proof (Forall_lookup_total _ _ _ Hty Hk) as [_ Hm].
  cbn [ReferenceCorrect.following]. apply list_elem_of_In, in_concat. eexists. split.
  { apply in_map. apply list_elem_of_In, elem_of_seq. split; [apply Nat.le_0_l|exact Hk]. }
  apply list_elem_of_In. rewrite (proj2 (Z.leb_gt _ _)) by lia.
  destruct path as [|k' path]; [left|]. right. cbn [map].
  replace (current ++ id_at k :: id_at k' :: map (fun k => id_at k) path)
    with ((current ++ [id_at k]) ++ map (fun k => id_at k) (k' :: path)) by (by rewrite <- app_assoc).
  apply IH; [done|simpl in *; lia|done|by rewrite length_insert|]. intros j Hj.
  specialize (Hc j Hj). rewrite counted_cons in Hc. destruct (decide (j = k)) as [->|Hne].
  - rewrite decide_True in Hc by done. rewrite lookup_total_insert_eq by lia.
    rewrite u32_small by (unfold in_u32; lia). lia.
  - rewrite decide_False in Hc by done. by rewrite lookup_total_insert_ne.
Qed.

Lemma following_inv depth : forall counts current c,
  c ∈ following depth counts current ->
  exists k path, (k < length (actions d))%nat /\ c = current ++ id_at k :: path /\
    (length path < depth)%nat.
Proof.
  induction depth as [|depth IH]; intros counts current c; cbn [ReferenceCorrect.following];
    [by intros ?%elem_of_nil|].
  intros (l & Hl & Hc)%list_elem_of_In%in_concat. apply in_map_iff in Hl as (k & <- & Hk).
  apply list_elem_of_In, elem_of_seq in Hk as [_ Hk]. apply list_elem_of_In in Hc.
  destruct (_ <=? _); [by apply elem_of_nil in Hc|]. apply elem_of_cons in Hc as [->|Hc].
  - exists k, []. simpl. split; [done|]. split; [done|lia].
  - apply IH in Hc as (k' & path & _ & -> & Hlt). exists k, (id_at k' :: path).
    split; [done|]. split; [by rewrite <- app_assoc|simpl; lia].
Qed.

Lemma following_NoDup depth : NoDup (map action_id (actions d)) -> forall counts current,
  NoDup (following depth counts current).
Proof.
  intros Hnd. induction depth as [|depth IH]; intros counts current; [constructor|].
  cbn [ReferenceCorrect.following].
  set (f := fun index => _). 
  assert (Hf : forall k c, c ∈ f k -> exists path, c = current ++ id_at k :: path).
  { intros k c. unfold f. destruct (_ <=? _); [by intros ?%elem_of_nil|].
    intros [->|Hc]%elem_of_cons; [by eexists|].
    apply following_inv in Hc as (k' & path & _ & -> & _). exists (id_at k' :: path).
    by rewrite <- app_assoc. }
  rewrite (map_ext_in _ (fun k => if decide (k < length (actions d))%nat then f k else [])).
  2:{ intros k Hk. apply in_seq in Hk. by rewrite decide_True by lia. }
  apply NoDup_concat_map; [apply NoDup_seq| |].
  - intros k _. case_decide as Hk; [|constructor]. unfold f. destruct (_ <=? _); [constructor|].
    constructor; [|apply IH]. intros Hc. apply following_inv in Hc as (k' & path & _ & He & _).
    apply (f_equal length) in He. rewrite !length_app in He. simpl in He. lia.
  - intros x y c Hx Hy. do 2 (case_decide; [|by apply elem_of_nil in Hx || apply elem_of_nil in Hy]).
    apply Hf in Hx as [p Hx]. apply Hf in Hy as [q Hy]. rewrite Hx in Hy.
    apply app_inv_head in Hy. injection Hy as Hid _.
    eapply NoDup_lookup; [exact Hnd| |]; rewrite list_lookup_fmap, list_lookup_lookup_total_lt by done;
      simpl; [done|by rewrite Hid].
Qed.

Lemma following_size depth : forall counts current,
  1 + sizez (following depth counts current) <= tree_size (sizez (actions d)) depth.
Proof.
  induction depth as [|depth IH]; intros counts current; [done|].
  cbn [ReferenceCorrect.following tree_size].
  match goal with |- 1 + sizez (concat (map ?f ?l)) <= _ =>
    pose proof (length_concat_bound f l (tree_size (sizez (actions d)) depth)) as H end.
  assert (H0 : 0 <= tree_size (sizez (actions d)) depth).
  { clear. induction depth as [|depth IH]; simpl; [lia|]. unfold sizez in *. nia. }
  replace (sizez (seq 0 (length (actions d)))) with (sizez (actions d)) in H
    by (unfold sizez; by rewrite length_seq).
  apply Z.add_le_mono_l, H. intros k _. destruct (_ <=? _); [exact H0|].
  etransitivity; [|apply (IH (<[k := u32 (counts !!! k + 1)]> counts) (current ++ [id_at k]))].
  unfold sizez. cbn [length]. lia.
Qed.
End Members.

(** ** The answer *)

Record reference_limits_typed (l : ReferenceLimits) : Prop := {
  rlt_sequences : in_u64 (rl_max_sequences l);
  rlt_steps : in_u64 (rl_max_plan_steps l)
}.

Lemma ref_normalise_bounds r :
  request_typed r ->
  Forall (fun a => in_u32 (max_occurrences a)) (actions (req_definition (ref_normalise r))).
Proof.
  intros Ht. cbn [ref_normalise req_definition canonicalise actions].
  apply Forall_map. rewrite (sort_by_perm (lt_on (fun a => [action_id a]))).
  eapply Forall_impl; [apply (dty_actions _ (rty_definition _ Ht))|]. intros a Ha. apply Ha.
Qed.

Section Answer.
Context (r : PlanRequest) (limits : ReferenceLimits).
Context (Ht : request_typed r) (Hl : reference_limits_typed limits).
Abbreviation n := (ref_normalise r).
Abbreviation d := (req_definition n).

Lemma ref_depth_nonneg : 0 <= ref_depth_bound n limits.
Proof.
  unfold ref_depth_bound. pose proof (rlt_steps _ Hl) as [? _].
  pose proof (rty_steps _ Ht) as [? _]. cbn [ref_normalise req_policy].
  assert (Hacts : forall acts acc, 0 <= acc -> Forall (fun a => in_u32 (max_occurrences a)) acts ->
    0 <= ref_occurrence_bound acc acts).
  { induction acts as [|a acts IH]; intros acc Hacc Hm; [done|].
    apply Forall_cons in Hm as [[Ha _] Hm]. cbn [ref_occurrence_bound]. unfold add_overflow.
    destruct (_ <? acc); [done|]. apply IH; [lia|done]. }
  specialize (Hacts (actions d) 0 ltac:(done) (ref_normalise_bounds r Ht)). lia.
Qed.

(** Every valid sequence within the limits is among the sequences. *)
Lemma valid_listed c o :
  reference_evaluate n c = Some o -> sizez c <= rl_max_plan_steps limits -> c ∈ all_sequences n limits.
Proof.
  intros Ho Hlen. rewrite reference_evaluate_normalise in Ho. unfold reference_evaluate, ref_evaluate in Ho.
  destruct (Z.ltb_spec (max_plan_steps (req_policy n)) (sizez c)) as [|Hmax]; [done|].
  destruct (_ && _); [done|]. apply bind_Some in Ho as (run & Hrun & _).
  pose proof (ref_normalise_bounds r Ht) as Hb. pose proof (replicate_counts n Hb) as Hc0.
  apply (ref_steps_path n Hb) in Hrun as (path & -> & Hk & Hc & Hcnt & Hsum);
    [|by rewrite ref_start_occurrences].
  rewrite ref_start_occurrences in *.
  rewrite replicate_sum in Hsum.
  assert (Hocc : sizez (map (fun k => action_id (actions d !!! k)) path)
                 <= ref_occurrence_bound 0 (actions d)).
  { pose proof (rlt_steps _ Hl) as [_ Hu]. 
    pose proof (occurrence_bound_sum (actions d) 0 (rs_occurrences (rr_state run))) as H.
    rewrite Hsum in H. apply H; [|done|exact Hb|unfold UINT64_MAX; lia].
    apply Forall2_same_length_lookup_2; [apply Hc|]. intros i x a Hx Ha.
    pose proof (lookup_lt_Some _ _ _ Ha) as Hi. apply list_lookup_total_correct in Hx, Ha. subst.
    by apply (cok_range _ _ Hc). }
  unfold all_sequences. destruct path as [|k path]; [left|]. right.
  apply (following_intro n Hb (k :: path) _ _ []); [done| |done|apply Hc0|].
  - apply Nat2Z.inj_le. rewrite Z2Nat.id by apply ref_depth_nonneg. unfold ref_depth_bound.
    unfold sizez in *. rewrite length_map in *. lia.
  - intros j Hj. pose proof (cok_range _ _ Hc j Hj) as [_ Hle]. rewrite (Hcnt j Hj) in Hle.
    rewrite lookup_total_replicate_2 in * by done. lia.
Qed.

Lemma sequences_depth c :
  c ∈ all_sequences n limits -> sizez c <= ref_depth_bound n limits.
Proof.
  pose proof ref_depth_nonneg as Hd. unfold all_sequences.
  intros [->|Hc]%elem_of_cons; [exact Hd|]. apply following_inv in Hc as (k & path & _ & -> & Hlt).
  apply Nat2Z.inj_lt in Hlt. rewrite Z2Nat.id in Hlt by done.
  unfold sizez. cbn [app length]. lia.
Qed.

Lemma sequences_length c :
  c ∈ all_sequences n limits -> sizez c <= rl_max_plan_steps limits.
Proof. intros Hc%sequences_depth. unfold ref_depth_bound in Hc. lia. Qed.

Lemma completed_depth :
  rf_kind (reference_solve r limits) = ReferenceKind.COMPLETED -> ref_depth_bound n limits <= 12.
Proof.
  unfold reference_solve, ref_solve. destruct (_ || _); [done|].
  by destruct (Z.ltb_spec 12 (ref_depth_bound n limits)).
Qed.

Lemma visited_first : visited_all n [[]] (ref_visit n [] fresh_enumeration).
Proof.
  apply (visited_snoc n [] fresh_enumeration []); [|done].
  split; try done. intros _ c Hc. by apply elem_of_nil in Hc.
Qed.

(** A completed run has visited every sequence. *)
Lemma completed_visited :
  rf_kind (reference_solve r limits) = ReferenceKind.COMPLETED ->
  exists e, visited_all n (all_sequences n limits) e /\
    reference_solve r limits = mkReferenceOutcome ReferenceKind.COMPLETED (en_found e) (en_best e)
      (en_best_encoding e) (en_examined e) (en_valid e).
Proof.
  unfold reference_solve, ref_solve. destruct (_ || _); [done|]. destruct (12 <? _); [done|].
  rewrite descend_visits by done. cbn [rf_kind]. destruct (en_aborted _) eqn:Ha; [done|]. intros _.
  eexists. split; [|reflexivity].
  refine (visits_complete n limits _ [[]] _ visited_first Ha _). by destruct (rlt_sequences _ Hl).
Qed.

(** What a completed run reports: no sequence is valid when nothing was found,
    and otherwise the least valid one. *)
Lemma completed_exact :
  let o := reference_solve r limits in
  rf_kind o = ReferenceKind.COMPLETED ->
  (rf_plan_found o = false -> forall enc, sizez enc <= rl_max_plan_steps limits ->
     reference_evaluate r enc = None) /\
  (rf_plan_found o = true ->
   reference_evaluate r (rf_encoding o) = Some (rf_objective o) /\
   sizez (rf_encoding o) <= rl_max_plan_steps limits /\
   forall enc objective, sizez enc <= rl_max_plan_steps limits ->
     reference_evaluate r enc = Some objective ->
     scored_plan_less objective enc (rf_objective o) (rf_encoding o) = false).
Proof.
  intros o Hk. destruct (completed_visited Hk) as (e & [_ _ _ Hnone Hbest] & Ho). subst o. rewrite Ho.
  cbn [rf_plan_found rf_objective rf_encoding]. rewrite reference_evaluate_normalise in Hbest, Hnone.
  assert (Hin : forall enc ob, sizez enc <= rl_max_plan_steps limits ->
                  reference_evaluate r enc = Some ob -> enc ∈ all_sequences n limits).
  { intros enc ob Hlen Hob. rewrite <- reference_evaluate_normalise in Hob. by eapply valid_listed. }
  split; intros Hf.
  - intros enc Hlen. destruct (reference_evaluate r enc) as [ob|] eqn:Hob; [|done].
    rewrite <- Hob. apply (Hnone Hf). by eapply Hin.
  - destruct (Hbest Hf) as (Hb & Hev & Hmin). split; [done|]. split; [by apply sequences_length|].
    intros enc ob Hlen Hob. apply Hmin; [by eapply Hin|done].
Qed.
End Answer.

(** C8: the reference solver is exact. When it reports [COMPLETED], a plan was
    found exactly when some sequence within its step limit passes its checker,
    and then the plan it reports is one of them, with its objective, and none of
    them has a smaller objective, or the same objective and a smaller encoding;
    and [valid_plans] is the number of valid sequences, each counted once. *)
Theorem reference_exact r limits :
  request_typed r -> reference_limits_typed limits ->
  NoDup (map action_id (actions (req_definition r))) ->
  let o := reference_solve r limits in
  rf_kind o = ReferenceKind.COMPLETED ->
  (rf_plan_found o = true <->
   exists enc, sizez enc <= rl_max_plan_steps limits /\ reference_check_sequence r enc = true) /\
  (rf_plan_found o = true ->
   reference_evaluate r (rf_encoding o) = Some (rf_objective o) /\
   sizez (rf_encoding o) <= rl_max_plan_steps limits /\
   forall enc objective, sizez enc <= rl_max_plan_steps limits ->
     reference_evaluate r enc = Some objective ->
     scored_plan_less objective enc (rf_objective o) (rf_encoding o) = false) /\
  exists valid, NoDup valid /\ rf_valid_plans o = sizez valid /\
    forall enc, enc ∈ valid <->
      sizez enc <= rl_max_plan_steps limits /\ reference_check_sequence r enc = true.
Proof.
  intros Ht Hl Hnd o Hk. destruct (completed_exact r limits Ht Hl Hk) as [Hnone Hbest]. fold o in Hnone, Hbest.
  split; [|split; [exact Hbest|]].
  - split.
    + intros Hf. destruct (Hbest Hf) as (Hev & Hlen & _). exists (rf_encoding o).
      split; [done|]. apply bool_decide_eq_true. by eexists.
    + intros (enc & Hlen & [ob Hob]%bool_decide_eq_true). destruct (rf_plan_found o); [done|].
      by rewrite (Hnone eq_refl enc Hlen) in Hob.
  - destruct (completed_visited r limits Hl Hk) as (e & Hall & Ho). subst o. rewrite Ho.
    pose proof (reference_evaluate_normalise r) as Hn.
    exists (filter (valid (ref_normalise r)) (all_sequences (ref_normalise r) limits)).
    split; [|split; [exact (va_valid _ _ _ Hall)|]].
    + apply NoDup_filter. unfold all_sequences. constructor.
      * intros Hc. apply following_inv in Hc as (k & path & _ & He & _). done.
      * apply following_NoDup. cbn [ref_normalise req_definition canonicalise actions].
        rewrite map_map. cbn [canonicalise_action action_id].
        by rewrite (sort_by_perm (lt_on (fun a => [action_id a]))).
    + intros enc. rewrite list_elem_of_filter. unfold valid. rewrite Hn.
      unfold reference_check_sequence. rewrite bool_decide_eq_true. split.
      * intros [Hs Hin]. split; [by apply (sequences_length r limits Ht Hl)|done].
      * intros [Hlen [ob Hob]]. split; [by exists ob|]. rewrite <- Hn in Hob.
        by eapply (valid_listed r limits Ht Hl).
Qed.

(** C39: The reference solver answers. When its step limits are not zero, its
    depth is at most 12 and [max_sequences] is at least the number of sequences
    of that depth over the declared actions, the enumeration is never cut off:
    the outcome is [COMPLETED], and no more sequences than that were examined. *)
Theorem reference_completes r limits :
  request_typed r -> reference_limits_typed limits ->
  max_plan_steps (req_policy r) <> 0 -> rl_max_plan_steps limits <> 0 ->
  ref_depth_bound (ref_normalise r) limits <= 12 ->
  tree_size (sizez (actions (req_definition r))) (Z.to_nat (ref_depth_bound (ref_normalise r) limits))
    <= rl_max_sequences limits ->
  rf_kind (reference_solve r limits) = ReferenceKind.COMPLETED /\
  rf_sequences_examined (reference_solve r limits) <=
    tree_size (sizez (actions (req_definition r)))
      (Z.to_nat (ref_depth_bound (ref_normalise r) limits)).
Proof.
  intros Ht Hl Hp Hs Hd Hsize. set (D := Z.to_nat _) in *.
  assert (Hcount : sizez (all_sequences (ref_normalise r) limits) <=
                   tree_size (sizez (actions (req_definition r))) D).
  { pose proof (following_size (ref_normalise r) D
      (replicate (length (actions (req_definition (ref_normalise r)))) 0) []) as H.
    replace (sizez (actions (req_definition (ref_normalise r)))) with (sizez (actions (req_definition r))) in H
      by (unfold sizez; simpl; by rewrite length_map, length_sort_by by apply _).
    unfold all_sequences. fold D. unfold sizez in *. cbn [length]. lia. }
  assert (Hk : rf_kind (reference_solve r limits) = ReferenceKind.COMPLETED).
  { unfold reference_solve, ref_solve. cbn [ref_normalise req_policy] in *.
    rewrite (proj2 (Z.eqb_neq _ _) Hp), (proj2 (Z.eqb_neq _ _) Hs). cbn [orb].
    rewrite (proj2 (Z.ltb_ge _ _) Hd). rewrite descend_visits by done. cbn [rf_kind].
    rewrite (visits_run (ref_normalise r) limits _ [[]] _ (visited_first r)); [done| |apply Hl].
    cbn [app]. unfold all_sequences in Hcount. lia. }
  split; [done|]. destruct (completed_visited r limits Hl Hk) as (e & Hall & ->).
  cbn [rf_sequences_examined]. rewrite (va_examined _ _ _ Hall). lia.
Qed.

(** Plans of at most six steps. *)
Definition six_steps : ReferenceLimits := mkReferenceLimits 40000000 6.

Lemma six_steps_typed : reference_limits_typed six_steps.
Proof. split; unfold in_u64; simpl; lia. Qed.

Lemma example_distinct_actions : NoDup (map action_id (actions (req_definition example_request))).
Proof. apply (bool_decide_unpack _). vm_compute. done. Qed.

Lemma reference_exact_witness :
  rf_kind (reference_solve example_request six_steps) = ReferenceKind.COMPLETED /\
  reference_evaluate example_request [10; 11] =
    Some (rf_objective (reference_solve example_request six_steps)).
Proof.
  assert (H : let o := reference_solve example_request six_steps in
    rf_kind o = ReferenceKind.COMPLETED /\ rf_plan_found o = true /\ rf_encoding o = [10; 11])
    by (vm_compute; done).
  destruct H as (Hk & Hf & He). split; [exact Hk|].
  destruct (reference_exact example_request six_steps example_request_typed six_steps_typed
              example_distinct_actions Hk) as (_ & Hbest & _).
  destruct (Hbest Hf) as [H _]. rewrite He in H. exact H.
Defined.

Lemma reference_completes_witness :
  rf_kind (reference_solve example_request six_steps) = ReferenceKind.COMPLETED.
Proof.
  refine (proj1 (reference_completes example_request six_steps example_request_typed six_steps_typed
    _ _ _ _)); vm_compute; discriminate.
Defined.
