(* ===== verification/ReferenceAgrees.v ===== *)
(** * The reference solver as an oracle for the planner

    Relates the exhaustive enumeration of [src/reference_solver.cpp] to the
    branch and bound search of [src/planner.cpp]: equal lookups, equal initial
    states, a step of the one is a step of the other, and therefore equal optima. *)
From S2P Require Import Prelude Ids Canonical Model Objective Domain DefinitionCheck Plan Fixture.
From S2P Require Import Reconcile Transition Search SearchCorrect StaticProofs Planner Validate.
From S2P Require Import ValidateCorrect ValidateSound Reference ReferenceCorrect.

(** ** Lookups *)

Section Enter.
Context {A : Type} `{Inhabited A} (id : A -> Z) (l : list A).

Lemma enter_ids_is_Some v : v ∈ map id l -> is_Some (enter_ids id l !! v).
Proof.
  intros (x & -> & Hx)%list_elem_of_fmap. apply list_elem_of_lookup in Hx as [i Hi].
  unfold enter_ids. pose proof (lookup_lt_Some _ _ _ Hi) as Hlt.
  apply list_lookup_total_correct in Hi.
  assert (Hin : i ∈ seq 0 (length l)) by (apply elem_of_seq; lia).
  enough (Hg : forall js (m : gmap Z nat), i ∈ js \/ is_Some (m !! id x) ->
    is_Some (fold_left (fun table i => <[id (l !!! i) := i]> table) js m !! id x)) by (apply Hg; by left).
  clear Hin. induction js as [|j js IH]; intros m Hor; cbn [fold_left].
  { destruct Hor as [Hn|]; [by apply elem_of_nil in Hn|done]. }
  apply IH. destruct Hor as [[->|Hin]%elem_of_cons|Hm]; [|by left|].
  - right. rewrite Hi, lookup_insert. by rewrite decide_True.
  - right. destruct (decide (id (l !!! j) = id x)) as [He|Hne].
    + rewrite He, lookup_insert. by rewrite decide_True.
    + by rewrite lookup_insert_ne.
Qed.

(** With distinct identities the last entry is the first. *)
Lemma enter_ids_find v : NoDup (map id l) -> enter_ids id l !! v = find_index (fun x => id x =? v) l.
Proof.
  intros Hnd. destruct (enter_ids id l !! v) as [i|] eqn:Hi.
  - apply enter_ids_Some in Hi as [Hlt <-]. symmetry. by apply find_index_id.
  - destruct (find_index _ l) as [j|] eqn:Hj; [|done]. apply find_index_Some in Hj as (Hlt & Hv & _).
    bool_cases. destruct (enter_ids_is_Some v) as [? Hs]; [|congruence]. rewrite <- Hv.
    apply list_elem_of_fmap_2, list_elem_of_lookup_2 with j, list_lookup_lookup_total_lt, Hlt.
Qed.
End Enter.

Lemma sorted_NoDup (l : list Z) : StronglySorted Z.lt l -> NoDup l.
Proof.
  induction 1 as [|x l Hl IH Hx]; constructor; [|done]. intros Hin.
  rewrite Forall_forall in Hx. specialize (Hx x Hin). lia.
Qed.

(** What the reference state keeps of the validator's, and of the planner's. *)
Definition forget (v : VState) : RefState :=
  mkRefState (v_node_up v) (v_link_up v) (v_restored v) (v_node_known v) (v_link_known v)
    (v_resource_known v) (v_service_known v) (v_available v) (v_reachable v) (v_occurrences v).

Definition rview (s : FabricState) : RefState := forget (view s).

Section Lookups.
Context (d : FabricDefinition) (limits : ModelLimits) (Hr : search_ready d limits).
Abbreviation lk := (lookup_build d).

Lemma lookup_action_eq id : lk_action lk !! id = action_index d id.
Proof. apply enter_ids_find, sorted_NoDup, (rdy_ids _ _ Hr). Qed.

Lemma lookup_resource_eq id : lk_resource lk !! id = resource_index d id.
Proof. apply enter_ids_find, sorted_NoDup, (rdy_ids _ _ Hr). Qed.

Lemma lookup_group_eq id : lk_group lk !! id = group_index d id.
Proof. apply enter_ids_find. by destruct (dwf_groups _ _ (rdy_wf _ _ Hr)). Qed.

Lemma lookup_subject_eq s : lookup_subject lk s = tables_subject d s.
Proof.
  unfold lookup_subject, tables_subject. destruct (subject_kind s); try done;
    apply enter_ids_find, sorted_NoDup, (rdy_ids _ _ Hr).
Qed.
End Lookups.

(** ** Evidence *)

(** Facts about one subject are admissible and do not contradict each other,
    unless there is only one. *)
Definition evidence_clear (limits : ModelLimits) (n : PlanRequest) : Prop :=
  forall f g, f ∈ ev_facts (req_evidence n) -> g ∈ ev_facts (req_evidence n) ->
    fact_table_key f = fact_table_key g -> f <> g ->
    Reconcile.admissible (req_definition n) (indexer_build (req_definition n)) (req_authority n) limits f /\
    (fact_sequence f = fact_sequence g -> fact_value f = fact_value g).

Lemma distinct_keys_clear limits n :
  NoDup (map fact_table_key (ev_facts (req_evidence n))) -> evidence_clear limits n.
Proof.
  intros Hnd f g Hf Hg Hk Hne. exfalso. apply Hne.
  apply list_elem_of_lookup in Hf as [i Hi], Hg as [j Hj].
  assert (i = j) as ->; [|congruence].
  eapply NoDup_lookup; [exact Hnd| |]; rewrite list_lookup_fmap, ?Hi, ?Hj; simpl; [done|by rewrite Hk].
Qed.

Lemma evidence_clear_agrees limits n : evidence_clear limits n -> evidence_agrees limits n.
Proof.
  intros Hc k f g Hf Hg _ _ Hs. unfold key_facts in Hf, Hg.
  apply list_elem_of_filter in Hf as [[_ Hkf] Hf], Hg as [[_ Hkg] Hg].
  destruct (decide (f = g)) as [->|Hne]; [done|]. apply (Hc f g); congruence.
Qed.

(** A map that grows at its upper end. *)
Section Grow.
Context {K V : Type} (key : K -> list Z) (Hinj : forall k k', key k = key k' -> k = k').

Lemma om_set_above k (v : V) m :
  Forall (fun e => lex_lt (key e.1) (key k) = true) m -> om_set key k v m = m ++ [(k, v)].
Proof. induction 1 as [|[k1 v1] m H1 Hm IH]; simpl in *; [done|]. by rewrite H1, IH. Qed.

Lemma om_set_top k (v v' : V) m :
  Forall (fun e => lex_lt (key e.1) (key k) = true) m ->
  om_set key k v (m ++ [(k, v')]) = m ++ [(k, v)].
Proof.
  induction 1 as [|[k1 v1] m H1 Hm IH]; simpl in *; [|by rewrite H1, IH].
  by rewrite lex_lt_irrefl.
Qed.

Lemma om_find_above k (m : list (K * V)) :
  Forall (fun e => lex_lt (key e.1) (key k) = true) m -> om_find key k m = None.
Proof.
  induction 1 as [|[k1 v1] m H1 Hm IH]; simpl in *; [done|]. rewrite decide_False; [done|].
  intros He. by rewrite He, lex_lt_irrefl in H1.
Qed.

Lemma om_find_top k (v : V) m :
  Forall (fun e => lex_lt (key e.1) (key k) = true) m -> om_find key k (m ++ [(k, v)]) = Some v.
Proof.
  induction 1 as [|[k1 v1] m H1 Hm IH]; simpl in *; [by rewrite decide_True|].
  rewrite decide_False; [done|]. intros He. by rewrite He, lex_lt_irrefl in H1.
Qed.
End Grow.

Definition known_kind (f : EvidenceFact) : Prop := EvidenceKind.is_valid (fact_kind f) = true.

(** Sorted facts are the groups, one after the other. *)
Lemma grouped_concat facts :
  StronglySorted (fun f g => lex_lt (evidence_key_key (fact_table_key g))
                               (evidence_key_key (fact_table_key f)) = false) facts ->
  concat (map snd (grouped_facts facts)) = filter known_kind facts /\
  Forall (fun e => exists f, f ∈ facts /\ fact_table_key f = e.1) (grouped_facts facts).
Proof.
  induction facts as [|f facts IH] using rev_ind; [by split; [|constructor]|]. intros Hs.
  assert (Hlast : forall g, g ∈ facts -> lex_lt (evidence_key_key (fact_table_key f))
                                    (evidence_key_key (fact_table_key g)) = false).
  { intros g Hg. clear -Hs Hg. induction facts as [|x facts IH]; [by apply elem_of_nil in Hg|].
    apply StronglySorted_inv in Hs as [Hs Hx]. apply elem_of_cons in Hg as [->|Hg]; [|by apply IH].
    rewrite Forall_forall in Hx. apply Hx. set_solver. }
  assert (Hs' : StronglySorted (fun f g => lex_lt (evidence_key_key (fact_table_key g))
                               (evidence_key_key (fact_table_key f)) = false) facts).
  { clear -Hs. induction facts as [|x facts IH]; [constructor|].
    apply StronglySorted_inv in Hs as [Hs Hx]. apply Forall_app in Hx as [Hx _].
    constructor; [by apply IH|done]. }
  destruct (IH Hs') as [Hc Hk]. rewrite grouped_snoc, filter_app.
  assert (Hmono : Forall (fun e => exists g, g ∈ facts ++ [f] /\ fact_table_key g = e.1)
                    (grouped_facts facts)).
  { eapply Forall_impl; [exact Hk|]. intros e (g & Hg & He). exists g. split; [set_solver|done]. }
  destruct (EvidenceKind.is_valid (fact_kind f)) eqn:Hv.
  2:{ rewrite (filter_cons_False known_kind f []) by (unfold known_kind; by rewrite Hv).
      by rewrite app_nil_r. }
  rewrite (filter_cons_True known_kind f []) by done. cbn [filter list_filter].
  pose proof (grouped_sorted facts) as Hgs. rewrite <- Hc.
  assert (Hle : Forall (fun e => lex_lt (evidence_key_key (fact_table_key f))
                                   (evidence_key_key e.1) = false) (grouped_facts facts)).
  { eapply Forall_impl; [exact Hk|]. intros e (g & Hg & <-). by apply Hlast. }
  clear IH Hk Hc Hs Hs' Hlast. set (k := fact_table_key f) in *.
  induction (grouped_facts facts) as [|[k1 fs1] m _] using rev_ind.
  { simpl. split; [done|]. constructor; [|done]. exists f. split; [set_solver|done]. }
  apply Forall_app in Hle as [Hle H1]. apply Forall_cons in H1 as [H1 _]. cbn [fst] in H1.
  assert (Hbelow : Forall (fun e => lex_lt (evidence_key_key e.1) (evidence_key_key k1) = true) m).
  { clear -Hgs. induction m as [|x m IH]; [constructor|]. apply StronglySorted_inv in Hgs as [Hgs Hx].
    constructor; [|by apply IH]. rewrite Forall_forall in Hx. apply (Hx (k1, fs1)). set_solver. }
  destruct (lex_lt (evidence_key_key k1) (evidence_key_key k)) eqn:Hlt.
  - assert (Hall : Forall (fun e => lex_lt (evidence_key_key e.1) (evidence_key_key k) = true)
                     (m ++ [(k1, fs1)])).
    { apply Forall_app. split; [|by constructor]. eapply Forall_impl; [exact Hbelow|].
      intros e He. exact (lex_lt_trans _ _ _ He Hlt). }
    rewrite (om_find_above _ _ _ Hall), (om_set_above _ _ _ _ Hall). simpl default.
    rewrite map_app, concat_app. split; [done|]. apply Forall_app. split; [done|].
    constructor; [|done]. exists f. split; [set_solver|done].
  - assert (k1 = k) as -> by (apply evidence_key_key_inj; exact (lex_lt_total _ _ Hlt H1)).
    rewrite (om_find_top _ _ _ _ Hbelow), (om_set_top _ _ _ _ _ Hbelow). simpl default.
    rewrite !map_app, !concat_app. simpl. rewrite !app_nil_r. split; [by rewrite app_assoc|].
    apply Forall_app in Hmono as [Hm _]. apply Forall_app. split; [done|].
    constructor; [|done]. exists f. split; [set_solver|done].
Qed.

Section Evidence.
Context (n : PlanRequest) (limits : ModelLimits).
Abbreviation d := (req_definition n).
Abbreviation ix := (indexer_build d).
Abbreviation auth := (req_authority n).
Abbreviation facts := (ev_facts (req_evidence n)).
Abbreviation lk := (lookup_build d).
Abbreviation admissible := (Reconcile.admissible d ix auth limits).
Context (Hr : search_ready d limits) (Hcl : evidence_clear limits n)
  (Hty : Forall (fun f => in_u64 (fact_value f)) facts).

(** A stored value is the validator's; one out of its domain is not stored. *)
Lemma ref_store_agrees v f i :
  in_u64 (fact_value f) -> tables_subject d (fact_subject f) = Some i ->
  subject_kind (fact_subject f) = evidence_expected_subject (fact_kind f) ->
  ref_store d (forget v) (fact_kind f) i (fact_value f) =
  forget (if value_admissible d f then v_store v (fact_kind f) i (fact_value f) else v).
Proof.
  intros [Hpos _] Hi Hk. unfold ref_store, value_admissible, v_store. unfold tables_subject in Hi.
  rewrite Hk in Hi.
  assert (Hbit : fact_value f <= 1 -> u8 (fact_value f) = if negb (fact_value f =? 0) then 1 else 0).
  { intros Hle. assert (fact_value f = 0 \/ fact_value f = 1) as [-> | ->] by lia; done. }
  destruct (fact_kind f) eqn:Hkind; cbn [evidence_expected_subject] in Hi; [rewrite Hi..|done];
    match goal with |- context [?b <? fact_value f] => destruct (Z.ltb_spec b (fact_value f)) as [Hlt|Hge] end;
    rewrite ?(proj2 (Z.leb_gt _ _) Hlt), ?(proj2 (Z.leb_le _ _) Hge); try rewrite (Hbit Hge); done.
Qed.

(** Seen by the reference solver, a fact is stored or skipped. *)
Lemma ref_observe_agrees v f :
  known_kind f -> in_u64 (fact_value f) ->
  ref_observe d lk auth facts (forget v) f =
  forget (if bool_decide (admissible f) && negb (ref_overruled facts f)
          then match tables_subject d (fact_subject f) with
               | Some i => v_store v (fact_kind f) i (fact_value f)
               | None => v
               end
          else v).
Proof.
  intros Hk Hv. unfold known_kind in Hk.
  assert (Ha : bool_decide (admissible f) = binds n (fact_kind f) (fact_subject f) f).
  { apply eq_true_iff_eq. rewrite bool_decide_eq_true, (binds_iff n limits Hr). tauto. }
  rewrite Ha. clear Ha. unfold ref_observe, ref_admits, binds. rewrite Hk.
  rewrite (bool_decide_eq_true_2 (fact_kind f = fact_kind f)), (bool_decide_eq_true_2 (fact_subject f = fact_subject f)) by done.
  cbn [negb andb].
  destruct (decide (subject_kind (fact_subject f) = evidence_expected_subject (fact_kind f))) as [Hs|Hs].
  2:{ by rewrite !(bool_decide_eq_false_2 _ Hs). }
  rewrite (bool_decide_eq_true_2 _ Hs). cbn [negb andb].
  replace (domain_of (fact_kind f)) with (ref_domain (fact_kind f)) by (by destruct (fact_kind f)).
  destruct (bool_decide (fact_source_domain f = ref_domain (fact_kind f))); cbn [negb andb]; [|done].
  rewrite <- negb_orb. destruct (bool_decide (fact_label f = TrustLabel.REAL) || _);
    cbn [negb andb]; [|done].
  destruct (authority_find auth (fact_source_domain f)) as [b|]; [|by rewrite andb_false_r].
  destruct (fact_generation f =? bind_granted b); cbn [negb]; [|by rewrite andb_false_r].
  rewrite andb_true_r, (lookup_subject_eq d limits Hr).
  destruct (tables_subject d (fact_subject f)) as [i|] eqn:Hi.
  - destruct (ref_overruled facts f); [by rewrite andb_false_r|]. rewrite andb_true_r.
    by apply ref_store_agrees.
  - by destruct (_ && _).
Qed.

Lemma v_store_twice v kind i x : v_store (v_store v kind i x) kind i x = v_store v kind i x.
Proof.
  unfold v_store. destruct kind; unfold v_set_link, v_set_node, v_set_service, v_set_available, v_set_restored;
    simpl; by rewrite ?list_insert_insert_eq.
Qed.

(** Visits that store the same value or nothing amount to one. *)
Lemma fold_same {S A} (step : S -> A -> S) (store : S -> S) fs s :
  (forall s, store (store s) = store s) ->
  (forall f, f ∈ fs -> (forall s, step s f = s) \/ forall s, step s f = store s) ->
  fold_left step fs (store s) = store s /\
  ((exists f, f ∈ fs /\ forall s, step s f = store s) -> fold_left step fs s = store s).
Proof.
  intros Hid Hstep. induction fs as [|f fs IH] in s, Hstep |- *.
  { split; [done|]. by intros (f & Hf%elem_of_nil & _). }
  cbn [fold_left]. pose proof (fun g Hg => Hstep g (list_elem_of_further _ _ _ Hg)) as Hrest.
  destruct (IH (store s) Hrest) as [IH1 _], (IH s Hrest) as [_ IH2].
  assert (H1 : fold_left step fs (store s) = store s).
  { destruct (IH s Hrest) as [H _]. exact H. }
  split.
  - destruct (Hstep f ltac:(left)) as [Hs|Hs]; rewrite Hs, ?Hid; done.
  - intros (g & [->|Hg]%elem_of_cons & Hst); [by rewrite Hst|].
    destruct (Hstep f ltac:(left)) as [Hs|Hs]; rewrite Hs; [|done]. apply IH2. by exists g.
Qed.

Lemma ref_overruled_false f :
  ref_overruled facts f = false <->
  forall o, o ∈ facts -> fact_table_key o = fact_table_key f ->
    fact_sequence o <= fact_sequence f /\
    (fact_sequence o = fact_sequence f -> fact_value o = fact_value f).
Proof.
  unfold ref_overruled. rewrite <- not_true_iff_false, existsb_exists. split.
  - intros Hno o Ho [= Hk Hs]. split.
    + apply Z.nlt_ge. intros Hlt. apply Hno. exists o. split; [by apply list_elem_of_In|].
      rewrite !(bool_decide_eq_true_2 (_ = _)) by done. by rewrite (proj2 (Z.ltb_lt _ _) Hlt).
    + intros Heq. destruct (Z.eqb_spec (fact_value o) (fact_value f)) as [|Hne]; [done|].
      exfalso. apply Hno. exists o. split; [by apply list_elem_of_In|].
      rewrite !(bool_decide_eq_true_2 (_ = _)) by done. rewrite (proj2 (Z.eqb_eq _ _) Heq).
      rewrite (proj2 (Z.eqb_neq _ _) Hne). by rewrite orb_true_r.
  - intros Hall (o & Ho & Hb). apply list_elem_of_In in Ho. rewrite !andb_true_iff in Hb.
    destruct Hb as [[Hk Hs] Hb]. apply bool_decide_eq_true in Hk, Hs.
    destruct (Hall o Ho) as [Hle Hval]; [unfold fact_table_key; congruence|].
    apply orb_true_iff in Hb as [Hb|Hb]; [apply Z.ltb_lt in Hb; lia|].
    apply andb_true_iff in Hb as [Heq%Z.eqb_eq Hne%negb_true_iff%Z.eqb_neq]. by apply Hne, Hval.
Qed.

(** What [ref_observe] does, on the validator's state. *)
Definition observe_v (v : VState) (f : EvidenceFact) : VState :=
  if bool_decide (admissible f) && negb (ref_overruled facts f)
  then match tables_subject d (fact_subject f) with
       | Some i => v_store v (fact_kind f) i (fact_value f)
       | None => v
       end
  else v.

Lemma observe_fold fs v :
  Forall (fun f => known_kind f /\ in_u64 (fact_value f)) fs ->
  fold_left (ref_observe d lk auth facts) fs (forget v) = forget (fold_left observe_v fs v).
Proof.
  intros H. revert v. induction H as [|f fs [Hk Hv] Hfs IH]; intros v; [done|]. cbn [fold_left].
  by rewrite ref_observe_agrees, IH.
Qed.

Lemma observe_idle fs v :
  (forall f v, f ∈ fs -> observe_v v f = v) -> fold_left observe_v fs v = v.
Proof.
  intros H. induction fs as [|f fs IH] in v, H |- *; [done|]. cbn [fold_left].
  rewrite H by left. apply IH. intros g w Hg. apply H. by right.
Qed.

(** The facts of one key leave what the validator reconciles from them. *)
Lemma group_agrees v notes k :
  fold_left observe_v (key_facts k facts) v = (v_entry d auth (v, notes) (k, key_facts k facts)).1.
Proof.
  set (fs := key_facts k facts).
  assert (Hfs : forall f, f ∈ fs <-> f ∈ facts /\ known_kind f /\ fact_table_key f = k).
  { intros f. unfold fs, key_facts. rewrite list_elem_of_filter. unfold known_kind. tauto. }
  assert (Hkey : forall f, f ∈ fs -> fact_kind f = ek_kind k /\ fact_subject f = ek_subject k).
  { intros f (_ & _ & <-)%Hfs. done. }
  pose proof (evidence_clear_agrees limits n Hcl k) as Hag. fold fs in Hag.
  destruct (scan_agreeing d auth limits Hr fs Hag) as [Hconf Hscan].
  unfold v_entry. destruct (tables_subject d (ek_subject k)) as [i|] eqn:Hi.
  2:{ apply observe_idle. intros f w Hf. unfold observe_v. destruct (Hkey f Hf) as [_ ->].
      rewrite Hi. by destruct (_ && _). }
  rewrite Hconf. destruct Hscan as [[Hnone ->]|(Hu & g & (Hg & Hga & Hmax) & Hval & _)].
  { apply observe_idle. intros f w Hf. unfold observe_v.
    by rewrite bool_decide_eq_false_2 by (by apply Hnone). }
  rewrite Hu, Hval. cbn [negb fst].
  assert (Hstep : forall f, f ∈ fs -> admissible f -> ref_overruled facts f = false ->
    forall w, observe_v w f = v_store w (ek_kind k) i (fact_value f)).
  { intros f Hf Ha Ho w. unfold observe_v. rewrite (bool_decide_eq_true_2 _ Ha), Ho. cbn [negb andb].
    destruct (Hkey f Hf) as [-> ->]. by rewrite Hi. }
  assert (Hfree : ref_overruled facts g = false).
  { apply ref_overruled_false. intros o Ho Hok. destruct (decide (o = g)) as [->|Hne]; [done|].
    apply Hfs in Hg as (Hg & Hgk & Hgkey). destruct (Hcl o g Ho Hg Hok Hne) as [Hoa Hov].
    split; [|done]. apply Hmax; [|done]. apply Hfs. split; [done|]. pose proof (f_equal ek_kind Hok) as Hkk. cbn in Hkk.
    split; [unfold known_kind in *; by rewrite Hkk|congruence]. }
  apply (fold_same observe_v (fun w => v_store w (ek_kind k) i (fact_value g))).
  - intros w. apply v_store_twice.
  - intros f Hf. unfold observe_v at 1. destruct (decide (admissible f)) as [Ha|Ha].
    2:{ left. intros w. by rewrite bool_decide_eq_false_2. }
    destruct (ref_overruled facts f) eqn:Ho.
    { left. intros w. by rewrite andb_false_r. }
    right. intros w. rewrite (Hstep f Hf Ha Ho w). f_equal.
    destruct (proj1 (ref_overruled_false f) Ho g) as [Hle Heq].
    + by apply Hfs in Hg as [Hin _].
    + apply Hfs in Hg as (_ & _ & ->). by apply Hfs in Hf as (_ & _ & ->).
    + symmetry. apply Heq. specialize (Hmax f Hf Ha). lia.
  - exists g. split; [done|]. by apply Hstep.
Qed.

Context (Hsort : StronglySorted (le_by fact_lt) facts).

(** Both checkers and the planner start from the same state. *)
Lemma ref_initial_agrees : ref_initial d lk auth facts = rview (request_initial limits n).
Proof.
  unfold rview. rewrite <- (initial_v_view limits n Hr (evidence_clear_agrees _ _ Hcl)).
  assert (Hkeys : StronglySorted (fun f g => lex_lt (evidence_key_key (fact_table_key g))
                               (evidence_key_key (fact_table_key f)) = false) facts).
  { clear -Hsort. induction Hsort as [|f l Hl IH Hf]; [constructor|]. constructor; [by apply IH|].
    eapply Forall_impl; [exact Hf|]. intros g Hg. unfold le_by, fact_lt, lt_on in Hg.
    change (fact_key g) with (evidence_key_key (fact_table_key g) ++
      [AuthorityDomain.to_u8 (fact_source_domain g); fact_source g; fact_sequence g;
       fact_generation g; fact_value g; fact_id g]) in Hg.
    change (fact_key f) with (evidence_key_key (fact_table_key f) ++
      [AuthorityDomain.to_u8 (fact_source_domain f); fact_source f; fact_sequence f;
       fact_generation f; fact_value f; fact_id f]) in Hg.
    rewrite lex_lt_app in Hg by done. by destruct (lex_lt (evidence_key_key (fact_table_key g)) _). }
  destruct (grouped_concat facts Hkeys) as [Hcat _].
  assert (Hskip : forall fs s, fold_left (ref_observe d lk auth facts) fs s =
    fold_left (ref_observe d lk auth facts) (filter known_kind fs) s).
  { induction fs as [|f fs IH]; intros s; [done|]. rewrite filter_cons. cbn [fold_left].
    case_decide as Hk; [apply IH|]. rewrite <- IH. f_equal. unfold ref_observe, ref_admits.
    unfold known_kind in Hk. by destruct (EvidenceKind.is_valid _). }
  unfold ref_initial, initial_v, v_reconcile. rewrite Hskip, <- Hcat.
  change (ref_empty d) with (forget (v_empty d)).
  assert (Hall : forall k fs, (k, fs) ∈ grouped_facts facts -> fs = key_facts k facts)
    by (intros; by apply grouped_entry).
  assert (Hnum : Forall (fun f => known_kind f /\ in_u64 (fact_value f)) (concat (map snd (grouped_facts facts)))).
  { rewrite Hcat. apply Forall_forall. intros f [Hk Hf]%list_elem_of_filter. split; [done|].
    rewrite Forall_forall in Hty. by apply Hty. }
  rewrite observe_fold by exact Hnum. f_equal. clear Hcat Hnum Hskip.
  unfold grouped_facts in *. destruct (fold_left group_fact facts ([], [])) as [m notes]. simpl in *.
  revert notes. generalize (v_empty d) as v. induction m as [|[k fs] m IH]; intros v notes; [done|].
  cbn [map concat fold_left snd]. rewrite fold_left_app.
  pose proof (Hall k fs ltac:(left)) as ->. rewrite (group_agrees v notes k).
  destruct (v_entry d auth (v, notes) (k, key_facts k facts)) as [v' notes'].
  apply IH. intros; apply Hall; by right.
Qed.
End Evidence.

(** ** One step *)

Section Step.
Context (n : PlanRequest) (limits : ModelLimits).
Abbreviation d := (req_definition n).
Abbreviation ix := (indexer_build d).
Abbreviation c := (compiled_build d ix).
Abbreviation table := (request_table limits n).
Abbreviation lk := (lookup_build d).
Context (Hr : search_ready d limits) (Hl : limits_ok limits) (Hag : evidence_agrees limits n)
  (Hsep : Forall uses_separate (actions d))
  (Hsmall : Forall (fun r => resource_kind r = ResourceKind.REUSABLE -> capacity r < 2 ^ 31)
              (resources d)).

Lemma ref_shortfall_agrees s targets :
  ref_shortfall d (rview s) targets =
  sum_shortfall (if targets then target_reachable else required_reachable) d s.
Proof. exact (shortfall_agrees n s targets). Qed.

Lemma ref_goal_agrees s g : ref_goal n (rview s) g = goal_satisfied ix s g.
Proof.
  unfold ref_goal, goal_satisfied. rewrite (lookup_subject_eq d limits Hr), (tables_subject_eq d (rdy_ids _ _ Hr)).
  destruct (subject_index _ _) as [i|]; [|done].
  destruct (goal_kind g); cbn [rview forget view rs_link_known rs_link_up rs_node_known rs_node_up
    rs_resource_known rs_restored rs_service_known rs_reachable v_link_known v_link_up v_node_known
    v_node_up v_resource_known v_restored v_service_known v_reachable]; rewrite ?negb_orb;
    try done; by repeat case_match.
Qed.

Lemma ref_dependency_agrees s dep :
  ref_dependency n (rview s) dep = true <-> check_dependency_v n 0 (view s) dep = [].
Proof.
  unfold ref_dependency, check_dependency_v. rewrite (lookup_action_eq d limits Hr).
  destruct (action_index _ _); [|done]. rewrite note_nil, Z.leb_le, Z.ltb_ge. done.
Qed.

Lemma fold_left_same {A B} (f g : B -> A -> B) (l : list A) z :
  (forall z x, f z x = g z x) -> fold_left f l z = fold_left g l z.
Proof. intros H. induction l as [|x l IH] in z |- *; [done|]. cbn [fold_left]. by rewrite H, IH. Qed.

Lemma fold_count {A} (p : A -> bool) (P : A -> Prop) `{!forall x, Decision (P x)} (l : list A) z :
  (forall x, x ∈ l -> p x = true <-> P x) -> in_u32 z -> z + sizez l < 2 ^ 32 ->
  fold_left (fun total x => if p x then u32 (total + 1) else total) l z = z + sizez (filter P l).
Proof.
  intros Hp. induction l as [|x l IH] in z, Hp |- *; intros Hz Hlt; [unfold sizez; simpl; lia|].
  cbn [fold_left]. rewrite filter_cons. unfold sizez in *. cbn [length] in Hlt. unfold in_u32 in Hz.
  pose proof (Hp x ltac:(left)) as Hx.
  assert (Hrest : forall y, y ∈ l -> p y = true <-> P y) by (intros; apply Hp; by right).
  destruct (p x) eqn:Hpx.
  - rewrite decide_True by (by apply Hx). rewrite u32_small by (unfold in_u32; lia).
    rewrite IH by (try done; unfold in_u32; lia). cbn [length]. lia.
  - rewrite decide_False by (intros HP; apply Hx in HP; done). rewrite IH by (try done; unfold in_u32; lia). done.
Qed.

Lemma ref_selected_agrees s group :
  sizez (actions d) < 2 ^ 32 -> ref_selected n (rview s) group = selected_v n (view s) group.
Proof.
  intros Hsz. unfold ref_selected, selected_v.
  set (P := fun candidate => v_occurrences (view s) !!! candidate <> 0 /\
              group ∈ exclusion_groups (actions d !!! candidate)).
  set (p := fun candidate => negb (rs_occurrences (rview s) !!! candidate =? 0) &&
              existsb (fun other => other =? group) (exclusion_groups (actions d !!! candidate))).
  assert (Hlen : sizez (seq 0 (length (actions d))) = sizez (actions d))
    by (unfold sizez; by rewrite length_seq).
  assert (Hf : sizez (filter P (seq 0 (length (actions d)))) <= sizez (actions d)).
  { rewrite <- Hlen. unfold sizez. pose proof (length_filter P (seq 0 (length (actions d)))). lia. }
  assert (H0 : 0 <= sizez (filter P (seq 0 (length (actions d))))) by (unfold sizez; lia).
  rewrite u32_small by (unfold in_u32; lia).
  transitivity (fold_left (fun total x => if p x then u32 (total + 1) else total)
                  (seq 0 (length (actions d))) 0).
  { apply fold_left_same. intros z k. unfold p. by destruct (_ =? 0). }
  rewrite (fold_count p P); [lia| |unfold in_u32; lia|lia]. intros k _. unfold p, P.
  rewrite andb_true_iff, negb_true_iff, Z.eqb_neq, existsb_exists.
  split; intros [? H]; (split; [done|]).
  - destruct H as (x & Hx & <-%Z.eqb_eq). by apply list_elem_of_In.
  - exists group. split; [by apply list_elem_of_In|apply Z.eqb_refl].
Qed.

Lemma ref_exclusion_agrees s group :
  sizez (actions d) < 2 ^ 32 ->
  ref_exclusion n (rview s) group = true <-> check_exclusion_v n 0 (view s) group = [].
Proof.
  intros Hsz. unfold ref_exclusion, check_exclusion_v. rewrite (lookup_group_eq d limits Hr).
  destruct (group_index _ _); [|done]. rewrite note_nil, ref_selected_agrees by done.
  rewrite Z.ltb_lt, Z.leb_gt. done.
Qed.

Lemma ref_precondition_agrees s p :
  ref_precondition lk (rview s) p = true <-> (check_precondition_v n 0 (view s) p).1 = [].
Proof.
  unfold ref_precondition, check_precondition_v, precondition_ok.
  rewrite (lookup_subject_eq d limits Hr). destruct (tables_subject _ _) as [i|]; [|done].
  destruct (pre_kind p); cbn [rview forget view rs_link_known rs_link_up rs_node_known rs_node_up
    rs_resource_known rs_available rs_service_known rs_reachable rs_occurrences v_link_known v_link_up
    v_node_known v_node_up v_resource_known v_available v_service_known v_reachable v_occurrences];
    try done;
    repeat match goal with |- context [negb (?x =? 0)] => destruct (x =? 0) end; cbn [negb andb fst];
    try done; by rewrite note_nil, negb_false_iff.
Qed.

Lemma ref_overlapping_agrees position resource hs units :
  Forall (fun h : Z * Z => 0 <= h.1 < position /\ 0 <= h.2) hs -> position < 2 ^ 32 ->
  ref_overlapping position resource hs units = overlapping position resource hs units.
Proof.
  intros Hp Hpos. unfold ref_overlapping, overlapping. revert units.
  induction Hp as [|[p u] hs [Hh Hu] Hp IH]; intros units; [done|]. cbn [fold_left fst snd] in *.
  rewrite IH. rewrite (u64_small (position - p)) by (unfold in_u64; lia).
  rewrite (u32_small (position - p)) by (unfold in_u32; lia).
  rewrite (proj2 (Z.eqb_neq (position - p) 0)) by lia. by rewrite (proj2 (Z.eqb_neq position p)) by lia.
Qed.

Lemma ref_use_agrees position s holds history u :
  position < 2 ^ 32 -> holds_agree d position holds history ->
  ref_use n position (rview s) history u = true <-> check_use_v n position (view s) history u = [].
Proof.
  intros Hpos Hh. unfold ref_use, check_use_v. rewrite (lookup_resource_eq d limits Hr).
  destruct (resource_index d (use_resource u)) as [i|] eqn:Hi; [|done].
  pose proof (find_index_Some _ _ _ Hi) as (Hlt & _).
  destruct (bool_decide _).
  - cbn [rview forget view rs_resource_known rs_available v_resource_known v_available].
    destruct (_ =? 0); [done|]. rewrite note_nil, Z.ltb_ge. cbn [negb andb]. by rewrite Z.leb_le.
  - rewrite note_nil, Z.ltb_ge, Z.leb_le.
    by rewrite ref_overlapping_agrees by (done || apply (ha_past _ _ _ _ Hh i Hlt)).
Qed.

(** Effects *)

Lemma ref_effect_agrees s e :
  effect_wf d e ->
  ref_effect n (rview s) e =
  match apply_effect d ix s e with Ok s' => Some (rview s') | Err _ => None end.
Proof.
  intros (_ & _ & _ & Hv). unfold ref_effect, apply_effect.
  rewrite (lookup_subject_eq d limits Hr), (tables_subject_eq d (rdy_ids _ _ Hr)).
  destruct (subject_index ix (eff_subject e)) as [i|]; [|done]. cbn [mbind option_bind].
  unfold effect_value_wf in Hv.
  destruct (eff_kind e); cbn [rview forget view rs_service_known rs_reachable v_service_known v_reachable];
    try reflexivity; try match type of Hv with _ /\ _ =>
      destruct Hv as [Hpos _]; rewrite (proj2 (Z.ltb_ge _ _) Hpos) end; cbn [orb];
    cbv zeta; repeat match goal with |- context [if ?b then _ else _] => destruct b end; reflexivity.
Qed.

Lemma ref_effects_agree s es :
  Forall (effect_wf d) es ->
  ref_effects n (rview s) es =
  match foldM (apply_effect d ix) s es with Ok s' => Some (rview s') | Err _ => None end.
Proof.
  intros H. revert s. induction H as [|e es He Hes IH]; intros s; [done|].
  cbn [ref_effects foldM]. rewrite ref_effect_agrees by done.
  destruct (apply_effect d ix s e) as [s'|]; cbn [mbind option_bind rbind]; [apply IH|done].
Qed.

(** Consumption within the available units, and the holds that start. *)
Lemma ref_take_agrees position uses s history :
  length (resource_available s) = length (resources d) -> NoDup (map use_resource uses) ->
  Forall (affordable n s) uses ->
  ref_take n position (rview s) history uses =
  Some (rview (fold_left (consume d)
          (zip (map (fun u => index_of (use_resource u) (resource_ids ix)) uses) uses) s),
        fold_left (push_hold d position) uses history).
Proof.
  revert s history. induction uses as [|u uses IH]; intros s history Hlen Hnd Hu; [done|].
  cbn [map] in Hnd. apply NoDup_cons in Hnd as [Hno Hnd]. apply Forall_cons in Hu as [Hu0 Hu].
  destruct Hu0 as (i & Hi & Haff). cbn [map zip zip_with fold_left ref_take].
  rewrite (lookup_resource_eq d limits Hr), Hi. cbn [mbind option_bind].
  pose proof Hi as Hi'. rewrite (resource_index_eq d (rdy_ids _ _ Hr)) in Hi'. rewrite Hi'.
  pose proof (index_of_bound _ _ _ _ Hi') as Hlt.
  assert (Hnext : Forall (affordable n (consume d s (Some i, u))) uses).
  { apply Forall_forall. intros v Hv. rewrite Forall_forall in Hu.
    destruct (Hu v Hv) as (j & Hj & Hvaff). exists j. split; [done|]. intros Hk.
    destruct (Hvaff Hk) as [Hkn Hav]. pose proof Hj as Hj'.
    rewrite (resource_index_eq d (rdy_ids _ _ Hr)) in Hj'.
    pose proof (index_of_bound _ _ _ _ Hj') as Hjlt.
    assert (Hne : i <> j).
    { intros ->. apply Hno. rewrite (resource_index_inj n limits Hr _ _ _ Hi Hj). by apply list_elem_of_fmap_2. }
    split; [unfold consume; by case_decide|].
    rewrite consume_available by (rewrite Hlen; exact Hjlt). by rewrite decide_False by (by intros [? _]). }
  assert (Hlen' : length (resource_available (consume d s (Some i, u))) = length (resources d))
    by (by rewrite consume_length).
  specialize (IH (consume d s (Some i, u)) (push_hold d position history u) Hlen' Hnd Hnext).
  rewrite <- IH. clear IH Hnext Hlen'. unfold push_hold at 1. rewrite Hi.
  assert (Hkind : resource_kind (resources d !!! i) = ResourceKind.CONSUMABLE \/
                  resource_kind (resources d !!! i) = ResourceKind.REUSABLE).
  { pose proof (Forall_lookup_total _ _ _ (dwf_resource _ _ (rdy_wf _ _ Hr)) Hlt) as [Hkc _].
    destruct (resource_kind _); [by left|by right|done]. }
  destruct Hkind as [Hk|Hk].
  - rewrite (bool_decide_eq_true_2 _ Hk), bool_decide_eq_false_2 by (by rewrite Hk). f_equal.
    unfold consume. cbn [fst snd]. simpl default. by rewrite decide_True by done.
  - rewrite (bool_decide_eq_true_2 _ Hk), bool_decide_eq_false_2 by (by rewrite Hk). f_equal.
    unfold consume. cbn [fst snd]. simpl default. by rewrite decide_False by (by rewrite Hk).
Qed.

(** ** The checks of a step *)

Lemma forallb_Forall {A} (p : A -> bool) (P : A -> Prop) l :
  (forall x, x ∈ l -> p x = true <-> P x) -> forallb p l = true <-> Forall P l.
Proof.
  intros H. rewrite forallb_forall, Forall_forall. setoid_rewrite <- list_elem_of_In.
  split; intros Hall x Hx; by apply (H x Hx), Hall.
Qed.

Lemma Forall_zip_map {A B} (f : A -> B) (P : B * A -> Prop) l :
  Forall P (zip (map f l) l) <-> Forall (fun x => P (f x, x)) l.
Proof.
  induction l as [|x l IH]; [by split|]. cbn [map zip zip_with]. rewrite !Forall_cons.
  by setoid_rewrite IH.
Qed.

Lemma concat_map_nil_iff {A B} (f : A -> list B) l : concat (map f l) = [] <-> Forall (fun x => f x = []) l.
Proof.
  split; [apply concat_map_nil|]. intros H. apply concat_nil. intros x Hx.
  rewrite Forall_forall in H. by apply H.
Qed.

(** What [Search::apply] checks before the effects of action [k]. *)
Record admits (s : FabricState) (holds : HoldProfile) (k : nat) : Prop := {
  adm_occurrence : action_occurrences s !!! k < max_occurrences (actions d !!! k);
  adm_dependencies : Forall (fun x => check_dependency d s x = Ok tt)
    (zip (action_dependency_indices c !!! k) (dependencies (actions d !!! k)));
  adm_exclusion : action_occurrences s !!! k = 0 ->
    Forall (fun g => check_exclusion d c s g = Ok tt) (action_group_indices c !!! k);
  adm_preconditions : exists bs,
    foldM (check_precondition ix table s) [] (preconditions (actions d !!! k)) = Ok bs;
  adm_uses : Forall (fun x => check_use d s holds x = Ok tt)
    (zip (action_resource_indices c !!! k) (resource_uses (actions d !!! k)));
  adm_reversible : reversibility (actions d !!! k) = Reversibility.IRREVERSIBLE ->
    allow_irreversible_actions (req_policy n) = true
}.

Lemma dependencies_iff s k :
  (k < length (actions d))%nat ->
  forallb (ref_dependency n (rview s)) (dependencies (actions d !!! k)) = true <->
  Forall (fun x => check_dependency d s x = Ok tt)
    (zip (action_dependency_indices c !!! k) (dependencies (actions d !!! k))).
Proof.
  intros Hk. unfold compiled_build. destruct (fold_left _ _ _). cbn [action_dependency_indices].
  rewrite lookup_total_map by done. rewrite Forall_zip_map. apply forallb_Forall. intros dep _.
  rewrite ref_dependency_agrees. split.
  - apply (dependency_back n limits Hr).
  - apply (dependency_agrees n limits Hr).
Qed.

Lemma exclusions_iff s k :
  state_ok d s -> (k < length (actions d))%nat ->
  forallb (ref_exclusion n (rview s)) (exclusion_groups (actions d !!! k)) = true <->
  Forall (fun g => check_exclusion d c s g = Ok tt) (action_group_indices c !!! k).
Proof.
  intros Hs Hk. pose proof (actions_in_range n limits Hr Hl k Hk) as Hsz.
  rewrite (forallb_Forall _ (fun g => check_exclusion_v n 0 (view s) g = []))
    by (intros g _; by apply ref_exclusion_agrees).
  rewrite <- concat_map_nil_iff. split.
  - by apply (exclusion_back n limits Hr Hl).
  - by apply (exclusion_agrees n limits Hr).
Qed.

Lemma preconditions_iff s k :
  forallb (ref_precondition lk (rview s)) (preconditions (actions d !!! k)) = true <->
  exists bs, foldM (check_precondition ix table s) [] (preconditions (actions d !!! k)) = Ok bs.
Proof.
  rewrite (forallb_Forall _ (fun p => (check_precondition_v n 0 (view s) p).1 = []))
    by (intros p _; apply ref_precondition_agrees).
  rewrite <- concat_map_nil_iff, <- (map_map (check_precondition_v n 0 (view s)) fst). split.
  - apply (preconditions_back n limits Hr).
  - intros [bs Hbs]. by apply (preconditions_agree n limits Hr Hag 0) in Hbs as [? _].
Qed.

Lemma uses_iff s holds history position k :
  (k < length (actions d))%nat -> 0 <= position < 2 ^ 32 -> holds_agree d position holds history ->
  Forall hold_typed holds ->
  forallb (ref_use n position (rview s) history) (resource_uses (actions d !!! k)) = true <->
  Forall (fun x => check_use d s holds x = Ok tt)
    (zip (action_resource_indices c !!! k) (resource_uses (actions d !!! k))).
Proof.
  intros Hk Hpos Hh Hty. rewrite compiled_resource_index by done.
  rewrite (forallb_Forall _ (fun u => check_use_v n position (view s) history u = []))
    by (intros u _; apply (ref_use_agrees position s holds); [lia|done]).
  split.
  - intros H. apply Forall_forall. intros x Hx. pose proof (zip_map_elem _ _ _ Hx) as [_ Hu].
    rewrite Forall_forall in H. by eapply (use_back n limits Hr Hsmall); [..|apply H].
  - intros H. apply Forall_forall. intros u Hu.
    by eapply (use_agrees n limits Hr position s holds history k u).
Qed.

(** The reference solver's checks are the planner's. *)
Lemma ref_ready_iff s holds run k :
  state_ok d s -> Forall hold_typed holds -> (k < length (actions d))%nat ->
  rr_state run = rview s -> 0 <= rr_position run < 2 ^ 32 ->
  holds_agree d (rr_position run) holds (rr_holds run) ->
  ref_ready n run k = true <-> admits s holds k.
Proof.
  intros Hs Hty Hk Hst Hpos Hh. unfold ref_ready. cbv zeta. rewrite Hst, !andb_true_iff.
  change (rs_occurrences (rview s)) with (action_occurrences s).
  rewrite Z.ltb_lt, dependencies_iff, preconditions_iff, (uses_iff s holds) by done.
  assert (Hex : (if action_occurrences s !!! k =? 0
      then forallb (ref_exclusion n (rview s)) (exclusion_groups (actions d !!! k)) else true) = true <->
    (action_occurrences s !!! k = 0 ->
     Forall (fun g => check_exclusion d c s g = Ok tt) (action_group_indices c !!! k))).
  { destruct (Z.eqb_spec (action_occurrences s !!! k) 0) as [H0|H0]; [|done].
    rewrite exclusions_iff by done. split; auto. }
  rewrite Hex, negb_true_iff, andb_false_iff, negb_false_iff, bool_decide_eq_false.
  split.
  - intros [[[[[? ?] ?] ?] Hrev] ?]. split; try done. intros Hi. by destruct Hrev.
  - intros []. split_and!; try done.
    destruct (allow_irreversible_actions (req_policy n)) eqn:Hall; [by right|left].
    intros Hi. by specialize (adm_reversible0 Hi).
Qed.

(** ** A step of the one is a step of the other *)

(** The reference solver's variables after the planner's execution [r] of [len] steps. *)
Record ref_agrees (r : Run) (len : nat) (run : RefRun) : Prop := {
  rga_state : rr_state run = rview (run_state r);
  rga_floor : rr_floor run = floor_gap d (run_state r);
  rga_completeness : rr_completeness run = incompleteness d (run_state r);
  rga_position : rr_position run = Z.of_nat len;
  rga_holds : holds_agree d (Z.of_nat len) (run_holds r) (rr_holds run)
}.

Lemma ref_account_agrees o a before after :
  length o = 8%nat -> Forall (fun z => 0 <= z) o -> action_typed a -> in_u64 before -> in_u64 after ->
  let o' := zip_with Z.add o (component (delta_of a before after)) in
  Forall in_u64 o' -> ref_account o a before after = o'.
Proof.
  intros Hlen Hpos [] Hb Ha o' Ho'. subst o'. unfold ref_account.
  do 8 (destruct o as [|? o]; [discriminate|]). destruct o; [|discriminate]. clear Hlen.
  cbn [component delta_of zip_with] in *.
  repeat match goal with H : Forall _ (_ :: _) |- _ => apply Forall_cons in H as [? H] end.
  cbn [lookup_total list_lookup_total].
  destruct (before <? after); rewrite !u64_small by assumption; rewrite !Z.add_0_r; reflexivity.
Qed.

(** The state an admitted action leaves, before its occurrence is counted. *)
Definition consumed_by (k : nat) (affected : FabricState) : FabricState :=
  fold_left (consume d)
    (zip (action_resource_indices c !!! k) (resource_uses (actions d !!! k))) affected.

Lemma ref_take_admitted s holds history k affected len :
  state_ok d s -> Forall hold_typed holds -> (k < length (actions d))%nat ->
  holds_agree d (Z.of_nat len) holds history -> Z.of_nat len + 1 < 2 ^ 32 -> admits s holds k ->
  foldM (apply_effect d ix) s (effects (actions d !!! k)) = Ok affected ->
  ref_take n (Z.of_nat len) (rview affected) history (resource_uses (actions d !!! k)) =
    Some (rview (consumed_by k affected),
          fold_left (push_hold d (Z.of_nat len)) (resource_uses (actions d !!! k)) history) /\
  action_occurrences (consumed_by k affected) = action_occurrences s /\
  tick (consumed_by k affected) = tick s.
Proof.
  intros Hs Hty Hk Hh Hlen Had He. unfold consumed_by.
  pose proof (adm_uses _ _ _ Had) as Huses. rewrite compiled_resource_index in * by done.
  pose proof (Forall_lookup_total _ _ _ Hsep Hk) as Hsepk.
  assert (Hpos : 0 <= Z.of_nat len < 2 ^ 32) by lia.
  split.
  - apply ref_take_agrees; [|apply Hsepk|].
    + apply (foldM_effects_ok d _ _ _ Hs) in He. apply (ssh_available d _ (sok_shape d _ He)).
    + apply Forall_forall. intros u Hu.
      destruct (use_agrees n limits Hr (Z.of_nat len) s holds history k u Hk Hu Hpos Hh Hty Huses)
        as (_ & i & Hi & Hcons & _).
      by eapply (affordable_after n limits Hr).
  - edestruct (fold_consume_frame d) as (-> & -> & _). by eapply foldM_effects_frame.
Qed.

Lemma step_admits s holds inc k t :
  step_facts d (req_policy n) table s holds inc k t -> admits s holds k.
Proof.
  intros []. split; try done. destruct sf_preconditions as (bs & Hf & _). by exists bs.
Qed.

Lemma effects_typed k : (k < length (actions d))%nat -> Forall (effect_wf d) (effects (actions d !!! k)).
Proof.
  intros Hk. apply (awf_effects _ _ _ (Forall_lookup_total _ _ _ (dwf_action _ _ (rdy_wf _ _ Hr)) Hk)).
Qed.

(** An admitted step of the planner. *)
Lemma ref_step_agrees r k t len run :
  run_ok d (request_initial limits n) r -> (k < length (actions d))%nat ->
  Transition.apply d ix c (req_policy n) table (run_state r) (run_holds r)
    (incompleteness d (run_state r)) k = Ok t ->
  Z.of_nat len + 1 < 2 ^ 32 -> ref_agrees r len run ->
  let cost := zip_with Z.add (run_cost r) (component (tr_delta t)) in
  exists run', ref_step n run (action_at d k) = Some run' /\
    ref_agrees (mkRun (tr_state t) (tr_holds t) cost) (S len) run' /\
    (rr_objective run = run_cost r -> Forall in_u64 cost -> rr_objective run' = cost).
Proof.
  intros Ho Hk Ht Hlen []. cbv zeta.
  pose proof (apply_floor_gap _ _ _ _ _ _ _ _ Ht) as Hfloor.
  pose proof (apply_inv _ _ _ _ _ _ _ _ Ht) as Hsf. pose proof (step_admits _ _ _ _ _ Hsf) as Had.
  destruct (consumed_agrees n limits Hr Hsep r k t len (rr_holds run) [] Ho Hk Hsf Hlen rga_holds0)
    as (_ & _ & _ & _ & _ & Hh).
  destruct Hsf. change sf_action with (actions d !!! k) in *. clear sf_action.
  destruct sf_effects as (affected & He & Hst & _ & _).
  destruct (ref_take_admitted _ _ (rr_holds run) k affected len (ro_state _ _ _ Ho) (ro_holds _ _ _ Ho)
              Hk rga_holds0 Hlen Had He) as (Htake & Hocc & _).
  change (fold_left (consume d) sf_uses affected) with (consumed_by k affected) in Hst.
  assert (Hgap : forall level, sum_shortfall level d (consumed_by k affected) =
                   sum_shortfall level d (tr_state t))
    by (intros level; apply floor_gap_congr; by rewrite Hst).
  unfold ref_step. rewrite (lookup_action_eq d limits Hr), (action_found n limits Hr k Hk).
  cbn [mbind option_bind].
  rewrite (proj2 (ref_ready_iff _ (run_holds r) run k (ro_state _ _ _ Ho) (ro_holds _ _ _ Ho) Hk
    rga_state0 ltac:(lia) ltac:(by rewrite rga_position0))) by exact Had.
  cbn [negb]. rewrite rga_state0, ref_effects_agree, He by (by apply effects_typed).
  cbn [mbind option_bind]. rewrite rga_position0, Htake. cbn [mbind option_bind].
  rewrite !ref_shortfall_agrees, !Hgap, rga_floor0, rga_completeness0.
  fold (incompleteness d (tr_state t)). fold (floor_gap d (tr_state t)).
  rewrite (proj2 (Z.ltb_ge _ _) Hfloor). eexists. split; [reflexivity|].
  split; [split|]; cbn [rr_state rr_floor rr_completeness rr_position rr_holds rr_objective run_state
    run_holds run_cost]; try done.
  - rewrite Hst. unfold rview, forget, view, finish, ref_count. cbn. by rewrite Hocc.
  - rewrite u64_small by (unfold in_u64; lia). lia.
  - rewrite Nat2Z.inj_succ. unfold Z.succ. exact Hh.
  - intros -> Hcost. rewrite sf_delta in Hcost |- *. destruct (ro_cost _ _ _ Ho) as [Hl8 Hpos].
    apply ref_account_agrees; first [done|apply sum_shortfall_range|idtac].
    apply (action_typed_at d (rdy_typed _ _ Hr) k Hk).
Qed.

(** A step of the reference solver is an admitted step of the planner. *)
Lemma ref_step_back r len run id run' :
  run_ok d (request_initial limits n) r -> ref_agrees r len run -> Z.of_nat len + 1 < 2 ^ 32 ->
  ref_step n run id = Some run' ->
  Forall (fun a => tick (run_state r) + duration_ticks a < 2 ^ 64) (actions d) ->
  exists k t, (k < length (actions d))%nat /\ action_at d k = id /\
    Transition.apply d ix c (req_policy n) table (run_state r) (run_holds r)
      (incompleteness d (run_state r)) k = Ok t /\
    tick (tr_state t) = tick (run_state r) + duration_ticks (actions d !!! k).
Proof.
  intros Ho [] Hlen Hstep Hticks. unfold ref_step in Hstep.
  apply bind_Some in Hstep as (k & Hk & Hstep). rewrite (lookup_action_eq d limits Hr) in Hk.
  apply find_index_Some in Hk as (Hk & Hid & _). bool_cases.
  destruct (ref_ready n run k) eqn:Hready; [|discriminate]. cbn [negb] in Hstep.
  apply (ref_ready_iff _ (run_holds r) run k (ro_state _ _ _ Ho) (ro_holds _ _ _ Ho) Hk
    rga_state0 ltac:(lia) ltac:(by rewrite rga_position0)) in Hready as Had.
  rewrite rga_state0, ref_effects_agree in Hstep by (by apply effects_typed).
  destruct (foldM (apply_effect d ix) (run_state r) (effects (actions d !!! k))) as [affected|] eqn:He;
    [|discriminate].
  cbn [mbind option_bind] in Hstep.
  destruct (ref_take_admitted _ _ (rr_holds run) k affected len (ro_state _ _ _ Ho) (ro_holds _ _ _ Ho)
              Hk rga_holds0 Hlen Had He) as (Htake & _ & Htick).
  rewrite rga_position0, Htake in Hstep. cbn [mbind option_bind] in Hstep.
  rewrite !ref_shortfall_agrees, rga_floor0 in Hstep.
  destruct (Z.ltb_spec (floor_gap d (run_state r)) (sum_shortfall required_reachable d (consumed_by k affected)))
    as [|Hfloor]; [discriminate|]. clear Hstep.
  destruct Had. destruct adm_preconditions0 as [bs Hbs].
  pose proof (Forall_lookup_total _ _ _ Hticks Hk) as Hdur. cbv beta in Hdur.
  pose proof (action_typed_at d (rdy_typed _ _ Hr) k Hk) as Hty.
  pose proof (sty_tick _ (sok_typed _ _ (ro_state _ _ _ Ho))) as Hti.
  pose proof (aty_duration _ Hty) as Hd.
  assert (Hadd : add_overflow (tick (run_state r)) (duration_ticks (actions d !!! k)) =
                 Some (tick (run_state r) + duration_ticks (actions d !!! k)))
    by (apply add_overflow_Some; [done|done|split; [done|unfold in_u64 in *; lia]]).
  pose proof (apply_intro n limits (run_state r) (run_holds r) (incompleteness d (run_state r)) k bs affected
    (tick (run_state r) + duration_ticks (actions d !!! k)) adm_occurrence0 adm_dependencies0 adm_exclusion0 Hbs
    adm_uses0 He Hfloor adm_reversible0 ltac:(unfold consumed_by in Htick; rewrite Htick; exact Hadd)) as Hok.
  destruct (Transition.apply _ _ _ _ _ _ _ _ _) as [t|] eqn:Ht; [|done].
  exists k, t. split; [done|]. split; [done|]. split; [done|].
  destruct (sf_effects _ _ _ _ _ _ _ _ (apply_inv _ _ _ _ _ _ _ _ Ht)) as (? & _ & -> & _ & Hend).
  pose proof (eq_trans (eq_sym Hadd) Hend) as [= Heq]. symmetry. exact Heq.
Qed.
End Step.

(** ** Sequences *)

(** Costs and durations that cannot overflow within the reference solver's depth. *)
Definition modest (a : ActionSpec) : Prop := cost_units a < 2 ^ 60 /\ duration_ticks a < 2 ^ 60.

Section Sequences.
Context (n : PlanRequest) (limits : ModelLimits).
Abbreviation d := (req_definition n).
Abbreviation ix := (indexer_build d).
Abbreviation c := (compiled_build d ix).
Abbreviation table := (request_table limits n).
Abbreviation run_exec := (exec d ix c (req_policy n) table (request_initial limits n)).
Context (Hr : search_ready d limits) (Hl : limits_ok limits) (Hcl : evidence_clear limits n)
  (Hsep : Forall uses_separate (actions d)) (Ht : request_typed n)
  (Hsmall : Forall (fun r => resource_kind r = ResourceKind.REUSABLE -> capacity r < 2 ^ 31)
              (resources d))
  (Hsort : StronglySorted (le_by fact_lt) (ev_facts (req_evidence n))).

Lemma ref_steps_app run l1 l2 :
  ref_steps n run (l1 ++ l2) = (run ← ref_steps n run l1; ref_steps n run l2).
Proof.
  revert run. induction l1 as [|id l1 IH]; intros run; [done|]. cbn [app ref_steps].
  destruct (ref_step n run id) as [run1|]; cbn [mbind option_bind]; [apply IH|done].
Qed.

Lemma ref_start_agrees :
  ref_agrees n (mkRun (request_initial limits n) [] (replicate 8 0)) 0 (ref_start n).
Proof.
  unfold ref_start. cbv zeta.
  rewrite (ref_initial_agrees n limits Hr Hcl (rty_facts _ Ht) Hsort).
  split; cbn [rr_state rr_floor rr_completeness rr_position rr_holds run_state run_holds]; try done.
  - apply (ref_shortfall_agrees n _ false).
  - apply (ref_shortfall_agrees n _ true).
  - by apply (holds_agree_initial limits).
Qed.

Lemma exec_facts path r : run_exec path = Ok r -> run_ok d (request_initial limits n) r.
Proof.
  destruct (request_initial_ok limits n Ht) as [Hs Hp].
  by apply (exec_run_ok d limits (req_policy n) table Hr (ready_resources limits n Hl Hr)).
Qed.

(** Every execution of the planner is a sequence the reference checker runs. *)
Lemma ref_steps_agree path r :
  run_exec path = Ok r -> sizez path < 2 ^ 32 ->
  exists run, ref_steps n (ref_start n) (map (action_at d) path) = Some run /\
    ref_agrees n r (length path) run /\
    (Forall in_u64 (run_cost r) -> rr_objective run = run_cost r).
Proof.
  destruct (request_initial_ok limits n Ht) as [Hs Hp].
  revert r. induction path as [|k path IH] using rev_ind; intros r He Hlen.
  { injection He as <-. exists (ref_start n). split; [done|]. split; [exact ref_start_agrees|done]. }
  unfold sizez in Hlen. rewrite length_app in Hlen. cbn [length] in Hlen.
  apply exec_snoc in He as (r0 & H0 & Hstep).
  destruct (IH r0 H0) as (run & Hrun & Hga & Hob); [unfold sizez; lia|].
  assert (Hpre : Forall in_u64 (run_cost r) -> Forall in_u64 (run_cost r0))
    by exact (cost_prefix d limits (req_policy n) table (request_initial limits n) Hr r0 k r
                (exec_facts _ _ H0) Hstep).
  apply exec_step_inv in Hstep as (Hk & t & Htr & ->).
  destruct (ref_step_agrees n limits Hr Hl (evidence_clear_agrees _ _ Hcl) Hsep Hsmall r0 k t (length path) run
              (exec_facts _ _ H0) Hk Htr ltac:(lia) Hga) as (run' & Hst & Hga' & Hob').
  exists run'. split; [|split].
  - rewrite map_app, ref_steps_app, Hrun. cbn [mbind option_bind map ref_steps]. by rewrite Hst.
  - rewrite length_app, Nat.add_1_r. exact Hga'.
  - intros Hu. apply Hob'; [|exact Hu]. apply Hob, Hpre, Hu.
Qed.

Lemma sum_shortfall_bound level s :
  Forall (fun x => in_u32 (level x)) (services d) ->
  sum_shortfall level d s <= sizez (services d) * 2 ^ 32.
Proof.
  intros Hlev. unfold sum_shortfall.
  enough (Hg : forall l z, Forall (fun i => (i < length (services d))%nat) l -> 0 <= z ->
    fold_left (fun total index => u64 (total + shortfall (level (services d !!! index))
      (service_known s !!! index) (service_reachable s !!! index))) l z <= z + sizez l * 2 ^ 32).
  { specialize (Hg (seq 0 (length (services d))) 0). unfold sizez in *. rewrite length_seq in Hg.
    apply Hg; [|done]. apply Forall_forall. intros i Hi%elem_of_seq. lia. }
  induction l as [|i l IH]; intros z Hf Hz; [unfold sizez; simpl; lia|].
  apply Forall_cons in Hf as [Hi Hf]. cbn [fold_left].
  assert (Hsh : 0 <= shortfall (level (services d !!! i)) (service_known s !!! i) (service_reachable s !!! i)
                <= 2 ^ 32).
  { pose proof (Forall_lookup_total _ _ _ Hlev Hi) as Hlv. cbv beta in Hlv. unfold shortfall, in_u32 in *.
    repeat case_match; try lia. unfold u32. pose proof (Z.mod_pos_bound (level (services d !!! i) - service_reachable s !!! i) (2 ^ 32)).
    lia. }
  assert (Hu : 0 <= u64 (z + shortfall (level (services d !!! i)) (service_known s !!! i) (service_reachable s !!! i))
                 <= z + shortfall (level (services d !!! i)) (service_known s !!! i) (service_reachable s !!! i)).
  { rewrite u64_mod. split; [apply Z.mod_pos_bound; lia|]. apply Z.mod_le; lia. }
  etransitivity; [apply IH; [done|apply Hu]|]. unfold sizez in *. cbn [length]. lia.
Qed.

(** ** Costs *)

Context (Hmod : Forall modest (actions d)) (Hsvc : sizez (services d) <= 2 ^ 28).

Lemma zip_add_bound xs ys a b :
  Forall (fun z => z <= a) xs -> Forall (fun z => z <= b) ys ->
  Forall (fun z => z <= a + b) (zip_with Z.add xs ys).
Proof.
  intros Hx. revert ys. induction Hx as [|x xs Hx Hxs IH]; intros ys Hy; [constructor|].
  destruct Hy as [|y ys Hy Hys]; [constructor|]. cbn [zip_with]. constructor; [lia|by apply IH].
Qed.

Lemma exec_bounds path r :
  run_exec path = Ok r ->
  Forall (fun z => z <= sizez path * 2 ^ 60) (run_cost r) /\ tick (run_state r) <= sizez path * 2 ^ 60.
Proof.
  revert r. induction path as [|k path IH] using rev_ind; intros r He.
  { injection He as <-. cbn [run_cost run_state]. split; [by repeat constructor|].
    destruct (materialise_pristine d ix table) as [_ Hz]. unfold request_initial.
    change (sizez (@nil nat) * 2 ^ 60) with 0. lia. }
  apply exec_snoc in He as (r0 & H0 & (Hk & t & Htr & ->)%exec_step_inv).
  destruct (IH r0 H0) as [Hc Hti]. cbn [run_cost run_state].
  replace (sizez (path ++ [k]) * 2 ^ 60) with (sizez path * 2 ^ 60 + 2 ^ 60)
    by (unfold sizez; rewrite length_app; cbn [length]; lia).
  pose proof (apply_inv _ _ _ _ _ _ _ _ Htr) as []. change sf_action with (actions d !!! k) in *.
  pose proof (action_typed_at d (rdy_typed _ _ Hr) k Hk) as [].
  pose proof (Forall_lookup_total _ _ _ Hmod Hk) as [Hcost Hdur].
  assert (Hinc : incompleteness d (tr_state t) <= 2 ^ 60).
  { etransitivity; [apply sum_shortfall_bound|lia].
    eapply Forall_impl; [apply (dty_services d (rdy_typed _ _ Hr))|]. by intros x (_ & _ & ? & _). }
  pose proof (sum_shortfall_range d target_reachable (run_state r0)) as Hinc0.
  fold (incompleteness d (run_state r0)) in Hinc0. split.
  - apply zip_add_bound; [exact Hc|]. rewrite sf_delta. cbn [delta_of component].
    unfold in_u32, in_u64 in *.
    repeat (apply Forall_cons; split); try apply Forall_nil; try exact I; try lia.
    destruct (_ <? _); lia.
  - destruct sf_effects as (affected & _ & -> & _ & Hadd). cbn [finish tick].
    apply add_overflow_Some in Hadd as [-> _]; [lia| |done].
    apply (sty_tick _ (sok_typed _ _ (ro_state _ _ _ (exec_facts _ _ H0)))).
Qed.

Lemma exec_small path r : run_exec path = Ok r -> sizez path <= 12 -> Forall in_u64 (run_cost r).
Proof.
  intros He Hlen. destruct (exec_bounds path r He) as [Hb _].
  destruct (ro_cost _ _ _ (exec_facts _ _ He)) as [_ Hpos]. rewrite Forall_forall in *.
  intros z Hz. specialize (Hb z Hz). specialize (Hpos z Hz). unfold in_u64. lia.
Qed.

(** A short sequence the reference checker runs is an execution of the planner. *)
Lemma ref_steps_back ids : forall path r run run',
  run_exec path = Ok r -> ref_agrees n r (length path) run -> ref_steps n run ids = Some run' ->
  sizez path + sizez ids <= 12 ->
  exists rest r', run_exec (path ++ rest) = Ok r' /\ map (action_at d) rest = ids.
Proof.
  induction ids as [|id ids IH]; intros path r run run' He Hga Hst Hlen.
  { exists [], r. by rewrite app_nil_r. }
  cbn [ref_steps] in Hst. apply bind_Some in Hst as (run1 & H1 & Hst).
  unfold sizez in Hlen. cbn [length] in Hlen. destruct (exec_bounds path r He) as [_ Hti].
  pose proof (evidence_clear_agrees _ _ Hcl) as Hag.
  destruct (ref_step_back n limits Hr Hl Hag Hsep Hsmall r (length path) run id run1
              (exec_facts _ _ He) Hga ltac:(lia) H1) as (k & t & Hk & Hid & Htr & _).
  { eapply Forall_impl; [exact Hmod|]. intros a [_ Hdur]. unfold sizez in Hti. lia. }
  destruct (ref_step_agrees n limits Hr Hl Hag Hsep Hsmall r k t (length path) run
              (exec_facts _ _ He) Hk Htr ltac:(lia) Hga) as (run1' & H1' & Hga' & _).
  rewrite Hid, H1 in H1'. injection H1' as <-.
  assert (Hex : run_exec (path ++ [k]) = Ok (mkRun (tr_state t) (tr_holds t)
    (zip_with Z.add (run_cost r) (component (tr_delta t))))).
  { apply exec_snoc. exists r. split; [done|]. unfold exec_step. rewrite decide_True by done.
    by rewrite Htr. }
  destruct (IH (path ++ [k]) _ run1 run' Hex) as (rest & r' & Hr' & Hmap).
  - by rewrite length_app, Nat.add_1_r.
  - done.
  - unfold sizez. rewrite length_app. cbn [length]. lia.
  - exists (k :: rest), r'. rewrite <- app_assoc in Hr'. split; [done|]. cbn [map]. by rewrite Hid, Hmap.
Qed.
End Sequences.

(** ** The two optima *)

(** Without overflow the reference solver's occurrence bound is the planner's. *)
Lemma occurrence_bound_compiled acts b b' :
  fold_left add_step_bound acts (b, false) = (b', false) -> ref_occurrence_bound b acts = b'.
Proof.
  assert (Hstuck : forall acts b, (fold_left add_step_bound acts (b, true)).2 = true).
  { clear. induction acts as [|a acts IH]; intros b; [done|]. cbn [fold_left].
    unfold add_step_bound at 2. cbn [fst snd]. destruct (add_overflow b _); apply IH. }
  revert b. induction acts as [|a acts IH]; intros b; cbn [fold_left ref_occurrence_bound];
    [by intros [= <-]|].
  unfold add_step_bound at 2. cbn [fst snd]. destruct (add_overflow b _); [apply IH|].
  intros H. specialize (Hstuck acts b). by rewrite H in Hstuck.
Qed.

Section Optima.
Context (r : PlanRequest) (limits : ReferenceLimits).
Abbreviation l := default_model_limits.
Abbreviation n := (normalise r).
Abbreviation d := (req_definition n).
Abbreviation ix := (indexer_build d).
Abbreviation c := (compiled_build d ix).
Abbreviation run_exec := (exec d ix c (req_policy n) (request_table l n) (request_initial l n)).
Context (Ht : request_typed r) (Ha : admissible l n) (Hcl : evidence_clear l n)
  (Hsep : Forall uses_separate (actions d))
  (Hsmall : Forall (fun x => resource_kind x = ResourceKind.REUSABLE -> capacity x < 2 ^ 31)
              (resources d))
  (Hmod : Forall modest (actions d)).

Lemma optima_ready : search_ready d l.
Proof. by apply admissible_ready. Qed.

Lemma optima_sorted : StronglySorted (le_by fact_lt) (ev_facts (req_evidence n)).
Proof. cbn [normalise req_evidence evidence_canonicalise ev_facts]. apply sort_by_sorted; apply _. Qed.

Lemma optima_services : sizez (services d) <= 2 ^ 28.
Proof.
  destruct (dwf_sizes _ _ (adm_definition _ _ Ha)) as (_ & _ & Hs & _).
  etransitivity; [exact Hs|]. vm_compute. discriminate.
Qed.

(** An admitted request passes the reference solver's authority check. *)
Lemma ref_authority_passes :
  require_current_authority (req_policy n) && negb (forallb (ref_authorised n) (actions d)) = false.
Proof.
  destruct (require_current_authority (req_policy n)) eqn:Hc; [|done]. cbn [andb].
  apply negb_false_iff, (forallb_Forall (ref_authorised n) (authorised n)).
  - intros a Hin. pose proof (actions_current l n Ha Hc) as Hall. rewrite Forall_forall in Hall.
    split; [intros _; by apply Hall|]. intros [Hcur (b & Hb & Hlev)]. unfold ref_authorised.
    rewrite Hb. apply evaluate_domain_current_find in Hcur as (b' & Hb' & _ & Hev).
    rewrite Hb in Hb'. injection Hb' as <-. rewrite (bool_decide_eq_true_2 _ Hev).
    by rewrite (proj2 (Z.ltb_ge _ _) Hlev).
  - exact (actions_current l n Ha Hc).
Qed.

Lemma ref_goals_agree s : forallb (ref_goal n (rview s)) (goals d) = goals_satisfied d ix s.
Proof.
  unfold goals_satisfied. induction (goals d) as [|g gs IH]; [done|]. cbn [forallb].
  by rewrite IH, (ref_goal_agrees n l optima_ready).
Qed.

(** What the reference checker makes of an execution. *)
Lemma evaluate_execution path run :
  run_exec path = Ok run -> sizez path <= max_plan_steps (req_policy n) -> sizez path < 2 ^ 32 ->
  Forall in_u64 (run_cost run) ->
  reference_evaluate r (map (action_at d) path) =
  if goals_satisfied d ix (run_state run) then Some (mkObjective (run_cost run)) else None.
Proof.
  intros He Hmax Hlen Hu.
  change (reference_evaluate r) with (ref_evaluate n). unfold ref_evaluate.
  rewrite (proj2 (Z.ltb_ge _ _)) by (unfold sizez in *; by rewrite length_map).
  rewrite ref_authority_passes.
  destruct (ref_steps_agree n l optima_ready default_limits_ok Hcl Hsep (normalise_typed r Ht) Hsmall
              optima_sorted path run He Hlen) as (rr & -> & Hga & Hob).
  cbn [mbind option_bind]. by rewrite (rga_state _ _ _ _ Hga), ref_goals_agree, Hob.
Qed.

(** The two programs bound the number of steps alike. *)
Lemma occurrence_bound_agrees :
  ref_occurrence_bound 0 (actions d) = absolute_step_bound c /\ occurrence_bound_overflows c = false.
Proof.
  destruct (step_bound_fold (max_action_occurrences l) (actions d) 0 false) as (b' & Hf & _).
  - apply Forall_forall. intros a Hin. apply list_elem_of_lookup in Hin as [i Hi].
    pose proof (lookup_lt_Some _ _ _ Hi) as Hlti. apply list_lookup_total_correct in Hi. subst a.
    destruct (awf_occurrences _ _ _ (Forall_lookup_total _ _ _ (dwf_action _ _ (adm_definition _ _ Ha)) Hlti)).
    destruct (aty_occurrences _ (action_typed_at d (rdy_typed _ _ optima_ready) i Hlti)). lia.
  - done.
  - destruct (dwf_sizes _ _ (adm_definition _ _ Ha)) as (_ & _ & _ & _ & Hs & _).
    pose proof (lok_steps _ default_limits_ok). unfold sizez in *.
    assert (0 <= max_action_occurrences l) by (vm_compute; discriminate). nia.
  - pose proof (occurrence_bound_compiled _ _ _ Hf) as Hocc. unfold compiled_build.
    cbn [normalise req_definition] in *. by rewrite Hf.
Qed.

(** A valid sequence is an execution within the planner's step bound. *)
Lemma evaluate_back enc objective :
  reference_limits_typed limits -> rf_kind (reference_solve r limits) = ReferenceKind.COMPLETED ->
  reference_evaluate r enc = Some objective -> sizez enc <= rl_max_plan_steps limits ->
  exists path run, run_exec path = Ok run /\ enc = map (action_at d) path /\
    sizez path <= bound d (req_policy n) /\
    goals_satisfied d ix (run_state run) = true /\ objective = mkObjective (run_cost run).
Proof.
  intros Hlt Hk Ho Hlen.
  assert (Hlist : enc ∈ all_sequences (ref_normalise r) limits).
  { apply (valid_listed r limits Ht Hlt enc objective); [|done]. by rewrite reference_evaluate_normalise. }
  pose proof (sequences_depth r limits Ht Hlt enc Hlist) as Hdepth.
  pose proof (completed_depth r limits Hk) as H12. pose proof Ho as Hev.
  change (reference_evaluate r) with (ref_evaluate n) in Ho. unfold ref_evaluate in Ho.
  destruct (_ <? _); [discriminate|]. destruct (_ && _); [discriminate|].
  apply bind_Some in Ho as (rr & Hrun & _).
  pose proof (ref_start_agrees n l optima_ready Hcl (normalise_typed r Ht) optima_sorted) as Hstart.
  destruct (ref_steps_back n l optima_ready default_limits_ok Hcl Hsep (normalise_typed r Ht) Hsmall
              Hmod optima_services enc [] _ (ref_start n) rr eq_refl Hstart Hrun)
    as (path & run & He & <-); [change (sizez (@nil nat)) with 0; lia|].
  cbn [app] in He. exists path, run. split; [done|]. split; [done|].
  assert (Hsz : sizez path = sizez (map (action_at d) path)) by (unfold sizez; by rewrite length_map).
  rewrite <- Hsz in *. pose proof (rty_steps _ Ht) as [_ Hp64].
  unfold ref_depth_bound in Hdepth, H12. cbn [ref_normalise req_policy req_definition] in Hdepth, H12.
  assert (Hb : sizez path <= bound d (req_policy n)).
  { destruct occurrence_bound_agrees as [Hocc Hov]. unfold bound, step_bound. rewrite Hov.
    cbn [normalise req_policy req_definition] in *. lia. }
  split; [done|].
  assert (Hu : Forall in_u64 (run_cost run)).
  { eapply (exec_small n l optima_ready default_limits_ok (normalise_typed r Ht) Hmod optima_services);
      [exact He|lia]. }
  rewrite (evaluate_execution path run He) in Hev; [|unfold bound in Hb; lia|lia|done].
  destruct (goals_satisfied _ _ _); [|done]. by injection Hev.
Qed.

(** The plan the reference solver reports is an execution of the planner's. *)
Lemma completed_executes :
  reference_limits_typed limits ->
  let o := reference_solve r limits in
  rf_kind o = ReferenceKind.COMPLETED -> rf_plan_found o = true ->
  exists path run, run_exec path = Ok run /\ rf_encoding o = map (action_at d) path /\
    sizez path <= bound d (req_policy n) /\ goals_satisfied d ix (run_state run) = true /\
    rf_objective o = mkObjective (run_cost run).
Proof.
  intros Hl o Hk Hf. destruct (completed_exact r limits Ht Hl Hk) as [_ Hbest].
  destruct (Hbest Hf) as (Hev & Hlen & _). by apply evaluate_back.
Qed.

(** A plan of the planner passes the reference checker with its objective. *)
Lemma planned_evaluates p :
  plan_sound l n p -> reference_evaluate r (encoding p) = Some (plan_objective p).
Proof.
  intros Hs. destruct (psd_execution _ _ _ Hs) as (path & run & (He & Henc & Hlen & Hobj & Hu & _) & Hg & _).
  pose proof (ready_bound _ n default_limits_ok optima_ready (rty_steps _ Ht)) as Hbnd.
  rewrite Henc, (evaluate_execution path run He), Hg, Hobj;
    [done|unfold bound in Hlen; lia|lia|done].
Qed.

(** A completed enumeration that admits plans of its length reports a sound plan. *)
Lemma completed_confirms p :
  reference_limits_typed limits -> plan_sound l n p ->
  let o := reference_solve r limits in
  rf_kind o = ReferenceKind.COMPLETED -> sizez (encoding p) <= rl_max_plan_steps limits ->
  rf_plan_found o = true /\ rf_encoding o = encoding p /\ rf_objective o = plan_objective p.
Proof.
  intros Hlt Hs o Hk Hsz. pose proof (planned_evaluates p Hs) as Hev.
  destruct (completed_exact r limits Ht Hlt Hk) as [Hno Hbest]. fold o in Hno, Hbest.
  destruct (rf_plan_found o) eqn:Hf; [|by rewrite (Hno eq_refl _ Hsz) in Hev].
  destruct (Hbest eq_refl) as (Hbev & _ & Hmin). specialize (Hmin _ _ Hsz Hev).
  destruct (completed_executes Hlt Hk Hf) as (path' & run' & He' & Henc' & Hlen' & Hg' & Hob').
  destruct (psd_execution _ _ _ Hs) as (path & run & (_ & Henc & _ & Hobj & _) & _ & Hopt).
  specialize (Hopt path' run' He' Hlen' Hg'). unfold score_le, run_score in Hopt.
  rewrite <- (reference_evaluate_normalise r) in Hev, Hbev.
  pose proof (evaluate_length _ _ _ Hev) as H8. pose proof (evaluate_length _ _ _ Hbev) as H8'.
  rewrite scored_plan_less_lex in Hmin by congruence. fold o in Henc', Hob'.
  rewrite Hob', Henc', Hobj, Henc in *. cbn [component] in *.
  pose proof (lex_lt_total _ _ Hmin Hopt) as Heq.
  apply app_inj_1 in Heq as [-> ->]; [done|congruence].
Qed.
End Optima.


Lemma example_clear : evidence_clear default_model_limits (normalise example_request).
Proof. apply distinct_keys_clear, (bool_decide_unpack _). vm_compute. done. Qed.


(** ** Where the oracle differs *)

(** The example with a newer observation of link 1 under an older generation. *)
Definition stale_request : PlanRequest :=
  mkRequest 1 3 9 1 example_definition
    (mkEvidence 3 9 (mkFact 9 EvidenceKind.LINK_OPERATIONAL (subject_of_link 1) 1 3
                       AuthorityDomain.FABRIC_STATE 50 TrustLabel.REAL 8 :: example_facts))
    example_authority example_policy [].

(** Clear evidence is needed: the reference solver lets a fact be superseded by
    any newer fact, also by one that is itself not admissible. A stale
    observation of link 1 makes the link unknown to it, while the planner and the
    validator use the older, admissible one; the planner finds a plan its own
    validator accepts, and the oracle, with every sequence examined, finds none. *)
Lemma stale_fact_blinds_oracle :
  match plan default_model_limits stale_request with
  | Some res =>
      match pr_plan res with
      | Some p => vr_valid (validate_plan stale_request p) = true /\
                  reference_check_sequence stale_request (encoding p) = false
      | None => False
      end
  | None => False
  end /\
  rf_kind (reference_solve stale_request six_steps) = ReferenceKind.COMPLETED /\
  rf_plan_found (reference_solve stale_request six_steps) = false.
Proof. vm_compute. done. Qed.

(** Small capacities are needed: like the validator the oracle adds overlapping
    holds in 32 bits, and accepts a sequence the planner proves impossible. *)
Lemma oracle_accepts_wrapping_holds :
  reference_check_sequence hold_request [10; 11] = true /\
  option_map pr_decision (plan default_model_limits hold_request) = Some PlanDecision.PROVEN_INFEASIBLE.
Proof. vm_compute. done. Qed.
