(* ===== verification/Render.v ===== *)
(** * Human readable renderings

    Models the string forms of the results: [Digest::hex] and the version strings
    of [src/ids.cpp], [ExplanationLog::render] of [src/model.cpp], the renderings
    of plans and results of [src/plan.cpp] and [ValidationReport::render] of
    [src/validate.cpp]. What is written to an output stream is the string. *)
From S2P Require Import Prelude Ids Canonical Model Objective Domain Plan Validate.

(** ** Text *)

Definition newline : string := String (Ascii.ascii_of_nat 10) "".

(** One line of a stream, from the pieces written to it. *)
Definition text (pieces : list string) : string := String.concat "" pieces.
Definition line (pieces : list string) : string := text pieces +:+ newline.
Definition lines {A} (f : A -> string) (l : list A) : string := text (map f l).

Definition number (n : Z) : string := pretty n.
Definition boolean_text (b : bool) : string := if b then "true" else "false".

(** A text after its separator, or nothing when it is empty. *)
Definition suffix (separator : string) (s : string) : string :=
  if bool_decide (s = "") then "" else separator +:+ s.

(** ** Digests and versions *)

Definition hex_digit (n : Z) : Ascii.ascii :=
  Ascii.ascii_of_nat (Z.to_nat (if n <? 10 then 48 + n else 87 + n)).

(** [count] hexadecimal digits, the least significant last. *)
Fixpoint hex_digits (count : nat) (n : Z) : string :=
  match count with
  | O => ""
  | S count => hex_digits count (Z.shiftr n 4) +:+ String (hex_digit (Z.land n 15)) ""
  end.

(** [Digest::hex]: two words printed with [%016llx]. *)
Definition hex (d : Digest) : string := hex_digits 16 (digest_hi d) +:+ hex_digits 16 (digest_lo d).

Definition kVersionMajor : Z := 1.
Definition kVersionMinor : Z := 0.
Definition kVersionPatch : Z := 0.
Definition kDomainFormatVersion : Z := 1.

Definition version_string : string :=
  text [number kVersionMajor; "."; number kVersionMinor; "."; number kVersionPatch].

(** The formats of the journal and of the transport are both version 1. *)
Definition version_string_with_build : string :=
  text [version_string; " (domain format "; number kDomainFormatVersion;
        ", persistence format "; number 1; ", protocol "; number 1; ")"].

(** ** Explanations *)

Definition render_explanation (e : Explanation) : string :=
  line [ReasonCode.to_string (ex_code e);
        (if bool_decide (subject_kind (ex_subject e) = SubjectKind.NONE) then ""
         else " " +:+ describe (ex_subject e));
        (if (ex_detail_a e =? 0) && (ex_detail_b e =? 0) then ""
         else text [" ["; number (ex_detail_a e); ","; number (ex_detail_b e); "]"]);
        suffix ": " (ex_text e)].

(** [ExplanationLog::render] *)
Definition render_log (log : ExplanationLog) : string :=
  lines render_explanation (log_entries log) +:+
  (if log_overflowed log then line ["(explanation log truncated at capacity)"] else "").

(** ** Plans and results *)

Definition render_step (s : PlanStep) : string :=
  line ["  step "; number (step_index s); " action "; number (step_action s); " occurrence ";
        number (step_occurrence s); " ticks ["; number (step_start_tick s); ",";
        number (step_end_tick s); ")"; " requires ";
        AuthorityDomain.to_string (step_required_domain s); "/";
        AuthorityLevel.to_string (step_required_level s); "@";
        number (step_required_generation s); " issued ";
        AuthorityLevel.to_string (step_issued_level s);
        if step_irreversible s then " IRREVERSIBLE"
        else " compensable-by " +:+ number (step_compensation s)].

(** [RecoveryPlan::render] *)
Definition render_plan (p : RecoveryPlan) : string :=
  line ["plan "; number (plan_id p); " request "; number (plan_request p); " epoch ";
        number (plan_epoch p); " boot "; number (plan_boot p); " attempt ";
        number (plan_attempt p)] +:+
  line ["  objective "; objective_to_string (plan_objective p); " digest "; hex (plan_digest p)] +:+
  lines render_step (plan_steps p).

Definition render_certificate (c : InfeasibilityCertificate) : string :=
  line ["  proof "; ProofKind.to_string (cert_kind c); " expanded ";
        number (cert_nodes_expanded c); " generated "; number (cert_nodes_generated c)] +:+
  lines (fun assumption => line ["    assumption: "; assumption]) (cert_assumptions c).

Definition render_unresolved (subjects : list Subject) : string :=
  match subjects with
  | [] => ""
  | _ => line ("  unresolved subjects:" :: map (fun s => " " +:+ describe s) subjects)
  end.

(** [PlanningResult::render] *)
Definition render_result (r : PlanningResult) : string :=
  line ["decision "; PlanDecision.to_string (pr_decision r); " request "; number (pr_request r);
        " epoch "; number (pr_epoch r); " boot "; number (pr_boot r)] +:+
  line ["  nodes expanded "; number (st_nodes_expanded (pr_stats r)); " generated ";
        number (st_nodes_generated (pr_stats r)); " budget ";
        number (st_budget_nodes (pr_stats r)); " budget_exhausted ";
        boolean_text (st_budget_exhausted (pr_stats r)); " frontier_empty ";
        boolean_text (st_frontier_emptied (pr_stats r))] +:+
  from_option render_plan "" (pr_plan r) +:+
  from_option render_certificate "" (pr_certificate r) +:+
  render_unresolved (pr_unresolved_subjects r) +:+
  lines (fun e => line ["  "; ReasonCode.to_string (ex_code e); suffix ": " (ex_text e)])
    (pr_explanations r).

(** ** Validation reports *)

Definition render_finding (f : ValidationFinding) : string :=
  line ["  "; ReasonCode.to_string (vf_code f);
        (if vf_step f =? kPlanLevel then "" else " step " +:+ number (vf_step f));
        (if bool_decide (subject_kind (vf_subject f) = SubjectKind.NONE) then ""
         else " " +:+ describe (vf_subject f));
        suffix ": " (vf_text f)].

(** [ValidationReport::render] *)
Definition render_report (r : ValidationReport) : string :=
  line [(if vr_valid r then "VALID" else "INVALID"); " plan "; hex (vr_stated_digest r);
        " recomputed "; hex (vr_recomputed_digest r); " objective ";
        objective_to_string (vr_recomputed_objective r)] +:+
  lines render_finding (vr_findings r).

(** ** Lemmas *)

Lemma length_hex_digits count n : String.length (hex_digits count n) = count.
Proof.
  revert n; induction count as [|count IH]; intros n; [done|]. cbn [hex_digits].
  rewrite length_append_string, IH. cbn. lia.
Qed.

Lemma hex_digit_inj a b : 0 <= a < 16 -> 0 <= b < 16 -> hex_digit a = hex_digit b -> a = b.
Proof.
  assert (Hin : forall x, 0 <= x < 16 -> x ∈ map Z.of_nat (seq 0 16)).
  { intros x Hx. apply list_elem_of_fmap. exists (Z.to_nat x). split; [lia|]. apply elem_of_seq. lia. }
  assert (Hall : forallb (fun x => forallb (fun y =>
            implb (Ascii.eqb (hex_digit x) (hex_digit y)) (x =? y)) (map Z.of_nat (seq 0 16)))
            (map Z.of_nat (seq 0 16)) = true) by (vm_compute; reflexivity).
  intros Ha Hb He. rewrite forallb_forall in Hall.
  specialize (Hall a (proj1 (list_elem_of_In _ _) (Hin a Ha))). rewrite forallb_forall in Hall.
  specialize (Hall b (proj1 (list_elem_of_In _ _) (Hin b Hb))).
  rewrite He, Ascii.eqb_refl in Hall. cbn in Hall. by apply Z.eqb_eq.
Qed.

Lemma hex_digits_inj count a b :
  0 <= a < 16 ^ Z.of_nat count -> 0 <= b < 16 ^ Z.of_nat count ->
  hex_digits count a = hex_digits count b -> a = b.
Proof.
  revert a b; induction count as [|count IH]; intros a b Ha Hb H; [change (16 ^ Z.of_nat 0) with 1 in *; lia|].
  cbn [hex_digits] in H. apply string_app_inj in H as [Hhi Hlo]; [|done]. injection Hlo as Hlo.
  rewrite Nat2Z.inj_succ, Z.pow_succ_r in Ha, Hb by lia.
  change 15 with (Z.ones 4) in Hlo. rewrite !Z.land_ones in Hlo by lia. rewrite !Z.shiftr_div_pow2 in Hhi by lia.
  change (2 ^ 4) with 16 in *.
  apply hex_digit_inj in Hlo; [|apply Z.mod_pos_bound; lia|apply Z.mod_pos_bound; lia].
  apply IH in Hhi.
  - rewrite (Z.div_mod a 16), (Z.div_mod b 16) by lia. lia.
  - split; [apply Z.div_pos; lia|]. apply Z.div_lt_upper_bound; lia.
  - split; [apply Z.div_pos; lia|]. apply Z.div_lt_upper_bound; lia.
Qed.

Definition digest_typed (d : Digest) : Prop := in_u64 (digest_hi d) /\ in_u64 (digest_lo d).

(** The rendering of a digest has 32 digits, which is what the buffer of the
    source holds, and identifies the digest. *)
Theorem hex_identifies d d' :
  String.length (hex d) = 32%nat /\
  (digest_typed d -> digest_typed d' -> hex d = hex d' -> d = d').
Proof.
  unfold hex. split; [by rewrite length_append_string, !length_hex_digits|].
  intros [Hh Hl] [Hh' Hl'] H. apply string_app_inj in H as [H1 H2]; [|by rewrite !length_hex_digits].
  destruct d as [h l], d' as [h' l']. unfold in_u64 in *. cbn [digest_hi digest_lo] in *.
  f_equal; [by apply (hex_digits_inj 16)|by apply (hex_digits_inj 16)].
Qed.
