(* ===== verification/Cli.v ===== *)
(** * The command line tool

    Models [src/tools/nrp_cli.cpp]: the built-in scenarios, the generator of
    pseudo-random instances, the parsing of the command line and every command
    of [main]. A run takes the arguments after the program's name, the outcomes
    of the file system calls and the files behind [--path], and returns the exit
    status, what was printed and the files it leaves behind. A conversion of the
    C library ([strtoull]) is written out for 64-bit [unsigned long long]; an
    [unsigned long] is taken to have that width too. *)
From S2P Require Import Prelude Ids Canonical Model Objective Domain DefinitionCheck Plan Journal.
From S2P Require Import Store Planner Validate Reference Render.

(** ** Scenarios *)

Record Scenario := mkScenario { sc_request : PlanRequest; sc_note : string }.

Definition scenario_policy (steps : Z) : PlanPolicy := mkPolicy true true steps 200000 400000 200000 1.

(** Every domain but [COUNT], in the order of the enumeration. *)
Definition bound_domains : list AuthorityDomain.t :=
  map (fun domain => AuthorityDomain.of_u8 (Z.of_nat domain))
    (seq 0 (Z.to_nat (AuthorityDomain.to_u8 AuthorityDomain.COUNT))).

Definition authority_for (epoch : Epoch) (boot : BootId) (generation : Generation) : AuthorityVector :=
  authority_canonicalise (mkAuthority epoch boot
    (map (fun domain => mkBinding domain (100 + AuthorityDomain.to_u8 domain) generation generation
                          AuthorityLevel.AUTHORIZATION) bound_domains)).

(** A fact of the fixtures: generation 3, source 9, sequence 10. *)
Definition synthetic_fact (id : Z) (kind : EvidenceKind.t) (subject : Subject) (value : Z)
  (domain : AuthorityDomain.t) : EvidenceFact :=
  mkFact id kind subject value 3 domain 9 TrustLabel.SYNTHETIC 10.

(** Facts numbered in the order they are observed. *)
Definition observe_all (facts : list (EvidenceKind.t * Subject * Z * AuthorityDomain.t))
  : list EvidenceFact :=
  imap (fun i '(kind, subject, value, domain) =>
    synthetic_fact (1 + Z.of_nat i) kind subject value domain) facts.

Definition set_definition (sc : Scenario) (d : FabricDefinition) : Scenario :=
  let r := sc_request sc in
  mkScenario (mkRequest (req_id r) (req_epoch r) (req_boot r) (req_attempt r) d (req_evidence r)
                (req_authority r) (req_policy r) (req_fences r)) (sc_note sc).

Definition set_evidence (sc : Scenario) (e : EvidenceBundle) : Scenario :=
  let r := sc_request sc in
  mkScenario (mkRequest (req_id r) (req_epoch r) (req_boot r) (req_attempt r) (req_definition r) e
                (req_authority r) (req_policy r) (req_fences r)) (sc_note sc).

Definition set_authority (sc : Scenario) (a : AuthorityVector) : Scenario :=
  let r := sc_request sc in
  mkScenario (mkRequest (req_id r) (req_epoch r) (req_boot r) (req_attempt r) (req_definition r)
                (req_evidence r) a (req_policy r) (req_fences r)) (sc_note sc).

Definition set_policy (sc : Scenario) (p : PlanPolicy) : Scenario :=
  let r := sc_request sc in
  mkScenario (mkRequest (req_id r) (req_epoch r) (req_boot r) (req_attempt r) (req_definition r)
                (req_evidence r) (req_authority r) p (req_fences r)) (sc_note sc).

Definition set_note (sc : Scenario) (note : string) : Scenario := mkScenario (sc_request sc) note.

(** [definition.canonicalise()] and [evidence.canonicalise()] of a scenario. *)
Definition scenario_canonicalise (sc : Scenario) : Scenario :=
  let sc := set_definition sc (canonicalise (req_definition (sc_request sc))) in
  set_evidence sc (evidence_canonicalise (req_evidence (sc_request sc))).

(** The lambda [add] of [teaching]; the identities are assigned after it. *)
Definition teaching_action (id : ActionId) (name : string) (blast cost duration delta : Z)
  (link : LinkId) : ActionSpec :=
  mkAction id name ActionKind.RESTORE Reversibility.IRREVERSIBLE 0 blast blast cost duration 1
    AuthorityDomain.RECOVERY_ADMISSION AuthorityLevel.AUTHORIZATION
    [mkPrecondition PreconditionKind.LINK_NOT_OPERATIONAL (subject_of_link link) 0]
    [mkEffect EffectKind.SET_LINK_OPERATIONAL (subject_of_link link) 1;
     mkEffect EffectKind.SERVICE_REACHABLE_DELTA (subject_of_service 1) delta]
    [mkUse 1 1] [] [].

Definition teaching_definition : FabricDefinition :=
  mkDefinition [mkNode 1 false; mkNode 2 false; mkNode 3 true] [mkLink 1 1 2; mkLink 2 2 3]
    [mkService 1 1 2 2 true] [mkResource 1 ResourceKind.CONSUMABLE 2 0]
    [teaching_action 1 "restore-l1" 1 10 5 1 1; teaching_action 2 "replace-l2" 2 20 7 1 2]
    [mkGoal GoalKind.SERVICE_REACHABLE_AT_LEAST (subject_of_service 1) 2 1] [].

Definition teaching_facts : list EvidenceFact :=
  observe_all
    [(EvidenceKind.LINK_OPERATIONAL, subject_of_link 1, 0, AuthorityDomain.FABRIC_STATE);
     (EvidenceKind.LINK_OPERATIONAL, subject_of_link 2, 0, AuthorityDomain.FABRIC_STATE);
     (EvidenceKind.NODE_OPERATIONAL, subject_of_node 1, 1, AuthorityDomain.FABRIC_STATE);
     (EvidenceKind.NODE_OPERATIONAL, subject_of_node 2, 1, AuthorityDomain.FABRIC_STATE);
     (EvidenceKind.NODE_OPERATIONAL, subject_of_node 3, 1, AuthorityDomain.FABRIC_STATE);
     (EvidenceKind.SERVICE_REACHABLE_ENDPOINTS, subject_of_service 1, 0, AuthorityDomain.FABRIC_STATE);
     (EvidenceKind.RESOURCE_AVAILABLE_UNITS, subject_of_resource 1, 2, AuthorityDomain.RESOURCE_LEASE)].

Definition teaching (steps : Z) : Scenario :=
  scenario_canonicalise (mkScenario
    (mkRequest 1 1 7 1 teaching_definition (mkEvidence 1 7 teaching_facts) (authority_for 1 7 3)
       (scenario_policy steps) []) "SYNTHETIC two-link restoration").

(** Adds a link that is down and that no action restores, and wants it up. *)
Definition unreachable : Scenario :=
  let sc := teaching 6 in
  let d := req_definition (sc_request sc) in
  let e := req_evidence (sc_request sc) in
  let sc := set_definition sc
    (mkDefinition (nodes d) (links d ++ [mkLink 3 1 2]) (services d) (resources d) (actions d)
       (goals d ++ [mkGoal GoalKind.LINK_OPERATIONAL (subject_of_link 3) 1 1]) (groups d)) in
  let sc := set_evidence sc (mkEvidence (ev_epoch e) (ev_boot e)
    (ev_facts e ++ [synthetic_fact 100 EvidenceKind.LINK_OPERATIONAL (subject_of_link 3) 0
                      AuthorityDomain.FABRIC_STATE])) in
  set_note (scenario_canonicalise sc) "SYNTHETIC unreachable goal".

Definition add_dependency (predecessor : ActionId) (a : ActionSpec) : ActionSpec :=
  mkAction (action_id a) (action_name a) (action_kind a) (reversibility a) (compensation a)
    (blast_radius a) (disruption a) (cost_units a) (duration_ticks a) (max_occurrences a)
    (required_domain a) (required_level a) (preconditions a) (effects a) (resource_uses a)
    (dependencies a ++ [mkDependency predecessor 1]) (exclusion_groups a).

Definition cycle : Scenario :=
  let sc := teaching 6 in
  let d := req_definition (sc_request sc) in
  let acts := alter (add_dependency 1) 1%nat (alter (add_dependency 2) 0%nat (actions d)) in
  let sc := set_definition sc (canonicalise
    (mkDefinition (nodes d) (links d) (services d) (resources d) acts (goals d) (groups d))) in
  set_note sc "SYNTHETIC dependency cycle".

Definition stale : Scenario :=
  let sc := teaching 6 in
  let a := req_authority (sc_request sc) in
  let sc := set_authority sc (mkAuthority (auth_epoch a) (auth_boot a)
    (map (fun b => mkBinding (bind_domain b) (bind_authority b) 4 3 (bind_level b))
       (auth_bindings a))) in
  set_note sc "SYNTHETIC stale authority".

Definition partial : Scenario :=
  let sc := teaching 6 in
  let e := req_evidence (sc_request sc) in
  let sc := set_evidence sc (mkEvidence (ev_epoch e) (ev_boot e)
    (filter (fun f => fact_kind f <> EvidenceKind.SERVICE_REACHABLE_ENDPOINTS) (ev_facts e))) in
  set_note sc "SYNTHETIC missing service evidence".

Definition budget : Scenario :=
  let sc := teaching 6 in
  let p := req_policy (sc_request sc) in
  let sc := set_policy sc (mkPolicy (allow_irreversible_actions p) (require_current_authority p)
    (max_plan_steps p) 1 1 1 (budget_scale p)) in
  set_note sc "SYNTHETIC exhausted budget".

(** ** The pseudo-random instances *)

(** A computation that draws numbers: the lambda [next] and its [state]. *)
Definition Gen (A : Type) : Type := Z -> A * Z.
Definition gret {A} (a : A) : Gen A := fun state => (a, state).
Definition gbind {A B} (m : Gen A) (f : A -> Gen B) : Gen B :=
  fun state => let '(a, state) := m state in f a state.

Notation "'draw*' x ':=' m 'in' k" := (gbind m (fun x => k))
  (at level 10, x pattern, m at level 100, k at level 200) : nrp_scope.

Definition next : Gen Z := fun state =>
  let state := u64 (state + 0x9E3779B97F4A7C15) in
  let value := u64 (Z.lxor state (Z.shiftr state 30) * 0xBF58476D1CE4E5B9) in
  let value := u64 (Z.lxor value (Z.shiftr value 27) * 0x94D049BB133111EB) in
  (Z.lxor value (Z.shiftr value 31), state).

(** [next() % n] *)
Definition next_below (n : Z) : Gen Z := draw* value := next in gret (value mod n).

Fixpoint draw_all {A B} (f : A -> Gen B) (l : list A) : Gen (list B) :=
  match l with
  | [] => gret []
  | a :: l => draw* b := f a in draw* bs := draw_all f l in gret (b :: bs)
  end.

Definition random_link (node_count : Z) (i : nat) : Gen LinkSpec :=
  draw* a := next_below node_count in
  draw* b := next_below node_count in
  let a := u64 (1 + a) in
  let b := u64 (1 + b) in
  gret (mkLink (1 + Z.of_nat i) a (if a =? b then u64 (1 + a mod node_count) else b)).

Definition random_service : Gen ServiceSpec :=
  draw* extra := next_below 2 in
  let most := u32 (2 + u32 extra) in
  draw* required := next_below (u32 (most + 1)) in
  let required := u32 required in
  draw* target := next_below (u32 (most - required + 1)) in
  gret (mkService 1 required (u32 (required + u32 target)) most false).

(** [definition.links[next() % definition.links.size()].id] *)
Definition random_link_id (ls : list LinkSpec) : Gen LinkId :=
  draw* i := next_below (sizez ls) in gret (link_id (ls !!! Z.to_nat i)).

Definition random_action (ls : list LinkSpec) (i : nat) : Gen ActionSpec :=
  draw* blast := next_below 4 in
  draw* disruption := next_below 4 in
  draw* cost := next_below 20 in
  draw* duration := next_below 8 in
  draw* link := random_link_id ls in
  draw* coin := next_below 2 in
  gret (mkAction (1 + Z.of_nat i) ("a" +:+ pretty (Z.of_nat i)) ActionKind.RESTORE
          Reversibility.IRREVERSIBLE 0 (u32 blast) (u32 disruption) cost duration 1
          AuthorityDomain.RECOVERY_ADMISSION AuthorityLevel.AUTHORIZATION []
          [if coin =? 0 then mkEffect EffectKind.SET_LINK_OPERATIONAL (subject_of_link link) 1
           else mkEffect EffectKind.SERVICE_REACHABLE_DELTA (subject_of_service 1) 1] [] [] []).

Definition random_definition : Gen FabricDefinition :=
  draw* more_nodes := next_below 2 in
  let node_count := u32 (2 + u32 more_nodes) in
  let ns := map (fun i => mkNode (1 + Z.of_nat i) false) (seq 0 (Z.to_nat node_count)) in
  draw* more_links := next_below 3 in
  draw* ls := draw_all (random_link node_count) (seq 0 (Z.to_nat (u32 (1 + u32 more_links)))) in
  draw* service := random_service in
  draw* more_actions := next_below 3 in
  draw* acts := draw_all (random_action ls) (seq 0 (Z.to_nat (u32 (2 + u32 more_actions)))) in
  draw* goal := random_link_id ls in
  gret (mkDefinition ns ls [service] [] acts
          [mkGoal GoalKind.LINK_OPERATIONAL (subject_of_link goal) 1 1] []).

Definition random_facts (d : FabricDefinition) : Gen (list EvidenceFact) :=
  draw* link_facts := draw_all (fun l =>
    draw* value := next_below 2 in
    gret (EvidenceKind.LINK_OPERATIONAL, subject_of_link (link_id l), value,
          AuthorityDomain.FABRIC_STATE)) (links d) in
  let node_facts := map (fun n =>
    (EvidenceKind.NODE_OPERATIONAL, subject_of_node (node_id n), 1, AuthorityDomain.FABRIC_STATE))
    (nodes d) in
  let service := services d !!! 0%nat in
  draw* reachable := next_below (u32 (max_reachable service + 1)) in
  gret (observe_all (link_facts ++ node_facts ++
    [(EvidenceKind.SERVICE_REACHABLE_ENDPOINTS, subject_of_service (service_id service), reachable,
      AuthorityDomain.FABRIC_STATE)])).

Definition random_instance (seed index : Z) : Scenario :=
  let '((d, facts), _) :=
    (draw* d := random_definition in draw* facts := random_facts d in gret (d, facts))
      (u64 (seed * 1000003 + index)) in
  scenario_canonicalise (mkScenario
    (mkRequest (u32 (1 + index)) 1 7 1 d (mkEvidence 1 7 facts) (authority_for 1 7 3)
       (scenario_policy 5) []) "SYNTHETIC pseudo-random instance").

(** ** The command line *)

Definition is_space (c : Ascii.ascii) : bool :=
  let n := Ascii.nat_of_ascii c in (n =? 32)%nat || ((9 <=? n)%nat && (n <=? 13)%nat).

Definition digit_value (c : Ascii.ascii) : option Z :=
  let n := Z.of_nat (Ascii.nat_of_ascii c) in
  if (48 <=? n) && (n <=? 57) then Some (n - 48) else None.

Fixpoint skip_spaces (s : string) : string :=
  match s with
  | String c rest => if is_space c then skip_spaces rest else s
  | EmptyString => s
  end.

Fixpoint read_digits (value : Z) (s : string) : Z :=
  match s with
  | String c rest =>
      match digit_value c with
      | Some digit => read_digits (10 * value + digit) rest
      | None => value
      end
  | EmptyString => value
  end.

Definition minus : Ascii.ascii := Ascii.ascii_of_nat 45.
Definition plus : Ascii.ascii := Ascii.ascii_of_nat 43.
Definition colon : Ascii.ascii := Ascii.ascii_of_nat 58.

(** [strtoull(s, nullptr, 10)]: white space, a sign, digits; too large a number
    is the maximum, a negative one wraps, no digits are zero. *)
Definition strtoull (s : string) : Z :=
  let s := skip_spaces s in
  let '(negative, digits) :=
    match s with
    | String c rest =>
        if Ascii.eqb c minus then (true, rest) else if Ascii.eqb c plus then (false, rest) else (false, s)
    | EmptyString => (false, s)
    end in
  let value := read_digits 0 digits in
  if UINT64_MAX <? value then UINT64_MAX else if negative then u64 (- value) else value.

(** The value after the first occurrence of a flag. *)
Fixpoint argument (args : list string) (flag fallback : string) : string :=
  match args with
  | a :: ((value :: _) as rest) =>
      if bool_decide (a = flag) then value else argument rest flag fallback
  | _ => fallback
  end.

(** The text behind a prefix. *)
Fixpoint after_prefix (prefix s : string) : option string :=
  match prefix, s with
  | EmptyString, _ => Some s
  | String c prefix, String c' s => if Ascii.eqb c c' then after_prefix prefix s else None
  | _, _ => None
  end.

(** The texts before and after the first occurrence of a character. *)
Fixpoint split_at (mark : Ascii.ascii) (s : string) : option (string * string) :=
  match s with
  | EmptyString => None
  | String c rest =>
      if Ascii.eqb c mark then Some (EmptyString, rest)
      else prod_map (String c) id <$> split_at mark rest
  end.

Definition select_scenario (name : string) (steps : Z) : result Status Scenario :=
  if bool_decide (name = "") || bool_decide (name = "teaching") then Ok (teaching steps)
  else if bool_decide (name = "unreachable") then Ok unreachable
  else if bool_decide (name = "cycle") then Ok cycle
  else if bool_decide (name = "stale") then Ok stale
  else if bool_decide (name = "partial") then Ok partial
  else if bool_decide (name = "budget") then Ok budget
  else
    match after_prefix "random:" name with
    | Some rest =>
        match split_at colon rest with
        | None => Err (mkStatus StatusCode.INVALID_ARGUMENT "expected random:SEED:CASE")
        | Some (seed, index) => Ok (random_instance (strtoull seed) (u32 (strtoull index)))
        end
    | None => Err (mkStatus StatusCode.INVALID_ARGUMENT ("unknown scenario: " +:+ name))
    end.

(** ** The commands *)

(** Exit status, standard output, standard error, and the files behind [--path]. *)
Record ToolRun := mkToolRun { run_exit : Z; run_stdout : string; run_stderr : string; run_disk : Disk }.

(** What [%s] and [fputs] print of a [c_str()]: the text up to the first NUL. *)
Fixpoint c_str (s : string) : string :=
  match s with
  | String c rest => if Ascii.eqb c (Ascii.ascii_of_nat 0) then "" else String c (c_str rest)
  | EmptyString => ""
  end.

Definition usage : string :=
  lines (fun l => line [l])
    ["nrp-cli <command> [options]";
     "";
     "commands:";
     "  version                              print the runtime version";
     "  scenarios                            list the built-in synthetic scenarios";
     "  plan      [--scenario NAME] [--steps N]";
     "                                       plan a scenario and print the decision";
     "  validate  [--scenario NAME]";
     "                                       plan, then independently validate the plan";
     "  reference [--scenario NAME] [--steps N]";
     "                                       run the slow exact reference solver";
     "  store     --path PATH [--records N]";
     "                                       exercise the durable store and report recovery";
     "  selftest                             deterministic end-to-end check";
     "";
     "scenarios (all SYNTHETIC fixtures, no hardware is involved):";
     "  teaching      two-link three-node service restoration";
     "  unreachable   a goal no action can ever satisfy";
     "  cycle         a dependency cycle between two actions";
     "  stale         evidence from an older generation than the granted authority";
     "  partial       evidence missing for a link a step depends on";
     "  budget        a search budget too small to conclude anything";
     "  random:S:N    deterministic random instance for seed S and case N"].

Definition status_line (s : Status) : string := line [c_str (status_to_string s)].

(** The command [plan], after the decision is printed. *)
Definition plan_report (r : PlanRequest) (res : PlanningResult) : string :=
  match pr_plan res with
  | Some p =>
      let report := validate_plan r p in
      line ["validation: "; if vr_valid report then "VALID" else "INVALID"] +:+
      (if vr_valid report then "" else c_str (render_report report))
  | None => ""
  end.

(** The command [validate]: what it prints, and its exit status. *)
Definition validate_report (r : PlanRequest) (res : PlanningResult) : string * Z :=
  match pr_plan res with
  | None => (line ["nothing to validate: the planner did not emit a plan"], 0)
  | Some p =>
      let report := validate_plan r p in
      (c_str (render_report report), if vr_valid report then 0 else 3)
  end.

Definition kind_number (kind : ReferenceKind.t) : Z :=
  match kind with
  | ReferenceKind.COMPLETED => 0
  | ReferenceKind.LIMIT_REACHED => 1
  | ReferenceKind.INVALID_INPUT => 2
  end.

(** The command [reference]. *)
Definition reference_report (r : PlanRequest) (steps : Z) : string :=
  let o := reference_solve r (mkReferenceLimits (rl_max_sequences default_reference_limits) steps) in
  line ["reference: kind="; number (kind_number (rf_kind o)); " plan_found=";
        (if rf_plan_found o then "1" else "0"); " sequences="; number (rf_sequences_examined o);
        " valid="; number (rf_valid_plans o)] +:+
  (if rf_plan_found o
   then line ["reference objective: "; c_str (objective_to_string (rf_objective o))] else "").

Definition planning_command (command : string) (args : list string) (d : Disk) : option ToolRun :=
  let name := argument args "--scenario" "teaching" in
  let steps := strtoull (argument args "--steps" "6") in
  match select_scenario name steps with
  | Err s => Some (mkToolRun 1 "" (status_line s) d)
  | Ok sc =>
      let r := sc_request sc in
      res ← plan default_model_limits r;
      let out := line ["scenario: "; c_str name; " ("; sc_note sc; ")"] +:+
                 c_str (render_result res) in
      Some (if bool_decide (command = "plan") then mkToolRun 0 (out +:+ plan_report r res) "" d
            else if bool_decide (command = "validate")
            then let '(report, code) := validate_report r res in mkToolRun code (out +:+ report) "" d
            else mkToolRun 0 (out +:+ reference_report r steps) "" d)
  end.

Definition store_payload (index : Z) : list Z := w_u64 index ++ w_str "synthetic".

Fixpoint store_records (io : Io) (count : nat) (index : Z) (st : Store) (d : Disk)
  : result Status unit * Store * Disk :=
  match count with
  | O => (Ok tt, st, d)
  | S count =>
      match append io RecordType.EVIDENCE_LINEAGE (store_payload index) true st d with
      | (Err s, st, d) => (Err s, st, d)
      | (Ok _, st, d) => store_records io count (u64 (index + 1)) st d
      end
  end.

Definition store_report (path : string) (st : Store) : string :=
  line ["store "; c_str path; ": epoch="; number (st_epoch st); " boot="; number (st_boot st);
        " records="; number (sizez (st_records st)); " last_sequence="; number (last_sequence st);
        " fences="; number (sizez (st_fences st))].

Definition store_command (io : Io) (args : list string) (d : Disk) : option ToolRun :=
  let path := argument args "--path" "" in
  let records := strtoull (argument args "--records" "4") in
  if bool_decide (path = "") then Some (mkToolRun 1 "" (line ["--path is required"]) d)
  else
    opened ← open io path default_options d;
    Some (match opened with
    | (Err s, d) => mkToolRun 1 "" (status_line s) d
    | (Ok st, d) =>
        match store_records io (Z.to_nat records) 0 st d with
        | (Err s, _, d) => mkToolRun 1 "" (status_line s) d
        | (Ok _, st, d) =>
            match commit_snapshot io st d with
            | (Err s, _, d) => mkToolRun 1 "" (status_line s) d
            | (Ok _, st, d) => mkToolRun 0 (store_report path st) "" d
            end
        end
    end).

Definition selftest_command (d : Disk) : option ToolRun :=
  let r := sc_request (teaching 6) in
  let failed text := mkToolRun 1 "" text d in
  res ← plan default_model_limits r;
  Some (match pr_decision res, pr_plan res with
  | PlanDecision.PLAN_FOUND, Some p =>
      let report := validate_plan r p in
      if negb (vr_valid report)
      then failed (line ["selftest: plan did not validate"] +:+ c_str (render_report report))
      else if negb (length (plan_steps p) =? 2)%nat
      then failed (line ["selftest: unexpected plan length"])
      else mkToolRun 0 (line ["selftest OK: "; c_str (objective_to_string (plan_objective p))]) "" d
  | decision, _ => failed (line ["selftest: expected a plan, got "; PlanDecision.to_string decision])
  end).

(** [main], without the name of the program. *)
Definition cli_main (io : Io) (args : list string) (d : Disk) : option ToolRun :=
  match args with
  | [] => Some (mkToolRun 1 usage "" d)
  | command :: _ =>
      if bool_decide (command = "version")
      then Some (mkToolRun 0 (line ["nrp-cli "; c_str version_string_with_build]) "" d)
      else if bool_decide (command = "scenarios") then Some (mkToolRun 0 usage "" d)
      else if bool_decide (command = "plan") || bool_decide (command = "validate") ||
              bool_decide (command = "reference")
      then planning_command command args d
      else if bool_decide (command = "store") then store_command io args d
      else if bool_decide (command = "selftest") then selftest_command d
      else Some (mkToolRun 1 "" (line ["unknown command: "; c_str command] +:+ usage) d)
  end.
