(* ===== verification/CliCorrect.v ===== *)
(** * What a run of the tool reports

    The generated instances are well-formed requests for every seed; on every
    scenario the planner, the validator and the reference solver agree, so that a
    run of the tool never reports a plan as invalid; the store command adds its
    records to what the store held. *)
From S2P Require Import Prelude Ids Canonical Model Objective Domain DefinitionCheck Plan Codec.
From S2P Require Import Journal Store StoreCorrect Reconcile Transition Search SearchCorrect Planner Validate.
From S2P Require Import ValidateCorrect Reference ReferenceCorrect ReferenceAgrees Render Cli.

(** ** Drawing numbers *)

(** Every value a computation can draw satisfies [P]. *)
Definition draws {A} (m : Gen A) (P : A -> Prop) : Prop := forall state, P (m state).1.

Lemma draws_ret {A} (a : A) (P : A -> Prop) : P a -> draws (gret a) P.
Proof. by intros H state. Qed.

Lemma draws_bind {A B} (m : Gen A) (f : A -> Gen B) (P : A -> Prop) (Q : B -> Prop) :
  draws m P -> (forall a, P a -> draws (f a) Q) -> draws (gbind m f) Q.
Proof.
  intros Hm Hf state. unfold gbind. specialize (Hm state). destruct (m state) as [a state'].
  by apply Hf.
Qed.

Lemma draws_next_below n : 0 < n -> draws (next_below n) (fun v => 0 <= v < n).
Proof.
  intros Hn. unfold next_below. eapply (draws_bind _ _ (fun _ => True)); [done|].
  intros v _. apply draws_ret. by apply Z.mod_pos_bound.
Qed.

Lemma draws_all {A B} (f : A -> Gen B) (l : list A) (P : A -> B -> Prop) :
  (forall a, a ∈ l -> draws (f a) (P a)) -> draws (draw_all f l) (Forall2 P l).
Proof.
  induction l as [|a l IH]; intros H; cbn [draw_all]; [by apply draws_ret|].
  eapply draws_bind; [by apply H; left|]. intros b Hb. eapply draws_bind.
  - apply IH. intros a' Ha'. apply H. by right.
  - intros bs Hbs. apply draws_ret. by constructor.
Qed.

(** Draws a number next_below a bound. *)
Tactic Notation "draw_below" ident(v) ident(H) :=
  eapply draws_bind; [apply draws_next_below; lia|]; intros v H; cbv beta in H.

(** ** The shape of a generated definition *)

(** Identities 1, 2, ..., [n]. *)
Definition numbered (n : nat) : list Z := map (fun i => 1 + Z.of_nat i) (seq 0 n).

Lemma elem_of_numbered n x : x ∈ numbered n <-> 1 <= x <= Z.of_nat n.
Proof.
  unfold numbered. rewrite list_elem_of_fmap. split.
  - intros (i & -> & Hi%elem_of_seq). lia.
  - intros Hx. exists (Z.to_nat (x - 1)). split; [lia|]. apply elem_of_seq. lia.
Qed.

Lemma numbered_snoc n : numbered (S n) = numbered n ++ [1 + Z.of_nat n].
Proof. unfold numbered. by rewrite seq_S, map_app. Qed.

Lemma numbered_sorted n : StronglySorted Z.lt (numbered n).
Proof.
  unfold numbered. generalize 0%nat. induction n as [|n IH]; intros k; cbn [seq map]; constructor; [done|].
  apply Forall_map, Forall_forall. intros i Hi%elem_of_seq. lia.
Qed.

Lemma numbered_ids n : Forall (fun x => x <> 0) (numbered n) /\ NoDup (numbered n).
Proof.
  split.
  - apply Forall_forall. intros x Hx%elem_of_numbered. lia.
  - unfold numbered. apply NoDup_fmap_2; [intros i j; lia|apply NoDup_seq].
Qed.

Record generated_action (ls : list LinkSpec) (i : nat) (a : ActionSpec) : Prop := {
  gna_id : action_id a = 1 + Z.of_nat i;
  gna_name : action_name a = "a" +:+ pretty (Z.of_nat i);
  gna_kinds : action_kind a = ActionKind.RESTORE /\ reversibility a = Reversibility.IRREVERSIBLE /\
              required_domain a = AuthorityDomain.RECOVERY_ADMISSION /\
              required_level a = AuthorityLevel.AUTHORIZATION /\ compensation a = 0;
  gna_numbers : 0 <= blast_radius a < 4 /\ 0 <= disruption a < 4 /\ 0 <= cost_units a < 20 /\
                0 <= duration_ticks a < 8 /\ max_occurrences a = 1;
  gna_effects : exists e, effects a = [e] /\
    ((exists link, link ∈ map link_id ls /\
        e = mkEffect EffectKind.SET_LINK_OPERATIONAL (subject_of_link link) 1) \/
     e = mkEffect EffectKind.SERVICE_REACHABLE_DELTA (subject_of_service 1) 1);
  gna_empty : preconditions a = [] /\ resource_uses a = [] /\ dependencies a = [] /\
              exclusion_groups a = []
}.

Record generated (d : FabricDefinition) : Prop := {
  gen_nodes : exists n, (2 <= n <= 3)%nat /\
    nodes d = map (fun i => mkNode (1 + Z.of_nat i) false) (seq 0 n);
  gen_links : exists n, (1 <= n <= 3)%nat /\ map link_id (links d) = numbered n;
  gen_endpoints : Forall (fun k => endpoint_a k ∈ map node_id (nodes d) /\
    endpoint_b k ∈ map node_id (nodes d) /\ endpoint_a k <> endpoint_b k) (links d);
  gen_service : exists required target most, services d = [mkService 1 required target most false] /\
    0 <= required <= target /\ target <= most /\ 2 <= most <= 3;
  gen_actions : exists n, (2 <= n <= 4)%nat /\ Forall2 (generated_action (links d)) (seq 0 n) (actions d);
  gen_goal : exists link, link ∈ map link_id (links d) /\
    goals d = [mkGoal GoalKind.LINK_OPERATIONAL (subject_of_link link) 1 1];
  gen_rest : resources d = [] /\ groups d = []
}.

Lemma u64_id z n : 0 <= z < n -> n <= 2 ^ 64 -> u64 z = z.
Proof. intros Hz Hn. apply u64_small. unfold in_u64. lia. Qed.

Lemma u32_id z n : 0 <= z < n -> n <= 2 ^ 32 -> u32 z = z.
Proof. intros Hz Hn. apply u32_small. unfold in_u32. lia. Qed.

Lemma draws_link n i : 2 <= n <= 3 ->
  draws (random_link n i) (fun k => link_id k = 1 + Z.of_nat i /\ 1 <= endpoint_a k <= n /\
    1 <= endpoint_b k <= n /\ endpoint_a k <> endpoint_b k).
Proof.
  intros Hn. unfold random_link. draw_below a Ha.
  draw_below b Hb. apply draws_ret.
  rewrite (u64_id (1 + a) 4), (u64_id (1 + b) 4) by lia. cbn [link_id endpoint_a endpoint_b].
  pose proof (Z.mod_pos_bound (1 + a) n ltac:(lia)) as Hm.
  split; [done|]. split; [lia|]. destruct (Z.eqb_spec (1 + a) (1 + b)) as [He|He].
  - rewrite (u64_id _ 4) by lia. split; [lia|]. intros Heq.
    assert (n = 2 \/ n = 3) as [-> | ->] by lia;
      assert (a = 0 \/ a = 1 \/ a = 2) as [-> | [-> | ->]] by lia; vm_compute in Heq; lia || done.
  - split; [lia|]. lia.
Qed.

Lemma draws_service :
  draws random_service (fun s => exists required target most,
    s = mkService 1 required target most false /\ 0 <= required <= target /\ target <= most /\
    2 <= most <= 3).
Proof.
  unfold random_service. draw_below extra Hextra. cbv zeta.
  rewrite (u32_id extra 4), (u32_id (2 + extra) 4), (u32_id (2 + extra + 1) 5) by lia.
  draw_below required Hr. cbv zeta.
  rewrite (u32_id required 5), (u32_id (2 + extra - required + 1) 5) by lia.
  draw_below target Ht. apply draws_ret.
  rewrite (u32_id target 5), (u32_id (required + target) 10) by lia.
  exists required, (required + target), (2 + extra). split; [done|lia].
Qed.

Lemma draws_link_id ls : ls <> [] -> draws (random_link_id ls) (fun link => link ∈ map link_id ls).
Proof.
  intros Hls. assert (0 < sizez ls) by (destruct ls; [done|unfold sizez; simpl length; lia]).
  unfold random_link_id. draw_below i Hi. apply draws_ret, list_elem_of_fmap_2, list_elem_of_lookup_total_2. unfold sizez in Hi. lia.
Qed.

Lemma draws_action ls i : ls <> [] -> draws (random_action ls i) (generated_action ls i).
Proof.
  intros Hls. unfold random_action.
  draw_below blast Hb.
  draw_below disruption Hd.
  draw_below cost Hc.
  draw_below duration Hdu.
  eapply draws_bind; [by apply draws_link_id|]. intros link Hl.
  draw_below coin Hcoin. apply draws_ret.
  rewrite (u32_id blast 4), (u32_id disruption 4) by lia.
  split; cbn; [done|done|done|lia| |done].
  destruct (coin =? 0); eexists; (split; [reflexivity|]); [left; by exists link|by right].
Qed.

Lemma draws_definition : draws random_definition generated.
Proof.
  unfold random_definition. draw_below more Hmore. cbv zeta.
  rewrite (u32_id more 3), (u32_id (2 + more) 4) by lia.
  draw_below ml Hml. rewrite (u32_id ml 3), (u32_id (1 + ml) 4) by lia.
  eapply draws_bind.
  { apply draws_all. intros i _. apply (draws_link (2 + more) i). lia. }
  intros ls Hls. pose proof (Forall2_length _ _ _ Hls) as Hlen. rewrite length_seq in Hlen.
  assert (ls <> []) as Hne by (intros ->; cbn in Hlen; lia).
  eapply draws_bind; [apply draws_service|]. intros service (req & tgt & most & -> & Hs).
  draw_below ma Hma. rewrite (u32_id ma 3), (u32_id (2 + ma) 5) by lia.
  eapply draws_bind; [apply draws_all; intros i _; by apply draws_action|]. intros acts Hacts.
  eapply draws_bind; [by apply draws_link_id|]. intros goal Hgoal. apply draws_ret.
  split; cbn [nodes links services actions goals resources groups].
  - exists (Z.to_nat (2 + more)). split; [lia|done].
  - exists (Z.to_nat (1 + ml)). split; [lia|]. unfold numbered. clear -Hls.
    induction Hls as [|i k il ks (Hk & _) _ IH]; [done|]. cbn [map]. by rewrite Hk, IH.
  - rewrite map_map. change (map _ (seq 0 (Z.to_nat (2 + more)))) with (numbered (Z.to_nat (2 + more))).
    clear -Hls Hmore. induction Hls as [|i k il ks (_ & Ha & Hb & Hn) _ IH]; constructor; [|exact IH].
    rewrite !elem_of_numbered. split; [lia|]. split; [lia|done].
  - by exists req, tgt, most.
  - exists (Z.to_nat (2 + ma)). split; [lia|done].
  - by exists goal.
  - done.
Qed.

(** ** Generated definitions are well-formed *)

Lemma sort_increasing {A} (id : A -> Z) (l : list A) :
  StronglySorted Z.lt (map id l) -> sort_by (lt_on (fun x => [id x])) l = l.
Proof.
  intros Hs. apply sort_by_id. induction l as [|x l IH]; [constructor|].
  cbn [map] in Hs. apply StronglySorted_inv in Hs as [Hs Hx]. constructor; [by apply IH|].
  rewrite Forall_map in Hx. eapply Forall_impl; [exact Hx|]. intros y Hy. cbv beta in Hy. unfold le_by, lt_on, lex_lt.
  rewrite (proj2 (Z.ltb_ge _ _)), (proj2 (Z.ltb_lt _ _)) by lia. done.
Qed.

Section Generated.
Context (d : FabricDefinition) (Hd : generated d).

Lemma generated_node_ids : exists n, (2 <= n <= 3)%nat /\ map node_id (nodes d) = numbered n.
Proof.
  destruct (gen_nodes d Hd) as (n & Hn & ->). exists n. split; [done|]. by rewrite map_map.
Qed.

Lemma generated_action_ids : exists n, (2 <= n <= 4)%nat /\ map action_id (actions d) = numbered n.
Proof.
  destruct (gen_actions d Hd) as (n & Hn & Hacts). exists n. split; [done|]. unfold numbered. clear -Hacts.
  induction Hacts as [|i a il acts [Ha _ _ _ _ _] _ IH]; [done|]. cbn [map]. by rewrite Ha, IH.
Qed.

Lemma generated_each (P : ActionSpec -> Prop) :
  (forall i a, (i < 4)%nat -> generated_action (links d) i a -> P a) -> Forall P (actions d).
Proof.
  intros HP. destruct (gen_actions d Hd) as (n & Hn & Hacts).
  assert (Hi : Forall (fun i => (i < 4)%nat) (seq 0 n)) by (apply Forall_forall; intros i Hi%elem_of_seq; lia).
  clear Hn. induction Hacts as [|i a il acts Ha _ IH]; [constructor|].
  apply Forall_cons in Hi as [Hi Hil]. constructor; [by eapply HP|by apply IH].
Qed.

Lemma generated_canonical : canonicalise d = d.
Proof.
  destruct generated_node_ids as (n & _ & Hn), generated_action_ids as (k & _ & Hk),
    (gen_links d Hd) as (m & _ & Hm), (gen_service d Hd) as (req & tgt & most & Hs & _),
    (gen_goal d Hd) as (link & _ & Hg), (gen_rest d Hd) as [Hr Hx].
  unfold canonicalise. rewrite (sort_increasing node_id), (sort_increasing link_id),
    (sort_increasing action_id) by (rewrite ?Hn, ?Hm, ?Hk; apply numbered_sorted).
  rewrite Hs, Hg, Hr, Hx. cbn [sort_by insert_by].
  assert (Ha : map canonicalise_action (actions d) = actions d).
  { rewrite <- (map_id (actions d)) at 2. apply map_ext_Forall, generated_each. intros i a _ [].
    destruct gna_effects0 as (e & He & _), gna_empty0 as (Hp & Hu & Hde & Hgr).
    destruct a. unfold canonicalise_action. cbn in *. by subst. }
  rewrite Ha. destruct d. cbn in *. by subst.
Qed.

Lemma generated_link link : link ∈ map link_id (links d) -> 1 <= link <= 3.
Proof. destruct (gen_links d Hd) as (n & Hn & ->). rewrite elem_of_numbered. lia. Qed.

Lemma generated_node id : id ∈ map node_id (nodes d) -> 1 <= id <= 3.
Proof. destruct generated_node_ids as (n & Hn & ->). rewrite elem_of_numbered. lia. Qed.

(** The one effect of an action names a declared link or the service. *)
Lemma generated_effect i a e : generated_action (links d) i a -> e ∈ effects a ->
  eff_value e = 1 /\ 1 <= subject_id (eff_subject e) <= 3 /\ effect_wf d e.
Proof.
  intros [_ _ _ _ (e' & -> & Hcase) _] ->%list_elem_of_singleton.
  destruct (gen_service d Hd) as (req & tgt & most & Hs & _).
  destruct Hcase as [(link & Hlink & ->) | ->]; cbn [eff_value eff_subject subject_of_link subject_of_service subject_id].
  - split; [done|]. split; [by apply generated_link|]. split; [done|]. split; [done|]. split; [exact Hlink|by right].
  - split; [done|]. split; [lia|]. split; [done|]. split; [done|]. split; [|done].
    unfold declared. cbn. rewrite Hs. by left.
Qed.

Lemma generated_action_typed i a : (i < 4)%nat -> generated_action (links d) i a -> action_typed a.
Proof.
  intros Hi Ha. pose proof (generated_effect i a) as Heff. pose proof Ha as Hga.
  destruct Ha as [Hid _ (_ & _ & _ & _ & Hc) (Hb & Hdi & Hco & Hdu & Ho) _ (Hp & Hu & Hde & Hg)].
  split; rewrite ?Hid, ?Hc, ?Ho, ?Hp, ?Hu, ?Hde, ?Hg; unfold in_u64, in_u32; try lia; try by constructor.
  apply Forall_forall. intros e Hin. destruct (Heff e Hga Hin) as (-> & Hs & _). unfold in_i64. lia.
Qed.

Lemma generated_typed : definition_typed d.
Proof.
  destruct (gen_service d Hd) as (req & tgt & most & Hs & Hb), (gen_goal d Hd) as (link & Hl & Hg),
    (gen_rest d Hd) as [Hr Hx]. apply generated_link in Hl.
  split; rewrite ?Hs, ?Hg, ?Hr, ?Hx; unfold in_u64, in_u32; try by constructor.
  - apply Forall_forall. intros x Hin. apply (list_elem_of_fmap_2 node_id), generated_node in Hin. lia.
  - pose proof (gen_endpoints d Hd) as He. rewrite Forall_forall in He. apply Forall_forall. intros k Hin.
    destruct (He k Hin) as (Ha%generated_node & Hb'%generated_node & _).
    apply (list_elem_of_fmap_2 link_id), generated_link in Hin. lia.
  - constructor; [cbn; lia|constructor].
  - apply generated_each, generated_action_typed.
  - constructor; [cbn; lia|constructor].
Qed.

Lemma generated_action_wf i a : (i < 4)%nat -> generated_action (links d) i a ->
  action_wf d default_model_limits a.
Proof.
  intros Hi Ha. pose proof (generated_effect i a) as Heff. pose proof Ha as Hga.
  destruct Ha as [Hid Hname (Hk & Hrev & Hdom & Hlev & Hc) (_ & _ & _ & _ & Ho) (e & He & _) (Hp & Hu & Hde & Hg)].
  split; rewrite ?Hp, ?Hu, ?Hde, ?Hg; try by repeat constructor.
  - rewrite Hname. unfold sizez. rewrite length_string_bytes, length_append_string.
    assert (in_u64 (Z.of_nat i)) as Hlen%pretty_u64_length by (unfold in_u64; lia).
    change (String.length "a") with 1%nat. change (max_string_length default_model_limits) with 128. lia.
  - by rewrite Hk, Hrev, Hdom, Hlev.
  - rewrite Ho. change (max_action_occurrences default_model_limits) with 16. lia.
  - rewrite He. by vm_compute.
  - unfold compensation_wf. by rewrite Hrev.
  - apply Forall_forall. intros e' Hin. by destruct (Heff e' Hga Hin) as (_ & _ & Hwf).
Qed.

Lemma generated_wf : definition_wf default_model_limits d.
Proof.
  destruct generated_node_ids as (n & Hn & Hnodes), generated_action_ids as (k & Hk & Hacts),
    (gen_links d Hd) as (m & Hm & Hlinks), (gen_service d Hd) as (req & tgt & most & Hs & Hb),
    (gen_goal d Hd) as (link & Hl & Hg), (gen_rest d Hd) as [Hr Hx].
  assert (Hlen : forall {A} (id : A -> Z) (l : list A) k, map id l = numbered k -> sizez l = Z.of_nat k).
  { intros A id l k' He. unfold sizez. apply (f_equal length) in He. unfold numbered in He.
    by rewrite !length_map, length_seq in He; rewrite He. }
  assert (Hids : forall {A} (id : A -> Z) (l : list A) k, map id l = numbered k -> ids_wf id l).
  { intros A id l k' He. destruct (numbered_ids k') as [H0 Hnd]. split; [|by rewrite He].
    by rewrite <- He, Forall_map in H0. }
  split; rewrite ?Hs, ?Hg, ?Hr, ?Hx; try by repeat constructor.
  - rewrite (Hlen _ _ _ _ Hnodes), (Hlen _ _ _ _ Hlinks), (Hlen _ _ _ _ Hacts). unfold sizez, default_model_limits. cbn. lia.
  - by eapply Hids.
  - by eapply Hids.
  - eapply Forall_impl; [exact (gen_endpoints d Hd)|]. by intros x (? & ? & _).
  - split; repeat constructor; cbn; done || set_solver.
  - constructor; [|constructor]. split; cbn; lia.
  - by eapply Hids.
  - apply generated_each, generated_action_wf.
Qed.
End Generated.

(** ** Generated facts *)

Abbreviation observation := (EvidenceKind.t * Subject * Z * AuthorityDomain.t)%type.

Definition observed_key (x : observation) : EvidenceKey := mkEvidenceKey x.1.1.1 x.1.1.2.

Definition number_facts (id : nat -> Z) (l : list observation) : list EvidenceFact :=
  imap (fun i '(kind, subject, value, domain) => synthetic_fact (id i) kind subject value domain) l.

Lemma numbered_keys id l : map fact_table_key (number_facts id l) = map observed_key l.
Proof.
  unfold number_facts. revert id. induction l as [|[[[k s] v] o] l IH]; intros id; [done|].
  cbn [imap map]. f_equal. apply (IH (id ∘ S)).
Qed.

Lemma numbered_values id l (P : Z -> Prop) :
  Forall (fun x : observation => P x.1.2) l ->
  Forall (fun f => P (fact_value f)) (number_facts id l).
Proof.
  unfold number_facts. intros Hl. revert id.
  induction Hl as [|[[[k s] v] o] l Hx _ IH]; intros id; [constructor|].
  cbn [imap]. constructor; [exact Hx|]. apply (IH (id ∘ S)).
Qed.

Definition link_key (id : LinkId) : EvidenceKey :=
  mkEvidenceKey EvidenceKind.LINK_OPERATIONAL (subject_of_link id).
Definition node_key' (id : NodeId) : EvidenceKey :=
  mkEvidenceKey EvidenceKind.NODE_OPERATIONAL (subject_of_node id).

#[global] Instance link_key_inj : Inj (=) (=) link_key.
Proof. by intros ? ? [=]. Qed.
#[global] Instance node_key_inj : Inj (=) (=) node_key'.
Proof. by intros ? ? [=]. Qed.

Lemma draws_facts d : generated d ->
  draws (random_facts d) (fun facts =>
    NoDup (map fact_table_key facts) /\ Forall (fun f => in_u64 (fact_value f)) facts).
Proof.
  intros Hd. destruct (gen_service d Hd) as (req & tgt & most & Hs & Hb). unfold random_facts.
  eapply draws_bind.
  { apply draws_all. intros k _. draw_below v Hv.
    apply (draws_ret _ (fun x : observation => observed_key x = link_key (link_id k) /\ 0 <= x.1.2 < 2)).
    by split. }
  intros lfs Hlfs. cbv zeta. rewrite Hs. cbn [max_reachable service_id].
  change ([mkService 1 req tgt most false] !!! 0%nat) with (mkService 1 req tgt most false).
  cbn [max_reachable service_id]. rewrite (u32_id (most + 1) 5) by lia.
  draw_below v Hv. apply draws_ret. unfold observe_all.
  change (imap _ ?l) with (number_facts (fun i => 1 + Z.of_nat i) l). split.
  - rewrite numbered_keys, !map_app, map_map. cbn [map].
    assert (Hlk : map observed_key lfs = map link_key (map link_id (links d))).
    { clear -Hlfs. induction Hlfs as [|k x ks xs [Hk _] _ IH]; [done|]. cbn [map]. by rewrite Hk, IH. }
    destruct (gen_links d Hd) as (m & _ & Hm), (generated_node_ids d Hd) as (n & _ & Hn).
    rewrite Hlk, Hm. change (map _ (nodes d)) with (map (fun x => node_key' (node_id x)) (nodes d)).
    rewrite <- (map_map node_id node_key'), Hn. destruct (numbered_ids m), (numbered_ids n).
    rewrite !NoDup_app. split_and!;
      [by apply NoDup_fmap_2; [apply _|]| |by apply NoDup_fmap_2; [apply _|]| |apply NoDup_singleton].
    + intros x (i & -> & _)%list_elem_of_fmap Hx. apply elem_of_app in Hx as [Hx|Hx].
      * by apply list_elem_of_fmap in Hx as (j & [=] & _).
      * by apply list_elem_of_singleton in Hx.
    + intros x (i & -> & _)%list_elem_of_fmap Hx. by apply list_elem_of_singleton in Hx.
  - apply numbered_values. rewrite !Forall_app. unfold in_u64. split_and!.
    + clear -Hlfs. induction Hlfs as [|k x ks xs [_ Hx] _ IH]; constructor; [lia|done].
    + apply Forall_map, Forall_forall. intros x _. cbn. lia.
    + constructor; [cbn; lia|constructor].
Qed.

(** ** Scenarios on which every program agrees *)

(** What planner, validator and reference solver need to agree. *)
Record dependable (r : PlanRequest) : Prop := {
  dpd_typed : request_typed r;
  dpd_current : require_current_authority (req_policy r) = true;
  dpd_clear : evidence_clear default_model_limits (normalise r);
  dpd_separate : Forall uses_separate (actions (req_definition r));
  dpd_capacity : Forall (fun x => resource_kind x = ResourceKind.REUSABLE -> capacity x < 2 ^ 31)
                   (resources (req_definition r));
  dpd_modest : Forall modest (actions (req_definition r))
}.

Lemma distinct_facts_clear r :
  NoDup (map fact_table_key (ev_facts (req_evidence r))) -> evidence_clear default_model_limits (normalise r).
Proof.
  intros Hnd. apply distinct_keys_clear. cbn [normalise req_evidence evidence_canonicalise ev_facts].
  by rewrite sort_by_perm.
Qed.

Lemma random_content :
  draws (draw* d := random_definition in draw* facts := random_facts d in gret (d, facts))
    (fun x => generated x.1 /\ NoDup (map fact_table_key x.2) /\
              Forall (fun f => in_u64 (fact_value f)) x.2).
Proof.
  eapply draws_bind; [apply draws_definition|]. intros d Hd.
  eapply draws_bind; [by apply draws_facts|]. intros facts Hf. by apply draws_ret.
Qed.

(** A generated instance, over a generated definition and its facts. *)
Lemma random_instance_request seed index : exists d facts,
  generated d /\ NoDup (map fact_table_key facts) /\ Forall (fun f => in_u64 (fact_value f)) facts /\
  sc_request (random_instance seed index) =
    mkRequest (u32 (1 + index)) 1 7 1 d (evidence_canonicalise (mkEvidence 1 7 facts))
      (authority_for 1 7 3) (scenario_policy 5) [].
Proof.
  unfold random_instance. pose proof (random_content (u64 (seed * 1000003 + index))) as Hc.
  destruct (gbind _ _ _) as [[d facts] state]. destruct Hc as (Hd & Hk & Hv). exists d, facts.
  split; [done|]. split; [done|]. split; [done|]. cbn. by rewrite generated_canonical.
Qed.

Lemma random_dependable seed index : dependable (sc_request (random_instance seed index)).
Proof.
  destruct (random_instance_request seed index) as (d & facts & Hd & Hk & Hv & ->).
  split; cbn [req_definition req_policy req_evidence scenario_policy require_current_authority].
  - split; cbn [req_definition req_evidence req_policy evidence_canonicalise ev_facts];
      [by apply generated_typed|by apply Forall_sort; [apply _|]|by vm_compute].
  - done.
  - apply distinct_facts_clear. cbn [req_evidence evidence_canonicalise ev_facts]. by rewrite sort_by_perm.
  - apply generated_each; [done|]. intros i a _ [_ _ _ _ _ (_ & Hu & _)]. unfold uses_separate.
    rewrite Hu. split; [constructor|]. intros e _ _ Hin. by apply elem_of_nil in Hin.
  - destruct (gen_rest d Hd) as [-> _]. constructor.
  - apply generated_each; [done|]. intros i a _ [_ _ _ (_ & _ & Hc & Hdu & _) _ _]. unfold modest. lia.
Qed.

(** Decides the range conditions of concrete lists. *)
Ltac ranges :=
  once (repeat constructor); unfold in_u64, in_u32, in_i64; simpl; try done; try lia.

(** Decides [dependable] of a concrete request. *)
Ltac dependable_concrete :=
  split;
  [ split; [split; ranges|ranges|done]
  | reflexivity
  | apply distinct_facts_clear, (bool_decide_unpack _); vm_compute; exact I
  | once (repeat constructor);
    first [ intros e He Hk; repeat (apply elem_of_cons in He as [->|He]; [done|]);
            by apply elem_of_nil in He
          | set_solver ]
  | once (repeat constructor); done
  | once (repeat constructor) ].

Ltac compute_request sc :=
  let r := eval vm_compute in (sc_request sc) in
  replace (sc_request sc) with r by (vm_compute; reflexivity).

Lemma steps_six : in_u64 6.
Proof. by vm_compute. Qed.

Lemma teaching_dependable steps : in_u64 steps -> dependable (sc_request (teaching steps)).
Proof. intros Hs. compute_request (teaching steps). dependable_concrete. Qed.

Lemma unreachable_dependable : dependable (sc_request unreachable).
Proof. pose proof steps_six. compute_request unreachable. dependable_concrete. Qed.

Lemma cycle_dependable : dependable (sc_request cycle).
Proof. pose proof steps_six. compute_request cycle. dependable_concrete. Qed.

Lemma stale_dependable : dependable (sc_request stale).
Proof. pose proof steps_six. compute_request stale. dependable_concrete. Qed.

Lemma partial_dependable : dependable (sc_request partial).
Proof. pose proof steps_six. compute_request partial. dependable_concrete. Qed.

Lemma budget_dependable : dependable (sc_request budget).
Proof. pose proof steps_six. compute_request budget. dependable_concrete. Qed.

Lemma scenario_dependable name steps sc :
  in_u64 steps -> select_scenario name steps = Ok sc -> dependable (sc_request sc).
Proof.
  intros Hs. unfold select_scenario.
  destruct (_ || _); [intros [= <-]; by apply teaching_dependable|].
  destruct (bool_decide _); [intros [= <-]; apply unreachable_dependable|].
  destruct (bool_decide _); [intros [= <-]; apply cycle_dependable|].
  destruct (bool_decide _); [intros [= <-]; apply stale_dependable|].
  destruct (bool_decide _); [intros [= <-]; apply partial_dependable|].
  destruct (bool_decide _); [intros [= <-]; apply budget_dependable|].
  destruct (after_prefix _ _) as [rest|]; [|done]. destruct (split_at _ _) as [[seed index]|]; [|done].
  intros [= <-]. apply random_dependable.
Qed.

(** ** Planning commands *)

Lemma read_digits_nonneg s : forall value, 0 <= value -> 0 <= read_digits value s.
Proof.
  induction s as [|c s IH]; intros value Hv; cbn [read_digits]; [done|].
  destruct (digit_value c) as [digit|] eqn:Hd; [|done]. apply IH.
  unfold digit_value in Hd. destruct (_ && _) eqn:Hb; [|done]. injection Hd as <-.
  apply andb_true_iff in Hb as [Hb _]. apply Z.leb_le in Hb. lia.
Qed.

Lemma strtoull_range s : in_u64 (strtoull s).
Proof.
  unfold strtoull. set (x := match skip_spaces s with EmptyString => _ | String _ _ => _ end).
  destruct x as [negative digits].
  pose proof (read_digits_nonneg digits 0 ltac:(lia)) as Hn.
  destruct (Z.ltb_spec UINT64_MAX (read_digits 0 digits)) as [|Hle];
    [unfold in_u64, UINT64_MAX; lia|].
  destruct negative; [apply u64_range|]. unfold in_u64, UINT64_MAX in *. lia.
Qed.

(** A sound plan of a dependable request convinces both other programs. *)
Lemma dependable_agree r res p steps :
  dependable r -> plan default_model_limits r = Some res -> pr_plan res = Some p ->
  validate_plan r p = mkReport true true true (plan_objective p) (plan_digest p) (plan_digest p) [] /\
  (let o := reference_solve r (mkReferenceLimits (rl_max_sequences default_reference_limits) steps) in
   in_u64 steps -> rf_kind o = ReferenceKind.COMPLETED -> sizez (encoding p) <= steps ->
   rf_plan_found o = true /\ rf_encoding o = encoding p /\ rf_objective o = plan_objective p).
Proof.
  intros [Ht Hcur Hcl Hsep Hcap Hmod] Hres Hp.
  destruct (plan_outcomes _ r res default_limits_ok Ht Hres) as [|p' Ha _ Hp' _ Hs| | | |]; try congruence.
  rewrite Hp in Hp'. injection Hp' as <-. split.
  - apply sound_plans_validate; try done. by apply evidence_clear_agrees.
  - intros o Hst Hk Hsz.
    assert (Hcap' : Forall (fun x => resource_kind x = ResourceKind.REUSABLE -> capacity x < 2 ^ 31)
                      (resources (req_definition (normalise r)))) by (by apply Forall_sort; [apply _|]).
    assert (Hmod' : Forall modest (actions (req_definition (normalise r))))
      by (apply Forall_map, Forall_sort; [apply _|exact Hmod]).
    apply (completed_confirms r _ Ht Ha Hcl (uses_separate_all _ Hsep) Hcap' Hmod'); try done.
Qed.

Definition planning_commands : list string := ["plan"; "validate"; "reference"].

Lemma planning_dispatch io command rest d : command ∈ planning_commands ->
  cli_main io (command :: rest) d = planning_command command (command :: rest) d.
Proof.
  unfold planning_commands. rewrite !elem_of_cons, elem_of_nil.
  by intros [-> | [-> | [-> | []]]].
Qed.

(** C23: the tool never contradicts itself. Whatever the arguments, a planning
    command with an unknown scenario fails with its status; with any scenario, a
    generated one included, it exits with 0 after the planner's decision, and when
    the planner found a plan, [plan] reports it as valid, [validate] prints the
    validator's report of a valid plan without findings, and the enumeration of
    [reference], when it completes and admits plans of that length, finds the same
    plan with the same objective. Exit status 3 is unreachable. *)
Theorem cli_reports_agree io command rest d :
  command ∈ planning_commands ->
  let args := command :: rest in
  let name := argument args "--scenario" "teaching" in
  let steps := strtoull (argument args "--steps" "6") in
  match select_scenario name steps with
  | Err s => cli_main io args d = Some (mkToolRun 1 "" (status_line s) d)
  | Ok sc =>
      let r := sc_request sc in
      let o := reference_solve r (mkReferenceLimits (rl_max_sequences default_reference_limits) steps) in
      exists res report,
        plan default_model_limits r = Some res /\
        cli_main io args d =
          Some (mkToolRun 0 ((line ["scenario: "; c_str name; " ("; sc_note sc; ")"] +:+
                          c_str (render_result res)) +:+ report) "" d) /\
        (command = "plan" ->
           report = if pr_plan res then line ["validation: "; "VALID"] else "") /\
        (command = "validate" -> forall p, pr_plan res = Some p ->
           report = c_str (render_report (mkReport true true true (plan_objective p)
                                            (plan_digest p) (plan_digest p) []))) /\
        (command = "reference" ->
           report = reference_report r steps /\
           forall p, pr_plan res = Some p -> rf_kind o = ReferenceKind.COMPLETED ->
             sizez (encoding p) <= steps ->
             rf_plan_found o = true /\ rf_encoding o = encoding p /\ rf_objective o = plan_objective p)
  end.
Proof.
  intros Hcmd args name steps. unfold args. rewrite planning_dispatch by done. fold args.
  unfold planning_command. fold name steps. destruct (select_scenario name steps) as [sc|s] eqn:Hsc; [|done].
  cbv zeta. set (r := sc_request sc). pose proof (scenario_dependable name steps sc (strtoull_range _) Hsc) as Hdep. fold r in Hdep.
  destruct (plan_answers default_model_limits r) as [res Hres]. fold r. rewrite Hres. cbn [mbind option_bind].
  pose proof (fun p => dependable_agree r res p steps Hdep Hres) as Hagree.
  unfold planning_commands in Hcmd. rewrite !elem_of_cons, elem_of_nil in Hcmd.
  destruct Hcmd as [-> | [-> | [-> | []]]]; cbn.
  - exists res. eexists. split; [done|]. split; [done|]. split; [|done]. intros _.
    unfold plan_report. destruct (pr_plan res) as [p|]; [|done].
    destruct (Hagree p eq_refl) as [-> _]. done.
  - exists res. unfold validate_report. destruct (pr_plan res) as [p|].
    + destruct (Hagree p eq_refl) as [-> _]. cbn [vr_valid]. eexists. split; [done|]. split; [reflexivity|].
      split; [done|]. split; [|done]. by intros _ p' [= <-].
    + eexists. split; [done|]. split; [reflexivity|]. done.
  - exists res. eexists. split; [done|]. split; [done|]. split; [done|].
    split; [done|]. intros _. split; [done|]. intros p Hp. destruct (Hagree p Hp) as [_ Ha].
    apply Ha, strtoull_range.
Qed.

Lemma cli_reports_agree_witness :
  "validate" ∈ planning_commands /\
  exists out, cli_main io_ok ["validate"; "--scenario"; "random:7:3"] (mkDisk None None) =
    Some (mkToolRun 0 out "" (mkDisk None None)).
Proof.
  assert (Hin : "validate" ∈ planning_commands) by (right; left). split; [exact Hin|].
  pose proof (cli_reports_agree io_ok "validate" ["--scenario"; "random:7:3"] (mkDisk None None) Hin) as H.
  cbv zeta in H.
  destruct (select_scenario _ _) as [sc|s] eqn:Hsc; [|discriminate Hsc].
  destruct H as (res & report & _ & Hrun & _). eexists. exact Hrun.
Defined.

(** ** Generated instances are admitted *)

Lemma random_admissible seed index : u32 (1 + index) <> 0 ->
  admissible default_model_limits (normalise (sc_request (random_instance seed index))).
Proof.
  intros Hid. destruct (random_instance_request seed index) as (d & facts & Hd & _ & _ & ->).
  assert (Hn : req_authority (normalise (mkRequest (u32 (1 + index)) 1 7 1 d
      (evidence_canonicalise (mkEvidence 1 7 facts)) (authority_for 1 7 3) (scenario_policy 5) [])) =
    authority_for 1 7 3) by (vm_compute; reflexivity).
  split; rewrite ?Hn; cbn [normalise req_id req_attempt req_policy req_definition req_evidence req_epoch
    req_boot req_fences evidence_canonicalise ev_epoch ev_boot ev_facts]; rewrite ?generated_canonical by done.
  - done.
  - by split.
  - by apply generated_wf.
  - done.
  - done.
  - constructor.
  - intros _ x Hx. assert (x <> AuthorityDomain.COUNT) as Hc.
    { destruct Hx as [-> | [-> | [[-> _] | [[-> _] | (a & Ha & <-)]]]]; try done. revert a Ha.
      apply Forall_forall, generated_each; [done|]. by intros i a _ [_ _ (_ & _ & -> & _) _ _ _]. }
    destruct x; done.
  - intros _. apply generated_each; [done|]. intros i a _ [_ _ (_ & _ & Hdom & Hlev & _) _ _ _].
    unfold level_granted. rewrite Hdom, Hlev. rewrite Hn. eexists. split; [vm_compute; reflexivity|].
    vm_compute. discriminate.
Qed.

(** The generator of pseudo-random instances never leaves the domain of the
    planner. For every seed and case, up to the one case whose request identity
    wraps to zero, the instance is typed, canonical and admissible, its facts
    have distinct keys, and the planner answers it without a rejection. *)
Theorem random_instances_admitted seed index res :
  u32 (1 + index) <> 0 ->
  plan default_model_limits (sc_request (random_instance seed index)) = Some res ->
  request_typed (sc_request (random_instance seed index)) /\
  canonicalise (req_definition (sc_request (random_instance seed index))) =
    req_definition (sc_request (random_instance seed index)) /\
  admissible default_model_limits (normalise (sc_request (random_instance seed index))) /\
  NoDup (map fact_table_key (ev_facts (req_evidence (sc_request (random_instance seed index))))) /\
  is_rejection (pr_decision res) = false.
Proof.
  intros Hid Hres. pose proof (dpd_typed _ (random_dependable seed index)) as Ht.
  pose proof (random_admissible seed index Hid) as Ha.
  split; [done|]. split; [|split; [done|split]].
  - destruct (random_instance_request seed index) as (d & facts & Hd & _ & _ & ->).
    by apply generated_canonical.
  - destruct (random_instance_request seed index) as (d & facts & _ & Hk & _ & ->).
    cbn [req_evidence evidence_canonicalise ev_facts]. by rewrite sort_by_perm.
  - by destruct (plan_outcomes _ _ res default_limits_ok Ht Hres) as
      [|p _ ->|_ _ ->|cert _ ->|cert _ ->|cert g _ ->].
Qed.

Lemma random_instances_admitted_witness :
  exists res, plan default_model_limits (sc_request (random_instance 7 3)) = Some res /\
    is_rejection (pr_decision res) = false.
Proof.
  destruct (plan_answers default_model_limits (sc_request (random_instance 7 3))) as [res Hres].
  exists res. split; [exact Hres|].
  assert (Hid : u32 (1 + 3) <> 0) by (vm_compute; discriminate).
  exact (proj2 (proj2 (proj2 (proj2 (random_instances_admitted 7 3 res Hid Hres))))).
Defined.

(** The last case of every seed has no identity, and is turned away. *)
Lemma last_case_rejected :
  pr_decision <$> plan default_model_limits (sc_request (random_instance 7 UINT32_MAX)) =
    Some PlanDecision.REJECTED_UNSUPPORTED_PROBLEM.
Proof. vm_compute. reflexivity. Qed.

(** What the named scenarios show, in the order of the usage text. *)
Definition scenario_verdict (name : string) : option (PlanDecision.t * option ProofKind.t) :=
  match select_scenario name 6 with
  | Ok sc =>
      res ← plan default_model_limits (sc_request sc);
      Some (pr_decision res, cert_kind <$> pr_certificate res)
  | Err _ => None
  end.

Lemma scenarios_show_their_names :
  map scenario_verdict ["teaching"; "unreachable"; "cycle"; "stale"; "partial"; "budget"] =
    [Some (PlanDecision.PLAN_FOUND, None);
     Some (PlanDecision.PROVEN_INFEASIBLE, Some ProofKind.GOAL_UPPER_BOUND);
     Some (PlanDecision.PROVEN_INFEASIBLE, Some ProofKind.DEPENDENCY_CYCLE);
     Some (PlanDecision.REJECTED_STALE_AUTHORITY, None);
     Some (PlanDecision.INDETERMINATE_INCOMPLETE_EVIDENCE, None);
     Some (PlanDecision.INDETERMINATE_SEARCH_LIMIT, None)].
Proof. vm_compute. reflexivity. Qed.

(** The self test passes, and prints the objective of the two-step plan. *)
Lemma selftest_passes d :
  selftest_command d = Some (mkToolRun 0 (line ["selftest OK: [0 0 0 3 2 3 30 12]"]) "" d).
Proof. vm_compute. reflexivity. Qed.

(** ** The store command *)

(** The records of one run, numbered from [last + 1], their payloads from [index]. *)
Fixpoint lineage_log (count : nat) (last : Sequence) (index : Z) : list DurableRecord :=
  match count with
  | O => []
  | S count => mkRecord RecordType.EVIDENCE_LINEAGE (last + 1) (store_payload index) ::
               lineage_log count (last + 1) (u64 (index + 1))
  end.

Lemma length_lineage_log count last index : length (lineage_log count last index) = count.
Proof. revert last index; induction count as [|count IH]; intros last index; cbn; [done|]. by rewrite IH. Qed.

Lemma store_payload_fits index : Forall in_u8 (store_payload index) /\ sizez (store_payload index) = 21.
Proof.
  unfold store_payload. split; [encoder_bytes|]. unfold sizez, w_u64, w_str, string_bytes. done.
Qed.

Lemma default_limits_sound : limits_sound default_store_limits.
Proof. by split. Qed.

Section StoreCommand.
Abbreviation limits := default_store_limits.

Lemma lineage_sound st index :
  sound_record limits (new_record st RecordType.EVIDENCE_LINEAGE (store_payload index)).
Proof.
  destruct (store_payload_fits index) as [Hb Hz].
  split; [split; [done|apply u64_range|exact Hb|]|done]. cbn [new_record rec_payload]. by rewrite Hz.
Qed.

Lemma store_records_spec count : forall index st d,
  Inv limits st d -> last_sequence st + Z.of_nat count <= UINT64_MAX ->
  sizez (st_records st) + Z.of_nat count <= max_records limits ->
  exists st' d', store_records io_ok count index st d = (Ok tt, st', d') /\ Inv limits st' d' /\
    st_records st' = st_records st ++ lineage_log count (last_sequence st) index /\
    st_epoch st' = st_epoch st /\ st_boot st' = st_boot st /\ st_fences st' = st_fences st.
Proof.
  induction count as [|count IH]; intros index st d Hi Hl Hr; cbn [store_records lineage_log].
  { exists st, d. by rewrite app_nil_r. }
  rewrite Nat2Z.inj_succ in Hl, Hr. unfold sizez in *.
  pose proof (next_sequence_succ _ _ _ Hi ltac:(lia)) as Hn.
  pose proof (lineage_sound st index) as Hsound.
  rewrite (append_succeeds limits) by (done || apply Hsound || (unfold sizez; lia)).
  set (r := new_record st RecordType.EVIDENCE_LINEAGE (store_payload index)) in *.
  destruct (IH (u64 (index + 1)) (push_record st r) (write_journal d (frame r (st_epoch st))))
    as (st' & d' & He & Hi' & Hrs & Hrest).
  - apply inv_append; [done|lia|unfold sizez; lia|done].
  - cbn [push_record last_sequence r new_record rec_sequence]. lia.
  - cbn [push_record st_records]. rewrite length_app. cbn [length]. lia.
  - exists st', d'. split; [done|]. split; [done|]. split; [|done].
    rewrite Hrs. cbn [push_record st_records last_sequence]. rewrite <- app_assoc. unfold r, new_record.
    cbn [rec_sequence]. by rewrite Hn.
Qed.

Lemma snapshot_commits st d : Inv limits st d ->
  exists d', commit_snapshot io_ok st d = (Ok tt, set_handle (set_handle st false) true, d') /\
    Inv limits (set_handle (set_handle st false) true) d'.
Proof.
  intros Hi. pose proof Hi as [_ Hc _ _ _ _ _].
  assert (He : exists st' d', commit_snapshot io_ok st d = (Ok tt, st', d')).
  { unfold commit_snapshot. rewrite Hc. cbn. by eexists _, _. }
  destruct He as (st' & d' & He). destruct (commit_snapshot_ok limits st d st' d' Hi He) as [-> ->].
  eexists. split; [exact He|].
  pose proof (holds_snapshot _ _ _ _ Hi (or_intror eq_refl)) as Hh.
  destruct Hi. split; try assumption; [reflexivity|by eexists].
Qed.

(** The store command accumulates. On files that hold the records [rs], with
    room for one restart fence for every dynamic record among them, a boot record
    and the new records, and working file system calls, [store] exits with 0 and
    reports what the store holds: the records of before, the restart records of a
    new incarnation, and as many new lineage records as asked for, numbered
    without a gap; and the files it leaves hold exactly these. *)
Theorem cli_store_accumulates rest d rs :
  let args := "store" :: rest in
  let path := argument args "--path" "" in
  let count := strtoull (argument args "--records" "4") in
  let ss := dynamic_sequences rs in
  path <> "" -> holds limits d rs -> small limits d ->
  last_of 0 rs + max_records limits + 1 <= UINT64_MAX ->
  sizez rs + sizez ss + 1 + count <= max_records limits ->
  exists st d' rv,
    cli_main io_ok args d = Some (mkToolRun 0 (store_report path st) "" d') /\
    recover_records rs = Ok rv /\
    st_epoch st = u64 (rv_epoch rv + 1) /\ st_boot st = u64 (rv_boot rv + 1) /\
    st_records st = rs ++ fence_log (rv_epoch rv) (rv_boot rv) (last_of 0 rs) ss ++
      [boot_log (rv_epoch rv) (rv_boot rv) (st_epoch st) (st_boot st) (last_of 0 rs + sizez ss)] ++
      lineage_log (Z.to_nat count) (last_of 0 rs + sizez ss + 1) 0 /\
    holds limits d' (st_records st).
Proof.
  intros args path count ss Hpath Hh Hsm Hl Hroom.
  pose proof (strtoull_range (argument args "--records" "4")) as Hcount. fold count in Hcount.
  destruct (load_records_holds limits default_limits_sound path d rs Hh Hsm) as [restored Hload].
  pose proof (open_loaded limits default_limits_sound path true d rs restored None d Hload Hh Hl) as Hopen.
  fold ss in Hopen. unfold in_u64 in Hcount. rewrite decide_True in Hopen by lia.
  destruct Hopen as (st0 & d0 & rv & Hopen & Hi0 & Hrv & He & Hb & Hrs). fold ss in Hrs.
  assert (Hlen : sizez (st_records st0) = sizez rs + sizez ss + 1).
  { rewrite Hrs. unfold sizez. rewrite !length_app, length_fence_log. cbn [length]. lia. }
  assert (Hlast : last_sequence st0 = last_of 0 rs + sizez ss + 1).
  { rewrite (inv_last _ _ _ Hi0), Hrs, !last_of_app. reflexivity. }
  destruct (store_records_spec (Z.to_nat count) 0 st0 d0 Hi0) as (st1 & d1 & Hrun & Hi1 & Hrs1 & He1 & Hb1 & _);
    [rewrite Hlast; unfold ss; pose proof (length_dynamic rs); unfold ss in *; lia|lia|].
  destruct (snapshot_commits st1 d1 Hi1) as (d2 & Hsnap & Hi2).
  exists (set_handle (set_handle st1 false) true), d2, rv. split; [|split; [exact Hrv|]].
  - change (cli_main io_ok args d) with (store_command io_ok args d). unfold store_command. fold path count.
    rewrite bool_decide_eq_false_2 by done. change default_options with (mkOptions limits true true).
    rewrite Hopen. cbn [mbind option_bind]. by rewrite Hrun, Hsnap.
  - cbn [set_handle st_epoch st_boot st_records]. rewrite He1, Hb1. split; [done|]. split; [done|].
    split; [|exact (inv_holds _ _ _ Hi2)].
    rewrite Hrs1, Hrs, Hlast, <- !app_assoc. cbn [app]. by rewrite He, Hb.
Qed.
End StoreCommand.

Lemma cli_store_accumulates_witness :
  exists st d', cli_main io_ok ["store"; "--path"; "p"; "--records"; "2"] (mkDisk None None) =
      Some (mkToolRun 0 (store_report "p" st) "" d') /\
    map rec_sequence (st_records st) = [1; 2; 3] /\ holds default_store_limits d' (st_records st).
Proof.
  destruct (cli_store_accumulates ["--path"; "p"; "--records"; "2"] (mkDisk None None) [])
    as (st & d' & rv & Hrun & Hrv & _ & _ & Hrs & Hh).
  - discriminate.
  - apply empty_holds. exact default_limits_sound.
  - split; vm_compute; discriminate.
  - vm_compute. discriminate.
  - vm_compute. discriminate.
  - exists st, d'. split; [exact Hrun|]. split; [|exact Hh]. rewrite Hrs. reflexivity.
Defined.

(** Every open fences every dynamic record again, also those that earlier opens
    fenced: the lineage records of one run cost a fence each in every later run,
    until the store cannot be opened any more. *)
Fixpoint reopen_times (count : nat) (d : Disk) : option Status :=
  match open io_ok "s" tiny_options d with
  | Some (Ok _, d') => match count with O => None | S count => reopen_times count d' end
  | Some (Err s, _) => Some s
  | None => None
  end.

Lemma restarts_exhaust_store :
  on_fresh (fun st d =>
    match append io_ok RecordType.EVIDENCE_LINEAGE (store_payload 0) true st d with
    | (Ok _, _, d) => Some (map (fun count => reopen_times count d) [2%nat; 3%nat; 9%nat])
    | _ => None
    end) =
  Some [None; Some (mkStatus StatusCode.EXHAUSTED "durable record count bound reached");
        Some (mkStatus StatusCode.EXHAUSTED "durable record count bound reached")].
Proof. vm_compute. reflexivity. Qed.

(** ** Every run ends *)

Definition file_bytes (file : option (list Z)) : Prop := Forall in_u8 (default [] file).

Lemma read_file_bytes fault path max bytes bytes' :
  read_file fault path max bytes = Ok bytes' -> bytes' = bytes.
Proof.
  unfold read_file. destruct fault as [[]|]; try done; destruct (max <? sizez bytes); try done.
  by intros [= <-].
Qed.

Lemma open_answers io path options d :
  file_bytes (journal_file d) -> file_bytes (snapshot_file d) -> is_Some (open io path options d).
Proof.
  intros Hj Hs. unfold file_bytes in *.
  assert (Hload : is_Some (load_snapshot io path (opt_limits options) d)).
  { unfold load_snapshot. destruct (snapshot_file d) as [bytes|]; [|by eexists]. cbn [default] in Hs.
    destruct (read_file _ _ _ _) as [bytes'|] eqn:Hr; [|by eexists]. apply read_file_bytes in Hr as ->.
    cbn [rbind]. destruct (check_snapshot bytes) as [[payload sequence]|] eqn:Hc; [|by eexists].
    assert (Hp : payload = drop 40 bytes).
    { unfold check_snapshot in Hc. repeat (destruct (_ : bool) eqn:? in Hc; try done).
      by injection Hc as <- _. }
    destruct (scan_records_total (opt_limits options) 0 payload) as [res ->];
      [rewrite Hp; by apply Forall_drop|].
    destruct res as [scan|]; [|by eexists]. destruct (torn_tail scan); by eexists. }
  assert (Hrecords : is_Some (load_records io path (opt_limits options) d)).
  { unfold load_records. destruct Hload as [[[restored sequence]|s] ->]; [|by eexists].
    unfold load_journal. destruct (journal_file d) as [bytes|]; [|by eexists]. cbn [default] in Hj.
    destruct (read_file _ _ _ _) as [bytes'|] eqn:Hr; [|by eexists]. apply read_file_bytes in Hr as ->.
    destruct (scan_records_total (opt_limits options) sequence bytes Hj) as [[scan|] ->]; [|by eexists].
    destruct (torn_tail scan); [|by eexists]. destruct (negb _); [by eexists|]. destruct (negb _); by eexists. }
  unfold open. destruct Hrecords as [[[loaded|s] d'] ->]; [|by eexists].
  destruct (_ <? _); [by eexists|]. destruct (recover_records _); [|by eexists].
  destruct (open_handle _ _ _); by eexists.
Qed.

(** Whatever the arguments, the files and the outcomes of the file system calls. *)
Lemma cli_answers io args d :
  file_bytes (journal_file d) -> file_bytes (snapshot_file d) -> is_Some (cli_main io args d).
Proof.
  intros Hj Hs. unfold cli_main. destruct args as [|command rest]; [by eexists|].
  destruct (bool_decide _); [by eexists|]. destruct (bool_decide _); [by eexists|].
  destruct (_ || _).
  { unfold planning_command. destruct (select_scenario _ _) as [sc|s]; [|by eexists].
    destruct (plan_answers default_model_limits (sc_request sc)) as [res ->]. by eexists. }
  destruct (bool_decide _).
  { unfold store_command. destruct (bool_decide _); [by eexists|].
    destruct (open_answers io (argument (command :: rest) "--path" "") default_options d Hj Hs) as [opened ->].
    by eexists. }
  destruct (bool_decide _); [|by eexists]. unfold selftest_command.
  destruct (plan_answers default_model_limits (sc_request (teaching 6))) as [res ->]. by eexists.
Qed.
