(* ===== verification/Restart.v ===== *)
(** * Restarts of the service

    What [PlannerService::start] of [src/runtime_service.cpp] and
    [DurableStore::open] of [src/persistence.cpp] promise together: every start on
    the same files is a new incarnation, and what belonged to an old one is fenced -
    its dynamic records by fence records, its requests by the check of
    [run_plan]. *)
From S2P Require Import Prelude Ids Canonical Model Objective Domain DefinitionCheck Plan Fixture.
From S2P Require Import Codec Crc32 Journal Store StoreCorrect Planner Validate Protocol.
From S2P Require Import Service ServiceCorrect.

(** ** The incarnation of a log *)

(** The last boot record of a log announces this incarnation. *)
Definition incarnation (rs : list DurableRecord) (epoch : Epoch) (boot : BootId) : Prop :=
  exists front r tail, rs = front ++ r :: tail /\ rec_type r = RecordType.BOOT /\
    boot_identity (rec_payload r) = Some (epoch, boot) /\
    Forall (fun r => rec_type r <> RecordType.BOOT) tail.

Lemma incarnation_app rs e b more :
  incarnation rs e b -> Forall (fun r => rec_type r <> RecordType.BOOT) more ->
  incarnation (rs ++ more) e b.
Proof.
  intros (front & r & tail & -> & Ht & Hb & Hn) Hm. exists front, r, (tail ++ more).
  split; [by rewrite <- app_assoc|]. split; [done|]. split; [done|]. by apply Forall_app.
Qed.

Lemma recover_record_keeps acc r acc' :
  rec_type r <> RecordType.BOOT -> recover_record acc r = Ok acc' ->
  rv_epoch acc' = rv_epoch acc /\ rv_boot acc' = rv_boot acc.
Proof.
  intros Ht. unfold recover_record. destruct (_ && _); [discriminate|].
  destruct (rec_type r); try done; try (by intros [= <-]).
  unfold recover_fence. destruct (fst _); [|discriminate]. by intros [= <-].
Qed.

Lemma recover_keeps rs : forall acc acc', Forall (fun r => rec_type r <> RecordType.BOOT) rs ->
  foldM recover_record acc rs = Ok acc' -> rv_epoch acc' = rv_epoch acc /\ rv_boot acc' = rv_boot acc.
Proof.
  induction rs as [|r rs IH]; intros acc acc' Hn; simpl; [by intros [= <-]|].
  apply Forall_cons in Hn as [Hr Hn].
  destruct (recover_record acc r) as [acc1|] eqn:He; [|discriminate]. intros Hrun.
  destruct (IH _ _ Hn Hrun). destruct (recover_record_keeps _ _ _ Hr He). split; congruence.
Qed.

(** Recovery finds the incarnation of the log. *)
Lemma recover_incarnation rs : forall acc e b rv,
  incarnation rs e b -> foldM recover_record acc rs = Ok rv -> rv_epoch rv = e /\ rv_boot rv = b.
Proof.
  intros acc e b rv (front & r & tail & -> & Ht & Hb & Hn). revert acc.
  induction front as [|x front IH]; intros acc; simpl.
  - destruct (recover_record acc r) as [acc1|] eqn:He; [|discriminate]. intros Hrun.
    destruct (recover_keeps _ _ _ Hn Hrun) as [-> ->]. revert He. unfold recover_record.
    destruct (_ && _); [discriminate|]. rewrite Ht. unfold recover_boot. rewrite Hb.
    by intros [= <-].
  - destruct (recover_record acc x) as [acc1|]; [apply IH|discriminate].
Qed.

Lemma reopened_incarnation limits rs rv st d :
  holds limits d rs -> reopened rs rv st -> incarnation (st_records st) (st_epoch st) (st_boot st).
Proof.
  intros Hh (Hrv & He & Hb & ->).
  assert (Hty : typed_incarnation rv).
  { eapply recover_records_typed; [eapply holds_records_fit, Hh| |exact Hrv].
    split; unfold in_u64; simpl; lia. }
  destruct Hty as [H1 H2]. eexists (rs ++ fence_log _ _ _ _), _, [].
  split; [by rewrite <- app_assoc|]. split; [done|]. split; [|done].
  unfold boot_log. cbn [rec_payload]. apply boot_identity_payload; try done; rewrite ?He, ?Hb; apply u64_range.
Qed.

(** ** The service keeps its incarnation on record *)

Definition incarnated (sv : Service) : Prop :=
  match sv_store sv with
  | Some st => incarnation (st_records st) (sv_epoch sv) (sv_boot sv)
  | None => True
  end.

Lemma incarnated_same sv sv' :
  sv_store sv' = sv_store sv -> sv_epoch sv' = sv_epoch sv -> sv_boot sv' = sv_boot sv ->
  incarnated sv -> incarnated sv'.
Proof. unfold incarnated. by intros -> -> ->. Qed.

Lemma append_durable_incarnated io type payload sv :
  type <> RecordType.BOOT -> incarnated sv -> incarnated (append_durable io type payload sv).2.
Proof.
  intros Ht Hi. unfold append_durable, incarnated in *. destruct (sv_store sv) as [st|] eqn:Hst; [|simpl; by rewrite Hst].
  destruct (append _ _ _ _ _ _) as [[[n|s] st'] d'] eqn:Ha; apply append_log in Ha;
    cbn [snd set_durable sv_store sv_epoch sv_boot]; rewrite Ha; [|by rewrite app_nil_r].
  apply incarnation_app; [done|]. by apply Forall_singleton.
Qed.

Lemma begin_plan_incarnated io q sv res sv' :
  incarnated sv -> begin_plan io q sv = Returned (res, sv') -> incarnated sv'.
Proof.
  intros Hi. unfold begin_plan. destruct (negb _); [by intros [= _ <-]|].
  pose proof (append_durable_incarnated io RecordType.ATTEMPT (attempt_payload q) sv ltac:(done) Hi) as H.
  destruct (sv_store sv), (cfg_crash_point (sv_config sv));
    try (by destruct (append _ _ _ _ _ _) as [[? ?] ?]);
    destruct (append_durable _ _ _ _) as [[u|s0] sv1]; by intros [= _ <-].
Qed.

Lemma commit_plan_incarnated io r sv res sv' :
  incarnated sv -> commit_plan io r sv = Returned (res, sv') -> incarnated sv'.
Proof.
  intros Hi. unfold commit_plan. pose proof (outcome_opaque r) as (_ & Ht & _).
  destruct (outcome_record r) as [type payload].
  pose proof (append_durable_incarnated io type payload sv Ht Hi) as H.
  destruct (append_durable _ _ _ _) as [[u|s] sv1]; [|by intros [= _ <-]].
  by destruct (cfg_crash_point (sv_config sv1)); intros [= _ <-].
Qed.

Lemma complete_incarnated job r sv : incarnated sv -> incarnated (complete job r sv).
Proof. unfold complete. destruct (job_callback job), (job_state job); by apply incarnated_same. Qed.

Lemma worker_step_incarnated io sv worker worker' sv' :
  incarnated sv -> worker_step io sv worker = Some (Returned (worker', sv')) -> incarnated sv'.
Proof.
  intros Hi. unfold worker_step. destruct worker as [|job|job|job r|].
  - destruct (sv_queue sv); [destruct (sv_stopping sv); [|discriminate]|]; intros [= _ <-];
      by apply (incarnated_same sv).
  - destruct (job_kind job).
    + destruct (begin_plan io _ sv) as [[[u|r] sv1]|d] eqn:Hb; [| |discriminate]; intros [= _ <-];
        by eapply begin_plan_incarnated.
    + destruct (job_plan job) as [p|]; [|discriminate]. unfold run_validate.
      set (payload := lineage_payload _ _ _).
      pose proof (append_durable_incarnated io RecordType.EVIDENCE_LINEAGE payload sv ltac:(done) Hi) as H.
      destruct (sv_store sv) eqn:Hst; intros [= _ <-]; unfold complete_validation;
        destruct (job_state job);
        first [by apply (incarnated_same (append_durable io RecordType.EVIDENCE_LINEAGE payload sv).2)
              |by apply (incarnated_same sv)].
  - destruct (plan _ _) as [r|]; [|discriminate].
    destruct (commit_plan io r sv) as [[res sv1]|d] eqn:Hc; [|discriminate]. intros [= _ <-].
    by eapply commit_plan_incarnated.
  - set (sv0 := set_counters _ _).
    assert (H : incarnated (complete job (Ok r) sv0)) by by apply complete_incarnated.
    destruct (cfg_crash_point _); try discriminate; by intros [= _ <-].
  - discriminate.
Qed.

Lemma process_step_incarnated ios s s' :
  process_step ios (Alive s) (Alive s') -> incarnated (sys_service s) -> incarnated (sys_service s').
Proof.
  intros Hstep Hi. inversion Hstep as [? ? Hthread|? call]; subst.
  - inversion Hthread as [? io w worker r Hio Hw Hrun Heq|? io next sv Hio Hrun]; subst.
    + destruct r as [[worker' sv']|d]; [|done]. simplify_eq/=. by eapply worker_step_incarnated.
    + destruct s as [sv0 ws [|[|job pending]| |]]; simpl in *.
      * injection Hrun as _ <-. exact Hi.
      * injection Hrun as _ <-. exact Hi.
      * injection Hrun as _ <-. by apply complete_incarnated.
      * destruct (forallb _ ws); [|discriminate]. injection Hrun as _ <-.
        destruct (sv_store sv0) eqn:Hst; [exact I|exact Hi].
      * discriminate.
  - simpl. unfold submit, enqueue. destruct (sv_stopping _); [done|]. by destruct (_ <=? _).
Qed.

Lemma reachable_incarnated ios s s' :
  rtc (process_step ios) (Alive s) (Alive s') -> incarnated (sys_service s) -> incarnated (sys_service s').
Proof.
  apply (reachable_ind ios (fun s s' => incarnated (sys_service s) -> incarnated (sys_service s'))); [done|].
  intros s1 s2 s3 Hstep IH Hi. apply IH. by eapply process_step_incarnated.
Qed.

(** ** Starting *)

Section Starts.
Context (limits : StoreLimits) (Hlimits : limits_sound limits).

Lemma start_incarnated config path d rs s0 d0 :
  cfg_store_limits config = limits -> holds limits d rs -> small limits d ->
  last_of 0 rs + max_records limits + 1 <= UINT64_MAX ->
  start io_ok config path d = Some (Ok s0, d0) -> incarnated (sys_service s0).
Proof.
  intros Hcfg Hh Hsm Hl Hstart. apply start_fresh in Hstart as (st & e & b & l & n & -> & Hst).
  unfold incarnated. cbn. destruct st as [st|]; [|done]. destruct Hst as (Hopen & -> & ->).
  rewrite Hcfg in Hopen.
  destruct (load_records_holds limits Hlimits path d rs Hh Hsm) as [restored Hload].
  pose proof (open_loaded limits Hlimits path true d rs restored None d Hload Hh Hl) as H.
  case_decide; [|destruct H as (s & d3 & H & _); rewrite H in Hopen; discriminate].
  destruct H as (st' & d3 & rv & H & _ & Hre). rewrite H in Hopen. injection Hopen as -> ->.
  by eapply reopened_incarnation.
Qed.

(** What a process may leave on disk when it is killed: a crash whose half-written
    record, if it is all there, is one of the service's. *)
Definition killed (st : Store) (d d1 : Disk) : Prop :=
  crash limits st d d1 /\
  forall type payload, d1 = write_journal d (frame (new_record st type payload) (st_epoch st)) ->
    opaque_record type payload.

Lemma fence_log_lists e b ss : forall last s, s ∈ ss ->
  exists n, mkRecord RecordType.FENCE n (encode_fence (restart_fence e b s)) ∈ fence_log e b last ss.
Proof.
  induction ss as [|x ss IH]; intros last s Hs; [by apply elem_of_nil in Hs|].
  apply elem_of_cons in Hs as [->|Hs]; cbn [fence_log].
  - eexists. apply elem_of_cons. by left.
  - destruct (IH (last + 1) s Hs) as [n Hn]. exists n. apply elem_of_cons. by right.
Qed.

(** The store a restarted service opens. *)
Lemma restart_spec sv st d1 path create st' d' :
  store_ok limits sv -> incarnated sv -> sv_store sv = Some st -> killed st (sv_disk sv) d1 ->
  small limits d1 -> open io_ok path (mkOptions limits create true) d1 = Some (Ok st', d') ->
  st_epoch st' = u64 (sv_epoch sv + 1) /\ st_boot st' = u64 (sv_boot sv + 1) /\
  st_records st `prefix_of` st_records st' /\
  forall r, r ∈ st_records st -> is_dynamic_record (rec_type r) = true ->
    exists n, mkRecord RecordType.FENCE n
      (encode_fence (restart_fence (sv_epoch sv) (sv_boot sv) (rec_sequence r))) ∈ st_records st'.
Proof.
  intros Hok Hinc Hst [Hcrash Hkill] Hsm Hopen. unfold store_ok in Hok. unfold incarnated in Hinc.
  rewrite Hst in Hok, Hinc. destruct Hok as [Hi Hroom]. pose proof (inv_count _ _ _ Hi).
  destruct (reopen_spec limits Hlimits path st _ d1 create Hi Hcrash Hsm ltac:(lia)) as (rs & Hrs & H1).
  assert (Hinc' : incarnation rs (sv_epoch sv) (sv_boot sv) /\ st_records st `prefix_of` rs).
  { destruct Hrs as [->|(type & payload & -> & Hd)]; [done|]. split; [|by apply prefix_app_r].
    apply incarnation_app; [done|]. apply Forall_singleton. by destruct (Hkill _ _ Hd) as (_ & ? & _). }
  destruct Hinc' as [Hinc' Hpre]. case_decide; [|destruct H1 as (s & d3 & H1 & _); rewrite H1 in Hopen; discriminate].
  destruct H1 as (st1 & d3 & rv & H1 & _ & Hrv & He & Hb & Hrec). rewrite H1 in Hopen. injection Hopen as -> ->.
  destruct (recover_incarnation _ _ _ _ _ Hinc' Hrv) as [<- <-].
  split; [exact He|]. split; [exact Hb|]. split; [rewrite Hrec; by apply prefix_app_r|].
  intros r Hr Hdyn. assert (Hin : rec_sequence r ∈ dynamic_sequences rs).
  { apply list_elem_of_fmap_2, list_elem_of_filter. split; [done|]. destruct Hpre as [more ->].
    apply elem_of_app. by left. }
  destruct (fence_log_lists (rv_epoch rv) (rv_boot rv) _ (last_of 0 rs) _ Hin) as [n Hn].
  exists n. rewrite Hrec, !elem_of_app. auto.
Qed.
End Starts.

(** A 64-bit counter is never what it was before. *)
Lemma u64_next_differs e : u64 (e + 1) <> e.
Proof.
  rewrite u64_mod. intros He. pose proof (Z.mod_pos_bound (e + 1) (2 ^ 64) ltac:(lia)) as Hr.
  rewrite He in Hr. destruct (Z.eq_dec (e + 1) (2 ^ 64)) as [E|].
  - rewrite E, Z.mod_same in He by lia. lia.
  - rewrite Z.mod_small in He by lia. lia.
Qed.


