(* ===== verification/EndToEnd.v ===== *)
(** * The parts together

    The composition of the components: client, server, service, planner and store,
    on the schedule in which a call of a connection into the service runs to its
    end before another connection moves ([Threads.v] interleaves them). A call is a
    run of the service's own threads, so whatever clients send, the service stays
    in states its threads can reach; and a plan that a remote client reads is the
    planner's and on record whatever happens to the process. *)
From S2P Require Import Prelude Ids Canonical Model Objective Domain DefinitionCheck Plan Fixture.
From S2P Require Import Codec Crc32 Journal Store StoreCorrect Reconcile Transition Search StaticProofs Planner.
From S2P Require Import Validate ValidateCorrect Protocol ProtocolCorrect Session Service.
From S2P Require Import ServiceCorrect Server ServerCorrect Client ClientCorrect.

(** ** The server touches its service only through the interface *)

Section Uses.
Context {S : Type} `{!Backend S} (R : S -> S -> Prop) `{!PreOrder R}.
Context (Hplan : forall q s r s', be_plan q s = Some (r, s') -> R s s').
Context (Hvalidate : forall q p s r s', be_validate q p s = Some (r, s') -> R s s').
Implicit Types (srv : Server S) (cn : Connection).

Lemma same_service srv0 srv cn srv' cn' :
  srv_service srv = srv_service srv0 -> Ok (E := Stop) (srv, cn) = Ok (srv', cn') ->
  R (srv_service srv0) (srv_service srv').
Proof. intros Hs [= <- _]. by rewrite Hs. Qed.

Lemma serve_hello_service srv cn f : srv_service (serve_hello srv cn f).1 = srv_service srv.
Proof.
  unfold serve_hello. destruct (negb _); [done|]. destruct (decode_hello _); [|done].
  by destruct (session_create _ _ _ _) as [[created|s] reg].
Qed.

Lemma serve_request_uses srv cn f srv' cn' :
  serve_request srv cn f = Ok (srv', cn') -> R (srv_service srv) (srv_service srv').
Proof.
  unfold serve_request. destruct (FrameType.of_u16 _); try (by apply same_service).
  - destruct (decode_plan_request_payload _ _) as [q|s]; [|by apply same_service].
    destruct (be_plan q _) as [[r s]|] eqn:Hb; [|discriminate]. intros [= <- _]. by eapply Hplan.
  - destruct (decode_validate_request_payload _ _) as [[q p]|s]; [|by apply same_service].
    destruct (be_validate q p _) as [[r s]|] eqn:Hb; [|discriminate]. intros [= <- _].
    by eapply Hvalidate.
Qed.

Lemma serve_frame_uses srv cn f srv' cn' :
  serve_frame srv cn f = Ok (srv', cn') -> R (srv_service srv) (srv_service srv').
Proof.
  unfold serve_frame. destruct (negb _).
  - intros [= H]. apply (f_equal fst) in H. cbn [fst] in H. rewrite <- H, serve_hello_service. done.
  - destruct (session_accept _ _ _ _ _) as [[u|s] reg]; [|by apply same_service].
    intros Hreq. apply serve_request_uses in Hreq. exact Hreq.
Qed.

Lemma pump_uses fuel : forall srv cn srv' cn',
  pump fuel srv cn = Ok (srv', cn') -> R (srv_service srv) (srv_service srv').
Proof.
  induction fuel as [|fuel IH]; intros srv cn srv' cn'; [discriminate|]. simpl.
  destruct (_ || _); [by apply same_service|].
  destruct (inspect _ _); [by apply same_service| |by apply same_service].
  destruct (decode_frame _ _) as [[f consumed]|s]; [|by apply same_service].
  destruct (serve_frame _ _ _) as [[srv1 cn1]|e] eqn:Hf; [|discriminate]. cbn [rbind]. intros Hp.
  etransitivity; [by eapply serve_frame_uses|by eapply IH].
Qed.

Lemma settle_service (r : Server S * Connection) : srv_service (settle r).1 = srv_service r.1.
Proof. destruct r as [srv cn]. simpl. unfold end_connection. by destruct (cn_open cn), (cn_handshake cn). Qed.

Lemma receive_uses srv cn chunk srv' cn' :
  receive srv cn chunk = Ok (srv', cn') -> R (srv_service srv) (srv_service srv').
Proof.
  unfold receive. destruct (negb _); [by apply same_service|].
  destruct (match chunk with [] => _ | _ => _ end) as [r|e] eqn:Hr; [|discriminate].
  cbn [rbind]. intros [= H]. apply (f_equal fst) in H. cbn [fst] in H.
  rewrite <- H, settle_service. destruct r as [srv1 cn1]. cbn [fst]. clear H.
  destruct chunk; [by eapply same_service; [|exact Hr]|]. cbv zeta in Hr.
  destruct (_ <? _); [by eapply same_service; [|exact Hr]|]. by eapply pump_uses.
Qed.

Lemma receive_all_uses chunks : forall srv cn srv' cn',
  receive_all srv cn chunks = Ok (srv', cn') -> R (srv_service srv) (srv_service srv').
Proof.
  induction chunks as [|chunk chunks IH]; intros srv cn srv' cn'; [by apply same_service|]. simpl.
  destruct (receive _ _ _) as [[srv1 cn1]|e] eqn:Hr; [|discriminate]. cbn [rbind]. intros Hrun.
  etransitivity; [by eapply receive_uses|by eapply IH].
Qed.
End Uses.

(** ** A call of the service is a run of its threads *)

Section Runs.
Context (io : Io).
Implicit Types (sv : Service) (ws : list Worker) (sd : Shutdown).

(** What the threads of a service can do, the idle worker in slot [w] among
    them, without anything happening to the other threads. *)
Definition serves ws sd sv sv' : Prop :=
  rtc (process_step (eq io)) (Alive (mkSystem sv ws sd)) (Alive (mkSystem sv' ws sd)).

#[global] Instance serves_preorder ws sd : PreOrder (serves ws sd).
Proof. split; [intros sv; apply rtc_refl|intros a b c; unfold serves; apply transitivity]. Qed.

Lemma run_job_serves w ws sd fuel : forall sv worker sv',
  (w < length ws)%nat -> run_job fuel io sv worker = Some sv' ->
  rtc (process_step (eq io)) (Alive (mkSystem sv (<[w := worker]> ws) sd))
    (Alive (mkSystem sv' (<[w := Idle]> ws) sd)).
Proof.
  induction fuel as [|fuel IH]; intros sv worker sv' Hw; [discriminate|]. rewrite run_job_S.
  destruct (worker_step io sv worker) as [[[worker1 sv1]|d]|] eqn:Hstep; [|discriminate..].
  intros Hrun.
  assert (H1 : process_step (eq io) (Alive (mkSystem sv (<[w := worker]> ws) sd))
                 (Alive (mkSystem sv1 (<[w := worker1]> ws) sd))).
  { apply step_thread. rewrite <- (list_insert_insert_eq ws w worker1 worker).
    eapply (step_worker _ (mkSystem sv _ _) io w worker (Returned (worker1, sv1))); [done| |done].
    by apply list_lookup_insert_eq. }
  destruct worker1; [injection Hrun as <-; by apply rtc_once|eapply rtc_l; [done|by apply IH]..].
Qed.

Lemma await_serves {A} w ws sd (wait : Service -> option (result Status A)) fuel : forall sv r sv',
  ws !! w = Some Idle -> await fuel io wait sv = Some (r, sv') ->
  serves ws sd sv sv' /\ wait sv' = Some r.
Proof.
  intros sv r sv' Hw. revert sv.
  induction fuel as [|fuel IH]; intros sv Hc; cbn [await] in Hc;
    destruct (wait sv) as [r0|] eqn:Hr; try (injection Hc as <- <-; by split); [discriminate|].
  destruct (run_job 4 io sv Idle) as [sv1|] eqn:Hrun; [|discriminate].
  destruct (IH sv1 Hc) as [Hs Ha]. split; [|done]. etransitivity; [|exact Hs].
  apply (run_job_serves w ws sd) in Hrun; [|by eapply lookup_lt_Some].
  by rewrite list_insert_id in Hrun.
Qed.

Lemma service_call_serves {A} w ws sd call (wait : nat -> Service -> option (result Status A)) sv r sv' :
  ws !! w = Some Idle -> service_call io call wait sv = Some (r, sv') ->
  serves ws sd sv sv' /\
  match r with
  | Ok _ => wait (length (sv_submitted sv)) sv' = Some r
  | Err _ => True
  end.
Proof.
  intros Hw. unfold service_call. destruct (submit call sv) as [[id|s] sv1] eqn:Hsub.
  - assert (id = length (sv_submitted sv)) as ->.
    { revert Hsub. unfold submit. destruct (enqueue _ _ _) as [[u|s] sv2]; by intros [= <- _]. }
    intros [Hs Ha]%(await_serves w ws sd); [|done]. split; [|by destruct r].
    eapply rtc_l; [|exact Hs].
    pose proof (step_submit (eq io) (mkSystem sv ws sd) call) as H. simpl in H. by rewrite Hsub in H.
  - intros [= <- <-]. split; [|done]. apply rtc_once.
    pose proof (step_submit (eq io) (mkSystem sv ws sd) call) as H. simpl in H. by rewrite Hsub in H.
Qed.
End Runs.

(** ** A deployed server

    The server with its connections, and the threads of the service. An event on
    the network needs a worker that is free, since it is served to its end; between
    the events the service's threads and its other callers may move at any time. *)
Record Deployment := mkDeployment {
  dp_net : Net Service;
  dp_workers : list Worker;
  dp_shutdown : Shutdown
}.

Definition dp_service (dp : Deployment) : Service := srv_service (net_server (dp_net dp)).
Definition dp_system (dp : Deployment) : System :=
  mkSystem (dp_service dp) (dp_workers dp) (dp_shutdown dp).

Definition deployed (s : System) (max_sessions : Z) : Deployment :=
  mkDeployment
    (mkNet (server_start (sys_service s) (sv_epoch (sys_service s)) (sv_boot (sys_service s))
              max_sessions) []) (sys_workers s) (sys_shutdown s).

Section Deployments.
Context (io : Io).
#[local] Instance deployed_backend : Backend Service := service_backend io.

Definition idle (ws : list Worker) : Prop := exists w : nat, ws !! w = Some Idle.

Inductive deploy_step : Deployment -> Deployment -> Prop :=
| deploy_network net net' ws sd :
    idle ws -> net_event net net' -> deploy_step (mkDeployment net ws sd) (mkDeployment net' ws sd)
| deploy_threads net ws sd s' :
    process_step (eq io) (Alive (mkSystem (srv_service (net_server net)) ws sd)) (Alive s') ->
    deploy_step (mkDeployment net ws sd)
      (mkDeployment (mkNet (replace_service (net_server net) (sys_service s')) (net_connections net))
         (sys_workers s') (sys_shutdown s')).

Lemma backend_plan_serves ws sd q sv r sv' :
  idle ws -> be_plan q sv = Some (r, sv') -> serves io ws sd sv sv'.
Proof. intros [w Hw] Hc. by destruct (service_call_serves io w ws sd _ _ _ _ _ Hw Hc). Qed.

Lemma backend_validate_serves ws sd q p sv r sv' :
  idle ws -> be_validate q p sv = Some (r, sv') -> serves io ws sd sv sv'.
Proof. intros [w Hw] Hc. by destruct (service_call_serves io w ws sd _ _ _ _ _ Hw Hc). Qed.

Lemma event_serves net net' ws sd :
  idle ws -> net_event net net' ->
  serves io ws sd (srv_service (net_server net)) (srv_service (net_server net')).
Proof.
  intros Hw Hev.
  destruct Hev as [srv conns srv' cn out Hacc|srv conns srv' out Hacc|srv pre cn post chunk srv' cn' Hr
         |srv pre cn post w u|srv conns]; cbn [net_server]; try reflexivity.
  1,2: unfold accept in Hacc; destruct (srv_stopping srv); [|destruct (_ <=? _)];
    by injection Hacc as <- _.
  apply (receive_uses (serves io ws sd)) in Hr; [done| |].
  - intros q s r s'. by apply backend_plan_serves.
  - intros q p s r s'. by apply backend_validate_serves.
Qed.

Lemma deploy_step_runs dp dp' :
  deploy_step dp dp' ->
  rtc (process_step (eq io)) (Alive (dp_system dp)) (Alive (dp_system dp')) /\
  net_step (dp_net dp) (dp_net dp').
Proof.
  intros [net net' ws sd Hw Hev|net ws sd s' Hstep]; (split; cbn [dp_net]).
  - by apply event_serves.
  - by apply net_happens.
  - apply rtc_once. by destruct s'.
  - destruct net as [srv conns]. apply net_service.
Qed.

Lemma deployments_run dp dp' :
  rtc deploy_step dp dp' ->
  rtc (process_step (eq io)) (Alive (dp_system dp)) (Alive (dp_system dp')) /\
  rtc net_step (dp_net dp) (dp_net dp').
Proof.
  induction 1 as [dp|dp1 dp2 dp3 Hstep _ [IH1 IH2]]; [by split; apply rtc_refl|].
  destruct (deploy_step_runs _ _ Hstep) as [H1 H2].
  split; [by etransitivity|by eapply rtc_l].
Qed.

Lemma deployment_runs s max_sessions dp :
  rtc deploy_step (deployed s max_sessions) dp ->
  rtc (process_step (eq io)) (Alive s) (Alive (dp_system dp)) /\
  rtc net_step (dp_net (deployed s max_sessions)) (dp_net dp).
Proof. intros Hrun%deployments_run. by destruct s. Qed.

(** A run of the threads alone. *)
Lemma deploy_all dp s' :
  rtc (process_step (eq io)) (Alive (dp_system dp)) (Alive s') ->
  rtc deploy_step dp
    (mkDeployment (mkNet (replace_service (net_server (dp_net dp)) (sys_service s')) (net_connections (dp_net dp)))
       (sys_workers s') (sys_shutdown s')).
Proof.
  set (over dp s' := mkDeployment (mkNet (replace_service (net_server (dp_net dp)) (sys_service s'))
         (net_connections (dp_net dp))) (sys_workers s') (sys_shutdown s')).
  change (mkDeployment _ _ _) with (over dp s') at 1. intros Hrun.
  assert (Hself : over dp (dp_system dp) = dp).
  { unfold over, dp_system, dp_service. by destruct dp as [[[] ] ? ?]. }
  rewrite <- Hself at 1. revert Hrun. generalize (dp_system dp). intros s.
  apply (reachable_ind _ (fun s s' => rtc deploy_step (over dp s) (over dp s'))); [intros; apply rtc_refl|].
  intros s1 s2 s3 Hstep Hrun. eapply rtc_l; [|exact Hrun].
  pose proof (deploy_threads (dp_net (over dp s1)) (sys_workers s1) (sys_shutdown s1) s2) as H.
  cbn in H. unfold over. apply H. by destruct s1.
Qed.

(** ** Conversations on a deployed server *)

(** The link's two ends: a connection of the deployed server, and its client. *)
Definition hosts (dp : Deployment) (link : Link Service) : Prop :=
  exists pre post, dp_net dp = mkNet (lk_server link) (pre ++ lk_connection link :: post).

(** What happened between two states of a deployment was network traffic only. *)
Definition trafficked (dp dp' : Deployment) : Prop :=
  rtc deploy_step dp dp' /\ dp_workers dp' = dp_workers dp /\ dp_shutdown dp' = dp_shutdown dp.

#[global] Instance trafficked_preorder : PreOrder trafficked.
Proof.
  split; [intros dp; by split; [apply rtc_refl|]|].
  intros a b c (H1 & H2 & H3) (H4 & H5 & H6). split; [by etransitivity|]. split; congruence.
Qed.

Lemma event_trafficked net net' ws sd :
  idle ws -> net_event net net' -> trafficked (mkDeployment net ws sd) (mkDeployment net' ws sd).
Proof. intros Hw Hev. split; [|done]. by apply rtc_once, deploy_network. Qed.

Lemma receive_all_trafficked pre post ws sd chunks : forall srv cn srv' cn',
  idle ws -> receive_all srv cn chunks = Ok (srv', cn') ->
  trafficked (mkDeployment (mkNet srv (pre ++ cn :: post)) ws sd)
    (mkDeployment (mkNet srv' (pre ++ cn' :: post)) ws sd).
Proof.
  intros srv cn srv' cn' Hw. revert srv cn.
  induction chunks as [|chunk chunks IH]; intros srv cn; cbn [receive_all]; [by intros [= -> ->]|].
  destruct (receive srv cn chunk) as [[srv1 cn1]|e] eqn:Hr; [|discriminate]. cbn [rbind]. intros Hc.
  etransitivity; [|by apply IH]. apply event_trafficked; [done|]. by eapply net_receive.
Qed.

(** The client reads what has arrived. *)
Lemma read_trafficked srv pre cn post ws sd wire :
  idle ws ->
  trafficked (mkDeployment (mkNet srv (pre ++ cn :: post)) ws sd)
    (mkDeployment (mkNet srv (pre ++ set_unread cn wire :: post)) ws sd).
Proof. intros Hw. apply event_trafficked; [done|]. apply net_peer. Qed.

Section Hosted.
Context (cut : list Z -> list (list Z)).

Lemma exchange_hosted dp link type expected payload r link' :
  idle (dp_workers dp) -> hosts dp link ->
  exchange cut link type expected payload = Ok (r, link') ->
  exists dp', trafficked dp dp' /\ hosts dp' link'.
Proof.
  intros Hw (pre & post & Hnet). destruct dp as [net ws sd]. cbn in *. subst net. unfold exchange.
  destruct (send_request _ _ _) as [[bytes cl]|s].
  2:{ intros [= _ <-]. eexists. split; [reflexivity|]. by exists pre, post. }
  unfold transmit.
  destruct (receive_all _ _ _) as [[srv cn]|e] eqn:Hr; [|discriminate]. cbn [rbind].
  unfold read_link. destruct (read_response _ _ _ _) as [[[r1 cl1] wire]|]; [|discriminate].
  intros [= _ <-]. cbn [lk_server lk_connection].
  exists (mkDeployment (mkNet srv (pre ++ set_unread cn wire :: post)) ws sd).
  split; [|by exists pre, post].
  etransitivity; [by eapply receive_all_trafficked|by apply read_trafficked].
Qed.

Lemma client_plan_hosted dp link q r link' :
  idle (dp_workers dp) -> hosts dp link -> client_plan cut link q = Ok (r, link') ->
  exists dp', trafficked dp dp' /\ hosts dp' link'.
Proof.
  unfold client_plan. intros Hw Hh.
  destruct (exchange _ _ _ _ _) as [[r1 link1]|e] eqn:He; [|discriminate]. intros [= _ <-].
  by eapply exchange_hosted.
Qed.

(** A client that connects becomes one of the server's connections. *)
Lemma connect_hosted srv conns srv0 out ws sd limits nonce link srv' :
  idle ws -> accept srv = (srv0, Some new_connection, out) ->
  client_connect cut srv0 limits nonce = Ok (Ok link, srv') ->
  exists dp', trafficked (mkDeployment (mkNet srv conns) ws sd) dp' /\ hosts dp' link.
Proof.
  intros Hw Hacc. unfold client_connect, transmit. cbn [lk_server lk_connection].
  destruct (receive_all _ _ _) as [[srv1 cn1]|e] eqn:Hr; [|discriminate]. cbn [rbind lk_connection].
  destruct (read_frame_bytes _ _ _) as [[raw wire]|]; [|discriminate]. cbn [rbind lk_server].
  intros [= Hlink _]. destruct raw as [raw|]; [|discriminate]. cbn [rbind] in Hlink.
  destruct (accept_ack _ _) as [cl|]; [|discriminate]. cbn [rbind] in Hlink. injection Hlink as <-.
  exists (mkDeployment (mkNet srv1 (conns ++ [set_unread cn1 wire])) ws sd).
  split; [|by exists conns, []].
  etransitivity; [apply event_trafficked; [done|by eapply net_accept]|].
  etransitivity; [by eapply receive_all_trafficked|by apply read_trafficked].
Qed.
End Hosted.

(** ** An undisturbed call is answered *)

Lemma run_plan_returns q sv :
  cfg_crash_point (sv_config sv) = CrashPoint.NONE ->
  exists r sv', run_plan io io q sv = Some (Returned (r, sv')).
Proof.
  intros Hc. unfold run_plan, begin_plan. destruct (negb _); [by eauto|]. rewrite Hc.
  pose proof (append_durable_slots io RecordType.ATTEMPT (attempt_payload q) sv) as [_ Hcfg].
  destruct (append_durable _ _ _ _) as [[u|s] sv1]; [|destruct (sv_store sv); by eauto].
  cbn [snd] in Hcfg.
  assert (H : exists r sv', match plan (cfg_model_limits (sv_config sv1)) q with
    | Some r => Some (commit_plan io r sv1) | None => None end = Some (Returned (r, sv'))).
  { destruct (plan_answers (cfg_model_limits (sv_config sv1)) q) as [r ->]. unfold commit_plan.
    destruct (outcome_record r) as [type payload].
    pose proof (append_durable_slots io type payload sv1) as [_ Hcfg'].
    destruct (append_durable _ _ _ _) as [[u'|s] sv2]; [|by eauto]. cbn [snd] in Hcfg'.
    rewrite Hcfg', Hcfg, Hc. by eauto. }
  destruct (sv_store sv); exact H.
Qed.

(** Nobody waits in the queue, and nothing keeps a job from its end. *)
Record quiet (sv : Service) : Prop := {
  quiet_running : sv_stopping sv = false;
  quiet_queue : sv_queue sv = [];
  quiet_depth : 0 < cfg_max_queue_depth (sv_config sv);
  quiet_crash : cfg_crash_point (sv_config sv) = CrashPoint.NONE
}.

Lemma quiet_answers q sv :
  quiet sv -> exists r sv', be_plan q sv = Some (Ok r, sv').
Proof.
  intros [Hs Hq Hd Hc]. set (sv0 := set_queue (submit (CallPlan q) sv).2 [] false).
  destruct (run_plan_returns q sv0) as (r & sv1 & Hrun).
  { unfold sv0. simpl. unfold submit, enqueue. rewrite Hs, Hq.
    by destruct (cfg_max_queue_depth (sv_config sv) <=? sizez []). }
  exists r. eapply service_plan_runs; [done..|by rewrite Hc|exact Hrun].
Qed.

(** The job of an accepted call, and its answer. *)
Lemma plan_call_answered q s r sv' :
  SysInv s -> idle (sys_workers s) -> be_plan q (sys_service s) = Some (Ok r, sv') ->
  serves io (sys_workers s) (sys_shutdown s) (sys_service s) sv' /\ answered sv' q r.
Proof.
  intros Hinv [w Hw] Hc. set (sv := sys_service s) in *. set (id := length (sv_submitted sv)).
  destruct (service_call_serves io w (sys_workers s) (sys_shutdown s) (CallPlan q) wait_plan sv (Ok r) sv' Hw Hc)
    as [Hs Hwait]. split; [exact Hs|]. exists id. left. split; [|exact Hwait].
  change (be_plan q sv) with (service_call io (CallPlan q) wait_plan sv) in Hc. unfold service_call in Hc.
  destruct (submit (CallPlan q) sv) as [[id0|s0] sv1] eqn:Hsub; [|discriminate].
  apply (await_serves io w (sys_workers s) (sys_shutdown s)) in Hc as [Hs1 _]; [|done].
  apply reachable_remembers in Hs1 as [[more Hsub'] _]. cbn [sys_service] in Hsub'. rewrite Hsub'.
  apply lookup_app_l_Some. revert Hsub. unfold submit.
  destruct (enqueue _ _ _) as [[u|s0] sv2] eqn:He; [|discriminate]. intros [= _ <-].
  unfold register. cbn [sv_submitted]. replace (sv_submitted sv2) with (sv_submitted sv).
  - by apply list_lookup_middle.
  - revert He. unfold enqueue. destruct (sv_stopping sv); [discriminate|].
    destruct (_ <=? _); [discriminate|]. by intros [= _ <-].
Qed.
End Deployments.

(** A network that cuts its stream into non-empty pieces. *)
Definition delivers (cut : list Z -> list (list Z)) : Prop :=
  forall bytes, concat (cut bytes) = bytes /\ Forall (fun c => c <> []) (cut bytes).

(** What [planned_plans_validate] asks of a request. *)
Definition validatable (q : PlanRequest) : Prop :=
  require_current_authority (req_policy q) = true /\
  evidence_agrees default_model_limits (normalise q) /\
  Forall uses_separate (actions (req_definition q)).

(** A record behind a deployed server survives whatever kills the process later. *)
Lemma deployed_record_survives limits path dp dp2 st type payload d1 create :
  limits_sound limits -> store_ok limits (dp_service dp) -> logged (dp_service dp) type payload ->
  rtc (deploy_step io_ok) dp dp2 -> sv_store (dp_service dp2) = Some st ->
  crash limits st (sv_disk (dp_service dp2)) d1 -> small limits d1 ->
  recovers limits path create st d1 type payload.
Proof.
  intros Hlimits Hok Hlog Hrun Hst Hcrash Hsmall.
  destruct (deployments_run _ _ _ Hrun) as [Hreach _].
  pose proof (reachable_store_ok limits _ _ Hreach Hok) as Hok2.
  destruct (reachable_remembers _ _ _ Hreach) as [_ Hx].
  eapply logged_survives; [done|exact Hok2|exact Hst| |exact Hcrash|done].
  by eapply logged_extends.
Qed.

(** C14: from the client to the disk, as long as the calls of the file system
    succeed and calls are served one at a time. Take a service started on a disk,
    behind a deployed server in any state that any such traffic and any other
    callers have led to, that is quiet again (nothing queued, not shutting down, room
    in the queue) with a free worker, and a client in conversation with it whose
    sequence numbers have not run out. Take a
    request that is servable (fits the wire format and the server's limits) and whose
    answer fits the client's decoder. Whatever pieces the network cuts the
    conversation into, the client gets the answer the service gives a caller of its
    own - the planner's or one of the refusals - and the conversation goes on. If it
    carries a plan, then the request was scoped to this incarnation and the plan is
    the one the planner computes for the request. Under the default model limits, and
    if the request demands current authority, has no contradictory evidence and gives
    no action two uses of one resource, the validator finds nothing against it. And
    if the process is killed at any later moment with the journal within its bound,
    opening the store recovers the plan's record, unless it is refused as exhausted
    with a log too long for another incarnation. *)
Theorem remote_plans_stand limits config path d s0 d0 max_sessions dp cut link q :
  delivers cut -> limits_sound limits ->
  start io_ok config path d = Some (Ok s0, d0) -> store_ok limits (sys_service s0) ->
  rtc (deploy_step io_ok) (deployed s0 max_sessions) dp ->
  idle (dp_workers dp) -> quiet (dp_service dp) ->
  hosts dp link -> linked link -> has_room link -> servable (srv_limits (lk_server link)) q ->
  (forall r sv, service_call io_ok (CallPlan q) wait_plan (dp_service dp) = Some (r, sv) ->
     answer_fits (cl_limits (lk_client link)) encode_plan_response_payload
       (result_fits (limits_model (cl_limits (lk_client link)))) r) ->
  exists a link' dp',
    @client_plan Service (service_backend io_ok) cut link q = Ok (Ok a, link') /\
    rtc (deploy_step io_ok) dp dp' /\ hosts dp' link' /\ linked link' /\
    service_call io_ok (CallPlan q) wait_plan (dp_service dp) = Some (Ok a, dp_service dp') /\
    justified (dp_service dp') q a /\
    forall p, pr_plan a = Some p ->
      current (dp_service dp') q /\ plan (cfg_model_limits config) q = Some a /\
      (cfg_model_limits config = default_model_limits -> validatable q ->
         validate_plan q p =
           mkReport true true true (plan_objective p) (plan_digest p) (plan_digest p) []) /\
      forall dp2 st d1 create, rtc (deploy_step io_ok) dp' dp2 ->
        sv_store (dp_service dp2) = Some st ->
        crash limits st (sv_disk (dp_service dp2)) d1 -> small limits d1 ->
        recovers limits path create st d1 RecordType.COMMITTED_PLAN (encode_plan_record p).
Proof.
  intros Hcut Hlimits Hstart Hok0 Hrun Hidle Hquiet Hhosts Hlink Hroom Hq Hfits.
  apply start_fresh in Hstart as (st0 & e & b & l & n & -> & _).
  destruct (deployment_runs _ _ _ _ Hrun) as [Hreach _].
  pose proof (reachable_inv _ _ _ Hreach (fresh_system_inv _ _ _ _ _ _ _)) as Hinv.
  pose proof (reachable_store_ok limits _ _ Hreach Hok0) as Hok.
  destruct (reachable_remembers _ _ _ Hreach) as [_ [Hcfg _]]. simpl in Hcfg.
  assert (Hsrv : srv_service (lk_server link) = dp_service dp).
  { destruct Hhosts as (pre & post & Hnet). unfold dp_service. by rewrite Hnet. }
  destruct (quiet_answers io_ok q _ Hquiet) as (a & sv' & Hbe).
  assert (Hbe' : @be_plan Service (service_backend io_ok) q (srv_service (lk_server link)) = Some (Ok a, sv'))
    by by rewrite Hsrv.
  destruct (@plan_call Service (service_backend io_ok) cut Hcut link q (Ok a) sv' Hlink Hroom Hq Hbe'
              (Hfits _ _ Hbe)) as (link' & Hcall & Hlink' & Hsv').
  destruct (client_plan_hosted io_ok cut dp link q _ _ Hidle Hhosts Hcall) as (dp' & (Htr & Hws & Hsd) & Hhosts').
  assert (Hsv : dp_service dp' = sv').
  { rewrite <- Hsv'. destruct Hhosts' as (pre & post & Hnet). unfold dp_service. by rewrite Hnet. }
  destruct (plan_call_answered io_ok q (dp_system dp) a sv' Hinv Hidle Hbe) as [_ Hans].
  destruct (deployments_run _ _ _ Htr) as [Hreach' _].
  pose proof (reachable_inv _ _ _ Hreach' Hinv) as Hinv'.
  pose proof (reachable_store_ok limits _ _ Hreach' Hok) as Hok'.
  destruct (reachable_remembers _ _ _ Hreach') as [_ [Hcfg' _]]. cbn in Hcfg'.
  rewrite <- Hsv in Hans. apply (answered_justified (dp_system dp')) in Hans; [|done].
  exists a, link', dp'. split_and!; [done..|by rewrite Hsv|exact Hans|]. intros p Hp.
  apply justified_carries in Hans as (Hcur & Hplan & _ & Hlog); [|rewrite Hp; by left].
  unfold planned in Hplan. cbn in Hplan. rewrite Hcfg', Hcfg in Hplan. split_and!; [done..| |].
  - intros Hdef (Hauth & Hag & Hsep). rewrite Hdef in Hplan.
    by apply (planned_plan_validates q a); [exact (request_fits_typed _ _ (proj1 Hq))|..].
  - intros dp2 st d1 create Hrun2 Hst Hcrash Hsmall.
    unfold outcome_record in Hlog. rewrite Hp in Hlog.
    by eapply (deployed_record_survives limits path dp' dp2).
Qed.

(** ** A client, a server, a disk *)

Lemma bytewise_delivers : delivers bytewise.
Proof. exact bytewise_cuts. Qed.

(** The server of the first service, once it has accepted a connection. *)
Definition first_server (s0 : System) : Server Service :=
  count (server_start (sys_service s0) 1 1 4) count_connection.

Lemma first_conversation st d :
  let s0 := first_system st d in
  exists dp link, rtc (deploy_step io_ok) (deployed s0 4) dp /\ dp_workers dp = [Idle] /\
    dp_shutdown dp = Up /\ dp_service dp = sys_service s0 /\ hosts dp link /\ linked link /\
    has_room link /\ srv_limits (lk_server link) = default_protocol_limits /\
    cl_limits (lk_client link) = default_protocol_limits.
Proof.
  intros s0. set (srv0 := server_start (sys_service s0) 1 1 4).
  destruct (@connect_call Service (service_backend io_ok) bytewise bytewise_cuts (first_server s0)
              default_protocol_limits 77 (opened 1 1 1 77) (mkRegistry [opened 1 1 1 77] 4 1 2))
    as (link & Hc & Hl & Hroom & Hs & Hls & Hlc);
    [exact protocol_limits_ok|vm_compute; discriminate|exact protocol_limits_ok|vm_compute; discriminate
    |reflexivity|unfold in_u64; lia|discriminate|split; [discriminate|reflexivity]|split; [discriminate|reflexivity]
    |refine (new_registry_inv 4 _); unfold in_u32; lia|reflexivity|reflexivity|].
  destruct (connect_hosted io_ok bytewise srv0 [] (first_server s0) [] [Idle] Up
              default_protocol_limits 77 link (lk_server link)) as (dp & (Hrun & Hws & Hsd) & Hh);
    [by exists 0%nat|reflexivity|exact Hc|].
  assert (Hsv : dp_service dp = sys_service s0).
  { destruct Hh as (pre & post & Hnet). unfold dp_service. rewrite Hnet. cbn [net_server]. rewrite Hs.
    reflexivity. }
  exists dp, link.
  exact (conj Hrun (conj Hws (conj Hsd (conj Hsv (conj Hh (conj Hl (conj Hroom (conj Hls Hlc)))))))).
Qed.

Lemma first_answered st d r sv2 :
  let s0 := first_system st d in
  plan default_model_limits first_request = Some r ->
  run_plan io_ok io_ok first_request (first_taken s0) = Some (Returned (r, sv2)) ->
  forall r' sv, service_call io_ok (CallPlan first_request) wait_plan (sys_service s0) = Some (r', sv) ->
    r' = Ok r /\
    answer_fits default_protocol_limits encode_plan_response_payload (result_fits default_model_limits) r'.
Proof.
  intros s0 Hplan Hrun r' sv Hcall.
  destruct (service_plan_runs io_ok first_request (sys_service s0) r sv2) as [sv' Hok];
    [reflexivity|reflexivity|reflexivity|discriminate|exact Hrun|].
  rewrite Hok in Hcall. injection Hcall as <- _. split; [reflexivity|].
  destruct first_answer as (r0 & Hr0 & _ & Hf & Hz). rewrite Hplan in Hr0. injection Hr0 as <-.
  exact (conj Hf Hz).
Qed.

Lemma first_validatable : validatable first_request.
Proof.
  split; [reflexivity|]. split; [|exact example_separate].
  apply distinct_keys_agree. apply (bool_decide_unpack _). vm_compute. done.
Qed.

Lemma remote_plans_stand_witness :
  exists dp link r link' dp' p, rtc (deploy_step io_ok) dp dp' /\ hosts dp link /\ hosts dp' link' /\
    @client_plan Service (service_backend io_ok) bytewise link first_request = Ok (Ok r, link') /\
    plan default_model_limits first_request = Some r /\ pr_plan r = Some p /\
    vr_valid (validate_plan first_request p) = true.
Proof.
  destruct first_run as (st & d & st2 & d2 & r & p & Hstart & Hok & Hr & Hp & (st1 & d1 & Hrun) & _).
  destruct (first_conversation st d) as (dp & link & Hdp & Hws & Hsd & Hsv & Hh & Hl & Hroom & Hls & Hlc).
  destruct (remote_plans_stand service_limits service_config "s" empty_disk (first_system st d) d 4 dp
              bytewise link first_request) as (a & link' & dp' & Hcall & Hrun' & Hh' & _ & Hlocal & _ & Hstand).
  - exact bytewise_delivers.
  - exact service_limits_sound.
  - exact Hstart.
  - exact Hok.
  - exact Hdp.
  - rewrite Hws. by exists 0%nat.
  - rewrite Hsv. by split.
  - exact Hh.
  - exact Hl.
  - exact Hroom.
  - rewrite Hls. exact first_request_servable.
  - rewrite Hsv, Hlc. intros r' sv' Hc. exact (proj2 (first_answered st d r _ Hr Hrun r' sv' Hc)).
  - rewrite Hsv in Hlocal. destruct (first_answered st d r _ Hr Hrun _ _ Hlocal) as [[= ->] _].
    exists dp, link, r, link', dp', p. split; [exact Hrun'|]. split; [exact Hh|]. split; [exact Hh'|].
    split; [exact Hcall|]. destruct (Hstand p Hp) as (_ & Hplan & Hvalid & _).
    split; [exact Hplan|]. split; [exact Hp|].
    rewrite Hvalid; [reflexivity|reflexivity|exact first_validatable].
Defined.
