(* ===== verification/Transport.v ===== *)
(** * Sockets

    Models [nrp::transport] of [src/runtime_service.cpp] - the owning [Socket] with
    its loops around [send] and [recv] - and what [src/runtime_client.cpp] and
    [src/runtime_server.cpp] do with it: the client's frame reader, the listening
    socket of [PlanningServer::start]. The calls of the operating system are an
    interface, [Kernel]; what its manual promises about them is [KernelLaws]. Every
    call returns: [::send] is called without [MSG_NOSIGNAL], so on POSIX systems a
    peer that has closed may end the process by SIGPIPE instead; the model is of a
    process that ignores this signal, as on Windows, where there is none. The theorems say that the loops make of partial sends and
    receives the byte streams the other files speak of, and that no handle is lost. *)
From S2P Require Import Prelude Ids Canonical Model Objective Domain DefinitionCheck Plan Fixture.
From S2P Require Import Codec Crc32 Journal Store Planner Validate Protocol ProtocolCorrect Session.
From S2P Require Import Service ServiceCorrect Server ServerCorrect Client ClientCorrect.

(** ** The operating system *)

Definition Handle := Z.

(** Family, type and protocol of a socket, and an address for it. *)
Record AddrInfo := mkAddrInfo { ai_kind : Z * Z * Z; ai_addr : list Z }.

(** [k_socket], [k_connect], ... are the calls of that name; [None] stands for the
    invalid handle, [false] and a negative result for a failure. *)
Class Kernel (K : Type) := {
  k_inet_stream : Z * Z * Z;
  k_getaddrinfo : string -> string -> K -> option (list AddrInfo);
  k_inet_pton : string -> option (list Z);
  k_socket : Z * Z * Z -> K -> option Handle * K;
  k_connect : Handle -> list Z -> K -> bool * K;
  k_bind : Handle -> list Z -> Z -> K -> bool * K;
  k_listen : Handle -> Z -> K -> bool * K;
  k_getsockname : Handle -> K -> option Z;
  k_send : Handle -> list Z -> K -> Z * K;
  k_recv : Handle -> Z -> K -> Z * list Z * K;
  k_shutdown : Handle -> K -> K;
  k_close : Handle -> K -> K
}.

(** What the calls promise. [opened]: the handles in use; [sent]: the bytes a handle
    has accepted; [incoming]: the bytes that will arrive at it before its end. *)
Class KernelLaws (K : Type) `{Kernel K} := {
  opened : K -> gset Handle;
  sent : Handle -> K -> list Z;
  incoming : Handle -> K -> list Z;
  socket_law kind k h k' : k_socket kind k = (h, k') ->
    match h with
    | Some h => (h ∉ opened k) /\ opened k' = {[h]} ∪ opened k
    | None => opened k' = opened k
    end;
  connect_law h a k b k' : k_connect h a k = (b, k') -> opened k' = opened k;
  bind_law h a port k b k' : k_bind h a port k = (b, k') -> opened k' = opened k;
  listen_law h n k b k' : k_listen h n k = (b, k') -> opened k' = opened k;
  shutdown_law h k : opened (k_shutdown h k) = opened k;
  close_law h k : opened (k_close h k) = opened k ∖ {[h]};
  send_law h bytes k r k' : k_send h bytes k = (r, k') ->
    r <= sizez bytes /\ sent h k' = sent h k ++ take (Z.to_nat r) bytes;
  recv_law h n k r bytes k' : k_recv h n k = (r, bytes, k') ->
    r <= n /\ sizez bytes = Z.max 0 r /\ incoming h k = bytes ++ incoming h k' /\
    (r = 0 -> 0 < n -> incoming h k = [])
}.

Section Transport.
Context {K : Type} `{!Kernel K}.

(** [ensure_network_initialised], where the system needs no initialisation. *)
Definition ensure_network_initialised : result Status unit := Ok tt.

(** ** [Socket] *)

Record Socket := mkSocket { sock_handle : option Handle; sock_peer : string }.

(** A socket default constructed or moved from. *)
Definition no_socket : Socket := mkSocket None "".

Definition socket_valid (s : Socket) : bool := match sock_handle s with Some _ => true | None => false end.

Definition socket_adopt (h : Handle) : Socket := mkSocket (Some h) "".

(** [close], and the destructor. *)
Definition socket_close (s : Socket) (k : K) : Socket * K :=
  match sock_handle s with
  | Some h => (mkSocket None (sock_peer s), k_close h k)
  | None => (s, k)
  end.

(** The move assignment of another socket: what it was is closed. *)
Definition socket_assign (this other : Socket) (k : K) : Socket * Socket * K :=
  let k := (socket_close this k).2 in (other, no_socket, k).

Definition not_open : Status := mkStatus StatusCode.CLOSED "socket is not open".

Definition socket_shutdown_both (s : Socket) (k : K) : result Status unit * K :=
  match sock_handle s with
  | Some h => (Ok tt, k_shutdown h k)
  | None => (Err not_open, k)
  end.

(** No call moves more than this many bytes. *)
Definition kMaxTransfer : Z := 2 ^ 20.

(** The loop of [send_all] on what is left to send. A [send] to a peer that is gone
    fails; it does not raise a signal. *)
Fixpoint send_rest (fuel : nat) (h : Handle) (rest : list Z) (k : K) : option (result Status unit * K) :=
  match rest, fuel with
  | [], _ => Some (Ok tt, k)
  | _, O => None
  | _, S fuel =>
      let chunk := take (Z.to_nat (Z.min (sizez rest) kMaxTransfer)) rest in
      let '(r, k) := k_send h chunk k in
      if r <=? 0 then Some (Err (mkStatus StatusCode.IO_ERROR "send failed"), k)
      else send_rest fuel h (drop (Z.to_nat r) rest) k
  end.

Definition socket_send_all (s : Socket) (bytes : list Z) (k : K) : option (result Status unit * K) :=
  match sock_handle s with
  | Some h => send_rest (length bytes) h bytes k
  | None => Some (Err not_open, k)
  end.

Definition recv_failed : Status := mkStatus StatusCode.IO_ERROR "recv failed".

(** How many bytes came, and the bytes. *)
Definition socket_recv_some (s : Socket) (capacity : Z) (k : K) : result Status (Z * list Z) * K :=
  match sock_handle s with
  | Some h =>
      let '(r, bytes, k) := k_recv h (Z.min capacity kMaxTransfer) k in
      if r <? 0 then (Err recv_failed, k) else (Ok (r, bytes), k)
  | None => (Err not_open, k)
  end.

(** The loop of [recv_exact_or_eof]: the bytes received so far, and whether the
    stream ended before there were [size] of them. *)
Fixpoint recv_rest (fuel : nat) (s : Socket) (size : Z) (received : list Z) (k : K)
  : option (result Status (bool * list Z) * K) :=
  if size <=? sizez received then Some (Ok (false, received), k)
  else
    match fuel with
    | O => None
    | S fuel =>
        match socket_recv_some s (size - sizez received) k with
        | (Err e, k) => Some (Err e, k)
        | (Ok (n, chunk), k) =>
            if n =? 0 then Some (Ok (true, received), k)
            else recv_rest fuel s size (received ++ chunk) k
        end
    end.

Definition socket_recv_exact_or_eof (s : Socket) (size : Z) (k : K)
  : option (result Status (bool * list Z) * K) :=
  recv_rest (Z.to_nat size) s size [] k.

(** ** [Socket::connect] *)

(** The addresses in turn; [last] is the error if none is left. *)
Fixpoint try_addresses (host service : string) (entries : list AddrInfo) (last : Status) (k : K)
  : result Status Socket * K :=
  match entries with
  | [] => (Err last, k)
  | entry :: entries =>
      match k_socket (ai_kind entry) k with
      | (None, k) => try_addresses host service entries last k
      | (Some h, k) =>
          match k_connect h (ai_addr entry) k with
          | (true, k) => (Ok (mkSocket (Some h) (host +:+ ":" +:+ service)), k)
          | (false, k) =>
              try_addresses host service entries
                (mkStatus StatusCode.IO_ERROR ("connect failed for " +:+ host +:+ ":" +:+ service))
                (k_close h k)
          end
      end
  end.

Definition socket_connect (host : string) (port : Z) (k : K) : result Status Socket * K :=
  match ensure_network_initialised with
  | Err e => (Err e, k)
  | Ok _ =>
      let service := pretty port in
      match k_getaddrinfo host service k with
      | None | Some [] => (Err (mkStatus StatusCode.IO_ERROR ("cannot resolve " +:+ host)), k)
      | Some entries =>
          try_addresses host service entries
            (mkStatus StatusCode.IO_ERROR "no address could be connected") k
      end
  end.

(** ** The client's frame reader *)

(** [PlanningClient::read_frame_bytes] *)
Definition socket_read_frame (limits : ProtocolLimits) (s : Socket) (k : K)
  : option (result Status (list Z) * K) :=
  '(read, k) ← socket_recv_exact_or_eof s kFrameHeaderSize k;
  match read with
  | Err e => Some (Err e, k)
  | Ok (true, _) => Some (Err (mkStatus StatusCode.CLOSED "peer closed before a frame header arrived"), k)
  | Ok (false, header) =>
      match decode_frame_header header with
      | Err e => Some (Err e, k)
      | Ok h =>
          if max_payload_bytes limits <? fh_payload_length h
          then Some (Err (mkStatus StatusCode.OUT_OF_RANGE
                            "declared payload exceeds the frame bound"), k)
          else if 0 <? fh_payload_length h
          then
            '(read, k) ← socket_recv_exact_or_eof s (fh_payload_length h) k;
            Some (match read with
                  | Err e => Err e
                  | Ok (true, _) => Err (mkStatus StatusCode.CLOSED "peer closed inside a frame payload")
                  | Ok (false, payload) => Ok (header ++ payload)
                  end, k)
          else Some (Ok header, k)
      end
  end.

(** ** The listening socket *)

Record ServerConfig := mkServerConfig {
  scfg_bind_address : string;
  scfg_port : Z;
  scfg_max_sessions : Z;
  scfg_backlog : Z
}.

(** [PlanningServer::start], the sockets: a failure destroys the server, which
    shuts the listener down and closes it. The port is zero if it cannot be asked. *)
Definition server_listen (config : ServerConfig) (k : K) : result Status (Socket * Z) * K :=
  let abandon listener (e : Status) k :=
    let k := (socket_shutdown_both listener k).2 in (Err e, (socket_close listener k).2) in
  match k_socket k_inet_stream k with
  | (None, k) => (Err (mkStatus StatusCode.IO_ERROR "cannot create the listening socket"), k)
  | (Some h, k) =>
      let listener := socket_adopt h in
      match k_inet_pton (scfg_bind_address config) with
      | None =>
          abandon listener
            (mkStatus StatusCode.INVALID_ARGUMENT "bind address is not a valid IPv4 address") k
      | Some address =>
          match k_bind h address (scfg_port config) k with
          | (false, k) => abandon listener (mkStatus StatusCode.IO_ERROR "bind failed") k
          | (true, k) =>
              match k_listen h (scfg_backlog config) k with
              | (false, k) => abandon listener (mkStatus StatusCode.IO_ERROR "listen failed") k
              | (true, k) => (Ok (listener, default 0 (k_getsockname h k)), k)
              end
          end
      end
  end.
End Transport.

(** ** The loops *)

Section Laws.
Context {K : Type} `{!Kernel K} `{!KernelLaws K}.
Implicit Types (k : K) (h : Handle).

(** [send_all] always returns; a success has sent every byte, in order and once; a
    failure a proper prefix. *)
Lemma send_rest_spec h fuel : forall rest k, (length rest <= fuel)%nat ->
  exists r k' done, send_rest fuel h rest k = Some (r, k') /\ sent h k' = sent h k ++ done /\
    match r with
    | Ok _ => done = rest
    | Err _ => done `prefix_of` rest /\ done <> rest
    end.
Proof.
  induction fuel as [|fuel IH]; intros [|x rest] k Hfuel; simpl in Hfuel; try lia.
  1,2: exists (Ok tt), k, []; rewrite app_nil_r; done.
  cbn [send_rest]. set (chunk := take _ (x :: rest)).
  destruct (k_send h chunk k) as [r k1] eqn:Hs. apply send_law in Hs as [Hr Hsent].
  assert (Hc : chunk `prefix_of` x :: rest).
  { exists (drop (Z.to_nat (Z.min (sizez (x :: rest)) kMaxTransfer)) (x :: rest)). symmetry. apply take_drop. }
  destruct (Z.leb_spec r 0).
  - exists (Err (mkStatus StatusCode.IO_ERROR "send failed")), k1, [].
    replace (Z.to_nat r) with 0%nat in Hsent by lia. rewrite take_0 in Hsent.
    split_and!; [done|done|apply prefix_nil|done].
  - assert (Ht : take (Z.to_nat r) chunk = take (Z.to_nat r) (x :: rest)).
    { destruct Hc as [tail ->]. rewrite take_app_le; [done|]. unfold sizez in Hr. lia. }
    rewrite Ht in Hsent.
    destruct (IH (drop (Z.to_nat r) (x :: rest)) k1) as (res & k' & done & Hrun & Hs' & Hres).
    { rewrite length_drop. simpl. lia. }
    exists res, k', (take (Z.to_nat r) (x :: rest) ++ done).
    split; [exact Hrun|]. split; [by rewrite Hs', Hsent, app_assoc|].
    destruct res as [u|e]; [by rewrite Hres, take_drop|]. destruct Hres as [[tail Htail] Hne].
    split; [exists tail; by rewrite <- app_assoc, <- Htail, take_drop|].
    intros He. apply Hne. apply (app_inv_head (take (Z.to_nat r) (x :: rest))). by rewrite take_drop.
Qed.

(** [recv_exact_or_eof] always returns; unless a call fails, it returns what
    [recv_exact] finds at the front of the stream. *)
Lemma recv_rest_spec s h size fuel : sock_handle s = Some h -> forall received k,
  (Z.to_nat (size - sizez received) <= fuel)%nat -> sizez received <= size ->
  exists r k', recv_rest fuel s size received k = Some (r, k') /\
    match r with
    | Ok (eof, bytes) =>
        recv_exact size true (received ++ incoming h k) = Some (eof, bytes, incoming h k')
    | Err e => e = recv_failed
    end.
Proof.
  intros Hh. induction fuel as [|fuel IH]; intros received k Hfuel Hle;
    unfold recv_rest; fold recv_rest.
  all: destruct (Z.leb_spec size (sizez received)); try lia.
  1,2: exists (Ok (false, received)), k; split; [done|]; unfold recv_exact;
    replace size with (sizez received) by lia; unfold sizez; rewrite length_app;
    rewrite (proj2 (Z.leb_le _ _)) by lia; rewrite Nat2Z.id, take_app_length, drop_app_length; done.
  unfold socket_recv_some. rewrite Hh. destruct (k_recv h _ k) as [[r bytes] k1] eqn:Hr.
  apply recv_law in Hr as (Hmax & Hsize & Hin & Hend).
  destruct (Z.ltb_spec r 0); [by eexists _, k1|].
  destruct (Z.eqb_spec r 0) as [->|].
  - eexists _, k1. split; [done|]. cbv beta iota. unfold kMaxTransfer in *.
    assert (Hnil : incoming h k = []) by (apply Hend; lia). rewrite Hnil, app_nil_r.
    rewrite Hnil in Hin. symmetry in Hin. apply app_eq_nil in Hin as [_ ->].
    unfold recv_exact. rewrite (proj2 (Z.leb_gt _ _)) by lia. done.
  - unfold kMaxTransfer in *. destruct (IH (received ++ bytes) k1) as (res & k' & Hrun & Hres).
    1,2: unfold sizez in *; rewrite length_app; lia.
    exists res, k'. split; [done|]. rewrite Hin. destruct res as [[eof all]|e]; [|done].
    by rewrite app_assoc.
Qed.

Lemma recv_exact_spec s h size k : sock_handle s = Some h -> 0 <= size ->
  exists r k', socket_recv_exact_or_eof s size k = Some (r, k') /\
    match r with
    | Ok (eof, bytes) => recv_exact size true (incoming h k) = Some (eof, bytes, incoming h k')
    | Err e => e = recv_failed
    end.
Proof. intros Hh Hs. apply (recv_rest_spec s h size _ Hh []); unfold sizez; simpl; lia. Qed.

Lemma read_frame_spec limits s h k : sock_handle s = Some h ->
  exists r k', socket_read_frame limits s k = Some (r, k') /\
    (r = Err recv_failed \/ read_frame_bytes limits true (incoming h k) = Some (r, incoming h k')).
Proof.
  intros Hh. unfold socket_read_frame, read_frame_bytes.
  destruct (recv_exact_spec s h kFrameHeaderSize k Hh) as (r1 & k1 & -> & H1); [done|].
  cbn [mbind option_bind]. destruct r1 as [[[|] header]|e]; [| |subst e; by eauto].
  - rewrite H1. cbn [mbind option_bind]. by eauto.
  - rewrite H1. cbn [mbind option_bind]. destruct (decode_frame_header header) as [hd|e]; [|by eauto].
    destruct (_ <? _); [by eauto|]. destruct (Z.ltb_spec 0 (fh_payload_length hd)); [|by eauto].
    destruct (recv_exact_spec s h (fh_payload_length hd) k1 Hh) as (r2 & k2 & -> & H2); [lia|].
    cbn [mbind option_bind]. destruct r2 as [[[|] payload]|e]; [| |subst e; by eauto];
      rewrite H2; by eauto.
Qed.

(** ** No handle is lost *)

Lemma try_addresses_opened host service entries : forall last k r k',
  try_addresses host service entries last k = (r, k') ->
  match r with
  | Ok s => exists h, sock_handle s = Some h /\ (h ∉ opened k) /\ opened k' = {[h]} ∪ opened k
  | Err _ => opened k' = opened k
  end.
Proof.
  induction entries as [|entry entries IH]; intros last k r k'; cbn [try_addresses]; [by intros [= <- <-]|].
  destruct (k_socket (ai_kind entry) k) as [[h|] k1] eqn:Hs; apply socket_law in Hs.
  - destruct Hs as [Hnew Ho]. destruct (k_connect h (ai_addr entry) k1) as [b k2] eqn:Hc.
    apply connect_law in Hc. destruct b.
    + intros [= <- <-]. exists h. split; [done|]. split; [done|]. by rewrite Hc.
    + intros Hrun. apply IH in Hrun. rewrite close_law, Hc, Ho in Hrun.
      assert (He : ({[h]} ∪ opened k) ∖ {[h]} = opened k) by set_solver. rewrite He in Hrun. exact Hrun.
  - intros Hrun. apply IH in Hrun. by rewrite Hs in Hrun.
Qed.

Lemma socket_close_opened s k :
  opened (socket_close s k).2 = opened k ∖ match sock_handle s with Some h => {[h]} | None => ∅ end.
Proof. unfold socket_close. destruct (sock_handle s); [apply close_law|simpl; set_solver]. Qed.

Lemma shutdown_both_opened s k : opened (socket_shutdown_both s k).2 = opened k.
Proof. unfold socket_shutdown_both. destruct (sock_handle s); [apply shutdown_law|done]. Qed.

Lemma server_listen_opened config k r k' :
  server_listen config k = (r, k') ->
  match r with
  | Ok (listener, _) => exists h, sock_handle listener = Some h /\ (h ∉ opened k) /\
                          opened k' = {[h]} ∪ opened k
  | Err _ => opened k' = opened k
  end.
Proof.
  unfold server_listen.
  destruct (k_socket k_inet_stream k) as [[h|] k1] eqn:Hs; apply socket_law in Hs;
    [|by intros [= <- <-]]. destruct Hs as [Hnew Ho].
  assert (Habandon : forall k2, opened k2 = opened k1 ->
            opened (socket_close (socket_adopt h) (socket_shutdown_both (socket_adopt h) k2).2).2 = opened k).
  { intros k2 H2. rewrite socket_close_opened, shutdown_both_opened, H2, Ho. simpl. set_solver. }
  destruct (k_inet_pton _) as [address|]; [|intros [= <- <-]; by apply Habandon].
  destruct (k_bind _ _ _ _) as [b k2] eqn:Hb. apply bind_law in Hb.
  destruct b; [|intros [= <- <-]; by apply Habandon].
  destruct (k_listen _ _ _) as [b k3] eqn:Hl. apply listen_law in Hl.
  destruct b; intros [= <- <-]; [|apply Habandon; congruence].
  exists h. split; [done|]. split; [done|]. by rewrite Hl, Hb.
Qed.

(** The handles of some sockets. *)
Definition handles (sockets : list Socket) : gset Handle := list_to_set (omap sock_handle sockets).

End Laws.

(** ** A network in memory

    Handles with an output and an input each; a call moves at most [w_piece] + 1
    bytes. *)
Record Wire := mkWire {
  w_piece : nat;
  w_open : gset Handle;
  w_sent : gmap Handle (list Z);
  w_incoming : gmap Handle (list Z)
}.

Definition wire_out (h : Handle) (w : Wire) : list Z := default [] (w_sent w !! h).
Definition wire_in (h : Handle) (w : Wire) : list Z := default [] (w_incoming w !! h).

#[export] Instance wire_kernel : Kernel Wire := {
  k_inet_stream := (2, 1, 6);
  k_getaddrinfo host service w := Some [mkAddrInfo (2, 1, 6) [0]; mkAddrInfo (2, 1, 6) [1]];
  k_inet_pton text := if bool_decide (text = "127.0.0.1") then Some [1] else None;
  k_socket kind w :=
    let h := fresh (w_open w) in
    (Some h, mkWire (w_piece w) ({[h]} ∪ w_open w) (w_sent w) (w_incoming w));
  k_connect h address w := (bool_decide (address = [1]), w);
  k_bind h address port w := (true, w);
  k_listen h backlog w := (true, w);
  k_getsockname h w := Some 4000;
  k_send h bytes w :=
    let r := Z.min (sizez bytes) (Z.of_nat (S (w_piece w))) in
    (r, mkWire (w_piece w) (w_open w)
          (<[h := wire_out h w ++ take (Z.to_nat r) bytes]> (w_sent w)) (w_incoming w));
  k_recv h n w :=
    let bytes := take (Z.to_nat (Z.min n (Z.of_nat (S (w_piece w))))) (wire_in h w) in
    (if n <? 0 then n else sizez bytes, bytes,
     mkWire (w_piece w) (w_open w) (w_sent w)
       (<[h := drop (length bytes) (wire_in h w)]> (w_incoming w)));
  k_shutdown h w := w;
  k_close h w := mkWire (w_piece w) (w_open w ∖ {[h]}) (w_sent w) (w_incoming w)
}.

#[export] Program Instance wire_laws : KernelLaws Wire := {
  opened := w_open;
  sent := wire_out;
  incoming := wire_in
}.
Next Obligation. intros kind k h k' [= <- <-]. split; [apply is_fresh|done]. Qed.
Next Obligation. by intros h a k b k' [= _ <-]. Qed.
Next Obligation. by intros h a port k b k' [= _ <-]. Qed.
Next Obligation. by intros h n k b k' [= _ <-]. Qed.
Next Obligation. done. Qed.
Next Obligation. done. Qed.
Next Obligation.
  intros h bytes k r k' [= <- <-]. split; [lia|]. unfold wire_out at 1. cbn [w_sent].
  by rewrite lookup_insert_eq.
Qed.
Next Obligation.
  intros h n k r bytes k' [= <- <- <-].
  set (count := Z.to_nat (Z.min n (Z.of_nat (S (w_piece k))))).
  assert (Hin : wire_in h (mkWire (w_piece k) (w_open k) (w_sent k)
      (<[h := drop (length (take count (wire_in h k))) (wire_in h k)]> (w_incoming k))) =
      drop (length (take count (wire_in h k))) (wire_in h k)).
  { unfold wire_in at 1. cbn [w_incoming]. by rewrite lookup_insert_eq. }
  rewrite Hin. unfold sizez. rewrite length_take.
  split_and!; [destruct (Z.ltb_spec n 0); lia|destruct (Z.ltb_spec n 0); lia| |].
  - destruct (Nat.le_gt_cases count (length (wire_in h k))).
    + rewrite Nat.min_l by done. by rewrite take_drop.
    + rewrite Nat.min_r by lia. by rewrite take_ge, drop_all, app_nil_r by lia.
  - intros Hr Hn. rewrite (proj2 (Z.ltb_ge n 0)) in Hr by lia.
    apply length_zero_iff_nil. lia.
Qed.

(** ** What the sockets promise *)

(** C21: the socket loops carry the streams. On any system whose calls keep what
    their manual promises, however few bytes each call moves: [send_all] returns,
    and a success has handed over every byte once and in order, a failure a proper
    prefix; the client's frame reader returns, and unless a receive fails its
    result, and what it leaves on the stream, is that of the reader on the plain
    stream of bytes; so a frame at the front of the stream is read whole, with
    nothing of what follows it. *)
Theorem sockets_carry_frames {K} `{!Kernel K} `{!KernelLaws K} limits s h (k : K) :
  in_u32 (max_payload_bytes limits) -> sock_handle s = Some h ->
  (forall bytes, exists r k' handed, socket_send_all s bytes k = Some (r, k') /\
     sent h k' = sent h k ++ handed /\
     match r with
     | Ok _ => handed = bytes
     | Err _ => handed `prefix_of` bytes /\ handed <> bytes
     end) /\
  (exists r k', socket_read_frame limits s k = Some (r, k') /\
     (r = Err recv_failed \/
      read_frame_bytes limits true (incoming h k) = Some (r, incoming h k'))) /\
  (forall f rest, frame_fits limits f -> incoming h k = frame_bytes f ++ rest ->
     exists r k', socket_read_frame limits s k = Some (r, k') /\
       (r = Err recv_failed \/ r = Ok (frame_bytes f) /\ incoming h k' = rest)).
Proof.
  intros Hu Hh. split; [|split].
  - intros bytes. unfold socket_send_all. rewrite Hh. by apply send_rest_spec.
  - by apply read_frame_spec.
  - intros f rest Hf Hin. destruct (read_frame_spec limits s h k Hh) as (r & k' & Hrun & Hr).
    exists r, k'. split; [done|]. destruct Hr as [Hr|Hr]; [by left|right].
    rewrite Hin, (read_frame_sent limits Hu) in Hr by done. by injection Hr as <- <-.
Qed.

(** No handle is lost. [connect] leaves exactly the handle of the socket it
    returns open, and none if it fails, however many addresses it tried; so does
    the listening part of [start]; and moving a socket over another closes the
    other. That [shutdown] leaves no handle of the server open is shown in
    [ServerTool.v]. *)
Theorem no_handle_lost {K} `{!Kernel K} `{!KernelLaws K} (k : K) :
  (forall host port r k', socket_connect host port k = (r, k') ->
     match r with
     | Ok s => exists h, sock_handle s = Some h /\ (h ∉ opened k) /\ opened k' = {[h]} ∪ opened k
     | Err _ => opened k' = opened k
     end) /\
  (forall config r k', server_listen config k = (r, k') ->
     match r with
     | Ok (listener, _) =>
         exists h, sock_handle listener = Some h /\ (h ∉ opened k) /\ opened k' = {[h]} ∪ opened k
     | Err _ => opened k' = opened k
     end) /\
  (forall this other, let '(s, moved, k') := socket_assign this other k in
     s = other /\ socket_valid moved = false /\ opened k' = opened k ∖ handles [this]).
Proof.
  split_and!.
  - intros host port r k'. unfold socket_connect. cbn [ensure_network_initialised].
    destruct (k_getaddrinfo _ _ _) as [[|entry entries]|]; [by intros [= <- <-]| |by intros [= <- <-]].
    apply try_addresses_opened.
  - intros config r k'. apply server_listen_opened.
  - intros this other. unfold socket_assign. split; [done|]. split; [done|].
    rewrite socket_close_opened. unfold handles. cbn [omap list_omap].
    destruct (sock_handle this); set_solver.
Qed.

(** The greeting of a client, moved three bytes at a time. *)
Definition greeting_wire : Wire :=
  mkWire 2 {[5]} ∅ (<[5 := frame_bytes (hello_frame 77) ++ [1; 2]]> ∅).

Lemma sockets_carry_frames_witness :
  exists w w', socket_send_all (socket_adopt 5) (frame_bytes (hello_frame 77)) greeting_wire = Some (Ok tt, w) /\
    wire_out 5 w = frame_bytes (hello_frame 77) /\
    socket_read_frame default_protocol_limits (socket_adopt 5) greeting_wire =
      Some (Ok (frame_bytes (hello_frame 77)), w') /\ wire_in 5 w' = [1; 2].
Proof.
  destruct (sockets_carry_frames default_protocol_limits (socket_adopt 5) 5 greeting_wire
              protocol_limits_ok eq_refl) as (Hsend & _ & Hread).
  destruct (Hsend (frame_bytes (hello_frame 77))) as (r & w & handed & Hrun & Hsent & Hr).
  destruct (Hread (hello_frame 77) [1; 2]) as (r' & w' & Hrun' & Hr').
  - apply hello_frame_fits; [exact protocol_limits_ok|vm_compute; discriminate].
  - unfold incoming. cbn. unfold wire_in. cbn [greeting_wire w_incoming]. by rewrite lookup_insert_eq.
  - assert (Hs0 : sent (K := Wire) 5 greeting_wire = []) by reflexivity.
    rewrite Hs0, app_nil_l in Hsent.
    assert (Ho : match socket_send_all (socket_adopt 5) (frame_bytes (hello_frame 77)) greeting_wire with
                 | Some (Ok _, _) => True | _ => False end) by (vm_compute; exact I).
    rewrite Hrun in Ho. destruct r as [[]|]; [|destruct Ho].
    assert (Ho' : match socket_read_frame default_protocol_limits (socket_adopt 5) greeting_wire with
                 | Some (Ok _, _) => True | _ => False end) by (vm_compute; exact I).
    rewrite Hrun' in Ho'. destruct r' as [bytes|]; [|destruct Ho'].
    cbv iota in Hr. rewrite Hr in Hsent. destruct Hr' as [Hr'|[Hr' Hrest]]; [discriminate Hr'|].
    rewrite Hr' in Hrun'. exists w, w'. exact (conj Hrun (conj Hsent (conj Hrun' Hrest))).
Defined.

(** The second address answers; the handle of the first attempt is closed. *)
Lemma no_handle_lost_witness :
  exists s w, socket_connect "localhost" 80 (mkWire 2 {[0]} ∅ ∅) = (Ok s, w) /\
    exists h, sock_handle s = Some h /\ w_open w = {[h]} ∪ {[0]}.
Proof.
  destruct (socket_connect "localhost" 80 (mkWire 2 {[0]} ∅ ∅)) as [r w] eqn:Hrun.
  pose proof (proj1 (no_handle_lost (mkWire 2 {[0]} ∅ ∅)) _ _ _ _ Hrun) as H.
  destruct r as [s|e]; [|discriminate Hrun].
  exists s, w. split; [reflexivity|]. destruct H as (h & Hh & _ & Ho). exists h. split; [exact Hh|exact Ho].
Defined.
