(* ===== verification/Threads.v ===== *)
(** * The threads of the server process

    The running [nrp-server] with every thread on its own: the accept loop, the
    connection threads of [PlanningServer], the workers of [PlannerService] and the
    main thread in [PlanningServer::shutdown] and [PlannerService::shutdown]
    ([src/runtime_server.cpp]). What a thread does without a lock or a blocking call
    in between is one step; a connection thread that waits in [PlannerService::plan]
    waits while all others move. The operations are those of [Server.v],
    [Service.v], [Session.v] and [Transport.v]. The theorem of this file says what a
    client can read on its connection, whatever the interleaving; that the process
    ends is shown in [ServerTool.v]. *)
From S2P Require Import Prelude Ids Canonical Model Objective Domain DefinitionCheck Plan Fixture.
From S2P Require Import Codec Crc32 Journal Store StoreCorrect Planner Validate Protocol ProtocolCorrect.
From S2P Require Import Session Service ServiceCorrect Server ServerCorrect Transport.

(** ** A connection thread *)

(** Where the thread stands in [serve]. *)
Inductive Point :=
| Spawning                          (* its socket is listed, the thread not yet started *)
| AtLoop                            (* before a look at [stopping] and the buffer *)
| Receiving                         (* in [recv_some] *)
| Complete                          (* a whole frame is buffered *)
| Dispatching (f : Frame)           (* the frame is taken from the buffer *)
| Accepted (f : Frame)              (* the session table has accepted it *)
| Waiting (call : Call) (id : nat)  (* in [PlannerService::plan] or [validate] *)
| Leaving                           (* the loop is left *)
| Released                          (* the session is released *)
| ShutDown                          (* the socket is shut down *)
| Closed                            (* the socket is closed *)
| Gone.                             (* the thread has ended *)

(** [th_shut]: the socket was shut down. [th_received] and [th_heard] are the
    history of the bytes received and of the frames taken from them; nothing reads
    them. [cn_unread] of the connection is everything that was sent. *)
Record Thread := mkThread {
  th_point : Point;
  th_conn : Connection;
  th_socket : Socket;
  th_shut : bool;
  th_received : list Z;
  th_heard : list Frame
}.

Definition goto (th : Thread) (p : Point) (cn : Connection) : Thread :=
  mkThread p cn (th_socket th) (th_shut th) (th_received th) (th_heard th).

(** Back to the loop, or out of it. *)
Definition proceed (th : Thread) (cn : Connection) : Thread :=
  goto th (if cn_open cn then AtLoop else Leaving) cn.

Definition hear (th : Thread) (f : Frame) (cn : Connection) : Thread :=
  mkThread (Dispatching f) cn (th_socket th) (th_shut th) (th_received th) (th_heard th ++ [f]).

(** What an accepted frame asks for: nothing more, or a call of the service. *)
Inductive Dispatched :=
| Handled (srv : Server Service) (cn : Connection)
| Calling (call : Call).

(** The state of the service that a status request reads. *)
Definition status_backend : Backend Service := service_backend io_ok.

(** The switch of [serve], up to the calls of the service. *)
Definition dispatch (srv : Server Service) (cn : Connection) (f : Frame) : Dispatched :=
  let handled (r : Server Service * Connection) := Handled r.1 r.2 in
  match FrameType.of_u16 (fh_type (frame_header f)) with
  | FrameType.PLAN_REQUEST =>
      match decode_plan_request_payload (frame_payload f) (srv_limits srv) with
      | Err s => handled (reject_request srv cn s)
      | Ok request => Calling (CallPlan request)
      end
  | FrameType.VALIDATE_REQUEST =>
      match decode_validate_request_payload (frame_payload f) (srv_limits srv) with
      | Err s => handled (reject_request srv cn s)
      | Ok (request, p) => Calling (CallValidate request p)
      end
  | FrameType.STATUS_REQUEST =>
      Handled srv (next_server_sequence
        (send_frame srv cn FrameType.STATUS_RESPONSE (cn_session cn) (response_sequence cn)
           (@status_payload _ status_backend srv)).2)
  | FrameType.BYE => Handled srv (hang_up cn)
  | _ =>
      Handled (count srv count_sticky)
        (hang_up (send_error srv cn (cn_session cn) (response_sequence cn)
           ErrorCode.UNSUPPORTED_REQUEST ReasonCode.REQUEST_UNSUPPORTED_PROBLEM
           "frame type is not accepted in this state"))
  end.

(** The switch followed by the call and its answer is [serve_request]. *)
Lemma dispatch_serves io srv cn f :
  @serve_request _ (service_backend io) srv cn f =
    match dispatch srv cn f with
    | Handled srv' cn' => Ok (srv', cn')
    | Calling (CallPlan q) =>
        let* (r, s) := returned (@be_plan _ (service_backend io) q (srv_service srv)) in
        Ok (replace_service srv s, respond srv cn FrameType.PLAN_RESPONSE encode_plan_response_payload r)
    | Calling (CallValidate q p) =>
        let* (r, s) := returned (@be_validate _ (service_backend io) q p (srv_service srv)) in
        Ok (replace_service srv s,
            respond srv cn FrameType.VALIDATE_RESPONSE encode_validate_response_payload r)
    | Calling (CallSubmitPlan _) => Err Blocked
    end.
Proof.
  unfold serve_request, dispatch. destruct (FrameType.of_u16 _); try done.
  - by destruct (decode_plan_request_payload _ _).
  - by destruct (decode_validate_request_payload _ _) as [[q p]|].
Qed.

(** One step of the thread in [serve] that needs neither its socket nor the list of
    sockets; [None] where it waits. *)
Definition serve_step (srv : Server Service) (th : Thread) : option (Server Service * Thread) :=
  let cn := th_conn th in
  let left := Some (srv, goto th Leaving (hang_up cn)) in
  let proceeding (r : Server Service * Connection) := Some (r.1, proceed th r.2) in
  match th_point th with
  | AtLoop =>
      if srv_stopping srv then left
      else
        match inspect (srv_limits srv) (cn_buffer cn) with
        | Partial => Some (srv, goto th Receiving cn)
        | Whole => Some (srv, goto th Complete cn)
        | Refused m text => proceeding (reject_frame srv cn m text)
        end
  | Complete =>
      if srv_stopping srv then left
      else
        match decode_frame (srv_limits srv) (cn_buffer cn) with
        | Err s => proceeding (reject_frame srv cn (map_status s) (status_message s))
        | Ok (f, consumed) =>
            Some (count srv count_frame,
                  hear th f (set_buffer cn (drop (Z.to_nat consumed) (cn_buffer cn))))
        end
  | Dispatching f =>
      if negb (cn_handshake cn) then proceeding (serve_hello srv cn f)
      else
        let h := frame_header f in
        match session_accept (srv_sessions srv) (fh_session h) (fh_epoch h) (fh_boot h) (fh_sequence h) with
        | (Err s, reg) =>
            proceeding (count (set_registry srv reg) count_sticky,
                        hang_up (send_error srv cn (cn_session cn) (response_sequence cn)
                                   ErrorCode.SESSION_MISMATCH ReasonCode.PROTOCOL_SESSION_MISMATCH
                                   (status_message s)))
        | (Ok _, reg) => Some (set_registry srv reg, goto th (Accepted f) cn)
        end
  | Accepted f =>
      match dispatch srv cn f with
      | Handled srv cn => proceeding (srv, cn)
      | Calling call =>
          match submit call (srv_service srv) with
          | (Ok id, sv) => Some (replace_service srv sv, goto th (Waiting call id) cn)
          | (Err s, sv) =>
              proceeding (replace_service srv sv,
                respond srv cn FrameType.PLAN_RESPONSE encode_plan_response_payload (Err s))
          end
      end
  | Waiting (CallPlan _) id =>
      r ← wait_plan id (srv_service srv);
      proceeding (srv, respond srv cn FrameType.PLAN_RESPONSE encode_plan_response_payload r)
  | Waiting (CallValidate _ _) id =>
      r ← wait_validate id (srv_service srv);
      proceeding (srv, respond srv cn FrameType.VALIDATE_RESPONSE encode_validate_response_payload r)
  | Leaving => Some ((end_connection srv cn).1, goto th Released cn)
  | _ => None
  end.

(** [recv_some] returns: no byte where the peer closed, the socket was shut down or
    the call failed. *)
Definition take_chunk (srv : Server Service) (th : Thread) (chunk : list Z) : Server Service * Thread :=
  let received p cn :=
    mkThread p cn (th_socket th) (th_shut th) (th_received th ++ chunk) (th_heard th) in
  match chunk with
  | [] => (srv, received Leaving (hang_up (th_conn th)))
  | _ =>
      let cn := set_buffer (th_conn th) (cn_buffer (th_conn th) ++ chunk) in
      if max_payload_bytes (srv_limits srv) + 4 * kFrameHeaderSize <? sizez (cn_buffer cn)
      then (count (count srv count_bad_frame) count_sticky, received Leaving (hang_up cn))
      else (srv, received AtLoop cn)
  end.

(** The size of the receive chunk. *)
Definition chunk_bytes : Z := 16 * 1024.

(** The socket accepts no more bytes. *)
Definition cut_off (cn : Connection) : Connection :=
  mkConnection (cn_open cn) false (cn_unread cn) (cn_buffer cn) (cn_session cn)
    (cn_server_sequence cn) (cn_handshake cn).

(** [shutdown_both] on the socket of a connection. *)
Definition shut_socket (th : Thread) : Thread :=
  if socket_valid (th_socket th)
  then mkThread (th_point th) (cut_off (th_conn th)) (th_socket th) true (th_received th) (th_heard th)
  else th.

Definition at_point (th : Thread) (p : Point) : Thread := goto th p (th_conn th).

(** ** The process *)

(** Where the accept thread stands in [accept_loop]. *)
Inductive AcceptPoint :=
| AcceptLoop
| InAccept
| Took (h : Handle)
| Spawns (i : nat)
| AcceptDone.

(** How far the main thread is in [PlanningServer::shutdown]. *)
Inductive Closing :=
| Serving
| Flagged
| ListenerShut
| ListenerClosed
| SocketsShut
| AcceptJoined
| ThreadsJoined
| Cleared.

#[global] Instance accept_point_eq_dec : EqDecision AcceptPoint.
Proof. solve_decision. Defined.

#[global] Instance closing_eq_dec : EqDecision Closing.
Proof. solve_decision. Defined.

(** [rn_connections]: the list of sockets, by the numbers of their threads. *)
Record Running (K : Type) := mkRunning {
  rn_server : Server Service;
  rn_workers : list Worker;
  rn_shutdown : Shutdown;
  rn_threads : list Thread;
  rn_connections : list nat;
  rn_accept : AcceptPoint;
  rn_closing : Closing;
  rn_listener : Socket;
  rn_kernel : K
}.
Arguments mkRunning {K} _ _ _ _ _ _ _ _ _.
Arguments rn_server {K} r. Arguments rn_workers {K} r. Arguments rn_shutdown {K} r.
Arguments rn_threads {K} r. Arguments rn_connections {K} r. Arguments rn_accept {K} r.
Arguments rn_closing {K} r. Arguments rn_listener {K} r. Arguments rn_kernel {K} r.

Section Process.
Context {K : Type} `{!Kernel K}.
Implicit Types rn : Running K.

Definition rn_system rn : System :=
  mkSystem (srv_service (rn_server rn)) (rn_workers rn) (rn_shutdown rn).

(** [PlanningServer::start] has returned. *)
Definition running (s : System) (max_sessions : Z) (listener : Socket) (k : K) : Running K :=
  mkRunning
    (server_start (sys_service s) (sv_epoch (sys_service s)) (sv_boot (sys_service s)) max_sessions)
    (sys_workers s) (sys_shutdown s) [] [] AcceptLoop Serving listener k.

Definition set_thread rn (srv : Server Service) (i : nat) (th : Thread) : Running K :=
  mkRunning srv (rn_workers rn) (rn_shutdown rn) (<[i := th]> (rn_threads rn)) (rn_connections rn)
    (rn_accept rn) (rn_closing rn) (rn_listener rn) (rn_kernel rn).

Definition set_accept rn (a : AcceptPoint) : Running K :=
  mkRunning (rn_server rn) (rn_workers rn) (rn_shutdown rn) (rn_threads rn) (rn_connections rn)
    a (rn_closing rn) (rn_listener rn) (rn_kernel rn).

Definition set_kernel rn (k : K) : Running K :=
  mkRunning (rn_server rn) (rn_workers rn) (rn_shutdown rn) (rn_threads rn) (rn_connections rn)
    (rn_accept rn) (rn_closing rn) (rn_listener rn) k.

Definition set_connections rn (l : list nat) : Running K :=
  mkRunning (rn_server rn) (rn_workers rn) (rn_shutdown rn) (rn_threads rn) l
    (rn_accept rn) (rn_closing rn) (rn_listener rn) (rn_kernel rn).

Definition set_system rn (s : System) : Running K :=
  mkRunning (replace_service (rn_server rn) (sys_service s)) (sys_workers s) (sys_shutdown s)
    (rn_threads rn) (rn_connections rn) (rn_accept rn) (rn_closing rn) (rn_listener rn) (rn_kernel rn).

(** The end of [serve], on the socket and the list of sockets. *)
Definition socket_step rn (i : nat) : option (Running K) :=
  th ← rn_threads rn !! i;
  match th_point th with
  | Released =>
      Some (set_thread (set_kernel rn (socket_shutdown_both (th_socket th) (rn_kernel rn)).2)
              (rn_server rn) i (at_point (shut_socket th) ShutDown))
  | ShutDown =>
      let '(s, k) := socket_close (th_socket th) (rn_kernel rn) in
      Some (set_thread (set_kernel rn k) (rn_server rn) i
              (mkThread Closed (th_conn th) s (th_shut th) (th_received th) (th_heard th)))
  | Closed =>
      Some (set_thread (set_connections rn (filter (fun j => j <> i) (rn_connections rn)))
              (rn_server rn) i (at_point th Gone))
  | _ => None
  end.

(** What the accept thread does by itself: a closed listener wakes [accept]. *)
Definition accept_step rn : option (Running K) :=
  let stopped a := if srv_stopping (rn_server rn) then AcceptDone else a in
  match rn_accept rn with
  | AcceptLoop => Some (set_accept rn (stopped InAccept))
  | InAccept =>
      if socket_valid (rn_listener rn) then None else Some (set_accept rn (stopped AcceptLoop))
  | Took h =>
      match accept (rn_server rn) with
      | (srv, Some cn, _) =>
          let i := length (rn_threads rn) in
          Some (mkRunning srv (rn_workers rn) (rn_shutdown rn)
                  (rn_threads rn ++ [mkThread Spawning cn (socket_adopt h) false [] []])
                  (rn_connections rn ++ [i]) (Spawns i) (rn_closing rn) (rn_listener rn) (rn_kernel rn))
      | (srv, None, _) =>
          Some (mkRunning srv (rn_workers rn) (rn_shutdown rn) (rn_threads rn) (rn_connections rn)
                  (stopped AcceptLoop) (rn_closing rn) (rn_listener rn)
                  (socket_close (socket_adopt h) (rn_kernel rn)).2)
      end
  | Spawns i =>
      th ← rn_threads rn !! i;
      match th_point th with
      | Spawning => Some (set_accept (set_thread rn (rn_server rn) i (at_point th AtLoop)) AcceptLoop)
      | _ => None
      end
  | AcceptDone => None
  end.

Definition set_closing rn (c : Closing) : Running K :=
  mkRunning (rn_server rn) (rn_workers rn) (rn_shutdown rn) (rn_threads rn) (rn_connections rn)
    (rn_accept rn) c (rn_listener rn) (rn_kernel rn).

(** [f] on the socket of every listed connection. *)
Definition for_sockets (f : Socket -> K -> K) rn : K :=
  foldl (fun k i => match rn_threads rn !! i with Some th => f (th_socket th) k | None => k end)
    (rn_kernel rn) (rn_connections rn).

Definition is_gone (th : Thread) : bool := match th_point th with Gone => true | _ => false end.

(** [PlanningServer::shutdown], from the exchange of the flag on. *)
Definition begin_shutdown rn : Running K :=
  mkRunning (server_stop (rn_server rn)) (rn_workers rn) (rn_shutdown rn) (rn_threads rn)
    (rn_connections rn) (rn_accept rn) Flagged (rn_listener rn) (rn_kernel rn).

Definition closing_step rn : option (Running K) :=
  match rn_closing rn with
  | Flagged =>
      Some (set_closing (set_kernel rn (socket_shutdown_both (rn_listener rn) (rn_kernel rn)).2)
              ListenerShut)
  | ListenerShut =>
      let '(s, k) := socket_close (rn_listener rn) (rn_kernel rn) in
      Some (mkRunning (rn_server rn) (rn_workers rn) (rn_shutdown rn) (rn_threads rn)
              (rn_connections rn) (rn_accept rn) ListenerClosed s k)
  | ListenerClosed =>
      Some (mkRunning (rn_server rn) (rn_workers rn) (rn_shutdown rn)
              (imap (fun i th => if bool_decide (i ∈ rn_connections rn) then shut_socket th else th)
                 (rn_threads rn))
              (rn_connections rn) (rn_accept rn) SocketsShut (rn_listener rn)
              (for_sockets (fun s k => (socket_shutdown_both s k).2) rn))
  | SocketsShut =>
      match rn_accept rn with AcceptDone => Some (set_closing rn AcceptJoined) | _ => None end
  | AcceptJoined => if forallb is_gone (rn_threads rn) then Some (set_closing rn ThreadsJoined) else None
  | ThreadsJoined =>
      Some (set_closing (set_connections (set_kernel rn (for_sockets (fun s k => (socket_close s k).2) rn)) [])
              Cleared)
  | Serving | Cleared => None
  end.
End Process.

Inductive Outcome (K : Type) :=
| Live (rn : Running K)
| Killed (d : Disk).
Arguments Live {K} rn.
Arguments Killed {K} d.

Section Steps.
Context {K : Type} `{!Kernel K} `{!KernelLaws K} (ios : Io -> Prop).
Implicit Types rn : Running K.

(** What the threads of the process do without help from outside. A receive
    returns by itself on a socket that was shut down; the service is shut down
    when the server is. *)
Inductive own_step rn : Outcome K -> Prop :=
| own_serve i th srv th' :
    rn_threads rn !! i = Some th -> serve_step (rn_server rn) th = Some (srv, th') ->
    own_step rn (Live (set_thread rn srv i th'))
| own_wake i th :
    rn_threads rn !! i = Some th -> th_point th = Receiving -> th_shut th = true ->
    own_step rn (Live (set_thread rn (take_chunk (rn_server rn) th []).1 i (take_chunk (rn_server rn) th []).2))
| own_socket i rn' : socket_step rn i = Some rn' -> own_step rn (Live rn')
| own_accept rn' : accept_step rn = Some rn' -> own_step rn (Live rn')
| own_closing rn' : closing_step rn = Some rn' -> own_step rn (Live rn')
| own_worker io w worker r :
    ios io -> rn_workers rn !! w = Some worker ->
    worker_step io (srv_service (rn_server rn)) worker = Some r ->
    own_step rn
      match resume (rn_system rn) w r with Alive s => Live (set_system rn s) | Dead d => Killed d end
| own_shutdown io next sv :
    ios io -> rn_closing rn = Cleared ->
    shutdown_step io (rn_workers rn) (srv_service (rn_server rn)) (rn_shutdown rn) = Some (next, sv) ->
    own_step rn (Live (set_system rn (mkSystem sv (rn_workers rn) next))).

(** What the clients and the network do: bytes, the end of a stream or an error
    arrive; a peer takes no more bytes; a client connects; [accept] fails. *)
Inductive peer_step rn : Running K -> Prop :=
| peer_chunk i th chunk :
    rn_threads rn !! i = Some th -> th_point th = Receiving -> Forall in_u8 chunk ->
    sizez chunk <= chunk_bytes ->
    peer_step rn (set_thread rn (take_chunk (rn_server rn) th chunk).1 i (take_chunk (rn_server rn) th chunk).2)
| peer_deaf i th :
    rn_threads rn !! i = Some th -> cn_writable (th_conn th) = true ->
    peer_step rn (set_thread rn (rn_server rn) i (goto th (th_point th) (cut_off (th_conn th))))
| peer_connects h k :
    rn_accept rn = InAccept -> socket_valid (rn_listener rn) = true ->
    (h ∉ opened (rn_kernel rn)) -> opened k = {[h]} ∪ opened (rn_kernel rn) ->
    peer_step rn (set_accept (set_kernel rn k) (Took h))
| peer_accept_fails :
    rn_accept rn = InAccept ->
    peer_step rn (set_accept rn (if srv_stopping (rn_server rn) then AcceptDone else AcceptLoop)).

Inductive server_step : Outcome K -> Outcome K -> Prop :=
| step_own rn out : own_step rn out -> server_step (Live rn) out
| step_peer rn rn' : peer_step rn rn' -> server_step (Live rn) (Live rn').

(** ... and the main thread may call [shutdown]. *)
Inductive run_step : Outcome K -> Outcome K -> Prop :=
| run_server p q : server_step p q -> run_step p q
| run_stops rn : rn_closing rn = Serving -> run_step (Live rn) (Live (begin_shutdown rn)).
End Steps.

(** ** What a connection says *)

(** A result the service may give to the request, on record if it says anything. *)
Definition durable (sv : Service) (q : PlanRequest) (r : PlanningResult) : Prop :=
  justified sv q r /\
  (pr_plan r <> None \/ pr_certificate r <> None ->
   current sv q /\ plan (cfg_model_limits (sv_config sv)) q = Some r /\
   logged sv RecordType.ATTEMPT (attempt_payload q) /\
   logged sv (outcome_record r).1 (outcome_record r).2).

Lemma justified_durable sv q r : justified sv q r -> durable sv q r.
Proof. intros Hj. split; [done|]. by apply justified_carries. Qed.

Section Speech.
Context (limits : ProtocolLimits) (sv : Service).
Implicit Types (cn : Connection) (f : Frame).

(** The request a frame carries. *)
Definition asks f (call : Call) : Prop :=
  match call with
  | CallPlan q =>
      FrameType.of_u16 (fh_type (frame_header f)) = FrameType.PLAN_REQUEST /\
      decode_plan_request_payload (frame_payload f) limits = Ok q
  | CallValidate q p =>
      FrameType.of_u16 (fh_type (frame_header f)) = FrameType.VALIDATE_REQUEST /\
      decode_validate_request_payload (frame_payload f) limits = Ok (q, p)
  | CallSubmitPlan _ => False
  end.

(** A frame of this incarnation. *)
Definition says (type : FrameType.t) (session : SessionId) (sequence : Sequence) (payload : list Z) : Frame :=
  sent_frame type session (sv_epoch sv) (sv_boot sv) sequence payload.

Inductive reply (session : SessionId) (sequence : Sequence) f : Frame -> Prop :=
| reply_plan q r :
    asks f (CallPlan q) -> durable sv q r ->
    reply session sequence f
      (says FrameType.PLAN_RESPONSE session sequence (encode_plan_response_payload r))
| reply_validate q p :
    asks f (CallValidate q p) ->
    reply session sequence f
      (says FrameType.VALIDATE_RESPONSE session sequence
         (encode_validate_response_payload (validate_plan q p)))
| reply_status payload :
    FrameType.of_u16 (fh_type (frame_header f)) = FrameType.STATUS_REQUEST ->
    reply session sequence f (says FrameType.STATUS_RESPONSE session sequence payload)
| reply_error e :
    reply session sequence f (says FrameType.ERROR_FRAME session sequence (encode_error_payload e)).

(** The error frame that ends a connection. *)
Definition farewell (session : SessionId) (sequence : Sequence) (a : Frame) : Prop :=
  exists e, a = says FrameType.ERROR_FRAME session sequence (encode_error_payload e).

(** The acknowledgement of the handshake, then the answers to the frames after the
    HELLO one by one, numbered from 3; a connection that is over may have ended with
    an error that answers nothing. *)
Definition spoken cn (heard said : list Frame) : Prop :=
  match said with
  | [] => True
  | first :: answers =>
      if cn_handshake cn then
        first = says FrameType.HELLO_ACK (cn_session cn) 1
                  (encode_hello_ack (mkHelloAck (cn_session cn) (sv_epoch sv) (sv_boot sv) 1 2)) /\
        forall j a, answers !! j = Some a ->
          (exists f, heard !! S j = Some f /\ reply (cn_session cn) (u64 (Z.of_nat j + 3)) f a) \/
          (cn_open cn = false /\ length answers = S j /\ farewell (cn_session cn) (u64 (Z.of_nat j + 3)) a)
      else answers = [] /\ cn_open cn = false /\ farewell 0 1 first
  end.

(** The state of a conversation; [pending]: the last frame is still to be answered. *)
Record Talk cn (heard : list Frame) (pending : nat) (said : list Frame) : Prop := {
  tk_bytes : cn_unread cn = concat (map frame_bytes said);
  tk_spoken : spoken cn heard said;
  tk_count : cn_open cn = true -> cn_writable cn = true -> (length said + pending = length heard)%nat;
  tk_sequence : cn_open cn = true -> cn_writable cn = true -> cn_handshake cn = true ->
    cn_server_sequence cn = u64 (Z.of_nat (length said) + 1);
  tk_early : cn_open cn = true -> cn_handshake cn = false ->
    cn_session cn = 0 /\ cn_server_sequence cn = 0 /\ length heard = pending /\ said = [];
  tk_late : cn_open cn = true -> cn_handshake cn = true -> (1 + pending <= length heard)%nat
}.

Lemma spoken_same cn cn' heard said :
  cn_handshake cn' = cn_handshake cn -> cn_session cn' = cn_session cn ->
  (cn_open cn = false -> cn_open cn' = false) -> spoken cn heard said -> spoken cn' heard said.
Proof.
  intros Hh Hs Ho. unfold spoken. destruct said as [|x answers]; [done|]. rewrite Hh, Hs.
  destruct (cn_handshake cn); [|naive_solver]. intros [-> Ha]. split; [done|].
  intros j a Hj. destruct (Ha j a Hj) as [|(? & ? & ?)]; [by left|right]. auto.
Qed.

Lemma spoken_hear cn heard said f : spoken cn heard said -> spoken cn (heard ++ [f]) said.
Proof.
  unfold spoken. destruct said as [|x answers]; [done|]. destruct (cn_handshake cn); [|done].
  intros [-> Ha]. split; [done|]. intros j a Hj. destruct (Ha j a Hj) as [(g & Hg & Hr)|]; [left|by right].
  exists g. split; [by apply lookup_app_l_Some|done].
Qed.

(** Whatever closes a connection without a word. *)
Lemma talk_close cn heard n m said : Talk cn heard n said -> Talk (hang_up cn) heard m said.
Proof. intros [Hb Hs _ _ _ _]. split; try done. by eapply spoken_same; [..|exact Hs]. Qed.

Lemma talk_buffer cn heard n said b : Talk cn heard n said -> Talk (set_buffer cn b) heard n said.
Proof. intros []. by split. Qed.

Lemma talk_deaf cn heard n said : Talk cn heard n said -> Talk (cut_off cn) heard n said.
Proof. intros []. by split. Qed.

Lemma talk_hear cn heard said f : Talk cn heard 0 said -> Talk cn (heard ++ [f]) 1 said.
Proof.
  intros [Hb Hs Hc Hq He Hl]. split; rewrite ?length_app; simpl; auto using spoken_hear.
  - intros Ho Hw. specialize (Hc Ho Hw). lia.
  - intros Ho Hh. destruct (He Ho Hh) as (? & ? & ? & ?). split_and!; [done..|lia|done].
  - intros Ho Hh. specialize (Hl Ho Hh). lia.
Qed.

(** The connection that answered, as far as its conversation goes: [a] was sent if
    the socket takes bytes. *)
Record Answered cn cn' (a : Frame) : Prop := {
  an_unread : cn_unread cn' = if cn_writable cn then cn_unread cn ++ frame_bytes a else cn_unread cn;
  an_writable : cn_writable cn' = cn_writable cn;
  an_handshake : cn_handshake cn' = cn_handshake cn;
  an_session : cn_session cn' = cn_session cn;
  an_open : cn_open cn' = true -> cn_open cn = true;
  an_sequence : cn_open cn' = true -> cn_server_sequence cn' = u64 (cn_server_sequence cn + 1)
}.

Lemma stream_snoc said a : concat (map frame_bytes (said ++ [a])) = concat (map frame_bytes said) ++ frame_bytes a.
Proof. rewrite map_app, concat_app. simpl. by rewrite app_nil_r. Qed.

Lemma spoken_snoc cn cn' heard first answers a :
  cn_handshake cn = true -> cn_handshake cn' = true -> cn_session cn' = cn_session cn ->
  cn_open cn = true -> spoken cn heard (first :: answers) ->
  let sequence := u64 (Z.of_nat (length answers) + 3) in
  (exists f, heard !! S (length answers) = Some f /\ reply (cn_session cn) sequence f a) \/
  (cn_open cn' = false /\ farewell (cn_session cn) sequence a) ->
  spoken cn' heard (first :: answers ++ [a]).
Proof.
  intros Hh Hh' Hs Ho Hsp sequence Hnew. unfold spoken in *. rewrite Hh in Hsp. rewrite Hh', Hs.
  destruct Hsp as [-> Ha]. split; [done|].
  intros j b [Hj|[Hle Hj]]%lookup_app_Some.
  - destruct (Ha j b Hj) as [Hr|(Hclosed & _)]; [by left|congruence].
  - apply list_lookup_singleton_Some in Hj as [Hz <-].
    assert (j = length answers) as -> by lia. destruct Hnew as [Hf|[Hc Hf]]; [by left|right].
    split_and!; [done| |done]. rewrite length_app. simpl. lia.
Qed.

Lemma next_number cn n :
  cn_server_sequence cn = u64 (Z.of_nat (S n) + 1) ->
  response_sequence cn = u64 (Z.of_nat n + 3).
Proof.
  intros H. unfold response_sequence. rewrite H, !u64_mod, Zplus_mod_idemp_l. f_equal. lia.
Qed.

(** The pending frame is answered. *)
Lemma talk_answer cn cn' heard said f a :
  Talk cn heard 1 said -> cn_open cn = true -> cn_handshake cn = true -> last heard = Some f ->
  Answered cn cn' a -> reply (cn_session cn) (response_sequence cn) f a ->
  exists said', Talk cn' heard 0 said'.
Proof.
  intros [Hb Hs Hc Hq He Hl] Ho Hh Hf [Hu Hw Hh' Hs' Ho' Hq'] Hr.
  specialize (Hl Ho Hh). destruct (cn_writable cn) eqn:Hwr.
  2: { exists said. split; rewrite ?Hu, ?Hw, ?Hh', ?Hs'; try done; [|intros; congruence|intros; lia].
       eapply spoken_same; [..|exact Hs]; [done..|congruence]. }
  specialize (Hc Ho eq_refl). specialize (Hq Ho eq_refl Hh).
  destruct said as [|first answers]; [simpl in *; lia|]. simpl in Hc, Hq.
  apply next_number in Hq as Hseq. exists ((first :: answers) ++ [a]).
  split; rewrite ?Hw, ?Hh', ?Hs'; rewrite ?length_app; simpl length.
  - by rewrite Hu, Hb, stream_snoc.
  - apply (spoken_snoc cn); try done; [congruence|]. left. exists f. split; [|by rewrite <- Hseq].
    rewrite last_lookup in Hf. rewrite <- Hf. f_equal. lia.
  - intros _ _. lia.
  - intros Ho1 _ _. rewrite (Hq' Ho1). fold (response_sequence cn). rewrite Hseq. f_equal. lia.
  - intros _ ?. congruence.
  - intros _ _. lia.
Qed.

(** The connection ends with an error that answers nothing. *)
Lemma talk_farewell cn cn' heard said a :
  Talk cn heard 0 said -> cn_open cn = true -> cn_open cn' = false -> Answered cn cn' a ->
  farewell (cn_session cn) (response_sequence cn) a -> exists said', Talk cn' heard 0 said'.
Proof.
  intros [Hb Hs Hc Hq He Hl] Ho Ho1 [Hu Hw Hh' Hs' Ho' Hq'] Hr.
  destruct (cn_writable cn) eqn:Hwr.
  2: { exists said. split; rewrite ?Hu, ?Hw, ?Hh', ?Hs'; try done; [|intros; congruence..].
       eapply spoken_same; [..|exact Hs]; done. }
  exists (said ++ [a]). split; rewrite ?Hw, ?Hh', ?Hs'; try (intros; congruence).
  - by rewrite Hu, Hb, stream_snoc.
  - destruct (cn_handshake cn) eqn:Hh.
    + specialize (Hc Ho eq_refl). specialize (Hq Ho eq_refl eq_refl). specialize (Hl Ho eq_refl).
      destruct said as [|first answers]; [simpl in *; lia|]. cbn [length] in Hq.
      apply (next_number cn (length answers)) in Hq as Hseq.
      apply (spoken_snoc cn); try done. right. by rewrite <- Hseq.
    + destruct (He Ho eq_refl) as (Hz & Hz' & _ & ->). cbn [app spoken]. rewrite Hh'.
      unfold response_sequence in Hr. rewrite Hz, Hz' in Hr. done.
Qed.

(** The handshake: an acknowledgement, or an error and the end. *)
Lemma talk_refused cn cn' heard said n a :
  Talk cn heard n said -> cn_open cn = true -> cn_handshake cn = false -> cn_open cn' = false ->
  Answered cn cn' a -> farewell 0 1 a -> exists said', Talk cn' heard 0 said'.
Proof.
  intros [Hb Hs Hc Hq He Hl] Ho Hh Ho1 [Hu Hw Hh' Hs' Ho' Hq'] Hr.
  destruct (He Ho Hh) as (_ & _ & _ & ->). destruct (cn_writable cn) eqn:Hwr.
  - exists [a]. split; rewrite ?Hw, ?Hh', ?Hs'; try (intros; congruence).
    + rewrite Hu, Hb. simpl. by rewrite app_nil_r.
    + cbn [spoken]. rewrite Hh'. by rewrite ?Hh.
  - exists []. split; rewrite ?Hu, ?Hw, ?Hh', ?Hs'; try (intros; congruence); done.
Qed.

Lemma talk_greeted cn cn' heard said first session :
  Talk cn heard 1 said -> cn_open cn = true -> cn_handshake cn = false ->
  first = says FrameType.HELLO_ACK session 1
            (encode_hello_ack (mkHelloAck session (sv_epoch sv) (sv_boot sv) 1 2)) ->
  cn_unread cn' = (if cn_writable cn then cn_unread cn ++ frame_bytes first else cn_unread cn) ->
  cn_writable cn' = cn_writable cn -> cn_open cn' = cn_writable cn -> cn_handshake cn' = true ->
  cn_session cn' = session -> (cn_open cn' = true -> cn_server_sequence cn' = 2) ->
  exists said', Talk cn' heard 0 said'.
Proof.
  intros [Hb Hs Hc Hq He Hl] Ho Hh Hfirst Hu Hw Ho' Hh' Hs' Hq'.
  destruct (He Ho Hh) as (_ & _ & Hone & ->). destruct (cn_writable cn) eqn:Hwr.
  - exists [first]. split; rewrite ?Hw, ?Hh', ?Ho'; try done.
    + rewrite Hu, Hb. simpl. by rewrite app_nil_r.
    + cbn [spoken]. rewrite Hh', Hs'. split; [done|]. by intros j a Hj.
    + intros _ _ _. by rewrite Hq'.
    + intros _ _. lia.
  - exists []. split; rewrite ?Hw, ?Ho'; try done. by rewrite Hu, Hb.
Qed.
End Speech.

(** What was justified stays justified. *)
Lemma reply_extends limits sv sv' session sequence f a :
  extends sv sv' -> reply limits sv session sequence f a -> reply limits sv' session sequence f a.
Proof.
  intros Hx Hr. pose proof Hx as (_ & He & Hb & _).
  assert (Hsays : forall type payload, says sv type session sequence payload = says sv' type session sequence payload)
    by (intros; unfold says; by rewrite He, Hb).
  destruct Hr as [q r Ha [Hj _]|q p Ha|payload Ht|e]; rewrite Hsays.
  - apply (reply_plan _ _ _ _ _ q); [done|]. apply justified_durable. by eapply justified_extends.
  - by apply reply_validate.
  - by apply reply_status.
  - apply reply_error.
Qed.

Lemma talk_extends limits sv sv' cn heard n said :
  extends sv sv' -> Talk limits sv cn heard n said -> Talk limits sv' cn heard n said.
Proof.
  intros Hx [Hb Hs Hc Hq He Hl]. split; try done. pose proof Hx as (_ & Ee & Eb & _). revert Hs.
  unfold spoken, farewell, says. destruct said as [|first answers]; [done|]. rewrite Ee, Eb.
  destruct (cn_handshake cn); [|done]. intros [-> Ha]. split; [done|].
  intros j a Hj. destruct (Ha j a Hj) as [(f & Hf & Hr)|]; [left|by right].
  exists f. split; [done|by eapply reply_extends].
Qed.

(** ** One thread *)

Definition pending (p : Point) : nat :=
  match p with Dispatching _ | Accepted _ | Waiting _ _ => 1 | _ => 0 end.

Definition in_loop (p : Point) : bool :=
  match p with Leaving | Released | ShutDown | Closed | Gone => false | _ => true end.

Section ThreadOk.
Context (limits : ProtocolLimits).

(** The server speaks for its service. *)
Definition identified (srv : Server Service) : Prop :=
  srv_epoch srv = sv_epoch (srv_service srv) /\ srv_boot srv = sv_boot (srv_service srv) /\
  srv_limits srv = limits.

Record thread_ok (sv : Service) (th : Thread) : Prop := {
  to_talk : exists said, Talk limits sv (th_conn th) (th_heard th) (pending (th_point th)) said;
  to_open : in_loop (th_point th) = true -> cn_open (th_conn th) = true;
  to_point :
    match th_point th with
    | Dispatching f => last (th_heard th) = Some f
    | Accepted f => last (th_heard th) = Some f /\ cn_handshake (th_conn th) = true
    | Waiting call id =>
        cn_handshake (th_conn th) = true /\ sv_submitted sv !! id = Some (job_of call id) /\
        exists f, last (th_heard th) = Some f /\ asks limits f call
    | _ => True
    end;
  to_bytes : th_received th = concat (map frame_bytes (th_heard th)) ++ cn_buffer (th_conn th);
  to_u8 : Forall in_u8 (th_received th)
}.

Lemma thread_ok_remembers sv sv' th : remembers sv sv' -> thread_ok sv th -> thread_ok sv' th.
Proof.
  intros [[more Hsub] Hx] [[said Ht] Ho Hp Hb Hu]. split; try done.
  - exists said. by eapply talk_extends.
  - destruct (th_point th); try done. destruct Hp as (? & Hid & ?). split_and!; [done| |done].
    rewrite Hsub. by apply lookup_app_l_Some.
Qed.

(** A thread that keeps its history and its buffer. *)
Lemma goto_ok sv th p cn said :
  thread_ok sv th -> Talk limits sv cn (th_heard th) (pending p) said ->
  cn_buffer cn = cn_buffer (th_conn th) -> (in_loop p = true -> cn_open cn = true) ->
  match p with
  | Dispatching f => last (th_heard th) = Some f
  | Accepted f => last (th_heard th) = Some f /\ cn_handshake cn = true
  | Waiting call id =>
      cn_handshake cn = true /\ sv_submitted sv !! id = Some (job_of call id) /\
      exists f, last (th_heard th) = Some f /\ asks limits f call
  | _ => True
  end -> thread_ok sv (goto th p cn).
Proof.
  intros [_ _ _ Hb Hu] Ht Hbuf Ho Hp. split; cbn [goto th_conn th_point th_heard th_received]; try done.
  - by exists said.
  - by rewrite Hbuf.
Qed.

Lemma proceed_ok sv th cn :
  thread_ok sv th -> (exists said, Talk limits sv cn (th_heard th) 0 said) ->
  cn_buffer cn = cn_buffer (th_conn th) -> thread_ok sv (proceed th cn).
Proof.
  intros Hok [said Ht] Hbuf. unfold proceed. destruct (cn_open cn) eqn:Ho; by eapply goto_ok.
Qed.

Lemma left_ok sv th : thread_ok sv th -> thread_ok sv (goto th Leaving (hang_up (th_conn th))).
Proof.
  intros Hok. pose proof (to_talk _ _ Hok) as [said Ht]. eapply goto_ok; try done.
  by eapply talk_close.
Qed.

(** The ways a connection answers. *)
Lemma answered_next srv cn type session sequence payload :
  Answered cn (next_server_sequence (send_frame (S := Service) srv cn type session sequence payload).2)
    (sent_frame type session (srv_epoch srv) (srv_boot srv) sequence payload).
Proof.
  unfold send_frame, send_all. rewrite sent_frame_bytes.
  destruct (cn_writable cn) eqn:Hw; split; cbn; rewrite ?Hw; done.
Qed.

Lemma answered_hang srv cn type session sequence payload :
  Answered cn (hang_up (send_frame (S := Service) srv cn type session sequence payload).2)
    (sent_frame type session (srv_epoch srv) (srv_boot srv) sequence payload).
Proof.
  unfold send_frame, send_all. rewrite sent_frame_bytes.
  destruct (cn_writable cn) eqn:Hw; split; cbn; rewrite ?Hw; done.
Qed.

Lemma send_frame_buffer srv cn type session sequence payload :
  cn_buffer (send_frame (S := Service) srv cn type session sequence payload).2 = cn_buffer cn.
Proof. apply send_all_steady. Qed.

Lemma sent_says srv type session sequence payload :
  identified srv ->
  sent_frame type session (srv_epoch srv) (srv_boot srv) sequence payload =
    says (srv_service srv) type session sequence payload.
Proof. intros (He & Hb & _). unfold says. by rewrite He, Hb. Qed.

(** An error frame about the pending frame, and the end. *)
Lemma pending_error_ok srv th f m r text :
  identified srv -> thread_ok (srv_service srv) th -> pending (th_point th) = 1%nat ->
  last (th_heard th) = Some f -> cn_handshake (th_conn th) = true ->
  let cn := th_conn th in
  thread_ok (srv_service srv)
    (proceed th (hang_up (send_error srv cn (cn_session cn) (response_sequence cn) m r text))).
Proof.
  intros Hid Hok Hp Hf Hh cn. apply proceed_ok; [done| |by apply send_frame_buffer].
  destruct (to_talk _ _ Hok) as [said Ht]. rewrite Hp in Ht.
  assert (Hopen : cn_open cn = true) by (apply (to_open _ _ Hok); by destruct (th_point th)).
  eapply talk_answer; [exact Ht|done|done|exact Hf|apply answered_hang|].
  rewrite sent_says by done. apply reply_error.
Qed.

(** ... or about nothing. *)
Lemma reject_ok srv th m text :
  identified srv -> thread_ok (srv_service srv) th -> pending (th_point th) = 0%nat ->
  in_loop (th_point th) = true ->
  thread_ok (srv_service srv) (proceed th (reject_frame srv (th_conn th) m text).2).
Proof.
  intros Hid Hok Hp Hl. apply proceed_ok; [done| |by apply send_frame_buffer].
  destruct (to_talk _ _ Hok) as [said Ht]. rewrite Hp in Ht.
  eapply talk_farewell; [exact Ht|by apply (to_open _ _ Hok)|done|apply answered_hang|].
  rewrite sent_says by done. by eexists.
Qed.

(** The service's answer. *)
Lemma respond_ok {A} srv th f type (encode : A -> list Z) r :
  identified srv -> thread_ok (srv_service srv) th -> pending (th_point th) = 1%nat ->
  last (th_heard th) = Some f -> cn_handshake (th_conn th) = true ->
  let cn := th_conn th in
  (forall a, r = Ok a ->
     reply limits (srv_service srv) (cn_session cn) (response_sequence cn) f
       (says (srv_service srv) type (cn_session cn) (response_sequence cn) (encode a))) ->
  thread_ok (srv_service srv) (proceed th (respond srv cn type encode r)).
Proof.
  intros Hid Hok Hp Hf Hh cn Hr. apply proceed_ok; [done| |by apply respond_steady].
  destruct (to_talk _ _ Hok) as [said Ht]. rewrite Hp in Ht.
  assert (Hopen : cn_open cn = true) by (apply (to_open _ _ Hok); by destruct (th_point th)).
  unfold respond. destruct r as [a|s];
    (eapply talk_answer; [exact Ht|done|done|exact Hf|apply answered_next|]); rewrite sent_says by done.
  - by apply Hr.
  - apply reply_error.
Qed.

Lemma hello_ok srv th f :
  identified srv -> thread_ok (srv_service srv) th -> th_point th = Dispatching f ->
  cn_handshake (th_conn th) = false ->
  thread_ok (srv_service srv) (proceed th (serve_hello srv (th_conn th) f).2).
Proof.
  intros Hid Hok Hp Hh. destruct (to_talk _ _ Hok) as [said Ht]. rewrite Hp in Ht. cbn [pending] in Ht.
  assert (Hopen : cn_open (th_conn th) = true) by (apply (to_open _ _ Hok); by rewrite Hp).
  assert (Hsteady : cn_buffer (serve_hello srv (th_conn th) f).2 = cn_buffer (th_conn th)).
  { destruct (serve_hello srv (th_conn th) f) as [srv1 cn1] eqn:E. by apply serve_hello_steady in E as []. }
  apply proceed_ok; [done| |done]. clear Hsteady.
  assert (Hrefused : forall code reason text, exists said', Talk limits (srv_service srv)
    (hang_up (send_error srv (th_conn th) 0 1 code reason text)) (th_heard th) 0 said').
  { intros. eapply talk_refused; [exact Ht|done..|apply answered_hang|].
    rewrite sent_says by done. by eexists. }
  unfold serve_hello. destruct (negb _); [apply Hrefused|]. destruct (decode_hello _); [|apply Hrefused].
  destruct (session_create _ _ _ _) as [[created|s] reg]; [|apply Hrefused]. cbn [snd].
  destruct Hid as (He & Hb & Hl).
  eapply (talk_greeted _ _ (th_conn th) _ _ _ _ (sr_id created)); [exact Ht|done|done|reflexivity|..];
    unfold send_frame, send_all, says; rewrite ?sent_frame_bytes, <- ?He, <- ?Hb;
    cbn [establish cn_writable cn_unread cn_session cn_server_sequence];
    destruct (cn_writable (th_conn th)) eqn:Hw; cbn; rewrite ?Hw; try done.
Qed.
End ThreadOk.

(** ** One step of a thread *)

Lemma dispatch_service srv cn f srv' cn' :
  dispatch srv cn f = Handled srv' cn' ->
  srv_service srv' = srv_service srv /\ srv_epoch srv' = srv_epoch srv /\ srv_boot srv' = srv_boot srv /\
  srv_limits srv' = srv_limits srv /\ srv_stopping srv' = srv_stopping srv.
Proof.
  unfold dispatch. destruct (FrameType.of_u16 _); try (by intros [= <- <-]).
  - destruct (decode_plan_request_payload _ _); by intros [= <- <-].
  - destruct (decode_validate_request_payload _ _) as [[q p]|]; by intros [= <- <-].
Qed.

Lemma dispatch_asks srv cn f call : dispatch srv cn f = Calling call -> asks (srv_limits srv) f call.
Proof.
  unfold dispatch, asks. destruct (FrameType.of_u16 _); try done.
  - destruct (decode_plan_request_payload _ _) eqn:Hd; [|done]. by intros [= <-].
  - destruct (decode_validate_request_payload _ _) as [[q p]|] eqn:Hd; [|done]. by intros [= <-].
Qed.

(** What serving leaves of the server: all but its sessions, its counters and, for
    a submission, its service. *)
Definition serves_on (srv srv' : Server Service) : Prop :=
  srv_epoch srv' = srv_epoch srv /\ srv_boot srv' = srv_boot srv /\ srv_limits srv' = srv_limits srv /\
  srv_stopping srv' = srv_stopping srv /\
  (srv_service srv' = srv_service srv \/
   exists call, srv_service srv' = (submit call (srv_service srv)).2).

Lemma serve_step_serves srv th srv' th' : serve_step srv th = Some (srv', th') -> serves_on srv srv'.
Proof.
  unfold serve_step, serves_on. destruct (th_point th) as [| | | |f|f|[q|q p|q] id| | | | |] eqn:Hp; try done.
  - destruct (srv_stopping srv) eqn:Hs; [intros [= <- <-]; by split_and!; auto|].
    destruct (inspect _ _); intros [= <- <-]; split_and!; by auto.
  - destruct (srv_stopping srv) eqn:Hs; [intros [= <- <-]; by split_and!; auto|].
    destruct (decode_frame _ _) as [[f c]|]; intros [= <- <-]; split_and!; by auto.
  - destruct (negb _).
    + intros [= <- _]. unfold serve_hello. destruct (negb _); [by split_and!; auto|].
      destruct (decode_hello _); [|by split_and!; auto].
      destruct (session_create _ _ _ _) as [[created|s] reg]; by split_and!; auto.
    + destruct (session_accept _ _ _ _ _) as [[u|s] reg]; intros [= <- _]; by split_and!; auto.
  - destruct (dispatch srv (th_conn th) f) as [srv1 cn1|call] eqn:Hd.
    + intros [= <- _]. apply dispatch_service in Hd as (-> & -> & -> & -> & ->). split_and!; by auto.
    + destruct (submit call (srv_service srv)) as [[id|s] sv] eqn:Hsub; intros [= <- _];
        split_and!; try done; right; exists call; by rewrite Hsub.
  - destruct (wait_plan _ _); [|done]. intros [= <- _]. by split_and!; auto.
  - destruct (wait_validate _ _); [|done]. intros [= <- _]. by split_and!; auto.
  - unfold end_connection. destruct (cn_handshake _); intros [= <- _]; by split_and!; auto.
Qed.

Lemma submit_system ios call s :
  process_step ios (Alive s) (Alive (mkSystem (submit call (sys_service s)).2 (sys_workers s) (sys_shutdown s))).
Proof. apply step_submit. Qed.

Lemma submit_remembers call s : remembers (sys_service s) (submit call (sys_service s)).2.
Proof.
  assert (H : rtc (process_step (fun _ => True)) (Alive s)
    (Alive (mkSystem (submit call (sys_service s)).2 (sys_workers s) (sys_shutdown s))))
    by apply rtc_once, submit_system.
  by apply reachable_remembers in H.
Qed.

Lemma greeting_service srv cn f : srv_service (serve_hello (S := Service) srv cn f).1 = srv_service srv.
Proof.
  unfold serve_hello. destruct (negb _); [done|]. destruct (decode_hello _); [|done].
  by destruct (session_create _ _ _ _) as [[created|s] reg].
Qed.

Section StepOk.
Context (limits : ProtocolLimits).
Implicit Types (srv : Server Service) (th : Thread).

Lemma identified_serves srv srv' : serves_on srv srv' -> identified limits srv -> identified limits srv'.
Proof.
  intros (He & Hb & Hl & _ & Hs) (Ie & Ib & Il). unfold identified. rewrite He, Hb, Hl.
  assert (H : sv_epoch (srv_service srv') = sv_epoch (srv_service srv) /\
              sv_boot (srv_service srv') = sv_boot (srv_service srv)).
  { destruct Hs as [->|[call ->]]; [done|]. by destruct (submit_remembers call (mkSystem (srv_service srv) [] Up)) as (_ & _ & ? & ? & _). }
  destruct H as [-> ->]. done.
Qed.

Lemma waiting_answered s srv th call id f :
  SysInv s -> srv_service srv = sys_service s -> identified limits srv ->
  thread_ok limits (srv_service srv) th -> th_point th = Waiting call id ->
  last (th_heard th) = Some f -> asks limits f call ->
  forall srv' th', serve_step srv th = Some (srv', th') -> thread_ok limits (srv_service srv') th'.
Proof.
  intros Hinv Hs Hid Hok Hp Hf Hask srv' th'. pose proof (to_point _ _ _ Hok) as Hpt.
  rewrite Hp in Hpt. destruct Hpt as (Hh & Hsub & _). unfold serve_step. rewrite Hp.
  destruct call as [q|q p|q]; [| |done].
  - destruct (wait_plan id (srv_service srv)) as [r|] eqn:Hw; [|done]. intros [= <- <-].
    eapply respond_ok; try done; [by rewrite Hp|]. intros a ->. apply (reply_plan _ _ _ _ _ q); [done|].
    apply justified_durable. rewrite Hs in *. apply answered_justified; [done|]. exists id. by left.
  - destruct (wait_validate id (srv_service srv)) as [r|] eqn:Hw; [|done]. intros [= <- <-].
    eapply respond_ok; try done; [by rewrite Hp|]. intros v ->.
    assert (v = validate_plan q p) as ->; [|by apply reply_validate].
    rewrite Hs in *. by eapply validation_waited.
Qed.
End StepOk.

Section Runs.
Context (limits : ProtocolLimits).
Implicit Types (srv : Server Service) (th : Thread).

(** Taking a frame from the buffer. *)
Lemma hear_ok srv th f n :
  identified limits srv -> thread_ok limits (srv_service srv) th -> th_point th = Complete ->
  decode_frame limits (cn_buffer (th_conn th)) = Ok (f, n) ->
  thread_ok limits (srv_service srv)
    (hear th f (set_buffer (th_conn th) (drop (Z.to_nat n) (cn_buffer (th_conn th))))).
Proof.
  intros Hid [[said Ht] Ho _ Hb Hu] Hp Hd. rewrite Hp in *. cbn [pending in_loop] in *.
  assert (Hbuf : Forall in_u8 (cn_buffer (th_conn th))).
  { rewrite Hb in Hu. by apply Forall_app in Hu as [_ ?]. }
  apply decode_frame_inv in Hd as (_ & -> & rest & Hrest); [|done..].
  assert (Hdrop : drop (Z.to_nat (kFrameHeaderSize + sizez (frame_payload f))) (cn_buffer (th_conn th)) = rest).
  { rewrite Hrest. apply drop_app_length'. rewrite length_frame_bytes. unfold kFrameHeaderSize, sizez. lia. }
  rewrite Hdrop. split; cbn [hear th_conn th_point th_heard th_received pending set_buffer cn_buffer cn_open];
    [exists said; by apply talk_buffer, talk_hear|done|apply last_snoc| |done].
  rewrite Hb, Hrest, stream_snoc. by rewrite app_assoc.
Qed.

(** A request is accepted by the service, or refused. *)
Lemma submit_accepted call sv id sv' :
  submit call sv = (Ok id, sv') -> sv_submitted sv' !! id = Some (job_of call id).
Proof.
  unfold submit. destruct (enqueue _ _ _) as [[u|s] sv1] eqn:He; [|done]. intros [= <- <-].
  unfold register. cbn [sv_submitted]. replace (sv_submitted sv1) with (sv_submitted sv).
  - by apply list_lookup_middle.
  - revert He. unfold enqueue. destruct (sv_stopping sv); [done|]. destruct (_ <=? _); [done|].
    by intros [= _ <-].
Qed.

Lemma dispatch_ok srv th f srv' cn' :
  identified limits srv -> thread_ok limits (srv_service srv) th -> th_point th = Accepted f ->
  dispatch srv (th_conn th) f = Handled srv' cn' -> thread_ok limits (srv_service srv) (proceed th cn').
Proof.
  intros Hid Hok Hp Hd. pose proof (to_point _ _ _ Hok) as Hpt. rewrite Hp in Hpt. destruct Hpt as [Hf Hh].
  assert (Hpend : pending (th_point th) = 1%nat) by by rewrite Hp.
  assert (Herr : forall m r text, thread_ok limits (srv_service srv) (proceed th
    (hang_up (send_error srv (th_conn th) (cn_session (th_conn th)) (response_sequence (th_conn th)) m r text)))).
  { intros. by eapply pending_error_ok. }
  unfold dispatch, reject_request in Hd. destruct (FrameType.of_u16 _) eqn:Htype; try (injection Hd as _ <-; apply Herr).
  - destruct (decode_plan_request_payload _ _); [done|]. injection Hd as _ <-. apply Herr.
  - destruct (decode_validate_request_payload _ _) as [[q p]|]; [done|]. injection Hd as _ <-. apply Herr.
  - injection Hd as _ <-. apply proceed_ok; [done| |by apply send_frame_buffer].
    destruct (to_talk _ _ _ Hok) as [said Ht]. rewrite Hpend in Ht.
    eapply talk_answer; [exact Ht|apply (to_open _ _ _ Hok); by rewrite Hp|done|exact Hf|apply answered_next|].
    erewrite sent_says by done. by apply reply_status.
  - injection Hd as _ <-. apply proceed_ok; [done| |done].
    destruct (to_talk _ _ _ Hok) as [said Ht]. exists said. by eapply talk_close.
Qed.

Lemma serve_step_ok s srv th srv' th' :
  SysInv s -> srv_service srv = sys_service s -> identified limits srv ->
  thread_ok limits (srv_service srv) th -> serve_step srv th = Some (srv', th') ->
  thread_ok limits (srv_service srv') th'.
Proof.
  intros Hinv Hs Hid Hok. pose proof Hid as (_ & _ & Hl).
  destruct (th_point th) as [| | | |f|f|call id| | | | |] eqn:Hp.
  7: { intros Hstep. pose proof (to_point _ _ _ Hok) as Hpt. rewrite Hp in Hpt.
       destruct Hpt as (_ & _ & f & Hf & Hask). by eapply waiting_answered. }
  all: unfold serve_step; rewrite Hp; try done.
  - destruct (srv_stopping srv); [intros [= <- <-]; by apply left_ok|].
    destruct (to_talk _ _ _ Hok) as [said Ht]. rewrite Hp in Ht.
    assert (Hopen : cn_open (th_conn th) = true) by (apply (to_open _ _ _ Hok); by rewrite Hp).
    destruct (inspect _ _); intros [= <- <-]; [by eapply goto_ok..|].
    apply (reject_ok limits srv); try done; by rewrite Hp.
  - destruct (srv_stopping srv); [intros [= <- <-]; by apply left_ok|]. rewrite Hl.
    destruct (decode_frame _ _) as [[f c]|e] eqn:Hd; intros [= <- <-]; [by apply hear_ok|].
    apply (reject_ok limits srv); try done; by rewrite Hp.
  - pose proof (to_point _ _ _ Hok) as Hf. rewrite Hp in Hf.
    destruct (cn_handshake (th_conn th)) eqn:Hh; cbn [negb].
    + destruct (session_accept _ _ _ _ _) as [[u|e] reg]; intros [= <- <-].
      * destruct (to_talk _ _ _ Hok) as [said Ht]. rewrite Hp in Ht.
        eapply goto_ok; [done|exact Ht|done| |done]. intros _. apply (to_open _ _ _ Hok). by rewrite Hp.
      * apply (pending_error_ok limits srv th f); try done. by rewrite Hp.
    + intros [= <- <-]. cbn [fst snd]. rewrite greeting_service.
      by apply hello_ok.
  - destruct (dispatch srv (th_conn th) f) as [srv1 cn1|call] eqn:Hd.
    + intros [= <- <-]. cbn [fst snd]. pose proof (dispatch_service _ _ _ _ _ Hd) as (-> & _).
      by eapply dispatch_ok.
    + pose proof (to_point _ _ _ Hok) as Hpt. rewrite Hp in Hpt. destruct Hpt as [Hf Hh].
      apply dispatch_asks in Hd. rewrite Hl in Hd.
      destruct (submit call (srv_service srv)) as [[id|e] sv] eqn:Hsub; intros [= <- <-].
      * assert (Hrem : remembers (srv_service srv) sv).
        { pose proof (submit_remembers call s) as H. rewrite <- Hs, Hsub in H. done. }
        apply (thread_ok_remembers limits _ _ _ Hrem) in Hok.
        destruct (to_talk _ _ _ Hok) as [said Ht]. rewrite Hp in Ht.
        eapply goto_ok; [done|exact Ht|done| |].
        -- intros _. apply (to_open _ _ _ Hok). by rewrite Hp.
        -- split_and!; [done|by eapply submit_accepted|by exists f].
      * assert (Hrem : remembers (srv_service srv) sv).
        { pose proof (submit_remembers call s) as H. rewrite <- Hs, Hsub in H. done. }
        apply (thread_ok_remembers limits _ _ _ Hrem). eapply respond_ok; try done. by rewrite Hp.
  - intros [= <- <-]. destruct (to_talk _ _ _ Hok) as [said Ht]. rewrite Hp in Ht.
    assert (Hsv : srv_service (end_connection srv (th_conn th)).1 = srv_service srv).
    { unfold end_connection. by destruct (cn_handshake _). }
    cbn [fst]. rewrite Hsv. by eapply goto_ok.
Qed.
End Runs.

(** ** All threads *)

Section AllThreads.
Context {K : Type} `{!Kernel K} `{!KernelLaws K} (ios : Io -> Prop).
Context (limits : ProtocolLimits).
Implicit Types rn : Running K.

Record RunOk rn : Prop := {
  ro_system : SysInv (rn_system rn);
  ro_server : identified limits (rn_server rn);
  ro_threads : Forall (thread_ok limits (srv_service (rn_server rn))) (rn_threads rn)
}.

Lemma all_remember sv sv' ths :
  remembers sv sv' -> Forall (thread_ok limits sv) ths -> Forall (thread_ok limits sv') ths.
Proof. intros Hr H. eapply Forall_impl; [exact H|]. intros th. by apply thread_ok_remembers. Qed.

(** A thread moved, and the server with it. *)
Lemma serves_run_ok rn srv ths conns a c l k :
  RunOk rn -> serves_on (rn_server rn) srv ->
  (Forall (thread_ok limits (srv_service srv)) (rn_threads rn) -> Forall (thread_ok limits (srv_service srv)) ths) ->
  RunOk (mkRunning srv (rn_workers rn) (rn_shutdown rn) ths conns a c l k).
Proof.
  intros [Hs Hid Hth] Hserves Hths. pose proof Hserves as (_ & _ & _ & _ & Hsv).
  assert (Hrem : remembers (srv_service (rn_server rn)) (srv_service srv) /\
                 SysInv (mkSystem (srv_service srv) (rn_workers rn) (rn_shutdown rn))).
  { destruct Hsv as [->|[call ->]]; [by split|]. split; [apply (submit_remembers call (rn_system rn))|].
    by apply (submit_inv call (rn_system rn)). }
  destruct Hrem as [Hrem Hinv]. split; [done|by eapply identified_serves|].
  apply Hths. by eapply all_remember.
Qed.

Lemma serves_on_same srv srv' :
  srv_epoch srv' = srv_epoch srv -> srv_boot srv' = srv_boot srv -> srv_limits srv' = srv_limits srv ->
  srv_stopping srv' = srv_stopping srv -> srv_service srv' = srv_service srv -> serves_on srv srv'.
Proof. intros. split_and!; auto. Qed.

Lemma take_chunk_serves srv th chunk : serves_on srv (take_chunk srv th chunk).1.
Proof. unfold take_chunk. destruct chunk; [|destruct (_ <? _)]; by apply serves_on_same. Qed.

Lemma take_chunk_service srv th chunk : srv_service (take_chunk srv th chunk).1 = srv_service srv.
Proof. unfold take_chunk. by destruct chunk; [|destruct (_ <? _)]. Qed.

Lemma take_chunk_ok sv srv th chunk :
  thread_ok limits sv th -> th_point th = Receiving -> Forall in_u8 chunk ->
  thread_ok limits sv (take_chunk srv th chunk).2.
Proof.
  intros [[said Ht] Ho _ Hb Hu] Hp Hc. rewrite Hp in *. cbn [pending in_loop] in *.
  assert (Hr : th_received th ++ chunk =
    concat (map frame_bytes (th_heard th)) ++ cn_buffer (th_conn th) ++ chunk) by by rewrite Hb, app_assoc.
  assert (Hu' : Forall in_u8 (th_received th ++ chunk)) by by apply Forall_app.
  unfold take_chunk. destruct chunk as [|x chunk]; [|destruct (_ <? _)]; cbn [snd];
    split; cbn [th_conn th_point th_heard th_received in_loop pending hang_up set_buffer cn_buffer cn_open]; try done.
  - exists said. by eapply talk_close.
  - by rewrite Hr, app_nil_r.
  - exists said. by eapply talk_close, talk_buffer.
  - exists said. by apply talk_buffer.
Qed.

Lemma shut_socket_ok sv th : thread_ok limits sv th -> thread_ok limits sv (shut_socket th).
Proof.
  intros Hok. unfold shut_socket. destruct (socket_valid _); [|done].
  destruct Hok as [[said Ht] Ho Hp Hb Hu]. split; try done. exists said. by apply talk_deaf.
Qed.

Lemma at_point_ok sv th p :
  thread_ok limits sv th -> pending (th_point th) = 0%nat -> pending p = 0%nat ->
  (in_loop p = true -> in_loop (th_point th) = true) -> thread_ok limits sv (at_point th p).
Proof.
  intros [[said Ht] Ho Hpt Hb Hu] Hp0 Hp1 Hl. rewrite Hp0 in Ht.
  split; cbn [at_point goto th_conn th_point th_heard th_received]; auto.
  - exists said. by rewrite Hp1.
  - by destruct p.
Qed.

Lemma new_thread_ok sv h : thread_ok limits sv (mkThread Spawning new_connection (socket_adopt h) false [] []).
Proof. split; try done. exists []. by split. Qed.

Lemma update_ok sv ths i th :
  thread_ok limits sv th ->
  Forall (thread_ok limits sv) ths -> Forall (thread_ok limits sv) (<[i := th]> ths).
Proof. intros Hth Hall. by apply Forall_insert. Qed.

Lemma accept_serves srv srv' o out : accept srv = (srv', o, out) ->
  serves_on srv srv' /\ (forall cn, o = Some cn -> cn = new_connection /\ srv_stopping srv = false).
Proof.
  unfold accept. destruct (srv_stopping srv) eqn:Hs; [|destruct (_ <=? _)]; intros [= <- <- _];
    (split; [by apply serves_on_same|]); try done. intros cn [= <-]. done.
Qed.

Lemma socket_step_ok rn i rn' : socket_step rn i = Some rn' -> RunOk rn -> RunOk rn'.
Proof.
  unfold socket_step. intros Hstep Hok. destruct (rn_threads rn !! i) as [th|] eqn:Hth; [|done].
  cbn [mbind option_bind] in Hstep.
  assert (Ho : thread_ok limits (srv_service (rn_server rn)) th).
  { pose proof (ro_threads _ Hok) as H. rewrite Forall_lookup in H. by eapply H. }
  destruct (th_point th) eqn:Hp; try done.
  - injection Hstep as <-. apply (serves_run_ok rn); [done|by apply serves_on_same|]. apply update_ok.
    assert (Hsp : th_point (shut_socket th) = Released) by (unfold shut_socket; by destruct (socket_valid _)).
    apply at_point_ok; [by apply shut_socket_ok|by rewrite Hsp|done|done].
  - destruct (socket_close _ _) as [s k]. injection Hstep as <-.
    apply (serves_run_ok rn); [done|by apply serves_on_same|]. apply update_ok.
    destruct Ho as [[said Ht] Hop _ Hb Hu]. rewrite Hp in *. split; try done. by exists said.
  - injection Hstep as <-. apply (serves_run_ok rn); [done|by apply serves_on_same|]. apply update_ok.
    apply at_point_ok; by rewrite ?Hp.
Qed.

Lemma accept_step_ok rn rn' : accept_step rn = Some rn' -> RunOk rn -> RunOk rn'.
Proof.
  unfold accept_step. intros Hstep Hok. destruct (rn_accept rn) as [| |h|i|].
  - injection Hstep as <-. apply (serves_run_ok rn); [done|by apply serves_on_same|done].
  - destruct (socket_valid _); [done|]. injection Hstep as <-.
    apply (serves_run_ok rn); [done|by apply serves_on_same|done].
  - destruct (accept (rn_server rn)) as [[srv [cn|]] out] eqn:Ha; apply accept_serves in Ha as [Hs Hc];
      injection Hstep as <-; (apply (serves_run_ok rn); [done..|]); [|done].
    destruct (Hc _ eq_refl) as [-> _]. intros Hall. apply Forall_app. split; [done|].
    apply Forall_singleton. apply new_thread_ok.
  - destruct (rn_threads rn !! i) as [th|] eqn:Hth; [|done]. cbn [mbind option_bind] in Hstep.
    destruct (th_point th) eqn:Hp; try done. injection Hstep as <-.
    apply (serves_run_ok rn); [done|by apply serves_on_same|]. intros Hall. apply Forall_insert; [done|].
    apply at_point_ok; rewrite ?Hp; try done. rewrite Forall_lookup in Hall. by eapply Hall.
  - done.
Qed.

Lemma closing_step_ok rn rn' : closing_step rn = Some rn' -> RunOk rn -> RunOk rn'.
Proof.
  unfold closing_step. intros Hstep Hok.
  assert (Hsame : forall ths conns a c l k,
    (Forall (thread_ok limits (srv_service (rn_server rn))) (rn_threads rn) ->
     Forall (thread_ok limits (srv_service (rn_server rn))) ths) ->
    RunOk (mkRunning (rn_server rn) (rn_workers rn) (rn_shutdown rn) ths conns a c l k)).
  { intros. apply (serves_run_ok rn); [done|by apply serves_on_same|done]. }
  destruct (rn_closing rn); try done.
  - injection Hstep as <-. by apply Hsame.
  - destruct (socket_close _ _) as [s k]. injection Hstep as <-. by apply Hsame.
  - injection Hstep as <-. apply Hsame. intros Hall. rewrite Forall_lookup. intros i th.
    rewrite list_lookup_imap. destruct (rn_threads rn !! i) as [th0|] eqn:Hi; [|done]. intros [= <-].
    rewrite Forall_lookup in Hall. specialize (Hall _ _ Hi).
    case_bool_decide; [by apply shut_socket_ok|done].
  - destruct (rn_accept rn); try done. injection Hstep as <-. by apply Hsame.
  - destruct (forallb _ _); [|done]. injection Hstep as <-. by apply Hsame.
  - injection Hstep as <-. by apply Hsame.
Qed.

(** The service's own threads. *)
Lemma system_ok rn s :
  process_step ios (Alive (rn_system rn)) (Alive s) -> RunOk rn -> RunOk (set_system rn s).
Proof.
  intros Hstep [Hs (He & Hb & Hl) Hth].
  pose proof (process_step_remembers _ _ _ Hstep) as Hrem. pose proof Hrem as (_ & _ & He' & Hb' & _).
  cbn [rn_system sys_service] in *. split.
  - apply process_step_inv in Hstep; [|done]. by destruct s.
  - split_and!; cbn [set_system rn_server replace_service srv_epoch srv_boot srv_service srv_limits]; congruence.
  - by eapply all_remember.
Qed.

Lemma own_step_ok rn rn' : own_step ios rn (Live rn') -> RunOk rn -> RunOk rn'.
Proof.
  intros Hstep Hok. pose proof (ro_threads _ Hok) as Hall. rewrite Forall_lookup in Hall.
  inversion Hstep as [i th srv th' Hth Hserve|i th Hth Hp Hshut|i rn1 H|rn1 H|rn1 H
    |io w worker r Hio Hw Hrun Heq|io next sv Hio Hcl Hrun]; subst.
  - pose proof (serve_step_serves _ _ _ _ Hserve) as Hs. apply (serves_run_ok rn); [done|done|].
    apply update_ok. eapply (serve_step_ok _ (rn_system rn));
      [apply (ro_system _ Hok)|done|apply (ro_server _ Hok)|by eapply Hall|exact Hserve].
  - apply (serves_run_ok rn); [done|by apply (take_chunk_serves (rn_server rn) th [])|].
    apply update_ok. by apply (take_chunk_ok _ (rn_server rn) th []); [apply (Hall i)|..].
  - by eapply socket_step_ok.
  - by eapply accept_step_ok.
  - by eapply closing_step_ok.
  - destruct r as [[worker' sv]|d]; [|done]. injection Heq as <-. apply system_ok; [|done].
    apply step_thread. by eapply (step_worker _ (rn_system rn) io w worker (Returned (worker', sv))).
  - apply system_ok; [|done]. apply step_thread. by eapply (step_shutdown _ (rn_system rn)).
Qed.

Lemma peer_step_ok rn rn' : peer_step rn rn' -> RunOk rn -> RunOk rn'.
Proof.
  intros Hstep Hok. pose proof (ro_threads _ Hok) as Hall. rewrite Forall_lookup in Hall.
  destruct Hstep as [i th chunk Hth Hp Hu Hc|i th Hth Hw|h k Ha Hl Hf Hk|Ha].
  - pose proof (take_chunk_serves (rn_server rn) th chunk) as Hs. apply (serves_run_ok rn); [done|done|].
    rewrite take_chunk_service. apply update_ok. by apply take_chunk_ok; [apply (Hall i)|..].
  - apply (serves_run_ok rn); [done|by apply serves_on_same|]. apply update_ok.
    destruct (Hall _ _ Hth) as [[said Ht] Hop Hpt Hb Hu]. split; try done. exists said. by apply talk_deaf.
  - apply (serves_run_ok rn); [done|by apply serves_on_same|done].
  - apply (serves_run_ok rn); [done|by apply serves_on_same|done].
Qed.

Lemma begin_shutdown_ok rn : RunOk rn -> RunOk (begin_shutdown rn).
Proof. intros [Hs (He & Hb & Hl) Hth]. by split. Qed.

Lemma run_step_ok rn rn' : run_step ios (Live rn) (Live rn') -> RunOk rn -> RunOk rn'.
Proof.
  intros Hstep. inversion Hstep as [p q Hs|]; subst; [|by apply begin_shutdown_ok].
  inversion Hs; subst; [by apply own_step_ok|by apply peer_step_ok].
Qed.

(** The server keeps its incarnation. *)
Lemma run_step_identity rn rn' :
  run_step ios (Live rn) (Live rn') ->
  srv_epoch (rn_server rn') = srv_epoch (rn_server rn) /\ srv_boot (rn_server rn') = srv_boot (rn_server rn).
Proof.
  assert (Hserves : forall srv, serves_on (rn_server rn) srv ->
    srv_epoch srv = srv_epoch (rn_server rn) /\ srv_boot srv = srv_boot (rn_server rn)) by by intros srv (? & ? & _).
  intros Hstep. inversion Hstep as [p q Hs|]; subst; [|done].
  inversion Hs as [? ? Hown|? ? Hpeer]; subst.
  - inversion Hown as [i th srv th' Hth Hserve|i th Hth Hp Hshut|i rn1 H|rn1 H|rn1 H
      |io w worker r Hio Hw Hrun Heq|io next sv Hio Hcl Hrun]; subst; try done.
    + by apply Hserves, (serve_step_serves _ th _ th').
    + revert H. unfold socket_step. destruct (rn_threads rn !! i) as [th|]; [|done]. cbn [mbind option_bind].
      destruct (th_point th); try done; [by intros [= <-]| |by intros [= <-]].
      destruct (socket_close _ _). by intros [= <-].
    + revert H. unfold accept_step. destruct (rn_accept rn) as [| |h|i|]; try (by intros [= <-]).
      * destruct (socket_valid _); [done|]. by intros [= <-].
      * destruct (accept (rn_server rn)) as [[srv [cn|]] out] eqn:Ha; apply accept_serves in Ha as [Ha _];
          intros [= <-]; by apply Hserves.
      * destruct (rn_threads rn !! i) as [th|]; [|done]. cbn [mbind option_bind].
        destruct (th_point th); try done. by intros [= <-].
    + revert H. unfold closing_step. destruct (rn_closing rn); try (by intros [= <-]).
      * destruct (socket_close _ _). by intros [= <-].
      * destruct (rn_accept rn); try done. by intros [= <-].
      * destruct (forallb _ _); [|done]. by intros [= <-].
    + destruct r as [[worker' sv]|d]; [|done]. by injection Heq as <-.
  - destruct Hpeer as [i th chunk Hth Hp Hu Hc|i th Hth Hw|h k Ha Hl Hf Hk|Ha]; try done.
    apply Hserves, take_chunk_serves.
Qed.

(** An invariant of living processes holds along a run. *)
Lemma run_ind (P : Running K -> Prop) rn rn' :
  (forall rn rn', run_step ios (Live rn) (Live rn') -> P rn -> P rn') ->
  rtc (run_step ios) (Live rn) (Live rn') -> P rn -> P rn'.
Proof.
  intros Hinv Hrun. remember (Live rn) as p eqn:Hp. remember (Live rn') as p' eqn:Hp'.
  revert rn Hp. induction Hrun as [p|p q p' Hpq Hrun IH]; intros rn0 ->.
  - by injection Hp' as ->.
  - destruct q as [rn1|d].
    + intros H. apply (IH Hp' rn1 eq_refl). by eapply Hinv.
    + subst p'. inversion Hrun as [|? ? ? Hdead]; subst. inversion Hdead as [? ? Hs|]; inversion Hs.
Qed.
End AllThreads.

Lemma running_ok {K} `{!Kernel K} limits s max_sessions listener (k : K) :
  SysInv s -> limits = default_protocol_limits -> RunOk limits (running s max_sessions listener k).
Proof. intros Hs ->. split; [by destruct s|by split_and!|constructor]. Qed.


(** The next state of one thread, where it can be computed. *)
Definition serve_at {K} (rn : Running K) (i : nat) : option (Running K) :=
  th ← rn_threads rn !! i; '(srv, th) ← serve_step (rn_server rn) th; Some (set_thread rn srv i th).

Definition wake_at {K} (rn : Running K) (i : nat) : option (Running K) :=
  th ← rn_threads rn !! i;
  match th_point th, th_shut th with
  | Receiving, true =>
      Some (set_thread rn (take_chunk (rn_server rn) th []).1 i (take_chunk (rn_server rn) th []).2)
  | _, _ => None
  end.

Definition work_at {K} (rn : Running K) (w : nat) : option (Running K) :=
  worker ← rn_workers rn !! w;
  match worker_step io_ok (srv_service (rn_server rn)) worker with
  | Some (Returned (worker, sv)) =>
      Some (set_system rn (mkSystem sv (<[w := worker]> (rn_workers rn)) (rn_shutdown rn)))
  | _ => None
  end.

Definition shutdown_at {K} (rn : Running K) : option (Running K) :=
  match rn_closing rn with
  | Cleared =>
      '(next, sv) ← shutdown_step io_ok (rn_workers rn) (srv_service (rn_server rn)) (rn_shutdown rn);
      Some (set_system rn (mkSystem sv (rn_workers rn) next))
  | _ => None
  end.

(** The peer of connection [i] sends, or its chunk arrives. *)
Definition arrive_at {K} (rn : Running K) (i : nat) (chunk : list Z) : option (Running K) :=
  th ← rn_threads rn !! i;
  match th_point th with
  | Receiving =>
      if forallb (fun b => (0 <=? b) && (b <? 256)) chunk && (sizez chunk <=? chunk_bytes)
      then Some (set_thread rn (take_chunk (rn_server rn) th chunk).1 i (take_chunk (rn_server rn) th chunk).2)
      else None
  | _ => None
  end.

Section Computed.
Context {K : Type} `{!Kernel K} `{!KernelLaws K}.
Implicit Types rn : Running K.
Local Abbreviation moves rn rn' := (server_step (eq io_ok) (Live rn) (Live rn')).

Lemma moves_accept rn rn' : accept_step rn = Some rn' -> moves rn rn'.
Proof. intros. by apply step_own, own_accept. Qed.

Lemma moves_closing rn rn' : closing_step rn = Some rn' -> moves rn rn'.
Proof. intros. by apply step_own, own_closing. Qed.

Lemma moves_socket rn i rn' : socket_step rn i = Some rn' -> moves rn rn'.
Proof. intros. by eapply step_own, own_socket. Qed.

Lemma moves_serve rn i rn' : serve_at rn i = Some rn' -> moves rn rn'.
Proof.
  unfold serve_at. destruct (rn_threads rn !! i) as [th|] eqn:Hi; [|done]. cbn [mbind option_bind].
  destruct (serve_step _ _) as [[srv th']|] eqn:Hs; [|done]. cbn [mbind option_bind]. intros [= <-].
  by eapply step_own, own_serve.
Qed.

Lemma moves_wake rn i rn' : wake_at rn i = Some rn' -> moves rn rn'.
Proof.
  unfold wake_at. destruct (rn_threads rn !! i) as [th|] eqn:Hi; [|done]. cbn [mbind option_bind].
  destruct (th_point th) eqn:Hp; try done. destruct (th_shut th) eqn:Hs; [|done]. intros [= <-].
  by apply step_own, (own_wake (eq io_ok) rn i th).
Qed.

Lemma moves_work rn w rn' : work_at rn w = Some rn' -> moves rn rn'.
Proof.
  unfold work_at. destruct (rn_workers rn !! w) as [worker|] eqn:Hw; [|done]. cbn [mbind option_bind].
  destruct (worker_step _ _ _) as [[[worker' sv]|d]|] eqn:Hs; [|done..]. intros [= <-].
  by apply step_own, (own_worker (eq io_ok) rn io_ok w worker (Returned (worker', sv))).
Qed.

Lemma moves_shutdown rn rn' : shutdown_at rn = Some rn' -> moves rn rn'.
Proof.
  unfold shutdown_at. destruct (rn_closing rn) eqn:Hc; try done.
  destruct (shutdown_step _ _ _ _) as [[next sv]|] eqn:Hs; [|done]. cbn [mbind option_bind]. intros [= <-].
  by eapply step_own, own_shutdown.
Qed.

Lemma moves_arrive rn i chunk rn' : arrive_at rn i chunk = Some rn' -> moves rn rn'.
Proof.
  unfold arrive_at. destruct (rn_threads rn !! i) as [th|] eqn:Hi; [|done]. cbn [mbind option_bind].
  destruct (th_point th) eqn:Hp; try done. destruct (forallb _ _ && _) eqn:Hc; [|done]. intros [= <-].
  apply andb_true_iff in Hc as [Hu Hl]. apply Z.leb_le in Hl. apply step_peer, peer_chunk; try done.
  rewrite forallb_forall in Hu. rewrite Forall_forall. intros b Hb. apply list_elem_of_In, Hu in Hb.
  unfold in_u8. lia.
Qed.

Lemma moves_connect rn h k :
  rn_accept rn = InAccept -> socket_valid (rn_listener rn) = true ->
  bool_decide (h ∉ opened (rn_kernel rn)) = true -> opened k = {[h]} ∪ opened (rn_kernel rn) ->
  moves rn (set_accept (set_kernel rn k) (Took h)).
Proof. intros ?? Hn%bool_decide_eq_true ?. by apply step_peer, peer_connects. Qed.
End Computed.

(** The next state, by a lemma whose premise computes it. *)
Ltac next_live f lem :=
  match goal with
  | |- rtc _ (Live ?rn) _ =>
      let r := eval vm_compute in (f rn) in
      match r with
      | Some ?rn' => apply (rtc_l _ _ (Live rn')); [apply run_server, lem; vm_compute; reflexivity|]
      end
  end.

Definition plan_frame : Frame := sent_frame FrameType.PLAN_REQUEST 1 1 1 1 (encode_request first_request).

