(* ===== verification/Stopping.v ===== *)
(** * The server process stops

    What [PlanningServer::shutdown] followed by [PlannerService::shutdown] comes to,
    for the process of [Threads.v]: the threads' places and their sockets under an
    invariant, a measure that every step decreases once the flag is raised, and
    progress without help from the network. *)
From S2P Require Import Prelude Ids Canonical Model Objective Domain DefinitionCheck Plan Fixture.
From S2P Require Import Codec Crc32 Journal Store StoreCorrect Planner Validate Protocol ProtocolCorrect.
From S2P Require Import Session Service ServiceCorrect Server ServerCorrect Transport Threads.

(** ** The places of the threads *)

Definition closing_rank (c : Closing) : nat :=
  match c with
  | Serving => 7 | Flagged => 6 | ListenerShut => 5 | ListenerClosed => 4 | SocketsShut => 3
  | AcceptJoined => 2 | ThreadsJoined => 1 | Cleared => 0
  end.

Definition socket_gone (p : Point) : bool := match p with Closed | Gone => true | _ => false end.

Section Places.
Context {K : Type} `{!Kernel K} `{!KernelLaws K} (ios : Io -> Prop).
Implicit Types (rn : Running K) (th : Thread).

(** A thread, as far as the shutdown goes: its socket is open until it closes it,
    listed until the end, and shut down once the main thread has been there. *)
Record placed (c : Closing) (conns : list nat) (a : AcceptPoint) (i : nat) th : Prop := {
  pl_socket : socket_valid (th_socket th) = negb (socket_gone (th_point th));
  pl_listed : th_point th <> Gone -> i ∈ conns;
  pl_shut : (closing_rank c <= 3)%nat -> socket_gone (th_point th) = false -> th_shut th = true;
  pl_spawning : th_point th = Spawning -> a = Spawns i;
  pl_gone : (closing_rank c <= 1)%nat -> th_point th = Gone
}.

Record Shape rn : Prop := {
  sh_flag : srv_stopping (rn_server rn) = true <-> rn_closing rn <> Serving;
  sh_up : rn_closing rn <> Cleared -> rn_shutdown rn = Up;
  sh_workers : rn_workers rn <> [];
  sh_listener : (closing_rank (rn_closing rn) <= 4)%nat -> socket_valid (rn_listener rn) = false;
  sh_accept : (closing_rank (rn_closing rn) <= 2)%nat -> rn_accept rn = AcceptDone;
  sh_spawns : forall i, rn_accept rn = Spawns i ->
    exists th, rn_threads rn !! i = Some th /\ th_point th = Spawning;
  sh_threads : forall i th, rn_threads rn !! i = Some th ->
    placed (rn_closing rn) (rn_connections rn) (rn_accept rn) i th
}.

(** The thread moved on, its socket did not change. *)
Definition moved th th' : Prop :=
  th_socket th' = th_socket th /\ th_shut th' = th_shut th /\
  socket_gone (th_point th) = false /\ socket_gone (th_point th') = false /\
  th_point th <> Spawning /\ th_point th' <> Spawning.

Lemma placed_moved c conns a i th th' : placed c conns a i th -> moved th th' -> placed c conns a i th'.
Proof.
  intros [Hs Hl Hsh Hsp Hg] (E1 & E2 & H1 & H2 & H3 & H4). split; rewrite ?E1, ?E2.
  - by rewrite Hs, H1, H2.
  - intros _. apply Hl. by intros Hgone; rewrite Hgone in H1.
  - intros ? _. by apply Hsh.
  - done.
  - intros Hc. by rewrite (Hg Hc) in H1.
Qed.

Lemma proceed_moved th cn p :
  th_point th = p -> socket_gone p = false -> p <> Spawning -> moved th (proceed th cn).
Proof. intros Hp Hg Hs. unfold moved, proceed. rewrite Hp. by destruct (cn_open cn). Qed.

Lemma serve_step_moved srv th srv' th' : serve_step srv th = Some (srv', th') -> moved th th'.
Proof.
  unfold serve_step. destruct (th_point th) as [| | | |f|f|[q|q p|q] id| | | | |] eqn:Hp; try done;
    assert (Hgo : forall p0 cn, socket_gone p0 = false -> p0 <> Spawning -> moved th (goto th p0 cn))
      by (intros p0 cn ? ?; by unfold moved; rewrite Hp);
    assert (Hpr : forall cn, moved th (proceed th cn))
      by (intros cn; by apply (proceed_moved th cn _ Hp)).
  - destruct (srv_stopping srv); [intros [= <- <-]; by apply Hgo|].
    destruct (inspect _ _); intros [= <- <-]; by auto.
  - destruct (srv_stopping srv); [intros [= <- <-]; by apply Hgo|].
    destruct (decode_frame _ _) as [[f c]|]; intros [= <- <-]; [by unfold moved; rewrite Hp|auto].
  - destruct (negb _); [intros [= <- <-]; auto|].
    destruct (session_accept _ _ _ _ _) as [[u|s] reg]; intros [= <- <-]; by auto.
  - destruct (dispatch srv (th_conn th) f) as [srv1 cn1|call]; [intros [= <- <-]; auto|].
    destruct (submit call (srv_service srv)) as [[id|s] sv]; intros [= <- <-]; by auto.
  - destruct (wait_plan _ _); [|done]. intros [= <- <-]. auto.
  - destruct (wait_validate _ _); [|done]. intros [= <- <-]. auto.
  - intros [= <- <-]. by apply Hgo.
Qed.

Lemma take_chunk_moved srv th chunk : th_point th = Receiving -> moved th (take_chunk srv th chunk).2.
Proof. intros Hp. unfold take_chunk, moved. rewrite Hp. by destruct chunk; [|destruct (_ <? _)]. Qed.

(** One thread changes, and the server goes on. *)
Lemma set_thread_shape rn srv i th th' :
  Shape rn -> rn_threads rn !! i = Some th -> srv_stopping srv = srv_stopping (rn_server rn) ->
  (forall c conns a, placed c conns a i th -> placed c conns a i th') ->
  (th_point th = Spawning -> th_point th' = Spawning) -> Shape (set_thread rn srv i th').
Proof.
  intros [Hf Hu Hw Hl Ha Hsp Ht] Hi Hs Hp Hspawn. split; cbn [set_thread rn_server rn_closing rn_shutdown
    rn_workers rn_listener rn_accept rn_threads rn_connections]; try done.
  - by rewrite Hs.
  - intros j Hj. destruct (Hsp j Hj) as (th0 & Hj0 & Hp0). destruct (decide (i = j)) as [<-|Hne].
    + exists th'. rewrite Hi in Hj0. injection Hj0 as <-.
      split; [|by apply Hspawn]. apply list_lookup_insert_eq. by eapply lookup_lt_Some.
    + exists th0. by rewrite list_lookup_insert_ne.
  - intros j th0 [(<- & <- & _)|(Hne & Hj)]%list_lookup_insert_Some; [apply Hp; by apply Ht|by apply Ht].
Qed.

Lemma moved_shape rn srv i th th' :
  Shape rn -> rn_threads rn !! i = Some th -> srv_stopping srv = srv_stopping (rn_server rn) ->
  moved th th' -> Shape (set_thread rn srv i th').
Proof.
  intros Hsh Hi Hs Hm. eapply set_thread_shape; try done.
  - intros c conns a Hp. by eapply placed_moved.
  - by destruct Hm as (_ & _ & _ & _ & ? & _).
Qed.

Lemma socket_step_shape rn i rn' : socket_step rn i = Some rn' -> Shape rn -> Shape rn'.
Proof.
  unfold socket_step. intros Hstep Hsh. destruct (rn_threads rn !! i) as [th|] eqn:Hi; [|done].
  cbn [mbind option_bind] in Hstep. destruct (th_point th) eqn:Hp; try done.
  - injection Hstep as <-. change (set_thread _ _ _ _) with
      (set_kernel (set_thread rn (rn_server rn) i (at_point (shut_socket th) ShutDown))
         (socket_shutdown_both (th_socket th) (rn_kernel rn)).2).
    assert (H : Shape (set_thread rn (rn_server rn) i (at_point (shut_socket th) ShutDown))).
    { eapply set_thread_shape; try done; [|by rewrite Hp].
      intros c conns a [Hs Hl Hsp Hspn Hg]. unfold shut_socket.
      assert (Hv : socket_valid (th_socket th) = true) by by rewrite Hs, Hp.
      rewrite Hv. split; cbn; try done; rewrite Hp in *; auto.
      intros Hc. by specialize (Hg Hc). }
    by destruct H.
  - destruct (socket_close (th_socket th) (rn_kernel rn)) as [s k] eqn:Hc. injection Hstep as <-.
    assert (Hs0 : socket_valid s = false).
    { unfold socket_close in Hc. unfold socket_valid. destruct (sock_handle (th_socket th)) eqn:Hh;
        injection Hc as <- _; [done|by rewrite Hh]. }
    set (th' := mkThread Closed _ _ _ _ _).
    assert (H : Shape (set_thread rn (rn_server rn) i th')).
    { eapply set_thread_shape; try done; [|by rewrite Hp].
      intros c conns a [Hs Hl Hsp Hspn Hg]. split; cbn; try done; rewrite Hp in *; auto.
      intros Hc1. by specialize (Hg Hc1). }
    by destruct H.
  - injection Hstep as <-.
    destruct Hsh as [Hf Hu Hw Hl Ha Hsp Ht]. split; cbn [set_thread set_connections rn_server rn_closing rn_shutdown
      rn_workers rn_listener rn_accept rn_threads rn_connections]; try done.
    + intros j Hj. destruct (Hsp j Hj) as (th0 & Hj0 & Hp0). exists th0.
      rewrite list_lookup_insert_ne; [done|]. intros ->. rewrite Hi in Hj0. injection Hj0 as <-. congruence.
    + intros j th0 [(<- & <- & _)|(Hne & Hj)]%list_lookup_insert_Some.
      * destruct (Ht _ _ Hi) as [Hs _ _ _ Hg]. rewrite Hp in Hs. split; cbn; done.
      * destruct (Ht _ _ Hj) as [Hs Hli ? ? ?]. split; try done.
        intros Hne'. apply list_elem_of_filter. split; [congruence|by apply Hli].
Qed.

(** The accept thread between two places without a new connection. *)
Lemma accept_shape rn srv a k :
  Shape rn -> (forall i, rn_accept rn <> Spawns i) -> rn_accept rn <> AcceptDone ->
  srv_stopping srv = srv_stopping (rn_server rn) -> (forall i, a <> Spawns i) ->
  Shape (mkRunning srv (rn_workers rn) (rn_shutdown rn) (rn_threads rn) (rn_connections rn) a
           (rn_closing rn) (rn_listener rn) k).
Proof.
  intros [Hf Hu Hw Hl Ha Hsp Ht] H1 H2 Hs H3. split; cbn [rn_server rn_closing rn_shutdown
    rn_workers rn_listener rn_accept rn_threads rn_connections]; try done.
  - by rewrite Hs.
  - intros Hc. by specialize (Ha Hc).
  - intros i Hi. by destruct (H3 i).
  - intros i th Hi. destruct (Ht _ _ Hi) as [? ? ? Hspn ?]. split; try done.
    intros Hp. by destruct (H1 i (Hspn Hp)).
Qed.

Lemma stopped_spawns (b : bool) a i : a <> Spawns i -> (if b then AcceptDone else a) <> Spawns i.
Proof. by destruct b. Qed.

Lemma accept_step_shape rn rn' : accept_step rn = Some rn' -> Shape rn -> Shape rn'.
Proof.
  unfold accept_step. intros Hstep Hsh. destruct (rn_accept rn) as [| |h|i|] eqn:Hacc.
  - injection Hstep as <-. apply accept_shape; try done; intros; rewrite ?Hacc; by try apply stopped_spawns.
  - destruct (socket_valid _); [done|]. injection Hstep as <-.
    apply accept_shape; try done; intros; rewrite ?Hacc; by try apply stopped_spawns.
  - destruct (accept (rn_server rn)) as [[srv [cn|]] out] eqn:Ha;
      apply accept_serves in Ha as [(_ & _ & _ & Hst & _) Hc]; injection Hstep as <-.
    2: { apply accept_shape; try done; intros; rewrite ?Hacc; by try apply stopped_spawns. }
    destruct (Hc _ eq_refl) as [-> Hrun]. destruct Hsh as [Hf Hu Hw Hl Hd Hsp Ht].
    assert (Hserving : rn_closing rn = Serving).
    { destruct (decide (rn_closing rn = Serving)) as [|Hne]; [done|]. apply Hf in Hne. congruence. }
    rewrite Hserving in *. split; cbn [rn_server rn_closing rn_shutdown
      rn_workers rn_listener rn_accept rn_threads rn_connections closing_rank]; try done; try lia.
    + by rewrite Hst.
    + intros i [= <-]. eexists. split; [by apply list_lookup_middle|done].
    + intros i th [Hi|[Hle Hi]]%lookup_app_Some.
      * destruct (Ht _ _ Hi) as [? Hli ? Hspn ?]. split; try done.
        -- intros Hne. apply elem_of_app. left. by apply Hli.
        -- intros Hp. specialize (Hspn Hp). congruence.
      * apply list_lookup_singleton_Some in Hi as [Hz <-]. split; cbn; try done; try lia.
        -- intros _. apply elem_of_app. right. apply list_elem_of_singleton. lia.
        -- intros _. f_equal. lia.
  - destruct (rn_threads rn !! i) as [th|] eqn:Hi; [|done]. cbn [mbind option_bind] in Hstep.
    destruct (th_point th) eqn:Hp; try done. injection Hstep as <-.
    destruct Hsh as [Hf Hu Hw Hl Hd Hsp Ht]. split; cbn [set_accept set_thread rn_server rn_closing rn_shutdown
      rn_workers rn_listener rn_accept rn_threads rn_connections]; try done.
    + intros Hc. specialize (Hd Hc). congruence.
    + intros j th0 [(<- & <- & _)|(Hne & Hj)]%list_lookup_insert_Some.
      * destruct (Ht _ _ Hi) as [Hs Hli Hsh ? Hg]. rewrite Hp in *. split; cbn; try done; auto.
        intros Hc. by specialize (Hg Hc).
      * destruct (Ht _ _ Hj) as [? ? ? Hspn ?]. split; try done. intros Hp0. specialize (Hspn Hp0). congruence.
  - done.
Qed.

Lemma placed_closing c c' conns a i th :
  (3 < closing_rank c')%nat -> placed c conns a i th -> placed c' conns a i th.
Proof. intros Hc [? ? ? ? ?]. split; try done; intros Hc'; exfalso; lia. Qed.

Lemma closing_step_shape rn rn' : closing_step rn = Some rn' -> Shape rn -> Shape rn'.
Proof.
  unfold closing_step. intros Hstep [Hf Hu Hw Hl Ha Hsp Ht].
  assert (Hstop : rn_closing rn <> Serving -> srv_stopping (rn_server rn) = true) by apply Hf.
  destruct (rn_closing rn) eqn:Hc; try done; cbn [closing_rank] in *.
  - injection Hstep as <-. split; cbn; try done; try lia; auto.
    + by split; auto.
    + intros i th Hi. eapply placed_closing; [|by apply Ht]. cbn. lia.
  - destruct (socket_close _ _) as [s k] eqn:Hclose. injection Hstep as <-.
    split; cbn; try done; try lia; auto.
    + by split; auto.
    + intros _. unfold socket_close in Hclose. unfold socket_valid.
      destruct (sock_handle (rn_listener rn)) eqn:Hh; injection Hclose as <- _; [done|by rewrite Hh].
    + intros i th Hi. eapply placed_closing; [|by apply Ht]. cbn. lia.
  - injection Hstep as <-. split; cbn; try done; try lia; auto.
    + by split; auto.
    + intros i Hi. destruct (Hsp i Hi) as (th & Hth & Hp).
      exists (if bool_decide (i ∈ rn_connections rn) then shut_socket th else th).
      rewrite list_lookup_imap, Hth. split; [done|]. case_bool_decide; [|exact Hp].
      unfold shut_socket. destruct (socket_valid (th_socket th)); exact Hp.
    + intros i th. rewrite list_lookup_imap. destruct (rn_threads rn !! i) as [th0|] eqn:Hi; [|done].
      intros [= <-]. destruct (Ht _ _ Hi) as [Hs Hli Hsh Hspn Hg].
      assert (Hp : forall th1, th1 = (if bool_decide (i ∈ rn_connections rn) then shut_socket th0 else th0) ->
        th_point th1 = th_point th0 /\ th_socket th1 = th_socket th0 /\
        (socket_gone (th_point th0) = false -> th_shut th1 = true)).
      { intros th1 ->. case_bool_decide as Hin.
        - unfold shut_socket. rewrite Hs. destruct (socket_gone (th_point th0)); done.
        - split_and!; [done..|]. intros Hgo. destruct Hin. apply Hli. intros Hgone. by rewrite Hgone in Hgo. }
      destruct (Hp _ eq_refl) as (E1 & E2 & E3). split; rewrite ?E1, ?E2; try done. cbn. lia.
  - destruct (rn_accept rn) eqn:Hacc; try done. injection Hstep as <-. split; cbn; try done; try lia; auto.
    + by split; auto.
    + intros i Hi. congruence.
    + intros i th Hi. destruct (Ht _ _ Hi) as [? ? ? Hspn ?]. split; cbn in *; try done; try lia; auto.
      intros Hp. specialize (Hspn Hp). congruence.
  - destruct (forallb is_gone (rn_threads rn)) eqn:Hall; [|done]. injection Hstep as <-.
    split; cbn; try done; try lia; auto.
    + by split; auto.
    + intros i th Hi. destruct (Ht _ _ Hi). split; cbn in *; try done; auto.
      intros _. apply list_elem_of_lookup_2, list_elem_of_In in Hi.
      rewrite forallb_forall in Hall. specialize (Hall _ Hi). unfold is_gone in Hall. by destruct (th_point th).
  - injection Hstep as <-. split; cbn; try done; try lia; auto.
    + by split; auto.
    + intros i th Hi. destruct (Ht _ _ Hi) as [? ? ? ? Hg]. split; cbn in *; try done; auto.
      intros Hne. destruct Hne. by apply Hg.
Qed.

Lemma system_shape rn s :
  Shape rn -> (rn_closing rn <> Cleared -> sys_shutdown s = Up) -> sys_workers s <> [] ->
  Shape (set_system rn s).
Proof. intros [Hf Hu Hw Hl Ha Hsp Ht] H1 H2. by split. Qed.

Lemma insert_nonempty {A} (l : list A) i x : l <> [] -> <[i := x]> l <> [].
Proof. destruct l, i; done. Qed.

Lemma own_step_shape rn rn' : own_step ios rn (Live rn') -> Shape rn -> Shape rn'.
Proof.
  intros Hstep Hsh.
  inversion Hstep as [i th srv th' Hth Hserve|i th Hth Hp Hshut|i rn1 H|rn1 H|rn1 H
    |io w worker r Hio Hw Hrun Heq|io next sv Hio Hcl Hrun]; subst.
  - eapply moved_shape; [done|exact Hth| |by eapply serve_step_moved].
    by apply serve_step_serves in Hserve as (_ & _ & _ & ? & _).
  - apply (moved_shape rn (take_chunk (rn_server rn) th []).1 i th); [done|exact Hth|done|].
    by apply (take_chunk_moved (rn_server rn) th []).
  - by eapply socket_step_shape.
  - by eapply accept_step_shape.
  - by eapply closing_step_shape.
  - destruct r as [[worker' sv]|d]; [|done]. injection Heq as <-. apply system_shape; [done| |].
    + apply (sh_up _ Hsh).
    + apply insert_nonempty, (sh_workers _ Hsh).
  - apply system_shape; [done|done|apply (sh_workers _ Hsh)].
Qed.

Lemma peer_step_shape rn rn' : peer_step rn rn' -> Shape rn -> Shape rn'.
Proof.
  intros Hstep Hsh. destruct Hstep as [i th chunk Hth Hp Hu Hc|i th Hth Hw|h k Ha Hl Hf Hk|Ha].
  - eapply moved_shape; [done|exact Hth| |by apply take_chunk_moved].
    by destruct (take_chunk_serves (rn_server rn) th chunk) as (_ & _ & _ & ? & _).
  - eapply set_thread_shape; [done|exact Hth|done| |done].
    intros c conns a []. by split.
  - apply (accept_shape rn (rn_server rn)); try done; intros; by rewrite ?Ha.
  - apply accept_shape; try done; intros; rewrite ?Ha; by try apply stopped_spawns.
Qed.

Lemma begin_shutdown_shape rn : rn_closing rn = Serving -> Shape rn -> Shape (begin_shutdown rn).
Proof.
  intros Hc [Hf Hu Hw Hl Ha Hsp Ht]. rewrite Hc in *. split; cbn; try done; try lia; auto.
  intros i th Hi. eapply placed_closing; [|by apply Ht]. cbn. lia.
Qed.

Lemma run_step_shape rn rn' : run_step ios (Live rn) (Live rn') -> Shape rn -> Shape rn'.
Proof.
  intros Hstep. inversion Hstep as [p q Hs|rn0 Hc]; subst; [|by apply begin_shutdown_shape].
  inversion Hs; subst; [by apply own_step_shape|by apply peer_step_shape].
Qed.

Lemma running_shape s max_sessions listener (k : K) :
  sys_workers s <> [] -> sys_shutdown s = Up -> Shape (running s max_sessions listener k).
Proof. intros Hw Hs. split; cbn; try done; lia. Qed.
End Places.

(** ** Every step is progress *)

Definition point_rank (p : Point) : nat :=
  match p with
  | Gone => 0 | Closed => 1 | ShutDown => 2 | Released => 3 | Leaving => 4
  | AtLoop | Complete => 5 | Spawning | Receiving | Waiting _ _ => 6
  | Accepted _ => 12 | Dispatching _ => 13
  end.

Definition thread_rank (th : Thread) : nat :=
  point_rank (th_point th) + if cn_writable (th_conn th) then 1 else 0.

Definition accept_rank (a : AcceptPoint) : nat :=
  match a with AcceptDone => 0 | AcceptLoop | Took _ => 1 | InAccept | Spawns _ => 2 end.

(** An upper bound on the steps still to come once the flag is raised. *)
Definition remaining {K} (rn : Running K) : nat :=
  closing_rank (rn_closing rn) + accept_rank (rn_accept rn) + sum_list (map thread_rank (rn_threads rn)) +
  work (rn_system rn).

Definition queued (srv : Server Service) : nat := length (sv_queue (srv_service srv)).

Lemma submit_queue call sv : (length (sv_queue (submit call sv).2) <= S (length (sv_queue sv)))%nat.
Proof.
  unfold submit, enqueue. destruct (sv_stopping sv); [simpl; lia|]. destruct (_ <=? _); [simpl; lia|].
  cbn. rewrite length_app. simpl. lia.
Qed.

Lemma proceed_rank th cn :
  cn_writable cn = cn_writable (th_conn th) ->
  (thread_rank (proceed th cn) <= 5 + if cn_writable (th_conn th) then 1 else 0)%nat.
Proof. intros Hw. unfold thread_rank, proceed. cbn. rewrite Hw. destruct (cn_open cn); cbn; lia. Qed.

Lemma send_error_writable (srv : Server Service) cn session sequence code reason text :
  cn_writable (send_error srv cn session sequence code reason text) = cn_writable cn.
Proof. apply send_all_steady. Qed.

Lemma serve_step_rank srv th srv' th' :
  serve_step srv th = Some (srv', th') -> srv_stopping srv = true ->
  (thread_rank th' + 5 * queued srv' < thread_rank th + 5 * queued srv)%nat.
Proof.
  intros Hstep Hstop. unfold serve_step in Hstep. unfold thread_rank at 2.
  assert (Hpr : forall cn, cn_writable cn = cn_writable (th_conn th) ->
    (thread_rank (proceed th cn) <= 5 + if cn_writable (th_conn th) then 1 else 0)%nat)
    by apply proceed_rank.
  destruct (th_point th) as [| | | |f|f|[q|q p|q] id| | | | |] eqn:Hp; try done; cbn [point_rank].
  - rewrite Hstop in Hstep. injection Hstep as <- <-. unfold thread_rank. cbn. lia.
  - rewrite Hstop in Hstep. injection Hstep as <- <-. unfold thread_rank. cbn. lia.
  - destruct (negb _).
    + injection Hstep as <- <-. unfold queued. cbn [fst snd]. rewrite greeting_service.
      assert (Hw : cn_writable (serve_hello srv (th_conn th) f).2 = cn_writable (th_conn th)).
      { destruct (serve_hello srv (th_conn th) f) as [srv1 cn1] eqn:He. by apply serve_hello_steady in He as []. }
      specialize (Hpr _ Hw). lia.
    + destruct (session_accept _ _ _ _ _) as [[u|s] reg]; injection Hstep as <- <-;
        [unfold thread_rank; cbn; unfold queued; cbn; lia|].
      match goal with |- context [proceed th ?c] => specialize (Hpr c (send_error_writable _ _ _ _ _ _ _)) end.
      unfold queued in *. cbn [fst snd count set_registry srv_service] in *. lia.
  - destruct (dispatch srv (th_conn th) f) as [srv1 cn1|call] eqn:Hd.
    + injection Hstep as <- <-. pose proof (dispatch_service _ _ _ _ _ Hd) as (Hs & _).
      assert (Hw : cn_writable cn1 = cn_writable (th_conn th)).
      { pose proof (dispatch_serves io_ok srv (th_conn th) f) as Hreq. rewrite Hd in Hreq.
        by apply serve_request_steady in Hreq as []. }
      specialize (Hpr _ Hw). unfold queued. cbn [fst snd]. rewrite Hs. lia.
    + pose proof (submit_queue call (srv_service srv)) as Hq.
      destruct (submit call (srv_service srv)) as [[id|s] sv]; injection Hstep as <- <-; cbn [snd] in Hq.
      * unfold thread_rank, queued. cbn. lia.
      * assert (Hw : cn_writable (respond srv (th_conn th) FrameType.PLAN_RESPONSE encode_plan_response_payload (Err s)) =
          cn_writable (th_conn th)) by apply respond_steady.
        specialize (Hpr _ Hw). unfold queued. cbn [fst snd replace_service srv_service]. lia.
  - destruct (wait_plan _ _); [|done]. injection Hstep as <- <-. cbn [fst snd].
    match goal with |- context [proceed th ?c] => assert (Hw : cn_writable c = cn_writable (th_conn th)) by apply respond_steady end.
    specialize (Hpr _ Hw). lia.
  - destruct (wait_validate _ _); [|done]. injection Hstep as <- <-. cbn [fst snd].
    match goal with |- context [proceed th ?c] => assert (Hw : cn_writable c = cn_writable (th_conn th)) by apply respond_steady end.
    specialize (Hpr _ Hw). lia.
  - injection Hstep as <- <-. unfold thread_rank, queued, end_connection. cbn.
    destruct (cn_handshake _); cbn; lia.
Qed.

Lemma take_chunk_rank srv th chunk :
  th_point th = Receiving -> (thread_rank (take_chunk srv th chunk).2 < thread_rank th)%nat.
Proof.
  intros Hp. unfold take_chunk, thread_rank. rewrite Hp.
  destruct chunk; [|destruct (_ <? _)]; cbn; lia.
Qed.

Lemma shut_socket_rank th : (thread_rank (shut_socket th) <= thread_rank th)%nat.
Proof. unfold shut_socket, thread_rank. destruct (socket_valid _); cbn; lia. Qed.

Section Progress.
Context {K : Type} `{!Kernel K} `{!KernelLaws K} (ios : Io -> Prop).
Implicit Types (rn : Running K) (th : Thread).

Lemma set_thread_remaining rn srv i th th' :
  rn_threads rn !! i = Some th ->
  (thread_rank th' + 5 * queued srv < thread_rank th + 5 * queued (rn_server rn))%nat ->
  (remaining (set_thread rn srv i th') < remaining rn)%nat.
Proof.
  intros Hi Hr. unfold remaining, work, queued in *. cbn.
  pose proof (sum_list_insert thread_rank _ _ _ th' Hi) as Hsum. lia.
Qed.

Lemma socket_step_remaining rn i rn' : socket_step rn i = Some rn' -> (remaining rn' < remaining rn)%nat.
Proof.
  unfold socket_step. destruct (rn_threads rn !! i) as [th|] eqn:Hi; [|done]. cbn [mbind option_bind].
  destruct (th_point th) eqn:Hp; try done.
  - intros [= <-]. apply (set_thread_remaining (set_kernel rn _) _ i th); [done|].
    pose proof (shut_socket_rank th) as H. unfold thread_rank in *. rewrite Hp in *. cbn in *.
    unfold shut_socket in *. destruct (socket_valid _); cbn in *; lia.
  - destruct (socket_close _ _) as [s k]. intros [= <-].
    apply (set_thread_remaining (set_kernel rn _) _ i th); [done|]. unfold thread_rank. rewrite Hp. cbn. lia.
  - intros [= <-]. apply (set_thread_remaining (set_connections rn _) _ i th); [done|].
    unfold thread_rank. rewrite Hp. cbn. lia.
Qed.

Lemma accept_step_remaining rn rn' :
  accept_step rn = Some rn' -> srv_stopping (rn_server rn) = true -> (remaining rn' < remaining rn)%nat.
Proof.
  unfold accept_step. intros Hstep Hs. destruct (rn_accept rn) as [| |h|i|] eqn:Ha.
  - rewrite Hs in Hstep. injection Hstep as <-. unfold remaining, work. rewrite Ha. cbn. lia.
  - destruct (socket_valid _); [done|]. rewrite Hs in Hstep. injection Hstep as <-.
    unfold remaining, work. rewrite Ha. cbn. lia.
  - unfold accept in Hstep. rewrite Hs in Hstep. injection Hstep as <-. unfold remaining, work. rewrite Ha. cbn. lia.
  - destruct (rn_threads rn !! i) as [th|] eqn:Hi; [|done]. cbn [mbind option_bind] in Hstep.
    destruct (th_point th) eqn:Hp; try done. injection Hstep as <-.
    assert (H : (remaining (set_thread rn (rn_server rn) i (at_point th AtLoop)) < remaining rn)%nat).
    { eapply set_thread_remaining; [done|]. unfold thread_rank. rewrite Hp. cbn. lia. }
    unfold remaining, work in *. cbn in *. rewrite Ha in *. cbn in *. lia.
  - done.
Qed.

Lemma sum_imap_le (f : nat -> Thread -> Thread) ths :
  (forall i th, thread_rank (f i th) <= thread_rank th)%nat ->
  (sum_list (map thread_rank (imap f ths)) <= sum_list (map thread_rank ths))%nat.
Proof.
  revert f. induction ths as [|th ths IH]; intros f Hf; [done|]. cbn.
  pose proof (Hf 0%nat th). specialize (IH (f ∘ S) ltac:(intros; apply Hf)). lia.
Qed.

Lemma closing_step_remaining rn rn' : closing_step rn = Some rn' -> (remaining rn' < remaining rn)%nat.
Proof.
  unfold closing_step. destruct (rn_closing rn) eqn:Hc; try done.
  - intros [= <-]. unfold remaining, work. rewrite Hc. cbn. lia.
  - destruct (socket_close _ _). intros [= <-]. unfold remaining, work. rewrite Hc. cbn. lia.
  - intros [= <-]. unfold remaining, work. rewrite Hc. cbn.
    match goal with |- context [imap ?f _] => pose proof (sum_imap_le f (rn_threads rn)) as H end.
    assert (Hle : forall i th, (thread_rank (if bool_decide (i ∈ rn_connections rn) then shut_socket th else th)
                               <= thread_rank th)%nat).
    { intros i th. case_bool_decide; [apply shut_socket_rank|lia]. }
    specialize (H Hle). unfold work in *. cbn in *. lia.
  - destruct (rn_accept rn) eqn:Ha; try done. intros [= <-]. unfold remaining, work. rewrite Hc. cbn. lia.
  - destruct (forallb _ _); [|done]. intros [= <-]. unfold remaining, work. rewrite Hc. cbn. lia.
  - intros [= <-]. unfold remaining, work. rewrite Hc. cbn. lia.
Qed.

Lemma server_step_remaining rn rn' :
  server_step ios (Live rn) (Live rn') -> srv_stopping (rn_server rn) = true -> (remaining rn' < remaining rn)%nat.
Proof.
  intros Hstep Hs. inversion Hstep as [? ? Hown|? ? Hpeer]; subst.
  - inversion Hown as [i th srv th' Hth Hserve|i th Hth Hp Hshut|i rn1 H|rn1 H|rn1 H
      |io w worker r Hio Hw Hrun Heq|io next sv Hio Hcl Hrun]; subst.
    + eapply set_thread_remaining; [exact Hth|by apply serve_step_rank].
    + eapply set_thread_remaining; [exact Hth|].
      pose proof (take_chunk_rank (rn_server rn) th [] Hp) as H. cbn [take_chunk snd] in H. lia.
    + by eapply socket_step_remaining.
    + by eapply accept_step_remaining.
    + by eapply closing_step_remaining.
    + destruct r as [[worker' sv]|d]; [|done]. injection Heq as <-.
      assert (H : thread_step ios (Alive (rn_system rn))
        (Alive (mkSystem sv (<[w := worker']> (rn_workers rn)) (rn_shutdown rn))))
        by by eapply (step_worker _ (rn_system rn) io w worker (Returned (worker', sv))).
      apply thread_step_work in H. unfold remaining. cbn in *. lia.
    + assert (H : thread_step ios (Alive (rn_system rn)) (Alive (mkSystem sv (rn_workers rn) next)))
        by by eapply (step_shutdown _ (rn_system rn)).
      apply thread_step_work in H. unfold remaining. cbn in *. lia.
  - destruct Hpeer as [i th chunk Hth Hp Hu Hc|i th Hth Hw|h k Ha Hl Hf Hk|Ha].
    + eapply set_thread_remaining; [exact Hth|]. unfold queued. rewrite take_chunk_service.
      pose proof (take_chunk_rank (rn_server rn) th chunk Hp). lia.
    + eapply set_thread_remaining; [exact Hth|]. unfold thread_rank. cbn. rewrite Hw. lia.
    + unfold remaining. rewrite Ha. cbn. unfold work. cbn. lia.
    + unfold remaining. rewrite Ha, Hs. cbn. unfold work. cbn. lia.
Qed.
End Progress.

(** ** Nobody waits for ever *)

Section Waiting.
Context {K : Type} `{!Kernel K} `{!KernelLaws K} (ios : Io -> Prop).
Implicit Types (rn : Running K) (th : Thread).

(** A job that is nobody's answer yet keeps some worker busy. *)
Lemma outstanding_moves rn io j :
  SysInv (rn_system rn) -> rn_shutdown rn = Up -> rn_workers rn <> [] -> ios io ->
  j ∈ outstanding (rn_system rn) -> exists out, own_step ios rn out.
Proof.
  intros Hinv Hup Hws Hio Hj.
  assert (Hworker : exists w worker, rn_workers rn !! w = Some worker /\ worker <> Exited /\
    (sv_queue (srv_service (rn_server rn)) <> [] \/ sv_stopping (srv_service (rn_server rn)) = true \/ worker <> Idle)).
  { unfold outstanding in Hj. cbn [rn_system sys_service sys_workers sys_shutdown] in Hj.
    rewrite Hup in Hj. cbn [pending_jobs] in Hj. rewrite app_nil_r in Hj.
    apply elem_of_app in Hj as [Hj|Hj].
    - assert (Hq : sv_queue (srv_service (rn_server rn)) <> []) by (intros Hq; rewrite Hq in Hj; set_solver).
      destruct (rn_workers rn) as [|worker ws] eqn:Hw; [done|]. exists 0%nat, worker.
      split_and!; [done| |by left]. intros ->.
      pose proof (sys_workers_ok _ Hinv) as Hok. cbn [rn_system sys_workers sys_service] in Hok. rewrite Hw in Hok.
      apply Forall_cons in Hok as [Hstop _]. cbn [worker_ok] in Hstop.
      pose proof (sys_shutdown_ok _ Hinv) as Hsd. unfold shutdown_ok in Hsd.
      cbn [rn_system sys_service sys_shutdown] in Hsd. rewrite Hup in Hsd. congruence.
    - apply list_elem_of_In, in_concat in Hj as (l & Hl & Hjl). apply in_map_iff in Hl as (worker & <- & Hin).
      apply list_elem_of_In, list_elem_of_lookup_1 in Hin as [w Hw]. exists w, worker.
      split_and!; [done| |right; right]; by intros ->. }
  destruct Hworker as (w & worker & Hw & Hne & Hbusy).
  destruct (worker_runs (rn_system rn) io w worker Hinv Hw Hne Hbusy) as [r Hr].
  eexists. by eapply own_worker.
Qed.

(** A call that was accepted comes back, or some worker moves. *)
Lemma wait_moves rn io limits i th call id :
  RunOk limits rn -> Shape rn -> rn_shutdown rn = Up -> ios io ->
  rn_threads rn !! i = Some th -> th_point th = Waiting call id -> exists out, own_step ios rn out.
Proof.
  intros Hok Hsh Hup Hio Hi Hp. pose proof (ro_threads _ _ Hok) as Hall. rewrite Forall_lookup in Hall.
  pose proof (to_point _ _ _ (Hall _ _ Hi)) as Hpt. rewrite Hp in Hpt.
  destruct Hpt as (_ & Hsub & f & _ & Hask). pose proof (ro_system _ _ Hok) as Hinv.
  pose proof (sys_jobs _ Hinv) as Hj. cbn [rn_system sys_service] in Hj.
  assert (Hst : job_state (job_of call id) = Some id) by by destruct call.
  destruct (proj2 (jobs_slots _ _ _ _ Hj id)) as [js Hjs]; [by eauto|].
  destruct (js_done js) eqn:Hd.
  - assert (Hserve : exists srv th', serve_step (rn_server rn) th = Some (srv, th')).
    { unfold serve_step. rewrite Hp. destruct call as [q|q p|q]; [| |done];
        unfold wait_plan, wait_validate; rewrite Hjs; cbn [mbind option_bind]; rewrite Hd; cbn; by eauto. }
    destruct Hserve as (srv & th' & Hserve). eexists. by eapply own_serve.
  - apply (jobs_open _ _ _ _ Hj _ _ Hjs) in Hd as (j & Hin & _).
    apply (outstanding_moves rn io j); try done. apply (sh_workers _ Hsh).
Qed.

(** A thread that the main thread waits for moves, or a worker does for it. *)
Lemma thread_moves rn io limits i th :
  RunOk limits rn -> Shape rn -> rn_shutdown rn = Up -> ios io ->
  (closing_rank (rn_closing rn) <= 2)%nat -> rn_threads rn !! i = Some th -> th_point th <> Gone ->
  exists out, own_step ios rn out.
Proof.
  intros Hok Hsh Hup Hio Hc Hi Hne. destruct (sh_threads _ Hsh _ _ Hi) as [Hs Hl Hshut Hsp Hg].
  pose proof (sh_accept _ Hsh Hc) as Ha. rewrite Ha in Hsp.
  assert (Hserve : is_Some (serve_step (rn_server rn) th) -> exists out, own_step ios rn out).
  { intros [[srv th'] Hserve]. eexists. by eapply own_serve. }
  assert (Hsocket : is_Some (socket_step rn i) -> exists out, own_step ios rn out).
  { intros [rn' Hsocket]. eexists. by eapply own_socket. }
  destruct (th_point th) as [| | | |f|f|call id| | | | |] eqn:Hp; try done.
  1: by specialize (Hsp eq_refl).
  2: { eexists. eapply own_wake; [exact Hi|done|]. apply Hshut; [lia|done]. }
  5: by eapply (wait_moves rn io limits i th).
  6-8: apply Hsocket; unfold socket_step; rewrite Hi; cbn [mbind option_bind]; rewrite Hp; try by eexists.
  6: destruct (socket_close _ _); by eexists.
  all: apply Hserve; unfold serve_step; rewrite Hp.
  - destruct (srv_stopping _); [by eexists|]. destruct (inspect _ _); by eexists.
  - destruct (srv_stopping _); [by eexists|]. destruct (decode_frame _ _) as [[f n]|]; by eexists.
  - destruct (cn_handshake (th_conn th)); cbn [negb]; [|eexists; reflexivity].
    destruct (session_accept _ _ _ _ _) as [[u|s] reg]; eexists; reflexivity.
  - destruct (dispatch _ _ f) as [srv1 cn1|call]; [by eexists|].
    destruct (submit _ _) as [[id|s] sv]; by eexists.
  - by eexists.
Qed.

(** The process has come to the end of [main]. *)
Definition finished rn : Prop := rn_closing rn = Cleared /\ rn_shutdown rn = Down.

Lemma stop_progress rn io limits :
  RunOk limits rn -> Shape rn -> ios io -> rn_closing rn <> Serving ->
  finished rn \/ exists out, own_step ios rn out.
Proof.
  intros Hok Hsh Hio Hc.
  assert (Hclosing : is_Some (closing_step rn) -> exists out, own_step ios rn out).
  { intros [rn' H]. eexists. by eapply own_closing. }
  assert (Haccept : is_Some (accept_step rn) -> exists out, own_step ios rn out).
  { intros [rn' H]. eexists. by eapply own_accept. }
  pose proof (sh_up _ Hsh) as Hup. unfold finished.
  destruct (rn_closing rn) eqn:Hcl; try done; [right..|].
  - apply Hclosing. unfold closing_step. rewrite Hcl. by eexists.
  - apply Hclosing. unfold closing_step. rewrite Hcl. destruct (socket_close _ _). by eexists.
  - apply Hclosing. unfold closing_step. rewrite Hcl. by eexists.
  - pose proof (sh_listener _ Hsh) as Hl. rewrite Hcl in Hl. specialize (Hl ltac:(cbn; lia)).
    destruct (decide (rn_accept rn = AcceptDone)) as [Hd|Hd].
    { apply Hclosing. unfold closing_step. rewrite Hcl, Hd. by eexists. }
    apply Haccept. unfold accept_step. destruct (rn_accept rn) as [| |h|i|] eqn:Ha; [by eexists| | | |done].
    + rewrite Hl. by eexists.
    + destruct (accept _) as [[srv [cn|]] out]; by eexists.
    + destruct (sh_spawns _ Hsh i Ha) as (th & Hi & Hp). rewrite Hi.
      cbn [mbind option_bind]. rewrite Hp. by eexists.
  - destruct (forallb is_gone (rn_threads rn)) eqn:Hall.
    { apply Hclosing. unfold closing_step. rewrite Hcl, Hall. by eexists. }
    assert (Hex : exists i th, rn_threads rn !! i = Some th /\ th_point th <> Gone).
    { destruct (decide (Forall (fun th => is_gone th = true) (rn_threads rn))) as [Hf|Hf].
      - exfalso. apply not_true_iff_false in Hall. apply Hall, forallb_forall. intros th Hin.
        rewrite Forall_forall in Hf. by apply Hf, list_elem_of_In.
      - apply not_Forall_Exists, Exists_exists in Hf as (th & Hin & Hf); [|intros x; apply _].
        apply list_elem_of_lookup_1 in Hin as [i Hi]. exists i, th. split; [done|].
        intros Hp. apply Hf. unfold is_gone. by rewrite Hp. }
    destruct Hex as (i & th & Hi & Hne). eapply thread_moves; [done..| |done| |exact Hi|done]; [by auto|].
    rewrite Hcl. cbn. lia.
  - apply Hclosing. unfold closing_step. rewrite Hcl. by eexists.
  - assert (Hdec : rn_shutdown rn = Up \/ rn_shutdown rn <> Up) by (destruct (rn_shutdown rn); auto).
    destruct Hdec as [Hu|Hnu].
    + right. eexists. eapply own_shutdown; [exact Hio|done|]. by rewrite Hu.
    + destruct (shutdown_progress ios (rn_system rn) io (ro_system _ _ Hok) Hio Hnu) as [Hdown|[p Hp]];
        [by left|right].
      inversion Hp as [? io0 w worker r Hio0 Hw Hrun|? io0 next sv Hio0 Hrun]; subst.
      * eexists. by eapply own_worker.
      * eexists. by eapply own_shutdown.
Qed.
End Waiting.

(** ** Every handle is closed *)

Definition taken (a : AcceptPoint) : list Handle := match a with Took h => [h] | _ => [] end.
Definition thread_handle (th : Thread) : option Handle := sock_handle (th_socket th).

(** The handles the process has open. *)
Definition held {K} (rn : Running K) : list Handle :=
  omap sock_handle [rn_listener rn] ++ taken (rn_accept rn) ++ omap thread_handle (rn_threads rn).

Lemma omap_split {A B} (f : A -> option B) (l : list A) (i : nat) x :
  l !! i = Some x -> omap f l = omap f (take i l) ++ omap f [x] ++ omap f (drop (S i) l).
Proof.
  intros Hi. rewrite <- (take_drop_middle l i x Hi) at 1. rewrite omap_app. f_equal.
  cbn [omap list_omap]. by destruct (f x).
Qed.

Lemma omap_insert {A B} (f : A -> option B) (l : list A) (i : nat) x y :
  l !! i = Some x -> omap f (<[i := y]> l) = omap f (take i l) ++ omap f [y] ++ omap f (drop (S i) l).
Proof.
  intros Hi. assert (Hlt : (i < length l)%nat) by by eapply lookup_lt_Some.
  rewrite (omap_split f (<[i := y]> l) i y) by by apply list_lookup_insert_eq.
  by rewrite take_insert_ge, drop_insert_lt by lia.
Qed.

Lemma omap_insert_same {A B} (f : A -> option B) (l : list A) (i : nat) x y :
  l !! i = Some x -> f y = f x -> omap f (<[i := y]> l) = omap f l.
Proof.
  intros Hi Hf. rewrite (omap_insert f l i x y Hi), (omap_split f l i x Hi). cbn [omap list_omap]. by rewrite Hf.
Qed.

Section Handles.
Context {K : Type} `{!Kernel K} `{!KernelLaws K} (ios : Io -> Prop) (base : gset Handle).
Implicit Types (rn : Running K) (th : Thread).

(** They are open, once each, and next to them only what was open before. *)
Record Tidy rn : Prop := {
  ti_once : NoDup (held rn);
  ti_open : opened (rn_kernel rn) = base ∪ list_to_set (held rn);
  ti_base : forall h, h ∈ held rn -> h ∉ base
}.

Lemma tidy_same rn rn' :
  held rn' = held rn -> opened (rn_kernel rn') = opened (rn_kernel rn) -> Tidy rn -> Tidy rn'.
Proof. intros E1 E2 []. split; by rewrite ?E1, ?E2. Qed.

Lemma tidy_drop rn rn' h :
  held rn ≡ₚ h :: held rn' -> opened (rn_kernel rn') = opened (rn_kernel rn) ∖ {[h]} -> Tidy rn -> Tidy rn'.
Proof.
  intros E1 E2 [Hn Ho Hb]. rewrite E1 in Hn. apply NoDup_cons in Hn as [Hni Hn]. split; [done| |].
  - rewrite E2, Ho. rewrite E1. cbn [list_to_set].
    assert (Hnb : h ∉ base) by (apply Hb; rewrite E1; left). set_solver.
  - intros h' Hh'. apply Hb. rewrite E1. by right.
Qed.

Lemma tidy_add rn rn' h :
  held rn' ≡ₚ h :: held rn -> (h ∉ opened (rn_kernel rn)) ->
  opened (rn_kernel rn') = {[h]} ∪ opened (rn_kernel rn) -> Tidy rn -> Tidy rn'.
Proof.
  intros E1 Hnew E2 [Hn Ho Hb]. rewrite Ho in Hnew. split.
  - rewrite E1. apply NoDup_cons. split; [set_solver|done].
  - rewrite E2, Ho, E1. cbn [list_to_set]. set_solver.
  - intros h'. rewrite E1. intros [->|Hh']%elem_of_cons; [set_solver|by apply Hb].
Qed.

Lemma tidy_perm rn rn' :
  held rn' ≡ₚ held rn -> opened (rn_kernel rn') = opened (rn_kernel rn) -> Tidy rn -> Tidy rn'.
Proof.
  intros E1 E2 [Hn Ho Hb]. split; [by rewrite E1|by rewrite E2, Ho, E1|].
  intros h. rewrite E1. apply Hb.
Qed.

Lemma tidy_thread rn srv i th th' :
  rn_threads rn !! i = Some th -> th_socket th' = th_socket th -> Tidy rn -> Tidy (set_thread rn srv i th').
Proof.
  intros Hi Hs. apply tidy_same; [|done]. unfold held. cbn. rewrite (omap_insert_same _ _ _ th); [done|done|].
  unfold thread_handle. by rewrite Hs.
Qed.

Lemma socket_step_tidy rn i rn' : socket_step rn i = Some rn' -> Tidy rn -> Tidy rn'.
Proof.
  unfold socket_step. destruct (rn_threads rn !! i) as [th|] eqn:Hi; [|done]. cbn [mbind option_bind].
  destruct (th_point th) eqn:Hp; try done.
  - intros [= <-] Ht.
    apply (tidy_thread rn (rn_server rn) i th (at_point (shut_socket th) ShutDown)) in Ht;
      [|done|unfold shut_socket; by destruct (socket_valid _)].
    eapply tidy_same; [..|exact Ht]; [done|]. apply shutdown_both_opened.
  - pose proof (socket_close_opened (th_socket th) (rn_kernel rn)) as Hc.
    destruct (socket_close (th_socket th) (rn_kernel rn)) as [s k] eqn:Hclose. intros [= <-].
    cbn [snd] in Hc. unfold socket_close in Hclose. destruct (sock_handle (th_socket th)) as [h|] eqn:Hh.
    + injection Hclose as <- _. apply (tidy_drop _ _ h); [|exact Hc]. unfold held. cbn.
      rewrite (omap_insert _ _ _ th) by done. rewrite (omap_split _ _ _ th) by done.
      cbn [omap list_omap]. unfold thread_handle at 2 5. rewrite Hh. cbn.
      rewrite !app_assoc. rewrite Permutation_app_comm. cbn. f_equiv.
      by rewrite Permutation_app_comm, ?app_assoc.
    + injection Hclose as <- <-. apply (tidy_thread rn _ _ th); done.
  - intros [= <-] Ht. apply (tidy_thread rn (rn_server rn) i th (at_point th Gone)) in Ht; [|done..].
    by eapply tidy_same; [..|exact Ht].
Qed.

Lemma accept_step_tidy rn rn' : accept_step rn = Some rn' -> Tidy rn -> Tidy rn'.
Proof.
  unfold accept_step. destruct (rn_accept rn) as [| |h|i|] eqn:Ha; try done.
  - intros [= <-]. apply tidy_same; [|done]. unfold held. cbn. rewrite Ha. by destruct (srv_stopping _).
  - destruct (socket_valid _); [done|]. intros [= <-]. apply tidy_same; [|done].
    unfold held. cbn. rewrite Ha. by destruct (srv_stopping _).
  - destruct (accept (rn_server rn)) as [[srv [cn|]] out]; intros [= <-].
    + apply tidy_perm; [|done]. unfold held. cbn. rewrite Ha, omap_app. cbn.
      rewrite <- Permutation_cons_append. done.
    + apply (tidy_drop _ _ h); [|exact (socket_close_opened (socket_adopt h) (rn_kernel rn))].
      unfold held. cbn. rewrite Ha. destruct (srv_stopping _); cbn; by rewrite <- Permutation_middle.
  - destruct (rn_threads rn !! i) as [th|] eqn:Hi; [|done]. cbn [mbind option_bind].
    destruct (th_point th) eqn:Hp; try done. intros [= <-] Ht.
    apply (tidy_thread rn (rn_server rn) i th (at_point th AtLoop)) in Ht; [|done..].
    eapply tidy_same; [..|exact Ht]; [|done]. unfold held. cbn. by rewrite Ha.
Qed.

Lemma for_sockets_opened (f : Socket -> K -> K) rn :
  (forall i th k, i ∈ rn_connections rn -> rn_threads rn !! i = Some th -> opened (f (th_socket th) k) = opened k) ->
  opened (for_sockets f rn) = opened (rn_kernel rn).
Proof.
  unfold for_sockets. generalize (rn_kernel rn). induction (rn_connections rn) as [|i l IH]; intros k Hf; [done|].
  cbn [foldl]. rewrite IH by (intros; eapply Hf; [by right|done]).
  destruct (rn_threads rn !! i) as [th|] eqn:Hi; [|done]. eapply Hf; [by left|done].
Qed.

Lemma closing_step_tidy rn rn' : closing_step rn = Some rn' -> Shape rn -> Tidy rn -> Tidy rn'.
Proof.
  unfold closing_step. intros Hstep Hsh. destruct (rn_closing rn) eqn:Hc; try done.
  - injection Hstep as <-. apply tidy_same; [done|]. apply shutdown_both_opened.
  - pose proof (socket_close_opened (rn_listener rn) (rn_kernel rn)) as Ho.
    destruct (socket_close _ _) as [s k] eqn:Hclose. injection Hstep as <-. cbn [snd] in Ho.
    unfold socket_close in Hclose. destruct (sock_handle (rn_listener rn)) as [h|] eqn:Hh.
    + injection Hclose as <- _. apply (tidy_drop _ _ h); [|exact Ho]. unfold held. cbn. by rewrite Hh.
    + injection Hclose as <- <-. by apply tidy_same.
  - injection Hstep as <-. apply tidy_same.
    + unfold held. cbn. do 2 f_equal. generalize (rn_connections rn) as l. intros l.
      assert (H : forall ths n, omap thread_handle (imap (fun i th =>
          if bool_decide ((n + i)%nat ∈ l) then shut_socket th else th) ths) = omap thread_handle ths).
      { induction ths as [|th ths IH]; intros n; [done|]. cbn.
        assert (Hth : thread_handle (if bool_decide ((n + 0)%nat ∈ l) then shut_socket th else th) = thread_handle th).
        { case_bool_decide; [|done]. unfold shut_socket. by destruct (socket_valid _). }
        rewrite Hth. specialize (IH (S n)).
        assert (He : imap ((fun i th => if bool_decide ((n + i)%nat ∈ l) then shut_socket th else th) ∘ S) ths =
                     imap (fun i th => if bool_decide ((S n + i)%nat ∈ l) then shut_socket th else th) ths).
        { apply imap_ext. intros i x _. cbn. by rewrite Nat.add_succ_r. }
        cbn in IH, He. rewrite He. by rewrite IH. }
      apply (H _ 0%nat).
    + cbn. apply for_sockets_opened. intros. apply shutdown_both_opened.
  - destruct (rn_accept rn); try done. injection Hstep as <-. by apply tidy_same.
  - destruct (forallb _ _); [|done]. injection Hstep as <-. by apply tidy_same.
  - injection Hstep as <-. apply tidy_same; [done|]. cbn. apply for_sockets_opened.
    intros i th k _ Hi. destruct (sh_threads _ Hsh _ _ Hi) as [Hs _ _ _ Hg]. rewrite Hc in Hg.
    rewrite (Hg ltac:(cbn; lia)) in Hs. unfold socket_valid in Hs.
    rewrite socket_close_opened. destruct (sock_handle (th_socket th)); [done|]. set_solver.
Qed.

Lemma run_step_tidy rn rn' : run_step ios (Live rn) (Live rn') -> Shape rn -> Tidy rn -> Tidy rn'.
Proof.
  intros Hstep Hsh Ht. inversion Hstep as [p q Hs|rn0 Hc]; subst; [|by eapply tidy_same; [..|exact Ht]].
  inversion Hs as [? ? Hown|? ? Hpeer]; subst.
  - inversion Hown as [i th srv th' Hth Hserve|i th Hth Hp Hshut|i rn1 H|rn1 H|rn1 H
      |io w worker r Hio Hw Hrun Heq|io next sv Hio Hcl Hrun]; subst.
    + apply serve_step_moved in Hserve as (E & _). by eapply tidy_thread.
    + by eapply tidy_thread.
    + by eapply socket_step_tidy.
    + by eapply accept_step_tidy.
    + by eapply closing_step_tidy.
    + destruct r as [[worker' sv]|d]; [|done]. injection Heq as <-. by eapply tidy_same; [..|exact Ht].
    + by eapply tidy_same; [..|exact Ht].
  - destruct Hpeer as [i th chunk Hth Hp Hu Hc|i th Hth Hw|h k Ha Hl Hf Hk|Ha].
    + eapply tidy_thread; [done| |done]. by apply take_chunk_moved.
    + by eapply tidy_thread.
    + apply (tidy_add rn _ h); try done. unfold held. cbn. rewrite Ha. cbn. by rewrite <- Permutation_middle.
    + eapply tidy_same; [..|exact Ht]; [|done]. unfold held. cbn. rewrite Ha. by destruct (srv_stopping _).
Qed.

Lemma running_tidy s max_sessions listener h (k : K) :
  sock_handle listener = Some h -> (h ∉ base) -> opened k = {[h]} ∪ base ->
  Tidy (running s max_sessions listener k).
Proof.
  intros Hh Hn Ho. assert (Hheld : held (running s max_sessions listener k) = [h]).
  { unfold held. cbn. by rewrite Hh. }
  split; rewrite ?Hheld.
  - apply NoDup_singleton.
  - cbn [rn_kernel running]. rewrite Ho. set_solver.
  - by intros h' ->%list_elem_of_singleton.
Qed.

Lemma finished_tidy rn : finished rn -> Shape rn -> Tidy rn -> opened (rn_kernel rn) = base.
Proof.
  intros [Hc _] Hsh [_ Ho _]. assert (Hheld : held rn = []).
  { unfold held. pose proof (sh_listener _ Hsh) as Hl. pose proof (sh_accept _ Hsh) as Ha. rewrite Hc in *.
    rewrite (Ha ltac:(cbn; lia)). specialize (Hl ltac:(cbn; lia)). unfold socket_valid in Hl.
    cbn [omap list_omap taken]. destruct (sock_handle (rn_listener rn)); [done|]. cbn [app].
    assert (Hall : Forall (fun th => thread_handle th = None) (rn_threads rn)).
    { apply Forall_lookup. intros i th Hi. destruct (sh_threads _ Hsh _ _ Hi) as [Hs _ _ _ Hg].
      rewrite Hc in Hg. rewrite (Hg ltac:(cbn; lia)) in Hs. unfold socket_valid in Hs. unfold thread_handle.
      by destruct (sock_handle (th_socket th)). }
    induction Hall as [|th ths Hth _ IH]; [done|]. cbn [omap list_omap]. by rewrite Hth. }
  rewrite Ho, Hheld. cbn. set_solver.
Qed.
End Handles.
