(* ===== verification/ServerTool.v ===== *)
(** * The server program

    Models [src/tools/nrp_server.cpp]: the parsing of the command line, the start
    of the service and of the listening server, the ready line and the port file,
    and the end of the program when its standard input is closed. In between the
    program is the process of [Threads.v], all threads interleaved; the main thread
    waits for the end of the input, shuts the server and the service down and
    returns. A run that fails to start the server destroys the service, which shuts
    it down. *)
From S2P Require Import Prelude Ids Canonical Model Objective Domain DefinitionCheck Plan Fixture.
From S2P Require Import Codec Crc32 Journal Store StoreCorrect Planner Validate Protocol ProtocolCorrect.
From S2P Require Import Session Service ServiceCorrect Server ServerCorrect Client ClientCorrect.
From S2P Require Import Render Cli Transport Threads Stopping.

(** ** The command line *)

Definition server_usage : string :=
  lines (fun l => line [l])
    ["nrp-server [options]";
     "  --port N            listen port (0 selects an ephemeral port)";
     "  --bind ADDRESS      bind address (default 127.0.0.1)";
     "  --store PATH        durable store path (persistence is disabled without it)";
     "  --workers N         worker threads (default 4)";
     "  --port-file PATH    write the bound port, epoch and boot identity to PATH";
     "  --crash-point NAME  fault injection boundary (documented in the README)";
     "  --run-forever       do not exit when stdin closes";
     "  --max-sessions N    session table bound"].

Definition has_flag (args : list string) (flag : string) : bool := bool_decide (flag ∈ args).

Record ServerOptions := mkServerOptions {
  so_port : Z;
  so_bind : string;
  so_store : string;
  so_workers : Z;
  so_max_sessions : Z;
  so_port_file : string;
  so_crash_name : string;
  so_run_forever : bool
}.

(** The numbers are cut to the width of their fields. *)
Definition server_options (args : list string) : ServerOptions :=
  mkServerOptions (u16 (strtoull (argument args "--port" "0"))) (argument args "--bind" "127.0.0.1")
    (argument args "--store" "") (u32 (strtoull (argument args "--workers" "4")))
    (u32 (strtoull (argument args "--max-sessions" "64"))) (argument args "--port-file" "")
    (argument args "--crash-point" "") (has_flag args "--run-forever").

Definition default_queue_depth : Z := 256.
Definition default_backlog : Z := 32.

Definition service_config_of (o : ServerOptions) (crash : CrashPoint.t) : ServiceConfig :=
  mkConfig default_model_limits default_protocol_limits default_store_limits (so_workers o)
    default_queue_depth (so_max_sessions o) crash (negb (bool_decide (so_store o = ""))).

Definition server_config_of (o : ServerOptions) : ServerConfig :=
  mkServerConfig (so_bind o) (so_port o) (so_max_sessions o) default_backlog.

(** ** [main] *)

Definition ready_line (port : Z) (sv : Service) : string :=
  line ["NRP_SERVER_READY port="; number port; " epoch="; number (sv_epoch sv); " boot=";
        number (sv_boot sv)].

Definition port_file_text (port : Z) (sv : Service) : string :=
  line [number port; " "; number (sv_epoch sv); " "; number (sv_boot sv)].

(** What the destructor of a service that nobody used leaves on disk. *)
Definition destroyed (io : Io) (sv : Service) : Disk :=
  match sv_store sv with
  | Some st => (commit_snapshot io st (sv_disk sv)).2
  | None => sv_disk sv
  end.

(** A program that serves: its threads, what it printed, the file it wrote, and
    whether the end of its input ends it. *)
Record ServerRun (K : Type) := mkServing {
  sg_process : Running K;
  sg_stdout : string;
  sg_port_file : option (string * string);
  sg_run_forever : bool
}.
Arguments mkServing {K} _ _ _ _.
Arguments sg_process {K} s. Arguments sg_stdout {K} s. Arguments sg_port_file {K} s.
Arguments sg_run_forever {K} s.

Inductive Launched (K : Type) :=
| Ended (run : ToolRun)
| Serves (s : ServerRun K).
Arguments Ended {K} run.
Arguments Serves {K} s.

Section Tool.
Context {K : Type} `{!Kernel K}.

(** [main] up to the wait for the end of the input, without the name of the program;
    [io] and [io'] are the outcomes of the calls of the start and the destruction
    of the service. [None] only if opening the store ran out of fuel, which it
    never does. *)
Definition launch (io io' : Io) (args : list string) (d : Disk) (k : K) : option (Launched K * K) :=
  if has_flag args "--help" then Some (Ended (mkToolRun 0 server_usage "" d), k)
  else
    let o := server_options args in
    let failed pieces d := Ended (mkToolRun 1 "" (line pieces) d) in
    match parse_crash_point (so_crash_name o) with
    | Err s => Some (Ended (mkToolRun 1 "" (status_line s) d), k)
    | Ok crash =>
        '(service, d) ← start io (service_config_of o crash) (so_store o) d;
        Some match service with
        | Err s => (failed ["service start failed: "; c_str (status_to_string s)] d, k)
        | Ok s =>
            match server_listen (server_config_of o) k with
            | (Err e, k) =>
                (failed ["server start failed: "; c_str (status_to_string e)]
                   (destroyed io' (sys_service s)), k)
            | (Ok (listener, port), k) =>
                (Serves (mkServing (running s (so_max_sessions o) listener k)
                   (ready_line port (sys_service s))
                   (if bool_decide (so_port_file o = "") then None
                    else Some (so_port_file o, port_file_text port (sys_service s)))
                   (so_run_forever o)), k)
            end
        end
    end.

End Tool.

(** The rest of [main]: at the input or in one of the two shutdowns, as the process
    says; returned; or killed at a crash point. *)
Inductive Program (K : Type) :=
| InMain (rn : Running K)
| HasReturned (run : ToolRun) (rn : Running K)
| HasDied (d : Disk).
Arguments InMain {K} rn.
Arguments HasReturned {K} run rn.
Arguments HasDied {K} d.

Section Main.
Context {K : Type} `{!Kernel K} `{!KernelLaws K} (ios : Io -> Prop).

Definition survives (out : Outcome K) : Program K :=
  match out with Live rn => InMain rn | Killed d => HasDied d end.

(** What [main] returns and has printed. *)
Definition final_run (s : ServerRun K) (rn : Running K) : ToolRun :=
  mkToolRun 0 (sg_stdout s +:+ line ["NRP_SERVER_STOPPED"]) "" (sv_disk (srv_service (rn_server rn))).

Inductive program_step (s : ServerRun K) : Program K -> Program K -> Prop :=
| program_serves rn out : server_step ios (Live rn) out -> program_step s (InMain rn) (survives out)
| program_input_ends rn :
    sg_run_forever s = false -> rn_closing rn = Serving ->
    program_step s (InMain rn) (InMain (begin_shutdown rn))
| program_returns rn :
    rn_closing rn = Cleared -> rn_shutdown rn = Down ->
    program_step s (InMain rn) (HasReturned (final_run s rn) rn).
End Main.

(** ** What the program promises *)

Section Promise.
Context {K : Type} `{!Kernel K} `{!KernelLaws K}.

(** A launch that serves started the service and listens on one new handle; any
    other launch leaves no handle open. *)
Lemma launch_spec io io' args d k l k' :
  launch io io' args d k = Some (l, k') ->
  match l with
  | Serves s =>
      exists crash s0 d0 listener h port, let o := server_options args in
        start io (service_config_of o crash) (so_store o) d = Some (Ok s0, d0) /\
        sg_process s = running s0 (so_max_sessions o) listener k' /\
        sg_stdout s = ready_line port (sys_service s0) /\
        sock_handle listener = Some h /\ (h ∉ opened k) /\ opened k' = {[h]} ∪ opened k
  | Ended run => opened k' = opened k
  end.
Proof.
  unfold launch. destruct (has_flag args "--help"); [by intros [= <- <-]|]. cbv zeta.
  set (o := server_options args).
  destruct (parse_crash_point (so_crash_name o)) as [crash|e]; [|by intros [= <- <-]].
  destruct (start io _ (so_store o) d) as [[[s0|e] d0]|] eqn:Hstart; cbn [mbind option_bind];
    [|by intros [= <- <-]|done].
  destruct (server_listen (server_config_of o) k) as [r k1] eqn:Hl. apply server_listen_opened in Hl.
  destruct r as [[listener port]|e]; intros [= <- <-]; [|exact Hl].
  destruct Hl as (h & Hh & Hnew & Ho). by exists crash, s0, d0, listener, h, port.
Qed.

(** The program's workers. *)
Lemma program_workers args crash io d s0 d0 :
  let o := server_options args in
  start io (service_config_of o crash) (so_store o) d = Some (Ok s0, d0) ->
  sys_workers s0 <> [] /\ sys_shutdown s0 = Up.
Proof.
  intros o. unfold start. cbv zeta.
  set (threads := if cfg_worker_threads _ =? 0 then 1 else _).
  assert (Hpos : 0 < threads).
  { unfold threads. destruct (Z.eqb_spec (cfg_worker_threads (service_config_of o crash)) 0); [done|].
    pose proof (u32_range (strtoull (argument args "--workers" "4"))) as Hr.
    change (cfg_worker_threads (service_config_of o crash)) with (u32 (strtoull (argument args "--workers" "4"))) in *.
    unfold in_u32 in Hr. lia. }
  assert (Hw : replicate (Z.to_nat threads) Idle <> []) by (destruct (Z.to_nat threads) eqn:E; [lia|done]).
  destruct (_ && _).
  - destruct (open _ _ _ _) as [[[st|e] d1]|]; intros [=]; subst; by split.
  - intros [=]; subst; by split.
Qed.

(** What holds of the program along its run. *)
Record ProgramInv (base : gset Handle) (epoch : Epoch) (boot : BootId) (rn : Running K) : Prop := {
  pi_ok : RunOk default_protocol_limits rn;
  pi_shape : Shape rn;
  pi_tidy : Tidy base rn;
  pi_epoch : sv_epoch (srv_service (rn_server rn)) = epoch;
  pi_boot : sv_boot (srv_service (rn_server rn)) = boot
}.

Lemma program_step_inv ios base epoch boot s rn rn' :
  program_step ios s (InMain rn) (InMain rn') -> ProgramInv base epoch boot rn -> ProgramInv base epoch boot rn'.
Proof.
  intros Hstep [Hok Hsh Ht He Hb].
  assert (Hrun : run_step ios (Live rn) (Live rn')).
  { inversion Hstep as [? out Hs E1 E2|? Hf Hc|]; subst; [|by apply run_stops].
    destruct out as [rn1|d]; [|done]. injection E2 as <-. by apply run_server. }
  pose proof (run_step_ok ios _ _ _ Hrun Hok) as Hok'.
  destruct (ro_server _ _ Hok) as (E1 & E2 & _). destruct (ro_server _ _ Hok') as (E1' & E2' & _).
  destruct (run_step_identity ios _ _ Hrun) as [E3 E4].
  split; [done|by eapply run_step_shape|by eapply run_step_tidy|congruence|congruence].
Qed.

Lemma program_inv ios base epoch boot s rn p :
  ProgramInv base epoch boot rn -> rtc (program_step ios s) (InMain rn) p ->
  match p with
  | InMain rn => ProgramInv base epoch boot rn
  | HasReturned run rn => ProgramInv base epoch boot rn /\ finished rn /\ run = final_run s rn
  | HasDied _ => True
  end.
Proof.
  intros Hinv. revert p. apply rtc_ind_r; [done|]. intros p q _ Hstep IH.
  destruct q as [rn1|run rn1|d]; [| |done].
  - inversion Hstep; subst; by eapply program_step_inv.
  - inversion Hstep as [? out Hs Heq E| |rn2 Hc Hd E1 E2]; subst; [by destruct out|]. done.
Qed.
End Promise.

(** C22: the server program serves what it announced, and stops clean. A launch that
    ends by itself leaves no handle open. One that serves holds exactly one handle
    more than before, the listener. Take then any interleaving of its threads with
    any clients and any behaviour of the file system. In every state the service has
    the epoch and boot identity of the ready line. Once the end of the input has
    been seen, each further step of anybody - a thread, a client, the network -
    decreases [remaining], and as long as [main] has not returned, some thread of
    the program can make a step that needs no client, whatever the clients do (no
    connection keeps the program alive, no thread waits for ever). When [main] has returned, it
    is with status 0 and the closing line, every connection thread has ended, every
    handle opened since the launch is closed, and every call that was ever accepted
    has been answered, no callback twice. *)
Theorem server_program_stops_clean {K} `{!Kernel K} `{!KernelLaws K} (ios : Io -> Prop) io io' args d (k : K) l k' :
  launch io io' args d k = Some (l, k') ->
  match l with
  | Ended _ => opened k' = opened k
  | Serves s =>
      (exists h, sock_handle (rn_listener (sg_process s)) = Some h /\ (h ∉ opened k) /\
         opened k' = {[h]} ∪ opened k) /\
      exists port, forall p, rtc (program_step ios s) (InMain (sg_process s)) p ->
        match p with
        | InMain rn =>
            sg_stdout s = ready_line port (srv_service (rn_server rn)) /\
            (rn_closing rn <> Serving ->
             (forall rn', program_step ios s (InMain rn) (InMain rn') -> (remaining rn' < remaining rn)%nat) /\
             forall io2, ios io2 ->
               program_step ios s (InMain rn) (HasReturned (final_run s rn) rn) \/
               exists out, own_step ios rn out)
        | HasReturned run rn =>
            run_exit run = 0 /\ run_stdout run = sg_stdout s +:+ line ["NRP_SERVER_STOPPED"] /\
            Forall (fun th => th_point th = Gone) (rn_threads rn) /\
            opened (rn_kernel rn) = opened k /\
            NoDup (sv_calls (srv_service (rn_server rn))).*1 /\
            forall id call, sv_submitted (srv_service (rn_server rn)) !! id = Some (job_of call id) ->
              match call with
              | CallPlan _ => wait_plan id (srv_service (rn_server rn)) <> None
              | CallValidate _ _ => wait_validate id (srv_service (rn_server rn)) <> None
              | CallSubmitPlan _ => id ∈ (sv_calls (srv_service (rn_server rn))).*1
              end
        | HasDied _ => True
        end
  end.
Proof.
  intros Hrun. apply launch_spec in Hrun. destruct l as [run|s]; [exact Hrun|].
  destruct Hrun as (crash & s0 & d0 & listener & h & port & Hstart & Hproc & Hout & Hh & Hnew & Ho).
  destruct (program_workers _ _ _ _ _ _ Hstart) as [Hws Hup]. rewrite Hproc. split; [by exists h|].
  exists port. apply start_fresh in Hstart as (st & e & b & la & n & -> & _).
  assert (H0 : ProgramInv (opened k) e b
            (running (fresh_system (service_config_of (server_options args) crash) st d0 e b la n)
               (so_max_sessions (server_options args)) listener k')).
  { split; [apply running_ok; [apply fresh_system_inv|done]|by apply running_shape|by eapply running_tidy|done..]. }
  intros p Hrun. apply (program_inv ios _ _ _ s _ p H0) in Hrun. destruct p as [rn|run rn|d1]; [| |done].
  - destruct Hrun as [Hok Hsh Ht He Hb]. split; [by rewrite Hout; unfold ready_line; rewrite He, Hb|].
    intros Hc. split.
    + intros rn' Hstep. inversion Hstep as [? out Hs E1 E2|? Hf Hcl|]; subst; [|done].
      destruct out as [rn1|d1]; [|done]. injection E2 as <-. eapply server_step_remaining; [exact Hs|].
      by apply (sh_flag _ Hsh).
    + intros io2 Hio. destruct (stop_progress ios rn io2 _ Hok Hsh Hio Hc) as [[H1 H2]|Hown]; [left|by right].
      by apply program_returns.
  - destruct Hrun as ([Hok Hsh Ht _ _] & Hfin & ->). pose proof Hfin as [Hc Hd].
    split; [done|]. split; [done|]. split.
    { apply Forall_lookup. intros i th Hi. destruct (sh_threads _ Hsh _ _ Hi) as [_ _ _ _ Hg].
      apply Hg. rewrite Hc. cbn. lia. }
    split; [by apply finished_tidy|]. pose proof (ro_system _ _ Hok) as Hsys. split.
    + apply (jobs_called_once _ _ _ _ (sys_jobs _ Hsys)).
    + intros id call Hsub. by apply (down_wait (rn_system rn)).
Qed.

Lemma program_moves {K} `{!Kernel K} `{!KernelLaws K} (ios : Io -> Prop) (s : ServerRun K) rn rn' p :
  server_step ios (Live rn) (Live rn') ->
  rtc (program_step ios s) (InMain rn') p -> rtc (program_step ios s) (InMain rn) p.
Proof. intros Hs Hp. eapply rtc_l; [|exact Hp]. by apply (program_serves ios s rn (Live rn')). Qed.

(** The next state, by a lemma whose premise computes it. *)
Ltac next_state f lem :=
  match goal with
  | |- rtc _ (InMain ?rn) _ =>
      let r := eval vm_compute in (f rn) in
      match r with
      | Some ?rn' => apply (program_moves _ _ rn rn'); [apply lem; vm_compute; reflexivity|]
      end
  end.

(** One worker, no store: a client connects and stays silent, the program is told
    to stop. *)
Lemma server_program_stops_clean_witness :
  exists (s : ServerRun Wire) k' rn,
    launch io_ok io_ok ["--workers"; "1"] (mkDisk None None) (mkWire 0 ∅ ∅ ∅) = Some (Serves s, k') /\
    sg_stdout s = line ["NRP_SERVER_READY port=4000 epoch=1 boot=1"] /\
    rtc (program_step (eq io_ok) s) (InMain (sg_process s)) (HasReturned (final_run s rn) rn) /\
    length (rn_threads rn) = 1%nat /\ opened (rn_kernel rn) = ∅.
Proof.
  destruct (launch (K := Wire) io_ok io_ok ["--workers"; "1"] (mkDisk None None) (mkWire 0 ∅ ∅ ∅))
    as [[[run|s] k']|] eqn:Hrun; [discriminate Hrun| |discriminate Hrun].
  pose proof (server_program_stops_clean (eq io_ok) io_ok io_ok ["--workers"; "1"] (mkDisk None None)
                (mkWire 0 ∅ ∅ ∅) _ _ Hrun) as (_ & port & Hp).
  injection Hrun as <- <-. set (s := mkServing _ _ _ _) in *.
  assert (Hr : exists rn, rtc (program_step (eq io_ok) s) (InMain (sg_process s)) (HasReturned (final_run s rn) rn) /\
                 length (rn_threads rn) = 1%nat).
  { eexists. split.
    - next_state (@accept_step Wire _) (moves_accept (K := Wire)).
      eapply program_moves.
      { match goal with |- server_step _ (Live ?rn) _ =>
          apply (moves_connect rn 7 (mkWire 0 ({[7]} ∪ w_open (rn_kernel rn)) ∅ ∅)); reflexivity end. }
      do 2 next_state (@accept_step Wire _) (moves_accept (K := Wire)).
      next_state (fun rn : Running Wire => serve_at rn 0) (fun rn => moves_serve (K := Wire) rn 0).
      eapply rtc_l; [by apply program_input_ends|].
      do 3 next_state (@closing_step Wire _) (moves_closing (K := Wire)).
      next_state (@accept_step Wire _) (moves_accept (K := Wire)).
      next_state (@closing_step Wire _) (moves_closing (K := Wire)).
      next_state (fun rn : Running Wire => wake_at rn 0) (fun rn => moves_wake (K := Wire) rn 0).
      next_state (fun rn : Running Wire => serve_at rn 0) (fun rn => moves_serve (K := Wire) rn 0).
      do 3 next_state (fun rn : Running Wire => socket_step rn 0) (fun rn => moves_socket (K := Wire) rn 0).
      do 2 next_state (@closing_step Wire _) (moves_closing (K := Wire)).
      do 2 next_state (@shutdown_at Wire) (moves_shutdown (K := Wire)).
      next_state (fun rn : Running Wire => work_at rn 0) (fun rn => moves_work (K := Wire) rn 0).
      next_state (@shutdown_at Wire) (moves_shutdown (K := Wire)).
      apply rtc_once. by apply program_returns.
    - reflexivity. }
  destruct Hr as (rn & Hr & Hlen). specialize (Hp _ Hr). destruct Hp as (_ & _ & _ & Ho & _).
  exists s. eexists. exists rn. split; [reflexivity|]. split; [reflexivity|]. split; [exact Hr|].
  split; [exact Hlen|exact Ho].
Defined.

(** A port that does not fit is cut to 16 bits: 65536 asks for an ephemeral port. *)
Example large_port_wraps : so_port (server_options ["--port"; "65536"]) = 0.
Proof. reflexivity. Qed.
