(* ===== verification/Examples.v ===== *)
(** * The example programs

    Models the three programs of [src/examples]: [plan_recovery.cpp],
    [validate_and_persist.cpp] and the consumer of the installed package,
    [downstream/main.cpp]; and checks the model against what the README reports
    about running the program. *)
From S2P Require Import Prelude Ids Canonical Model Objective Domain DefinitionCheck Plan Journal.
From S2P Require Import Store Planner Validate Render Cli.

(** ** What the two planning examples share *)

(** A fact of the fabric, numbered by its observation. *)
Definition observed (generation source id : Z) (kind : EvidenceKind.t) (subject : Subject) (value : Z)
  : EvidenceFact :=
  mkFact id kind subject value generation AuthorityDomain.FABRIC_STATE source TrustLabel.SYNTHETIC 1.

Definition granted_everywhere (base : Z) (generation : Generation) : list AuthorityBinding :=
  map (fun domain => mkBinding domain (base + AuthorityDomain.to_u8 domain) generation generation
                       AuthorityLevel.AUTHORIZATION) bound_domains.

(** [request.policy.allow_irreversible_actions = true] *)
Definition irreversible_policy : PlanPolicy :=
  mkPolicy true (require_current_authority default_policy) (max_plan_steps default_policy)
    (max_nodes_expanded default_policy) (max_generated_states default_policy)
    (max_frontier_entries default_policy) (budget_scale default_policy).

Definition repair_preconditions : list Precondition :=
  [mkPrecondition PreconditionKind.LINK_NOT_OPERATIONAL (mkSubject SubjectKind.LINK 1) 0].

Definition repair_effects : list Effect :=
  [mkEffect EffectKind.SET_LINK_OPERATIONAL (mkSubject SubjectKind.LINK 1) 1;
   mkEffect EffectKind.SERVICE_REACHABLE_DELTA (mkSubject SubjectKind.SERVICE 1) 1].

Definition reach_goal : GoalSpec :=
  mkGoal GoalKind.SERVICE_REACHABLE_AT_LEAST (mkSubject SubjectKind.SERVICE 1) 1 1.

(** ** [plan_recovery.cpp] *)

Definition recovery_definition : FabricDefinition :=
  mkDefinition [mkNode 1 false; mkNode 2 false] [mkLink 1 1 2] [mkService 1 0 1 1 false] []
    [mkAction 1 "restore-link-1" ActionKind.RESTORE Reversibility.IRREVERSIBLE 0 1 0 12 4 1
       AuthorityDomain.RECOVERY_ADMISSION AuthorityLevel.AUTHORIZATION repair_preconditions
       repair_effects [] [] []]
    [reach_goal] [].

Definition recovery_facts : list EvidenceFact :=
  [observed 2 7 1 EvidenceKind.LINK_OPERATIONAL (mkSubject SubjectKind.LINK 1) 0;
   observed 2 7 2 EvidenceKind.NODE_OPERATIONAL (mkSubject SubjectKind.NODE 1) 1;
   observed 2 7 3 EvidenceKind.NODE_OPERATIONAL (mkSubject SubjectKind.NODE 2) 1;
   observed 2 7 4 EvidenceKind.SERVICE_REACHABLE_ENDPOINTS (mkSubject SubjectKind.SERVICE 1) 0].

Definition recovery_request : PlanRequest :=
  mkRequest 1 4 11 1 recovery_definition (mkEvidence 4 11 recovery_facts)
    (mkAuthority 4 11 (granted_everywhere 50 2)) irreversible_policy [].

(** What is printed for a result, and the exit status. *)
Definition recovery_report (r : PlanRequest) (res : PlanningResult) : string * Z :=
  let out := line ["decision: "; PlanDecision.to_string (pr_decision res)] in
  match pr_plan res, pr_certificate res with
  | Some p, _ =>
      let report := validate_plan r p in
      (out +:+ c_str (render_plan p) +:+
       line ["independent validation: "; if vr_valid report then "VALID" else "INVALID"] +:+
       (if vr_valid report then "" else c_str (render_report report)),
       if vr_valid report then 0 else 2)
  | None, certificate =>
      (out +:+ from_option (fun c => line ["proof: "; ProofKind.to_string (cert_kind c); " with ";
                                           number (sizez (cert_assumptions c)); " assumptions"]) ""
                 certificate,
       if bool_decide (pr_decision res = PlanDecision.PROVEN_INFEASIBLE) then 3 else 4)
  end.

Definition plan_recovery_main (d : Disk) : option ToolRun :=
  res ← plan default_model_limits recovery_request;
  let '(out, code) := recovery_report recovery_request res in
  Some (mkToolRun code out "" d).

(** ** [downstream/main.cpp] *)

Definition consumer_definition : FabricDefinition :=
  mkDefinition [mkNode 1 false] [mkLink 1 1 1] [mkService 1 0 1 1 false] []
    [mkAction 1 "restore" ActionKind.RESTORE Reversibility.IRREVERSIBLE 0 0 0 0 0 1
       AuthorityDomain.RECOVERY_ADMISSION AuthorityLevel.AUTHORIZATION repair_preconditions
       repair_effects [] [] []]
    [reach_goal] [].

Definition consumer_facts : list EvidenceFact :=
  [observed 5 4 1 EvidenceKind.LINK_OPERATIONAL (mkSubject SubjectKind.LINK 1) 0;
   observed 5 4 2 EvidenceKind.SERVICE_REACHABLE_ENDPOINTS (mkSubject SubjectKind.SERVICE 1) 0].

Definition consumer_request : PlanRequest :=
  mkRequest 11 9 3 1 consumer_definition (mkEvidence 9 3 consumer_facts)
    (mkAuthority 9 3 (granted_everywhere 20 5)) irreversible_policy [].

Definition consumer_main (d : Disk) : option ToolRun :=
  let r := consumer_request in
  let linked := line ["linked against Network Recovery Planner "; c_str version_string_with_build] in
  res ← plan default_model_limits r;
  Some match pr_decision res, pr_plan res with
  | PlanDecision.PLAN_FOUND, Some p =>
      let report := validate_plan r p in
      let out := linked +:+ line ["plan objective "; c_str (objective_to_string (plan_objective p));
        " steps="; number (sizez (plan_steps p)); " validated="; if vr_valid report then "yes" else "no"] in
      if vr_valid report then mkToolRun 0 out "" d
      else mkToolRun 1 out (c_str (render_report report)) d
  | decision, _ =>
      mkToolRun 1 linked (line ["consumer: expected a plan, decision="; PlanDecision.to_string decision]) d
  end.

(** ** [validate_and_persist.cpp] *)

(** An append whose outcome is not looked at. *)
Definition append_unchecked (io : Io) (type : RecordType.t) (payload : list Z) (sd : Store * Disk)
  : Store * Disk :=
  let '(_, st, d) := append io type payload true sd.1 sd.2 in (st, d).

(** The first block: three records and a snapshot. *)
Definition first_incarnation (io : Io) (st : Store) (d : Disk) : result Status unit * Store * Disk :=
  let sd := append_unchecked io RecordType.DEFINITION (w_str "synthetic-definition" ++ w_u32 1) (st, d) in
  let sd := append_unchecked io RecordType.POLICY (w_u32 1) sd in
  let sd := append_unchecked io RecordType.ATTEMPT (w_u64 1) sd in
  commit_snapshot io sd.1 sd.2.

Definition incarnation_report (st : Store) : string :=
  line ["first incarnation: epoch="; number (st_epoch st); " boot="; number (st_boot st); " records=";
        number (sizez (st_records st))].

(** The second block: what the reopened store reports. *)
Definition reopened_report (st : Store) : string :=
  line ["reopened: epoch="; number (st_epoch st); " boot="; number (st_boot st); " records=";
        number (sizez (st_records st)); " fenced_dynamic="; number (fenced_dynamic_records (recovery st));
        " torn_tail="; if torn_tail_recovered (recovery st) then "yes" else "no"] +:+
  line ["fences recorded: "; number (sizez (st_fences st))].

(** [std::filesystem::remove], which may fail without a consequence. *)
Definition remove_files (journal snapshot : bool) (d : Disk) : Disk :=
  mkDisk (if journal then None else journal_file d) (if snapshot then None else snapshot_file d).

(** [io] and [io'] are the outcomes of the calls of the two blocks, [ps] and [ps']
    what the file system says of the path then, [removed] the outcomes of the
    removals. *)
Definition persist_main (ps ps' : PathState) (io io' : Io) (removed : bool * bool) (args : list string) (d : Disk)
  : option ToolRun :=
  let path := match args with path :: _ => path | [] => "nrp_example_store.bin" end in
  let failed out pieces d := mkToolRun 1 out (line pieces) d in
  opened ← open_at ps io path default_options d;
  match opened with
  | (Err s, d) => Some (failed "" ["open failed: "; c_str (status_to_string s)] d)
  | (Ok st, d) =>
      match first_incarnation io st d with
      | (Err s, _, d) => Some (failed "" ["snapshot failed: "; c_str (status_to_string s)] d)
      | (Ok _, st, d) =>
          let out := incarnation_report st in
          reopened ← open_at ps' io' path default_options d;
          Some match reopened with
          | (Err s, d) => failed out ["reopen failed: "; c_str (status_to_string s)] d
          | (Ok st, d) =>
              mkToolRun 0 (out +:+ reopened_report st) "" (remove_files removed.1 removed.2 d)
          end
      end
  end.

(** ** What the programs print *)

(** The recovery example finds its plan and the plan validates. *)
Example plan_recovery_output d :
  plan_recovery_main d = Some (mkToolRun 0
    (line ["decision: PLAN_FOUND"] +:+
     line ["plan 6771670883677038783 request 1 epoch 4 boot 11 attempt 1"] +:+
     line ["  objective [0 0 0 1 1 0 12 4] digest 9236b01785a607bc5df9ceca756ce8bf"] +:+
     line ["  step 0 action 1 occurrence 1 ticks [0,4) requires RECOVERY_ADMISSION/AUTHORIZATION@2";
           " issued RECOMMENDATION IRREVERSIBLE"] +:+
     line ["independent validation: VALID"]) "" d).
Proof. vm_compute. reflexivity. Qed.

(** The consumer prints the two lines the README shows for it. *)
Example consumer_output d :
  consumer_main d = Some (mkToolRun 0
    (line ["linked against Network Recovery Planner 1.0.0 (domain format 1, persistence format 1, protocol 1)"] +:+
     line ["plan objective [0 0 0 0 1 0 0 0] steps=1 validated=yes"]) "" d).
Proof. vm_compute. reflexivity. Qed.

(** The attempt of the first incarnation is fenced by the second one: one fence
    and one boot record join the four records. *)
Example persist_output :
  let ps := mkPathState false true in
  persist_main ps ps io_ok io_ok (true, true) [] (mkDisk None None) = Some (mkToolRun 0
    (line ["first incarnation: epoch=1 boot=1 records=4"] +:+
     line ["reopened: epoch=2 boot=2 records=6 fenced_dynamic=1 torn_tail=no"] +:+
     line ["fences recorded: 1"]) "" (mkDisk None None)).
Proof. vm_compute. reflexivity. Qed.

(** Without a path to a file it fails before it touches anything. *)
Example persist_empty_path ps ps' io io' removed d :
  persist_main ps ps' io io' removed [""] d = Some (mkToolRun 1 ""
    (line ["open failed: INVALID_ARGUMENT: store path must be a non-empty path"]) d).
Proof. reflexivity. Qed.

(** ** The measurements of the README

    The corridor of [src/tests/test_scale.cpp]: every link is down, every link has
    its repair, and the service wants them all. *)
Definition corridor_repair (index : nat) : ActionSpec :=
  let n := Z.of_nat index in
  mkAction (n + 1) ("restore-" +:+ number n) ActionKind.RESTORE Reversibility.IRREVERSIBLE 0 1 1
    (10 + n) 2 1 AuthorityDomain.RECOVERY_ADMISSION AuthorityLevel.AUTHORIZATION
    [mkPrecondition PreconditionKind.LINK_NOT_OPERATIONAL (subject_of_link (n + 1)) 0]
    [mkEffect EffectKind.SET_LINK_OPERATIONAL (subject_of_link (n + 1)) 1;
     mkEffect EffectKind.SERVICE_REACHABLE_DELTA (subject_of_service 1) 1] [] [] [].

Definition corridor (links : nat) : PlanRequest :=
  let n := Z.of_nat links in
  let fabric kind subject value := (kind, subject, value, AuthorityDomain.FABRIC_STATE) in
  let facts := observe_all
    (map (fun i => fabric EvidenceKind.LINK_OPERATIONAL (subject_of_link (Z.of_nat i + 1)) 0) (seq 0 links) ++
     [fabric EvidenceKind.NODE_OPERATIONAL (subject_of_node 1) 1;
      fabric EvidenceKind.NODE_OPERATIONAL (subject_of_node 2) 1;
      fabric EvidenceKind.SERVICE_REACHABLE_ENDPOINTS (subject_of_service 1) 0]) in
  sc_request (scenario_canonicalise (mkScenario
    (mkRequest 1 1 7 1
       (mkDefinition [mkNode 1 false; mkNode 2 false]
          (map (fun i => mkLink (Z.of_nat i + 1) 1 2) (seq 0 links)) [mkService 1 0 n n false] []
          (map corridor_repair (seq 0 links))
          [mkGoal GoalKind.SERVICE_REACHABLE_AT_LEAST (subject_of_service 1) n 1] [])
       (mkEvidence 1 7 facts) (authority_for 1 7 3)
       (mkPolicy true true 12 500000 1000000 500000 1) []) "")).

(** Steps, nodes expanded, states generated, frontier high water, dominated revisits. *)
Definition measure (links : nat) : option (Z * Z * Z * Z * Z) :=
  res ← plan default_model_limits (corridor links);
  p ← pr_plan res;
  let s := pr_stats res in
  Some (sizez (plan_steps p), st_nodes_expanded s, st_nodes_generated s, st_frontier_high_water s,
        st_states_revisited s).

(** The first rows of the README's table, counter by counter. *)
Example corridor_measurements :
  map measure [4%nat; 6%nat] = [Some (4, 15, 32, 7, 17); Some (6, 63, 192, 24, 129)].
Proof. vm_compute. reflexivity. Qed.
